(* ===== verification/_CoqProject ===== *)
-Q . S2P
Prelude.v
Types.v
JustifiedSlots.v
StateTransition.v
Reference.v
Justifiability.v
Tallies.v
StateInvariant.v
BlockProcessing.v
Attestations.v
Transitions.v
Quorums.v
ForkChoice.v
Backend.v
InMemory.v
Keys.v
Signatures.v
PayloadBuffer.v
Store.v
Crypto.v
ForkChoiceTree.v
TreeTheorems.v
StoreSpec.v
StoreOps.v
StorePruning.v
Codec.v
RocksDB.v
StoreMaintenance.v
StoreTheorems.v
ChainInvariant.v
ChainStore.v
Bits.v
ChainRefine.v
ChainClock.v
ChainImport.v
ChainBlocks.v
BlockBuilding.v
ChainVotes.v
BuildSpec.v
ChainProduce.v
ChainTheorems.v
ChainServer.v
ServerSpec.v
ServerSteps.v
ServerMessages.v
ServerTheorems.v
Finality.v
Stalling.v
Wire.v
WireCodec.v
WireTheorems.v
P2P.v
P2PSpec.v
P2PTheorems.v
Swarm.v
SwarmTheorems.v
Network.v
Rpc.v
CheckpointSync.v
SyncSpec.v
SyncTheorems.v
Node.v
NodeTheorems.v
Fixtures.v
Metrics.v
MetricsTheorems.v
