(* ===== verification/Prelude.v ===== *)
(** * A verification of ethlambda, a consensus client of the Lean Ethereum chain

    The program (Rust, under src/) keeps a store of blocks and states, chooses the head of
    the chain by LMD GHOST, produces blocks and votes for its validators, exchanges them
    with peers, and answers requests for its state. This library is a shallow embedding of
    it: a [&self] method is a function to [partial] (it returns, panics, or runs out of
    fuel), a [&mut self] method is a program of the state-and-error monad [M], a hash map
    is a [gmap] whose iteration order is a parameter ([HashOrder]), a [u64] or [usize] is a
    natural number below 2^64 whose plain arithmetic wraps around (a release build).
    Definitions carry the names of the functions they translate.

    ** The parts of the program and the files that model them

    - crates/common/types: Types.v (containers, the genesis state), Signatures.v and Keys.v
      (validator keys, storage keys). crates/common/crypto: Crypto.v (aggregation).
    - crates/blockchain/state_transition: JustifiedSlots.v, StateTransition.v (slots,
      headers, votes, justification, finalization). Tallies.v, StateInvariant.v,
      BlockProcessing.v, Attestations.v and Transitions.v prove its invariant [state_wf],
      that it never panics, and that it refines the machine [attestation_step];
      Justifiability.v treats the 3SF-mini rule and proposer selection. Quorums.v says
      which votes stand behind justified and finalized checkpoints, which offences
      conflicting quorums imply, and which votes make progress.
    - crates/blockchain/fork_choice: ForkChoice.v. crates/blockchain/src/fork_choice_tree.rs:
      ForkChoiceTree.v, with its theorems in TreeTheorems.v.
    - crates/storage: Backend.v (the interface and its contract [StorageLaws]), InMemory.v
      and RocksDB.v (both backends meet it), PayloadBuffer.v, Store.v. StoreSpec.v gives the
      abstract store [View] (typed maps for byte tables) and the relation [represents];
      StoreOps.v, StorePruning.v and StoreMaintenance.v prove that every operation refines
      the obvious one on the view; StoreTheorems.v states what the store promises. Codec.v
      is an instance of the SSZ interface.
    - crates/blockchain/src/store.rs: ChainStore.v (head, safe target, clock, gossip, block
      import) and BlockBuilding.v (votes and block production). ChainInvariant.v states
      [chain_inv], the invariant of the view; Bits.v, ChainRefine.v, ChainClock.v,
      ChainImport.v, ChainBlocks.v, ChainVotes.v, BuildSpec.v and ChainProduce.v prove that
      the operations keep it and what they do; ChainTheorems.v has the theorems.
    - crates/blockchain/src/lib.rs and key_manager.rs: ChainServer.v, the actor that drives
      the chain store and queues blocks that wait for their parents. ServerSpec.v,
      ServerSteps.v, ServerMessages.v: its invariant [server_inv], and [grown], by which
      states and checkpoints change only through imports of valid blocks, and what a run must
      not exhaust ([retained]) or collide on ([own_seen]); ServerTheorems.v.
      Finality.v lifts Quorums.v to the checkpoints and signed votes of running nodes;
      Stalling.v follows a chain through the blocks that [build_block] returns.
    - crates/net/p2p: Wire.v (varints, payloads, requests and responses, gossip messages),
      WireCodec.v (instances), WireTheorems.v; P2P.v (the network actor), P2PSpec.v,
      P2PTheorems.v; Swarm.v (swarm set-up, node records, the adapter between actor and
      swarm), SwarmTheorems.v. Network.v composes the actors of several nodes.
    - crates/net/rpc: Rpc.v (routers and handlers). bin/ethlambda: CheckpointSync.v (the
      first state of a node), with theorems in SyncSpec.v and SyncTheorems.v; Node.v
      ([main], configuration files and keys), NodeTheorems.v.
    - crates/common/metrics and the metrics.rs of the blockchain, the transition function and
      the network: Metrics.v (registration, updates, the updates of the actors),
      MetricsTheorems.v. Metrics are a state of their own, beside that of the actors
      ([observed_p2p], [observed_process_block], [observed_tick]).
    - crates/common/test-fixtures: Fixtures.v (test vectors as consensus types).

    The actors meet in messages: ChainServer.v records what it sends to the network actor
    ([P2PMessage]) and P2P.v what it forwards to the blockchain actor ([Message]), in order.
    The chain store calls the transition function through [on_local] on a copy of the
    parent's state, the store through its operations, and the store calls the backend
    through the class [StorageBackend], whose batches belong to the database that made them
    ([batch_of]). The network actor sends commands to the adapter and gets its events back
    through two queues. [main] reads the files, opens the database, chooses the first state,
    and starts and connects the actors ([Node]).

    ** Interfaces of code that is not in the repository

    Type classes, with the documented behaviour the proofs rely on as laws: [SszTypes]
    (ssz_types), [Ssz]/[Codecs]/[WireCodecs] (derived codecs: they round trip), [TreeHash]/
    [Hashing] (a block hashes like its header), [SignatureScheme] and [MultisigScheme]
    (leanSig, lean_multisig), [HashOrder] (hash maps list their entries, in any order),
    [Snappy] (both formats round trip), [Libp2p] and [P2PLibraries] (identities, SHA-256),
    [RocksDBLib] (column families; iterators in key order from the prefix on), [SwarmLib]
    and [NodeRecordLib] (the swarm; RLP and node records), [UnboundedChannel] (tokio's
    channels: each message is received once, in the order of sending), [ConfigLib] (YAML, hexadecimal),
    [Prometheus] (the registry of metrics), [RpcSources] (its text, and the heap profiler),
    [HttpClient] (the answer of a peer), [Serialize] (serde_json). Collision resistance is
    the hypothesis [HeadersSeen seen]: among the headers that reach the node, those of the
    blocks it proposes along its run included ([own_seen]), roots are distinct and not zero,
    and [RankedHeaders]: no header is its own ancestor. The classes
    have instances, in Reference.v, InMemory.v, RocksDB.v, Codec.v, WireCodec.v and the
    modules of the witnesses, on which the witnesses evaluate the model: a chain of a
    genesis block and block 1 ([ChainTheorems.ChainSample]) runs through them.

    ** What the theorems show

    - The transition function: total on well-formed states, deterministic, keeps [state_wf];
      finality is never lost; exactly the fitting blocks are accepted.
    - Votes: behind every justified checkpoint of a chain stand votes of two thirds of the
      validators, for a node's checkpoints with signatures that verify; two checkpoints of
      one slot need a third of the validators to vote twice for it. A supermajority for a
      justifiable block justifies it, and finalizes its source when no slot between could be
      justified. Beyond that the rules promise less than Casper's: a single vote can finalize
      its source, two chains can finalize conflicting blocks without an offence (they
      disagree on the justifiable slots) and a node that sees both replaces the one by the
      other, and a chain whose latest justified checkpoint has gone back is not justified
      any more.
    - Fork choice: the walks end, the head is the greedy one, whatever the hash order.
    - The store: a refinement of its view; round trips; pruning deletes what it may. The two
      backends give the same answers after the same batches.
    - The chain store: a block is imported exactly when its parent is processed, its
      signatures verify and the transition accepts it, and otherwise nothing changes; the
      clock, the two targets, aggregation, gossip; votes the node produces are valid, and
      blocks it produces are accepted.
    - The blockchain actor: blocks that wait are imported when their parents arrive; runs of
      messages are safe; proposing and attesting.
    - The network: encodings round trip and are bounded; fetches end after ten requests; no
      message makes the actor panic; what is published is what peers receive. Across nodes,
      a proposed block is imported by the nodes that receive it, and a parent a node misses
      is fetched from a peer and imported, with the block that waited for it. The swarm
      dials every boot node and subscribes to the topics the actor publishes on; behind the
      adapter it serves one call for each command the actor sent, in that order, and the
      actor receives the events it yielded, in theirs. An error response without a message
      is the one response that cannot be read back ([empty_error_unreadable]).
    - The start of a node: from genesis, or from a peer's finalized state, which is accepted
      by the check exactly when it is valid; the node then has [chain_inv]. From the files
      on, [main] starts actors in the states the other theorems assume.
    - Observers: the fork-choice endpoint and the logged picture show the live chain and
      never panic. No metric is registered twice and no update panics, for slots that [i64]
      holds; the gauges of the actors show their states, the one of connected peers through
      every run.

    ** Bounds and fuel

    Loops that are not structural get fuel, and theorems say that it is enough: walks of
    the fork choice [walk_fuel], one more than the number of blocks (slots increase along
    parents); the reorg walk 128 steps (the limit in the code); [tick_fuel] 6 (five
    intervals at most are ticked); the collection of attestations and the selection of
    proofs, bounded by the payloads and the attesters; the queue of the blockchain actor,
    bounded by the stored headers; the picture 20 steps, its display depth; reading a
    response, the length of the stream. Theorems about handlers assume slots of attestations
    below 2^32 where the code converts them with an [expect]
    ([on_block_slot_overflow_panics] shows why), and runs assume that every block handled finds
    fewer than 3000 stored headers, as the first 2999 messages do, or headers that are not
    pruned: then the states of the head stay within the retention window. Three thousand
    pending blocks without a state push the state of the head out of it, and the ticks panic
    from then on ([pending_flood_panics]).

    ** What is not modelled

    The call sites of the counters and timers inside the chain store and the transition
    function, logging text other than the picture, the command-line grammar, the shutdown
    signal, the runners of the test vectors, and the serde adapters of the types: they call
    libraries and hold no logic of the chain. Threads: each actor handles one message at a
    time, so a message is one step; mutexes and atomics are plain state. Time, random numbers
    and the answers of the network are arguments.

    This file: machine integers, hashes, the monads of the model, hash-map iteration order,
    and the list lemmas that several components use. *)

From stdpp Require Export base numbers list gmap sorting strings.
From Stdlib Require Export Lia.
From Stdlib Require Import ZifyN ZifyNat ZifyBool Zify.

Ltac Zify.zify_post_hook ::= Z.to_euclidean_division_equations.

#[global] Open Scope N_scope.
#[export] Set Warnings "-clear-no-such-hyp".

(** * Unsigned 64-bit integers

    A [u64] (and a [usize], the program targets 64-bit platforms) is a natural
    number below 2^64. Arithmetic is done on [N]; [to_u64] is the wrap-around of a
    release build. *)

Definition u64_modulus : N := 2 ^ 64.

Record u64 := mk_u64 {
  u64_val :> N;
  u64_bound : (u64_val <? u64_modulus) = true;
}.

Lemma bool_dec_true_mod (n m : N) : m ≠ 0 → (n mod m <? m) = true.
Proof. intros Hm. apply N.ltb_lt, N.mod_lt, Hm. Qed.

(** Reduction modulo 2^64, with a proof that reduces to [eq_refl] on numerals. *)
Definition to_u64 (n : N) : u64 :=
  let m := n mod u64_modulus in
  match Bool.bool_dec (m <? u64_modulus) true with
  | left H => mk_u64 m H
  | right _ => mk_u64 0 eq_refl
  end.

#[global] Opaque to_u64.

Lemma to_u64_val n : u64_val (to_u64 n) = n mod 2 ^ 64.
Proof.
  Transparent to_u64. unfold to_u64. Opaque to_u64. destruct (Bool.bool_dec _ _) as [H|H]; [done|].
  destruct H. by apply bool_dec_true_mod.
Qed.

Lemma u64_lt (x : u64) : u64_val x < 2 ^ 64.
Proof. destruct x as [n H]. simpl. by apply N.ltb_lt in H. Qed.

Lemma u64_eq (x y : u64) : u64_val x = u64_val y → x = y.
Proof.
  destruct x as [x Hx], y as [y Hy]. simpl. intros ->. f_equal.
  apply Eqdep_dec.UIP_dec, Bool.bool_dec.
Qed.

Lemma to_u64_small n : n < 2 ^ 64 → u64_val (to_u64 n) = n.
Proof. intros. rewrite to_u64_val. by apply N.mod_small. Qed.

Lemma to_u64_of_val (x : u64) : to_u64 x = x.
Proof. apply u64_eq, to_u64_small, u64_lt. Qed.

#[global] Instance u64_eq_dec : EqDecision u64.
Proof.
  intros x y. destruct (decide (u64_val x = u64_val y)) as [H|H].
  - left. by apply u64_eq.
  - right. congruence.
Defined.

#[global] Program Instance u64_countable : Countable u64 :=
  inj_countable' u64_val to_u64 _.
Next Obligation. apply to_u64_of_val. Qed.

#[global] Instance u64_inhabited : Inhabited u64 := populate (to_u64 0).

(** [lia] sees a [u64] through its value and knows its range. *)
Definition u64_to_Z (x : u64) : Z := Z.of_N (u64_val x).

Lemma u64_to_Z_range x : (0 <= u64_to_Z x < 18446744073709551616)%Z.
Proof. unfold u64_to_Z. pose proof (u64_lt x). lia. Qed.

Lemma u64_val_to_Z (x : u64) : Z.of_N (u64_val x) = u64_to_Z x.
Proof. done. Qed.

Lemma to_u64_to_Z (n : N) : u64_to_Z (to_u64 n) = (Z.of_N n mod 18446744073709551616)%Z.
Proof. unfold u64_to_Z. rewrite to_u64_val, N2Z.inj_mod. done. Qed.

Lemma u64_eq_to_Z (x y : u64) : x = y ↔ u64_to_Z x = u64_to_Z y.
Proof.
  split; [by intros ->|]. unfold u64_to_Z. intros H. apply u64_eq. lia.
Qed.

#[global] Instance inj_u64 : ZifyClasses.InjTyp u64 Z :=
  { inj := u64_to_Z; pred := fun z => (0 <= z < 18446744073709551616)%Z; cstr := u64_to_Z_range }.
Add Zify InjTyp inj_u64.

#[global] Instance op_u64_val : ZifyClasses.UnOp u64_val :=
  { TUOp := fun x : Z => x; TUOpInj := u64_val_to_Z }.
Add Zify UnOp op_u64_val.

#[global] Instance op_to_u64 : ZifyClasses.UnOp to_u64 :=
  { TUOp := fun z : Z => Z.modulo z 18446744073709551616; TUOpInj := to_u64_to_Z }.
Add Zify UnOp op_to_u64.

#[global] Instance rel_u64_eq : ZifyClasses.BinRel (@eq u64) :=
  { TR := @eq Z; TRInj := u64_eq_to_Z }.
Add Zify BinRel rel_u64_eq.

(** The arithmetic methods of [u64]; a plain [a - b] wraps around in a release build. *)
Definition checked_sub (a b : u64) : option u64 :=
  if b <=? a then Some (to_u64 (a - b)) else None.
Definition checked_add (a b : u64) : option u64 :=
  if a + b <? u64_modulus then Some (to_u64 (a + b)) else None.
Definition checked_mul (a b : u64) : option u64 :=
  if a * b <? u64_modulus then Some (to_u64 (a * b)) else None.
Definition saturating_sub (a b : u64) : u64 := to_u64 (a - b).
Definition wrapping_add (a b : u64) : u64 := to_u64 (a + b).
Definition wrapping_sub (a b : u64) : u64 := to_u64 (a + u64_modulus - b).
Definition wrapping_mul (a b : u64) : u64 := to_u64 (a * b).
Definition div_ceil (a b : N) : N := (a + b - 1) / b.

Lemma wrapping_sub_le (a b : u64) : b <= u64_val a → u64_val (wrapping_sub a b) = a - b.
Proof. unfold wrapping_sub, u64_modulus. lia. Qed.

Lemma wrapping_add_lt (a b : u64) : a + b < u64_modulus → u64_val (wrapping_add a b) = a + b.
Proof. unfold wrapping_add, u64_modulus. lia. Qed.

Lemma saturating_sub_val (a b : u64) : u64_val (saturating_sub a b) = a - b.
Proof. unfold saturating_sub. lia. Qed.

(** * 256-bit hashes

    [H256] is a 32-byte string compared lexicographically, that is, a big-endian
    number below 2^256 compared numerically. *)

Definition h256_modulus : N := 2 ^ 256.

Record H256 := mk_h256 {
  h256_val : N;
  h256_bound : (h256_val <? h256_modulus) = true;
}.

Definition h256 (n : N) : H256 :=
  let m := n mod h256_modulus in
  match Bool.bool_dec (m <? h256_modulus) true with
  | left H => mk_h256 m H
  | right _ => mk_h256 0 eq_refl
  end.

#[global] Opaque h256.

Definition H256_ZERO : H256 := h256 0.

Lemma h256_eq (x y : H256) : h256_val x = h256_val y → x = y.
Proof.
  destruct x as [x Hx], y as [y Hy]. simpl. intros ->. f_equal.
  apply Eqdep_dec.UIP_dec, Bool.bool_dec.
Qed.

Lemma h256_small n : n < h256_modulus → h256_val (h256 n) = n.
Proof.
  Transparent h256. unfold h256. Opaque h256. intros Hn. destruct (Bool.bool_dec _ _) as [H|H]; simpl.
  - by apply N.mod_small.
  - destruct H. by apply bool_dec_true_mod.
Qed.

Lemma h256_lt (x : H256) : h256_val x < h256_modulus.
Proof. destruct x as [n H]. simpl. by apply N.ltb_lt in H. Qed.

Lemma h256_of_val (x : H256) : h256 (h256_val x) = x.
Proof.
  Transparent h256. apply h256_eq. unfold h256. Opaque h256. destruct (Bool.bool_dec _ _) as [H|H]; simpl.
  - apply N.mod_small, h256_lt.
  - destruct H. by apply bool_dec_true_mod.
Qed.

#[global] Instance h256_eq_dec : EqDecision H256.
Proof.
  intros x y. destruct (decide (h256_val x = h256_val y)) as [H|H].
  - left. by apply h256_eq.
  - right. congruence.
Defined.

#[global] Program Instance h256_countable : Countable H256 :=
  inj_countable' h256_val h256 _.
Next Obligation. apply h256_of_val. Qed.

#[global] Instance h256_inhabited : Inhabited H256 := populate H256_ZERO.

Definition is_zero (h : H256) : bool := bool_decide (h = H256_ZERO).

(** The derived [Ord] of a hash. *)
Definition h256_le (x y : H256) : Prop := h256_val x <= h256_val y.

#[global] Instance h256_le_dec : RelDecision h256_le.
Proof. intros x y. unfold h256_le. apply _. Defined.

#[global] Instance h256_le_total : Total h256_le.
Proof. intros x y. unfold h256_le. lia. Qed.

#[global] Instance h256_le_trans : Transitive h256_le.
Proof. intros x y z. unfold h256_le. lia. Qed.

#[global] Instance h256_le_antisymm : AntiSymm (=) h256_le.
Proof. intros x y ??. apply h256_eq. unfold h256_le in *. lia. Qed.

(** * Lists indexed by machine integers *)

Definition len {A} (l : list A) : N := N.of_nat (length l).

(** [slice.get(i)] *)
Definition get_at {A} (l : list A) (i : N) : option A :=
  if i <? len l then l !! N.to_nat i else None.

Lemma get_at_lookup {A} (l : list A) i : get_at l i = l !! N.to_nat i.
Proof.
  unfold get_at, len. destruct (N.ltb_spec i (N.of_nat (length l))); [done|].
  symmetry. apply lookup_ge_None. lia.
Qed.

Lemma get_at_Some {A} (l : list A) i x : get_at l i = Some x → i < len l.
Proof. unfold get_at. destruct (N.ltb_spec i (len l)); [done|discriminate]. Qed.

Lemma get_at_lt {A} (l : list A) i : i < len l → is_Some (get_at l i).
Proof. intros. rewrite get_at_lookup. apply lookup_lt_is_Some. unfold len in *. lia. Qed.

Lemma len_app {A} (l k : list A) : len (l ++ k) = len l + len k.
Proof. unfold len. rewrite length_app. lia. Qed.

Lemma len_cons {A} (x : A) (l : list A) : len (x :: l) = len l + 1.
Proof. unfold len. cbn [length]. lia. Qed.

Lemma len_nil {A} : len (@nil A) = 0.
Proof. done. Qed.

Lemma len_replicate {A} n (x : A) : len (replicate n x) = N.of_nat n.
Proof. unfold len. by rewrite length_replicate. Qed.

Create Rewrite HintDb len.
#[export] Hint Rewrite @len_app @len_cons @len_nil @len_replicate : len.

(** Counting with [filter]. *)
Section filter.
Context {A : Type} (P Q : A → Prop) `{!∀ x, Decision (P x), !∀ x, Decision (Q x)}.

Lemma len_filter_mono (l : list A) :
  (∀ x, x ∈ l → P x → Q x) → len (filter P l) <= len (filter Q l).
Proof.
  induction l as [|x l IH]; intros Hpq; [done|]. rewrite !filter_cons.
  assert (Hl : len (filter P l) <= len (filter Q l)) by (apply IH; set_solver).
  destruct (decide (P x)) as [Hp|], (decide (Q x)) as [|Hq]; rewrite ?len_cons; try lia.
  destruct Hq. apply Hpq; [set_solver|done].
Qed.

(** Two majorities of one list share an element. *)
Lemma filter_quorum (l : list A) :
  len l < len (filter P l) + len (filter Q l) → ∃ x, x ∈ l ∧ P x ∧ Q x.
Proof.
  induction l as [|x l IH]; [rewrite !filter_nil, !len_nil; lia|]. rewrite !filter_cons, len_cons.
  destruct (decide (P x)) as [Hp|], (decide (Q x)) as [Hq|]; rewrite ?len_cons; intros Hlt.
  1: { exists x. split; [set_solver|done]. }
  all: destruct IH as (y & Hy & Hyp & Hyq); [lia|exists y; split; [set_solver|done]].
Qed.
End filter.

(** The half-open range [a..b] of machine integers. *)
Definition u64_range (a b : N) : list u64 :=
  (λ i, to_u64 (a + N.of_nat i)) <$> seq 0 (N.to_nat (b - a)).

Lemma elem_of_u64_range (a b : N) x :
  b <= u64_modulus → x ∈ u64_range a b ↔ a <= u64_val x < b.
Proof.
  intros Hb. unfold u64_range. rewrite list_elem_of_fmap. split.
  - intros (n & -> & Hn%elem_of_seq). rewrite to_u64_small; unfold u64_modulus in *; lia.
  - intros Hx. exists (N.to_nat (u64_val x - a)). rewrite elem_of_seq. lia.
Qed.

(** * Partial reads and the state-and-error monad

    A [&self] method of the program is a function to [partial]: it returns, panics
    (an [expect], an [unwrap] or an index out of range), or runs out of the fuel
    given to one of its loops. A [&mut self] method is a state transformer with a
    second way to return, the [Err] of its [Result]. *)

Inductive partial (A : Type) : Type :=
| Return (a : A)
| Panic
| Diverge.
Arguments Return {A} a.
Arguments Panic {A}.
Arguments Diverge {A}.

#[global] Instance partial_ret : MRet partial := @Return.
#[global] Instance partial_bind : MBind partial := λ A B k m,
  match m with Return a => k a | Panic => Panic | Diverge => Diverge end.

Definition expect_some {A} (o : option A) : partial A :=
  match o with Some a => Return a | None => Panic end.

Definition assert_that (b : bool) : partial unit := if b then Return tt else Panic.

Fixpoint fold_partial {A B} (f : B → A → partial B) (b : B) (l : list A) : partial B :=
  match l with
  | [] => Return b
  | a :: l => b' ← f b a; fold_partial f b' l
  end.

Fixpoint map_partial {A B} (f : A → partial B) (l : list A) : partial (list B) :=
  match l with
  | [] => Return []
  | a :: l => b ← f a; bs ← map_partial f l; Return (b :: bs)
  end.

Lemma partial_bind_Return {A B} (m : partial A) (k : A → partial B) b :
  m ≫= k = Return b ↔ ∃ a, m = Return a ∧ k a = Return b.
Proof.
  unfold mbind, partial_bind. destruct m; split.
  all: try (intros (? & [=] & ?); congruence). all: eauto; discriminate.
Qed.

Lemma fold_partial_app {A B} (f : B → A → partial B) b l k :
  fold_partial f b (l ++ k) = (fold_partial f b l ≫= λ b', fold_partial f b' k).
Proof.
  revert b. induction l as [|a l IH]; intros b; [done|].
  unfold mbind, partial_bind in *. cbn. unfold mbind, partial_bind.
  destruct (f b a); [apply IH|done..].
Qed.

Lemma map_partial_forall {A A'} (f : A → partial A') (P : A → A' → Prop) (l : list A) :
  (∀ x, x ∈ l → ∃ y, f x = Return y ∧ P x y) → ∃ ys, map_partial f l = Return ys ∧ Forall2 P l ys.
Proof.
  induction l as [|x l IH]; intros Hf; [by exists []|]. cbn [map_partial].
  destruct (Hf x (list_elem_of_here _ _)) as (y & Hy & HP).
  destruct IH as (ys & Hys & HPs); [intros z Hz; apply Hf; by right|].
  exists (y :: ys). rewrite Hy. unfold mbind, partial_bind in *. rewrite Hys. by split; [|constructor].
Qed.

Inductive outcome (S E A : Type) : Type :=
| Done (s : S) (a : A)
| Fail (s : S) (e : E)
| Panicked
| Diverged.
Arguments Done {S E A} s a.
Arguments Fail {S E A} s e.
Arguments Panicked {S E A}.
Arguments Diverged {S E A}.

Definition M (S E A : Type) : Type := S → outcome S E A.

#[global] Instance M_ret {S E} : MRet (M S E) := λ A a s, Done s a.
#[global] Instance M_bind {S E} : MBind (M S E) := λ A B k m s,
  match m s with
  | Done s' a => k a s'
  | Fail s' e => Fail s' e
  | Panicked => Panicked
  | Diverged => Diverged
  end.

Section monad.
Context {S E : Type}.

Definition throw {A} (e : E) : M S E A := λ s, Fail s e.
Definition get : M S E S := λ s, Done s s.
Definition put (s' : S) : M S E unit := λ _, Done s' tt.
Definition modify (f : S → S) : M S E unit := λ s, Done (f s) tt.
Definition gets {A} (f : S → A) : M S E A := λ s, Done s (f s).

(** Call a [&self] method. *)
Definition reads {A} (f : S → partial A) : M S E A := λ s,
  match f s with Return a => Done s a | Panic => Panicked | Diverge => Diverged end.

Definition lift_partial {A} (p : partial A) : M S E A := reads (λ _, p).

(** [o.ok_or(e)?] *)
Definition ok_or {A} (o : option A) (e : E) : M S E A :=
  match o with Some a => mret a | None => throw e end.

(** [if b { return Err(e); }] *)
Definition fail_if (b : bool) (e : E) : M S E unit := if b then throw e else mret tt.

Fixpoint foldM {A B} (f : B → A → M S E B) (b : B) (l : list A) : M S E B :=
  match l with
  | [] => mret b
  | a :: l => b' ← f b a; foldM f b' l
  end.

(** [l.iter().map(f).collect::<Result<_, _>>()] *)
Fixpoint mapM {A B} (f : A → M S E B) (l : list A) : M S E (list B) :=
  match l with
  | [] => mret []
  | a :: l => b ← f a; bs ← mapM f l; mret (b :: bs)
  end.

(** [r.map_err(wrap)?] *)
Definition map_err {E' A} (wrap : E' → E) (r : E' + A) : M S E A :=
  match r with inl e => throw (wrap e) | inr a => mret a end.

End monad.

(** Run a [&mut] method on a local variable; [wrap] is the [From] of the [?]. *)
Definition on_local {S E S' E' A} (wrap : E' → E) (m : M S' E' A) (s' : S') : M S E (S' * A) :=
  λ s, match m s' with
       | Done s'' a => Done s (s'', a)
       | Fail _ e => Fail s (wrap e)
       | Panicked => Panicked
       | Diverged => Diverged
       end.

(** [let _ = m.inspect_err(..)]: the error is logged and dropped. *)
Definition swallow {S E E' A} (m : M S E A) : M S E' (option A) := λ s,
  match m s with
  | Done s' a => Done s' (Some a)
  | Fail s' _ => Done s' None
  | Panicked => Panicked
  | Diverged => Diverged
  end.

Section run.
Context {S E : Type}.
Implicit Types s : S.

Lemma run_ret {A} (a : A) s : (mret a : M S E A) s = Done s a.
Proof. done. Qed.
Lemma run_bind {A B} (m : M S E A) (k : A → M S E B) s :
  (m ≫= k) s = match m s with
               | Done s' a => k a s'
               | Fail s' e => Fail s' e
               | Panicked => Panicked
               | Diverged => Diverged
               end.
Proof. done. Qed.
Lemma run_throw {A} (e : E) s : (throw e : M S E A) s = Fail s e.
Proof. done. Qed.
Lemma run_get s : (get : M S E S) s = Done s s.
Proof. done. Qed.
Lemma run_put s s' : (put s' : M S E unit) s = Done s' tt.
Proof. done. Qed.
Lemma run_modify f s : (modify f : M S E unit) s = Done (f s) tt.
Proof. done. Qed.
Lemma run_gets {A} (f : S → A) s : (gets f : M S E A) s = Done s (f s).
Proof. done. Qed.
Lemma run_reads {A} (f : S → partial A) s :
  (reads f : M S E A) s =
    match f s with Return a => Done s a | Panic => Panicked | Diverge => Diverged end.
Proof. done. Qed.
Lemma run_lift_partial {A} (p : partial A) s :
  (lift_partial p : M S E A) s =
    match p with Return a => Done s a | Panic => Panicked | Diverge => Diverged end.
Proof. done. Qed.
Lemma run_ok_or {A} (o : option A) (e : E) s :
  ok_or o e s = match o with Some a => Done s a | None => Fail s e end.
Proof. by destruct o. Qed.
Lemma run_fail_if b (e : E) s :
  fail_if b e s = if b then Fail s e else Done s tt.
Proof. by destruct b. Qed.

Lemma bind_Done {A B} (m : M S E A) (k : A → M S E B) s s' b :
  (m ≫= k) s = Done s' b ↔ ∃ s1 a, m s = Done s1 a ∧ k a s1 = Done s' b.
Proof.
  rewrite run_bind. destruct (m s) as [s1 a| | |]; split.
  all: try (intros (? & ? & [=] & ?); congruence). all: eauto; discriminate.
Qed.

Lemma foldM_app {A B} (f : B → A → M S E B) b l k s :
  foldM f b (l ++ k) s = (b' ← foldM f b l; foldM f b' k) s.
Proof.
  revert b s. induction l as [|a l IH]; intros b s; cbn; [done|].
  rewrite !run_bind. destruct (f b a s); [|done..]. apply IH.
Qed.

(** Rule of invariants for a loop over a list. *)
Lemma foldM_invariant {A B} (I : B → S → Prop) (f : B → A → M S E B) l :
  (∀ b a s, a ∈ l → I b s → ∃ s' b', f b a s = Done s' b' ∧ I b' s') →
  ∀ b s, I b s → ∃ s' b', foldM f b l s = Done s' b' ∧ I b' s'.
Proof.
  induction l as [|a l IH]; intros Hf b s HI; cbn; [by eauto|].
  destruct (Hf b a s) as (s1 & b1 & Hrun & HI1); [set_solver|done|].
  rewrite run_bind, Hrun. apply IH; [|done]. intros. apply Hf; set_solver.
Qed.
End run.

Create Rewrite HintDb run.
#[export] Hint Rewrite @run_ret @run_bind @run_throw @run_get @run_put @run_modify
  @run_gets @run_reads @run_lift_partial @run_ok_or @run_fail_if : run.

(** Execute the monadic program in the goal (or in a hypothesis) one command at a
    time. *)
Ltac run := repeat progress (autorewrite with run; cbn beta iota delta [expect_some]).
Ltac run_in H :=
  repeat progress (autorewrite with run in H; cbn beta iota delta [expect_some] in H).

(** * Hash maps and hash sets

    A [HashMap] is a [gmap]; the order in which it is iterated is unspecified, so it
    is a parameter: any function that lists the entries of a map. *)

Class HashOrder := {
  hash_iter : ∀ {K : Type} `{Countable K} {V : Type}, gmap K V → list (K * V);
  hash_elems : ∀ {K : Type} `{Countable K}, gset K → list K;
}.

Class HashOrderLaws `{HashOrder} : Prop := {
  hash_iter_perm : ∀ (K : Type) (ED : EqDecision K) (C : Countable K) (V : Type) (m : gmap K V),
    hash_iter m ≡ₚ map_to_list m;
  hash_elems_perm : ∀ (K : Type) (ED : EqDecision K) (C : Countable K) (X : gset K),
    hash_elems X ≡ₚ elements X;
}.

(** One concrete order, for evaluation. *)
Definition canonical_order : HashOrder :=
  {| hash_iter := λ K ED C V m, map_to_list m; hash_elems := λ K ED C X, elements X |}.

Lemma canonical_order_laws : @HashOrderLaws canonical_order.
Proof. split; intros; reflexivity. Qed.

Section hash_order.
Context `{HashOrderLaws}.

Lemma elem_of_hash_iter `{Countable K} {V} (m : gmap K V) k v :
  (k, v) ∈ hash_iter m ↔ m !! k = Some v.
Proof. by rewrite hash_iter_perm, elem_of_map_to_list. Qed.

Lemma elem_of_hash_elems `{Countable K} (X : gset K) k : k ∈ hash_elems X ↔ k ∈ X.
Proof. by rewrite hash_elems_perm, elem_of_elements. Qed.

Lemma NoDup_hash_keys `{Countable K} {V} (m : gmap K V) : NoDup (hash_iter m).*1.
Proof. rewrite hash_iter_perm. apply NoDup_fst_map_to_list. Qed.

Lemma elem_of_hash_keys `{Countable K} {V} (m : gmap K V) k :
  k ∈ (hash_iter m).*1 ↔ is_Some (m !! k).
Proof.
  rewrite list_elem_of_fmap. split.
  - intros ([k' v] & -> & Hin%elem_of_hash_iter). by exists v.
  - intros [v Hv]. exists (k, v). by rewrite elem_of_hash_iter.
Qed.
End hash_order.

(** [map.retain(p)] *)
Definition retain `{Countable K} {V} (p : K → V → bool) (m : gmap K V) : gmap K V :=
  filter (λ kv, p kv.1 kv.2 = true) m.

Lemma lookup_retain `{Countable K} {V} (p : K → V → bool) (m : gmap K V) k v :
  retain p m !! k = Some v ↔ m !! k = Some v ∧ p k v = true.
Proof. unfold retain. by rewrite map_lookup_filter_Some. Qed.
