(* ===== verification/Types.v ===== *)
(** Consensus data types (crates/common/types): checkpoints, attestations, blocks,
    the consensus state and its genesis, with the interfaces of the libraries the
    types come from (ssz_types, SSZ codecs, Merkle tree hashing). *)

From Stdlib Require Import Strings.Byte.
From S2P Require Export Prelude.

(** * Bytes *)

Abbreviation byte := Byte.byte.
Abbreviation bytes := (list byte).

#[global] Instance byte_eq_dec : EqDecision byte := Byte.byte_eq_dec.

#[global] Program Instance byte_countable : Countable byte :=
  inj_countable Byte.to_N Byte.of_N _.
Next Obligation. apply Byte.of_to_N. Qed.

Definition byte_of_N (n : N) : byte := default x00 (Byte.of_N (n mod 256)).

Lemma byte_of_N_val n : Byte.to_N (byte_of_N n) = n mod 256.
Proof.
  unfold byte_of_N. destruct (Byte.of_N (n mod 256)) eqn:Hn; simpl.
  - by apply Byte.to_of_N_iff.
  - apply Byte.of_N_None_iff in Hn. assert (n mod 256 < 256) by (by apply N.mod_lt). lia.
Qed.

Lemma byte_val_lt (b : byte) : Byte.to_N b < 256.
Proof. pose proof (Byte.to_N_bounded b). lia. Qed.

Lemma byte_of_N_to_N b : byte_of_N (Byte.to_N b) = b.
Proof.
  unfold byte_of_N. rewrite N.mod_small by apply byte_val_lt. by rewrite Byte.of_to_N.
Qed.

Lemma byte_inj (a b : byte) : Byte.to_N a = Byte.to_N b → a = b.
Proof. intros Hab. rewrite <- (byte_of_N_to_N a), <- (byte_of_N_to_N b). by rewrite Hab. Qed.

(** * Interfaces of third-party libraries *)

(** ssz_types: bit lists (as lists of booleans) and bounded lists. The first
    argument of a constructor is the type-level limit. *)
Class SszTypes := {
  bitlist_with_capacity : N → N → option (list bool);
  bitlist_get : list bool → N → option bool;
  bitlist_set : list bool → N → bool → option (list bool);
  bitlist_union : list bool → list bool → list bool;
  variable_list_new : ∀ {A : Type}, N → list A → option (list A);
  fixed_vector_new : ∀ {A : Type}, N → list A → option (list A);
}.

(** The documented behaviour of ssz_types that the program relies on. *)
Class SszTypesLaws `{SszTypes} : Prop := {
  bitlist_with_capacity_spec limit n :
    bitlist_with_capacity limit n =
      if n <=? limit then Some (replicate (N.to_nat n) false) else None;
  bitlist_get_spec l i : bitlist_get l i = get_at l i;
  bitlist_set_spec l i b :
    bitlist_set l i b = if i <? len l then Some (<[N.to_nat i := b]> l) else None;
  bitlist_union_length l k :
    length (bitlist_union l k) = Nat.max (length l) (length k);
  bitlist_union_get l k i :
    i < N.max (len l) (len k) →
    get_at (bitlist_union l k) i =
      Some (default false (get_at l i) || default false (get_at k i));
  variable_list_new_spec A limit (l : list A) :
    variable_list_new limit l = if len l <=? limit then Some l else None;
  fixed_vector_new_spec A size (l : list A) :
    fixed_vector_new size l = if len l =? size then Some l else None;
}.

(** SSZ serialisation of one type. *)
Class Ssz (A : Type) := {
  as_ssz_bytes : A → bytes;
  from_ssz_bytes : bytes → option A;
}.

Class SszLaws (A : Type) `{Ssz A} : Prop :=
  ssz_roundtrip (x : A) : from_ssz_bytes (as_ssz_bytes x) = Some x.

#[global] Instance ssz_inj `{SszLaws A} : Inj (=) (=) (as_ssz_bytes (A := A)).
Proof.
  intros x y Hxy. pose proof (ssz_roundtrip x) as Hx. rewrite Hxy, ssz_roundtrip in Hx.
  congruence.
Qed.

(** Merkle tree hashing of one type. *)
Class TreeHash (A : Type) := tree_hash_root : A → H256.

(** * checkpoint.rs *)

Record Checkpoint := mk_checkpoint { cp_root : H256; cp_slot : u64 }.

Definition Checkpoint_default : Checkpoint := mk_checkpoint H256_ZERO (to_u64 0).

#[global] Instance Checkpoint_eq_dec : EqDecision Checkpoint.
Proof. solve_decision. Defined.

(** * attestation.rs *)

Record AttestationData := mk_attestation_data {
  ad_slot : u64;
  ad_head : Checkpoint;
  ad_target : Checkpoint;
  ad_source : Checkpoint;
}.

#[global] Instance AttestationData_eq_dec : EqDecision AttestationData.
Proof. solve_decision. Defined.

Record Attestation := mk_attestation {
  att_validator_id : u64;
  att_data : AttestationData;
}.

#[global] Instance Attestation_eq_dec : EqDecision Attestation.
Proof. solve_decision. Defined.

Abbreviation XmssSignature := bytes.

Record SignedAttestation := mk_signed_attestation {
  sa_validator_id : u64;
  sa_data : AttestationData;
  sa_signature : XmssSignature;
}.

Abbreviation AggregationBits := (list bool).

Record AggregatedAttestation := mk_aggregated_attestation {
  aa_aggregation_bits : AggregationBits;
  aa_data : AttestationData;
}.

#[global] Instance AggregatedAttestation_eq_dec : EqDecision AggregatedAttestation.
Proof. solve_decision. Defined.

(** [validator_indices(bits)]: the positions of the set bits. *)
Definition validator_indices (bits : AggregationBits) : list u64 :=
  omap (λ '(i, bit), if bit : bool then Some (to_u64 (N.of_nat i)) else None)
       (imap pair bits).

(** * block.rs *)

Record AggregatedSignatureProof := mk_proof {
  pf_participants : AggregationBits;
  pf_proof_data : bytes;
}.

Definition AggregatedSignatureProof_new (participants : AggregationBits) (proof_data : bytes) :
    AggregatedSignatureProof :=
  mk_proof participants proof_data.

Definition AggregatedSignatureProof_empty (participants : AggregationBits) :
    AggregatedSignatureProof :=
  mk_proof participants [].

Definition participant_indices (p : AggregatedSignatureProof) : list u64 :=
  validator_indices (pf_participants p).

#[global] Instance AggregatedSignatureProof_eq_dec : EqDecision AggregatedSignatureProof.
Proof. solve_decision. Defined.

Record SignedAggregatedAttestation := mk_signed_aggregated {
  sga_data : AttestationData;
  sga_proof : AggregatedSignatureProof;
}.

Record BlockHeader := mk_block_header {
  bh_slot : u64;
  bh_proposer_index : u64;
  bh_parent_root : H256;
  bh_state_root : H256;
  bh_body_root : H256;
}.

#[global] Instance BlockHeader_eq_dec : EqDecision BlockHeader.
Proof. solve_decision. Defined.

Record BlockBody := mk_block_body { bb_attestations : list AggregatedAttestation }.

Definition BlockBody_default : BlockBody := mk_block_body [].

#[global] Instance BlockBody_eq_dec : EqDecision BlockBody.
Proof. solve_decision. Defined.

Record Block := mk_block {
  b_slot : u64;
  b_proposer_index : u64;
  b_parent_root : H256;
  b_state_root : H256;
  b_body : BlockBody;
}.

#[global] Instance Block_eq_dec : EqDecision Block.
Proof. solve_decision. Defined.

(** [Block::header] *)
Definition block_header `{TreeHash BlockBody} (b : Block) : BlockHeader := {|
  bh_slot := b_slot b;
  bh_proposer_index := b_proposer_index b;
  bh_parent_root := b_parent_root b;
  bh_state_root := b_state_root b;
  bh_body_root := tree_hash_root (b_body b);
|}.

(** [Block::from_header_and_body] of a release build: the body root is not checked. *)
Definition from_header_and_body (header : BlockHeader) (body : BlockBody) : Block := {|
  b_slot := bh_slot header;
  b_proposer_index := bh_proposer_index header;
  b_parent_root := bh_parent_root header;
  b_state_root := bh_state_root header;
  b_body := body;
|}.

Record BlockWithAttestation := mk_block_with_attestation {
  bwa_block : Block;
  bwa_proposer_attestation : Attestation;
}.

Record BlockSignatures := mk_block_signatures {
  bs_attestation_signatures : list AggregatedSignatureProof;
  bs_proposer_signature : XmssSignature;
}.

Record SignedBlockWithAttestation := mk_signed_block {
  sb_message : BlockWithAttestation;
  sb_signature : BlockSignatures;
}.

#[global] Instance BlockWithAttestation_eq_dec : EqDecision BlockWithAttestation.
Proof. solve_decision. Defined.
#[global] Instance BlockSignatures_eq_dec : EqDecision BlockSignatures.
Proof. solve_decision. Defined.
#[global] Instance SignedBlockWithAttestation_eq_dec : EqDecision SignedBlockWithAttestation.
Proof. solve_decision. Defined.

Record BlockSignaturesWithAttestation := mk_block_signatures_with_attestation {
  bsa_proposer_attestation : Attestation;
  bsa_signatures : BlockSignatures;
}.

Definition from_signed_block (sb : SignedBlockWithAttestation) : BlockSignaturesWithAttestation := {|
  bsa_proposer_attestation := bwa_proposer_attestation (sb_message sb);
  bsa_signatures := sb_signature sb;
|}.

Definition to_signed_block (s : BlockSignaturesWithAttestation) (block : Block) :
    SignedBlockWithAttestation := {|
  sb_message := {|
    bwa_block := block;
    bwa_proposer_attestation := bsa_proposer_attestation s;
  |};
  sb_signature := bsa_signatures s;
|}.

(** * state.rs *)

Definition VALIDATOR_REGISTRY_LIMIT : N := 4096.
Definition HISTORICAL_ROOTS_LIMIT : N := 262144.
Definition JUSTIFICATION_VALIDATORS_LIMIT : N :=
  HISTORICAL_ROOTS_LIMIT * VALIDATOR_REGISTRY_LIMIT.

Abbreviation JustifiedSlots := (list bool).
Abbreviation JustificationValidators := (list bool).
Abbreviation ValidatorPubkeyBytes := bytes.

Record Validator := mk_validator {
  v_pubkey : ValidatorPubkeyBytes;
  v_index : u64;
}.

#[global] Instance Validator_eq_dec : EqDecision Validator.
Proof. solve_decision. Defined.

Record ChainConfig := mk_chain_config { cc_genesis_time : u64 }.

#[global] Instance ChainConfig_eq_dec : EqDecision ChainConfig.
Proof. solve_decision. Defined.

Record State := mk_state {
  st_config : ChainConfig;
  st_slot : u64;
  st_latest_block_header : BlockHeader;
  st_latest_justified : Checkpoint;
  st_latest_finalized : Checkpoint;
  st_historical_block_hashes : list H256;
  st_justified_slots : JustifiedSlots;
  st_validators : list Validator;
  st_justifications_roots : list H256;
  st_justifications_validators : JustificationValidators;
}.

#[global] Instance State_eq_dec : EqDecision State.
Proof. solve_decision. Defined.

(** Assignments to one field of the state. *)
Definition set_slot (x : u64) (s : State) : State :=
  mk_state (st_config s) x (st_latest_block_header s) (st_latest_justified s)
    (st_latest_finalized s) (st_historical_block_hashes s) (st_justified_slots s)
    (st_validators s) (st_justifications_roots s) (st_justifications_validators s).
Definition set_latest_block_header (x : BlockHeader) (s : State) : State :=
  mk_state (st_config s) (st_slot s) x (st_latest_justified s)
    (st_latest_finalized s) (st_historical_block_hashes s) (st_justified_slots s)
    (st_validators s) (st_justifications_roots s) (st_justifications_validators s).
Definition set_latest_justified (x : Checkpoint) (s : State) : State :=
  mk_state (st_config s) (st_slot s) (st_latest_block_header s) x
    (st_latest_finalized s) (st_historical_block_hashes s) (st_justified_slots s)
    (st_validators s) (st_justifications_roots s) (st_justifications_validators s).
Definition set_latest_finalized (x : Checkpoint) (s : State) : State :=
  mk_state (st_config s) (st_slot s) (st_latest_block_header s) (st_latest_justified s)
    x (st_historical_block_hashes s) (st_justified_slots s)
    (st_validators s) (st_justifications_roots s) (st_justifications_validators s).
Definition set_historical_block_hashes (x : list H256) (s : State) : State :=
  mk_state (st_config s) (st_slot s) (st_latest_block_header s) (st_latest_justified s)
    (st_latest_finalized s) x (st_justified_slots s)
    (st_validators s) (st_justifications_roots s) (st_justifications_validators s).
Definition set_justified_slots (x : JustifiedSlots) (s : State) : State :=
  mk_state (st_config s) (st_slot s) (st_latest_block_header s) (st_latest_justified s)
    (st_latest_finalized s) (st_historical_block_hashes s) x
    (st_validators s) (st_justifications_roots s) (st_justifications_validators s).
Definition set_justifications (roots : list H256) (votes : JustificationValidators) (s : State) :
    State :=
  mk_state (st_config s) (st_slot s) (st_latest_block_header s) (st_latest_justified s)
    (st_latest_finalized s) (st_historical_block_hashes s) (st_justified_slots s)
    (st_validators s) roots votes.

Definition set_state_root (x : H256) (h : BlockHeader) : BlockHeader :=
  mk_block_header (bh_slot h) (bh_proposer_index h) (bh_parent_root h) x (bh_body_root h).
Definition set_root (x : H256) (c : Checkpoint) : Checkpoint := mk_checkpoint x (cp_slot c).

(** The tree hashes the program takes. *)
Class Hashing := {
  #[global] hash_state :: TreeHash State;
  #[global] hash_block_header :: TreeHash BlockHeader;
  #[global] hash_block_body :: TreeHash BlockBody;
  #[global] hash_block :: TreeHash Block;
  #[global] hash_attestation_data :: TreeHash AttestationData;
}.

(** A block hashes like its header: the header is the block with the body replaced
    by its root, and a container's root is computed from its fields' roots. *)
Class HashingLaws `{Hashing} : Prop :=
  hash_block_as_header (b : Block) : tree_hash_root b = tree_hash_root (block_header b).

(** [State::from_genesis] *)
Definition from_genesis `{SszTypes, Hashing} (genesis_time : u64) (validators : list Validator) :
    partial State :=
  let genesis_header := {|
    bh_slot := to_u64 0;
    bh_proposer_index := to_u64 0;
    bh_parent_root := H256_ZERO;
    bh_state_root := H256_ZERO;
    bh_body_root := tree_hash_root BlockBody_default;
  |} in
  validators ← expect_some (variable_list_new VALIDATOR_REGISTRY_LIMIT validators);
  justified_slots ← expect_some (bitlist_with_capacity HISTORICAL_ROOTS_LIMIT 0);
  justifications_validators ←
    expect_some (bitlist_with_capacity JUSTIFICATION_VALIDATORS_LIMIT 0);
  Return {|
    st_config := {| cc_genesis_time := genesis_time |};
    st_slot := to_u64 0;
    st_latest_block_header := genesis_header;
    st_latest_justified := Checkpoint_default;
    st_latest_finalized := Checkpoint_default;
    st_historical_block_hashes := [];
    st_justified_slots := justified_slots;
    st_validators := validators;
    st_justifications_roots := [];
    st_justifications_validators := justifications_validators;
  |}.

(** * genesis.rs *)

Record GenesisConfig := mk_genesis_config {
  gc_genesis_time : u64;
  gc_genesis_validators : list ValidatorPubkeyBytes;
}.

(** [GenesisConfig::validators] *)
Definition genesis_validators (c : GenesisConfig) : list Validator :=
  imap (λ i pubkey, {| v_pubkey := pubkey; v_index := to_u64 (N.of_nat i) |})
       (gc_genesis_validators c).
