(* ===== verification/JustifiedSlots.v ===== *)
(** The relative-indexed bit list of justified slots
    (state_transition/src/justified_slots_ops.rs): index 0 is the slot after the last
    finalized one, finalized slots are implicitly justified. *)

From S2P Require Import Prelude Types.

Section justified_slots_ops.
Context `{ST : SszTypes}.

(** [relative_index] *)
Definition relative_index (target_slot finalized_slot : u64) : option u64 :=
  checked_sub target_slot finalized_slot ≫= λ d, checked_sub d (to_u64 1).

(** [is_slot_justified] *)
Definition is_slot_justified (slots : JustifiedSlots) (finalized_slot target_slot : u64) : bool :=
  default true
    ((λ idx : u64, default false (bitlist_get slots idx)) <$>
       relative_index target_slot finalized_slot).

(** [set_justified] *)
Definition set_justified (slots : JustifiedSlots) (finalized_slot target_slot : u64) :
    partial JustifiedSlots :=
  match relative_index target_slot finalized_slot with
  | Some idx => expect_some (bitlist_set slots idx true)
  | None => Return slots
  end.

(** [extend_to_slot] *)
Definition extend_to_slot (slots : JustifiedSlots) (finalized_slot target_slot : u64) :
    partial JustifiedSlots :=
  match relative_index target_slot finalized_slot with
  | None => Return slots
  | Some required_idx =>
      let required_capacity := wrapping_add required_idx (to_u64 1) in
      if required_capacity <=? len slots then Return slots
      else
        extended ← expect_some (bitlist_with_capacity HISTORICAL_ROOTS_LIMIT required_capacity);
        Return (bitlist_union slots extended)
  end.

(** [shift_window] *)
Definition shift_window (slots : JustifiedSlots) (delta : u64) : partial JustifiedSlots :=
  if delta =? 0 then Return slots
  else if len slots <=? delta then
    expect_some (bitlist_with_capacity HISTORICAL_ROOTS_LIMIT 0)
  else
    let remaining := len slots - delta in
    new_bits ← expect_some (bitlist_with_capacity HISTORICAL_ROOTS_LIMIT remaining);
    fold_partial
      (λ new_bits i,
        if default false (bitlist_get slots (i + delta))
        then expect_some (bitlist_set new_bits i true)
        else Return new_bits)
      new_bits (N.of_nat <$> seq 0 (N.to_nat remaining)).

End justified_slots_ops.

(** * What the bit list means *)

Section justified_slots_spec.
Context `{STL : SszTypesLaws}.

(** The index of a slot above the finalized one. *)
Lemma relative_index_spec (target fin : u64) :
  relative_index target fin =
    if (fin <? target)%N then Some (to_u64 (target - fin - 1)) else None.
Proof.
  unfold relative_index, checked_sub.
  destruct (N.leb_spec fin target); simpl.
  - destruct (N.leb_spec (to_u64 1) (to_u64 (target - fin))); destruct (N.ltb_spec fin target);
      try lia; [|done]. f_equal. lia.
  - destruct (N.ltb_spec fin target); [lia|done].
Qed.

Lemma is_slot_justified_spec slots (fin s : u64) :
  is_slot_justified slots fin s =
    if (fin <? s)%N then default false (get_at slots (s - fin - 1)) else true.
Proof.
  unfold is_slot_justified. rewrite relative_index_spec.
  destruct (N.ltb_spec fin s); simpl; [|done].
  rewrite bitlist_get_spec. do 2 f_equal. lia.
Qed.

(** Every slot up to and including [top] has a bit. *)
Definition covers (slots : JustifiedSlots) (fin top : N) : Prop := top <= fin + len slots.

Lemma set_justified_spec slots (fin t : u64) :
  covers slots fin t →
  ∃ slots', set_justified slots fin t = Return slots' ∧
    len slots' = len slots ∧
    ∀ s : u64, is_slot_justified slots' fin s = bool_decide (s = t) || is_slot_justified slots fin s.
Proof.
  intros Hc. unfold covers, set_justified in *. rewrite relative_index_spec.
  destruct (N.ltb_spec fin t).
  - rewrite bitlist_set_spec. assert (Hi : u64_val (to_u64 (t - fin - 1)) = t - fin - 1) by lia.
    rewrite Hi. rewrite (proj2 (N.ltb_lt _ _)) by lia. simpl. eexists. split; [done|].
    split; [unfold len; by rewrite length_insert|].
    intros s. rewrite !is_slot_justified_spec. destruct (N.ltb_spec fin s).
    + rewrite !get_at_lookup. case_bool_decide as Hst.
      * subst. rewrite list_lookup_insert_eq; [done|]. unfold len in *. lia.
      * rewrite list_lookup_insert_ne; [done|]. lia.
    + by destruct (bool_decide _).
  - exists slots. split_and!; [done..|]. intros s. case_bool_decide as Hst; [|done].
    subst. rewrite is_slot_justified_spec. by rewrite (proj2 (N.ltb_ge _ _)).
Qed.

Lemma extend_to_slot_spec slots (fin t : u64) :
  t <= fin + HISTORICAL_ROOTS_LIMIT →
  ∃ slots', extend_to_slot slots fin t = Return slots' ∧
    covers slots' fin t ∧
    len slots' = N.max (len slots) (t - fin) ∧
    ∀ s : u64, is_slot_justified slots' fin s = is_slot_justified slots fin s.
Proof.
  intros Ht. unfold extend_to_slot, covers. rewrite relative_index_spec.
  destruct (N.ltb_spec fin t); [|exists slots; split_and!; auto; lia].
  assert (Hi : u64_val (wrapping_add (to_u64 (t - fin - 1)) (to_u64 1)) = t - fin)
    by (unfold wrapping_add; lia).
  rewrite Hi. destruct (N.leb_spec (t - fin) (len slots)).
  { exists slots. split_and!; auto; lia. }
  rewrite bitlist_with_capacity_spec, (proj2 (N.leb_le _ _)) by lia. cbn.
  set (ext := replicate (N.to_nat (t - fin)) false).
  assert (Hext : len ext = t - fin) by (unfold ext; autorewrite with len; lia).
  assert (Hlen : len (bitlist_union slots ext) = N.max (len slots) (t - fin)).
  { rewrite <- Hext. unfold len. rewrite bitlist_union_length. lia. }
  eexists. split_and!; [done|lia|done|].
  intros s. rewrite !is_slot_justified_spec. destruct (N.ltb_spec fin s); [|done].
  destruct (N.ltb_spec (s - fin - 1) (t - fin)).
  - rewrite bitlist_union_get by lia. simpl.
    assert (default false (get_at ext (s - fin - 1)) = false) as ->; [|by rewrite orb_false_r].
    rewrite get_at_lookup. unfold ext. rewrite lookup_replicate_2; [done|]. lia.
  - unfold get_at. rewrite !(proj2 (N.ltb_ge _ _)) by lia. done.
Qed.

(** The copy loop of [shift_window]. *)
Lemma shift_loop slots delta n :
  n + delta <= len slots →
  ∀ bits, len bits = len slots - delta →
  (∀ i, i < len bits → get_at bits i = Some (bool_decide (i < n) && default false (get_at slots (i + delta)))) →
  ∀ m, n + N.of_nat m + delta <= len slots →
  ∃ bits', fold_partial
      (λ new_bits i,
        if default false (bitlist_get slots (i + delta))
        then expect_some (bitlist_set new_bits i true)
        else Return new_bits)
      bits (N.of_nat <$> seq (N.to_nat n) m) = Return bits' ∧
    len bits' = len slots - delta ∧
    ∀ i, i < len bits' →
      get_at bits' i = Some (bool_decide (i < n + N.of_nat m) && default false (get_at slots (i + delta))).
Proof.
  intros Hn bits Hb Hbits m. revert n bits Hn Hb Hbits. induction m as [|m IH]; intros n bits Hn Hb Hbits Hm.
  { exists bits. split_and!; [done..|]. intros i Hi. rewrite Hbits by done. do 2 f_equal.
    apply bool_decide_ext. lia. }
  cbn [seq fmap list_fmap fold_partial]. rewrite bitlist_get_spec, N2Nat.id.
  assert (Hstep : ∃ bits1,
    (if default false (get_at slots (n + delta)) then expect_some (bitlist_set bits n true)
     else Return bits) = Return bits1 ∧ len bits1 = len slots - delta ∧
    ∀ i, i < len bits1 →
      get_at bits1 i = Some (bool_decide (i < n + 1) && default false (get_at slots (i + delta)))).
  { destruct (default false (get_at slots (n + delta))) eqn:Hbit.
    - rewrite bitlist_set_spec, (proj2 (N.ltb_lt _ _)) by lia. eexists. split; [done|].
      assert (len (<[N.to_nat n:=true]> bits) = len bits) as Hl
        by (unfold len; by rewrite length_insert).
      split; [lia|]. intros i Hi. rewrite Hl in Hi. rewrite get_at_lookup.
      destruct (decide (i = n)) as [->|Hne].
      + rewrite list_lookup_insert_eq by (unfold len in *; lia).
        rewrite Hbit, bool_decide_true by lia. done.
      + rewrite list_lookup_insert_ne by lia. rewrite <- get_at_lookup, Hbits by done.
        do 2 f_equal. apply bool_decide_ext. lia.
    - exists bits. split_and!; [done..|]. intros i Hi. rewrite Hbits by done.
      destruct (decide (i = n)) as [->|Hne].
      + rewrite Hbit, !andb_false_r. done.
      + do 2 f_equal. apply bool_decide_ext. lia. }
  destruct Hstep as (bits1 & -> & Hb1 & Hbits1). cbn.
  replace (S (N.to_nat n)) with (N.to_nat (n + 1)) by lia.
  destruct (IH (n + 1) bits1) as (bits' & Hrun & Hl & Hget); [lia|done|done|lia|].
  exists bits'. split_and!; [done..|]. intros i Hi. rewrite Hget by done. do 2 f_equal.
  apply bool_decide_ext. lia.
Qed.

Lemma shift_window_spec slots (delta : u64) :
  len slots <= HISTORICAL_ROOTS_LIMIT →
  ∃ slots', shift_window slots delta = Return slots' ∧
    len slots' = len slots - delta ∧
    ∀ i, get_at slots' i = get_at slots (i + delta).
Proof.
  intros Hlim. unfold shift_window. destruct (N.eqb_spec delta 0) as [Hd|Hd].
  { exists slots. split_and!; [done|lia|]. intros i. f_equal. lia. }
  rewrite bitlist_with_capacity_spec. destruct (N.leb_spec (len slots) delta).
  { simpl. eexists. split_and!; [done|autorewrite with len; lia|]. intros i.
    symmetry. unfold get_at. rewrite (proj2 (N.ltb_ge _ _)) by lia.
    rewrite (proj2 (N.ltb_ge _ _)); [done|]. autorewrite with len; lia. }
  rewrite bitlist_with_capacity_spec, (proj2 (N.leb_le _ _)) by lia. cbn [mbind partial_bind expect_some].
  destruct (shift_loop slots delta 0) with (bits := replicate (N.to_nat (len slots - delta)) false)
    (m := N.to_nat (len slots - delta)) as (bits & Hrun & Hl & Hget); [lia|autorewrite with len; lia| |lia|].
  { intros i Hi. rewrite bool_decide_false by lia. simpl. rewrite get_at_lookup.
    autorewrite with len in Hi. rewrite lookup_replicate_2; [done|lia]. }
  exists bits. split_and!; [exact Hrun|done|]. intros i. destruct (N.ltb_spec i (len bits)).
  - rewrite Hget by done. rewrite bool_decide_true by lia. simpl.
    destruct (get_at_lt slots (i + delta)) as [b ->]; [lia|done].
  - unfold get_at. rewrite !(proj2 (N.ltb_ge _ _)) by lia. done.
Qed.

(** Moving the finalized boundary forward and shifting the window keeps the status of
    every slot above the new boundary. *)
Lemma shift_window_justified slots slots' (fin fin' s : u64) :
  fin <= u64_val fin' → u64_val fin' < s →
  (∀ i, get_at slots' i = get_at slots (i + (fin' - fin))) →
  is_slot_justified slots' fin' s = is_slot_justified slots fin s.
Proof.
  intros Hf Hs Hget. rewrite !is_slot_justified_spec.
  rewrite !(proj2 (N.ltb_lt _ _)) by lia. rewrite Hget. do 2 f_equal. lia.
Qed.

End justified_slots_spec.
