(* ===== verification/StateTransition.v ===== *)
(** The state transition function (crates/blockchain/state_transition/src/lib.rs):
    slot and block processing, proposer selection, the 3SF-mini justification and
    finalization rules. *)

From S2P Require Import Prelude Types JustifiedSlots.

Inductive Error : Type :=
| StateSlotIsNewer (target_slot current_slot : u64)
| SlotMismatch (state_slot block_slot : u64)
| ParentSlotIsNewer (parent_slot block_slot : u64)
| InvalidProposer (expected found : u64)
| InvalidParent (expected found : H256)
| NoValidators
| StateRootMismatch (expected computed : H256)
| SlotGapTooLarge (gap current max : N)
| ZeroHashInJustificationRoots.

(** Votes for each candidate root, one boolean per validator. *)
Abbreviation Justifications := (gmap H256 (list bool)).

(** [current_proposer] *)
Definition current_proposer (slot num_validators : u64) : option u64 :=
  if 0 <? num_validators then Some (to_u64 (slot mod num_validators)) else None.

(** [is_proposer] *)
Definition is_proposer (validator_index slot num_validators : u64) : bool :=
  bool_decide (current_proposer slot num_validators = Some validator_index).

(** [x.isqrt().pow(2) == x] *)
Definition is_square (x : u64) : bool := bool_decide (to_u64 (N.sqrt x ^ 2) = x).

(** [slot_is_justifiable_after] *)
Definition slot_is_justifiable_after (slot finalized_slot : u64) : bool :=
  match checked_sub slot finalized_slot with
  | None => false
  | Some delta =>
      (delta <=? 5)
      || is_square delta
      || match checked_mul delta (to_u64 4) ≫= λ v, checked_add v (to_u64 1) with
         | Some val => is_square val && (val mod 2 =? 1)
         | None => false
         end
  end.

(** [checkpoint_exists] *)
Definition checkpoint_exists (state : State) (checkpoint : Checkpoint) : bool :=
  match get_at (st_historical_block_hashes state) (cp_slot checkpoint) with
  | Some root => bool_decide (root = cp_root checkpoint)
  | None => false
  end.

Section state_transition.
Context `{ST : SszTypes} `{HS : Hashing} `{HO : HashOrder}.

(** [process_slots] *)
Definition process_slots (target_slot : u64) : M State Error unit :=
  state ← get;
  fail_if (target_slot <=? st_slot state) (StateSlotIsNewer target_slot (st_slot state));;
  (if is_zero (bh_state_root (st_latest_block_header state))
   then modify (λ s, set_latest_block_header
                       (set_state_root (tree_hash_root s) (st_latest_block_header s)) s)
   else mret tt);;
  modify (set_slot target_slot).

(** [process_block_header] *)
Definition process_block_header (block : Block) : M State Error unit :=
  state ← get;
  let parent_header := st_latest_block_header state in
  fail_if (negb (bool_decide (b_slot block = st_slot state)))
    (SlotMismatch (st_slot state) (b_slot block));;
  fail_if (b_slot block <=? bh_slot parent_header)
    (ParentSlotIsNewer (bh_slot parent_header) (b_slot block));;
  let num_validators := to_u64 (len (st_validators state)) in
  expected_proposer ← ok_or (current_proposer (b_slot block) num_validators) NoValidators;
  fail_if (negb (bool_decide (b_proposer_index block = expected_proposer)))
    (InvalidProposer expected_proposer (b_proposer_index block));;
  let parent_root := tree_hash_root parent_header in
  fail_if (negb (bool_decide (b_parent_root block = parent_root)))
    (InvalidParent parent_root (b_parent_root block));;
  (if u64_val (bh_slot parent_header) =? 0 then
     modify (λ s, set_latest_justified (set_root parent_root (st_latest_justified s)) s);;
     modify (λ s, set_latest_finalized (set_root parent_root (st_latest_finalized s)) s)
   else mret tt);;
  let num_empty_slots :=
    wrapping_sub (wrapping_sub (b_slot block) (bh_slot parent_header)) (to_u64 1) in
  let current_len := to_u64 (len (st_historical_block_hashes state)) in
  let new_total := wrapping_add (wrapping_add current_len (to_u64 1)) num_empty_slots in
  fail_if (HISTORICAL_ROOTS_LIMIT <? new_total)
    (SlotGapTooLarge num_empty_slots current_len HISTORICAL_ROOTS_LIMIT);;
  let historical_block_hashes :=
    st_historical_block_hashes state ++ [parent_root] ++
    replicate (N.to_nat num_empty_slots) H256_ZERO in
  historical_block_hashes ←
    lift_partial (expect_some
      (variable_list_new HISTORICAL_ROOTS_LIMIT historical_block_hashes));
  modify (set_historical_block_hashes historical_block_hashes);;
  let last_materialized_slot := wrapping_sub (b_slot block) (to_u64 1) in
  justified_slots ←
    reads (λ s, extend_to_slot (st_justified_slots s) (cp_slot (st_latest_finalized s))
                  last_materialized_slot);
  modify (set_justified_slots justified_slots);;
  modify (set_latest_block_header {|
    bh_slot := b_slot block;
    bh_proposer_index := b_proposer_index block;
    bh_parent_root := b_parent_root block;
    bh_state_root := H256_ZERO;
    bh_body_root := tree_hash_root (b_body block);
  |}).

(** [is_valid_vote] *)
Definition is_valid_vote (state : State) (source target : Checkpoint) : bool :=
  let finalized_slot := cp_slot (st_latest_finalized state) in
  if negb (is_slot_justified (st_justified_slots state) finalized_slot (cp_slot source)) then false
  else if is_slot_justified (st_justified_slots state) finalized_slot (cp_slot target) then false
  else if is_zero (cp_root source) || is_zero (cp_root target) then false
  else if negb (checkpoint_exists state source) || negb (checkpoint_exists state target) then false
  else if cp_slot target <=? cp_slot source then false
  else if negb (slot_is_justifiable_after (cp_slot target) finalized_slot) then false
  else true.

(** [try_finalize]; returns the pruned votes. *)
Definition try_finalize (source target : Checkpoint) (justifications : Justifications)
    (root_to_slot : gmap H256 u64) : M State Error Justifications :=
  state ← get;
  let old_finalized_slot := cp_slot (st_latest_finalized state) in
  if existsb (λ slot, slot_is_justifiable_after slot old_finalized_slot)
       (u64_range (wrapping_add (cp_slot source) (to_u64 1)) (cp_slot target))
  then mret justifications
  else
    modify (set_latest_finalized source);;
    let delta := wrapping_sub (cp_slot source) old_finalized_slot in
    justified_slots ← reads (λ s, shift_window (st_justified_slots s) delta);
    modify (set_justified_slots justified_slots);;
    finalized ← gets st_latest_finalized;
    mret (retain (λ root _,
            match root_to_slot !! root with
            | Some slot => cp_slot finalized <? u64_val slot
            | None => false
            end) justifications).

(** [votes[i] = true] *)
Definition set_vote (votes : list bool) (i : nat) : partial (list bool) :=
  if decide (i < length votes)%nat then Return (<[i := true]> votes) else Panic.

Definition count_votes (votes : list bool) : N := len (filter (λ voted, voted = true) votes).

(** One iteration of the attestation loop of [process_attestations]. *)
Definition process_attestation (validator_count : N) (root_to_slot : gmap H256 u64)
    (justifications : Justifications) (attestation : AggregatedAttestation) :
    M State Error Justifications :=
  let source := ad_source (aa_data attestation) in
  let target := ad_target (aa_data attestation) in
  state ← get;
  if negb (is_valid_vote state source target) then mret justifications
  else
    let votes := default (replicate (N.to_nat validator_count) false)
                   (justifications !! cp_root target) in
    let justifications := <[cp_root target := votes]> justifications in
    if validator_count <? len (aa_aggregation_bits attestation) then mret justifications
    else
      votes ← lift_partial (fold_partial (λ votes '(validator_id, _), set_vote votes validator_id)
        votes (filter (λ '(_, voted), voted = true) (imap pair (aa_aggregation_bits attestation))));
      let justifications := <[cp_root target := votes]> justifications in
      let vote_count := count_votes votes in
      if 2 * validator_count <=? 3 * vote_count then
        modify (set_latest_justified target);;
        justified_slots ←
          reads (λ s, set_justified (st_justified_slots s)
                        (cp_slot (st_latest_finalized s)) (cp_slot target));
        modify (set_justified_slots justified_slots);;
        try_finalize source target (delete (cp_root target) justifications) root_to_slot
      else mret justifications.

(** The votes recorded in the state, as [process_attestations] loads them. *)
Definition load_justifications (state : State) : Justifications :=
  let validator_count := length (st_validators state) in
  list_to_map (reverse (imap
    (λ i root, (root, take validator_count
                        (drop (i * validator_count) (st_justifications_validators state))))
    (st_justifications_roots state))).

(** The latest slot of each root above the finalized slot. *)
Definition root_to_slot_map (state : State) : gmap H256 u64 :=
  foldl (λ (m : gmap H256 u64) (slot : u64),
    match get_at (st_historical_block_hashes state) slot with
    | Some root =>
        <[root := match m !! root with
                  | Some x => if u64_val x <? u64_val slot then slot else x
                  | None => slot
                  end]> m
    | None => m
    end) ∅
    (u64_range (wrapping_add (cp_slot (st_latest_finalized state)) (to_u64 1))
       (len (st_historical_block_hashes state))).

(** [serialize_justifications] *)
Definition serialize_justifications (justifications : Justifications) (validator_count : N) :
    M State Error unit :=
  let justification_roots := merge_sort h256_le (hash_iter justifications).*1 in
  justifications_validators ← lift_partial (expect_some
    (bitlist_with_capacity JUSTIFICATION_VALIDATORS_LIMIT
       (len justification_roots * validator_count)));
  votes ← lift_partial (map_partial (λ root, expect_some (justifications !! root))
    justification_roots);
  justifications_validators ← lift_partial (fold_partial
    (λ bits '(i, _), expect_some (bitlist_set bits (N.of_nat i) true))
    justifications_validators
    (filter (λ '(_, voted), voted = true) (imap pair (concat votes))));
  justification_roots ←
    lift_partial (expect_some (variable_list_new HISTORICAL_ROOTS_LIMIT justification_roots));
  modify (set_justifications justification_roots justifications_validators).

(** [process_attestations] *)
Definition process_attestations (attestations : list AggregatedAttestation) :
    M State Error unit :=
  state ← get;
  fail_if (existsb is_zero (st_justifications_roots state)) ZeroHashInJustificationRoots;;
  let validator_count := len (st_validators state) in
  let root_to_slot := root_to_slot_map state in
  justifications ←
    foldM (process_attestation validator_count root_to_slot) (load_justifications state)
      attestations;
  serialize_justifications justifications validator_count.

(** [process_block] *)
Definition process_block (block : Block) : M State Error unit :=
  process_block_header block;;
  process_attestations (bb_attestations (b_body block)).

(** [state_transition] *)
Definition state_transition (block : Block) : M State Error unit :=
  process_slots (b_slot block);;
  process_block block;;
  state ← get;
  let computed_state_root := tree_hash_root state in
  fail_if (negb (bool_decide (b_state_root block = computed_state_root)))
    (StateRootMismatch (b_state_root block) computed_state_root).

End state_transition.
