(* ===== verification/Reference.v ===== *)
(** Concrete instances of the library interfaces, on which the witnesses evaluate the
    model. *)

From S2P Require Import Prelude Types.

(** Bit lists and bounded lists as their documentation describes them. *)
#[local] Instance reference_ssz_types : SszTypes := {|
  bitlist_with_capacity limit n :=
    if n <=? limit then Some (replicate (N.to_nat n) false) else None;
  bitlist_get l i := get_at l i;
  bitlist_set l i b := if i <? len l then Some (<[N.to_nat i := b]> l) else None;
  bitlist_union l k :=
    imap (λ i _, default false (get_at l (N.of_nat i)) || default false (get_at k (N.of_nat i)))
      (replicate (Nat.max (length l) (length k)) tt);
  variable_list_new A limit l := if len l <=? limit then Some l else None;
  fixed_vector_new A size l := if len l =? size then Some l else None;
|}.

Lemma reference_ssz_types_laws : SszTypesLaws.
Proof.
  split; intros; cbn; [done..| | |done|done].
  - by rewrite length_imap, length_replicate.
  - rewrite get_at_lookup, list_lookup_imap, lookup_replicate_2 by (unfold len in *; lia).
    cbn. by rewrite N2Nat.id.
Qed.

(** A toy hash: a polynomial over the fields, modulo 2^256. *)
Definition mix (l : list N) : N := foldl (λ acc x, (acc * 1000003 + x + 1) mod 2 ^ 256) 7 l.

Definition mix_checkpoint (c : Checkpoint) : N := mix [h256_val (cp_root c); u64_val (cp_slot c)].
Definition mix_bits (l : list bool) : N := mix ((λ b : bool, if b then 1 else 0) <$> l).
Definition mix_data (d : AttestationData) : N :=
  mix [u64_val (ad_slot d); mix_checkpoint (ad_head d); mix_checkpoint (ad_target d);
       mix_checkpoint (ad_source d)].
Definition mix_body (b : BlockBody) : N :=
  mix ((λ a, mix [mix_bits (aa_aggregation_bits a); mix_data (aa_data a)]) <$> bb_attestations b).
Definition mix_header (h : BlockHeader) : N :=
  mix [u64_val (bh_slot h); u64_val (bh_proposer_index h); h256_val (bh_parent_root h);
       h256_val (bh_state_root h); h256_val (bh_body_root h)].
Definition mix_state (s : State) : N :=
  mix [u64_val (cc_genesis_time (st_config s)); u64_val (st_slot s);
       mix_header (st_latest_block_header s); mix_checkpoint (st_latest_justified s);
       mix_checkpoint (st_latest_finalized s);
       mix (h256_val <$> st_historical_block_hashes s); mix_bits (st_justified_slots s);
       len (st_validators s); mix (h256_val <$> st_justifications_roots s);
       mix_bits (st_justifications_validators s)].

Definition reference_body_root (b : BlockBody) : H256 := h256 (mix_body b).

#[local] Instance reference_hashing : Hashing := {|
  hash_state := (λ s, h256 (mix_state s)) : TreeHash State;
  hash_block_header := (λ h, h256 (mix_header h)) : TreeHash BlockHeader;
  hash_block_body := (λ b, h256 (mix_body b)) : TreeHash BlockBody;
  hash_block := (λ b, h256 (mix_header
    (@block_header ((λ b, h256 (mix_body b)) : TreeHash BlockBody) b))) : TreeHash Block;
  hash_attestation_data := (λ d, h256 (mix_data d)) : TreeHash AttestationData;
|}.

Lemma reference_hashing_laws : HashingLaws.
Proof. intros b. done. Qed.

#[local] Instance reference_order : HashOrder := canonical_order.

(** A second iteration order. *)
Definition reversed_order : HashOrder :=
  {| hash_iter := λ K ED C V m, reverse (map_to_list m);
     hash_elems := λ K ED C X, reverse (elements X) |}.

Lemma reversed_order_laws : @HashOrderLaws reversed_order.
Proof. split; intros; cbn; apply reverse_Permutation. Qed.

Module Sample.

Definition validator (i : N) : Validator := mk_validator [] (to_u64 i).

(** A genesis state with three validators. *)
Definition genesis_header : BlockHeader :=
  mk_block_header (to_u64 0) (to_u64 0) H256_ZERO H256_ZERO (tree_hash_root BlockBody_default).
Definition genesis : State :=
  mk_state (mk_chain_config (to_u64 1000)) (to_u64 0) genesis_header Checkpoint_default
    Checkpoint_default [] [] [validator 0; validator 1; validator 2] [] [].

End Sample.
