(* ===== verification/Justifiability.v ===== *)
(** The 3SF-mini justifiability rule, proposer selection and slot processing:
    functional correctness against reference definitions. *)

From S2P Require Import Prelude Types StateTransition Reference.

(** * 3SF-mini justifiable slots *)

(** The rule of the specification, on unbounded numbers. *)
Definition justifiable_distance (delta : N) : Prop :=
  delta <= 5 ∨ (∃ n, delta = n * n) ∨ (∃ n, delta = n * (n + 1)).

Lemma is_square_spec (x : u64) : is_square x = true ↔ ∃ n, u64_val x = n * n.
Proof.
  unfold is_square. rewrite bool_decide_eq_true.
  pose proof (N.sqrt_spec' x) as [Hlo Hhi].
  assert (Hsq : u64_val (to_u64 (N.sqrt x ^ 2)) = N.sqrt x * N.sqrt x).
  { rewrite to_u64_small; rewrite N.pow_2_r; [done|]. pose proof (u64_lt x). lia. }
  split.
  - intros Heq. exists (N.sqrt x). by rewrite <- Hsq, Heq.
  - intros [n Hn]. apply u64_eq. rewrite Hsq, Hn, N.sqrt_square. done.
Qed.

(** 4d + 1 is a square exactly at the pronic numbers. *)
Lemma pronic_iff_odd_square (d : N) : (∃ n, 4 * d + 1 = n * n) ↔ ∃ n, d = n * (n + 1).
Proof.
  split; intros [n Hn].
  - exists ((n - 1) / 2). pose proof (N.div_mod (n - 1) 2 ltac:(lia)) as Hd.
    pose proof (N.mod_lt (n - 1) 2 ltac:(lia)) as Hm.
    set (k := (n - 1) / 2) in *. set (r := (n - 1) mod 2) in *.
    assert (1 <= n) by nia. assert (Hnk : n = 2 * k + r + 1) by lia.
    assert (r = 0 ∨ r = 1) as [Hr|Hr] by lia; rewrite Hr in Hnk; [nia|].
    exfalso. assert (4 * d + 1 = 4 * (k + 1) * (k + 1)) by nia. lia.
  - exists (2 * n + 1). nia.
Qed.

Lemma pronic_check_spec (delta : u64) :
  match checked_mul delta (to_u64 4) ≫= λ v, checked_add v (to_u64 1) with
  | Some val => is_square val && (val mod 2 =? 1)
  | None => false
  end = true ↔ 4 * delta + 1 < 2 ^ 64 ∧ ∃ n, u64_val delta = n * (n + 1).
Proof.
  unfold checked_mul, checked_add, u64_modulus.
  assert (H4 : u64_val (to_u64 4) = 4) by (by rewrite to_u64_small).
  assert (H1 : u64_val (to_u64 1) = 1) by (by rewrite to_u64_small).
  rewrite H4. destruct (N.ltb_spec (delta * 4) (2 ^ 64)) as [Hm|Hm]; cbn [mbind option_bind].
  2:{ split; [done|]. intros [? _]. lia. }
  rewrite H1, (to_u64_small (delta * 4)) by done.
  destruct (N.ltb_spec (delta * 4 + 1) (2 ^ 64)) as [Ha|Ha].
  2:{ split; [done|]. intros [? _]. lia. }
  rewrite andb_true_iff, is_square_spec, !to_u64_small by lia.
  replace (delta * 4 + 1) with (4 * delta + 1) by lia. rewrite pronic_iff_odd_square.
  split; [intros [? _]; split; [lia|done]|]. intros [_ Hn]. split; [done|].
  apply N.eqb_eq. lia.
Qed.

(** C38. The code decides the 3SF-mini rule whenever the distance leaves room for 4d + 1
    in 64 bits. *)
Theorem slot_is_justifiable_after_correct (slot finalized_slot : u64) :
  slot - finalized_slot < 2 ^ 62 →
  slot_is_justifiable_after slot finalized_slot = true ↔
  finalized_slot <= u64_val slot ∧ justifiable_distance (slot - finalized_slot).
Proof.
  intros Hd. unfold slot_is_justifiable_after, checked_sub, justifiable_distance.
  destruct (N.leb_spec finalized_slot slot) as [Hle|Hlt].
  2:{ split; [done|]. lia. }
  rewrite !orb_true_iff, is_square_spec, pronic_check_spec, N.leb_le, !to_u64_small by lia.
  split; [intros [[?|?]|[_ ?]]; auto|]. intros [_ [?|[?|?]]]; auto.
  right. split; [lia|done].
Qed.

(** Beyond that, only the perfect squares are accepted. *)
Theorem slot_is_justifiable_after_large (slot finalized_slot : u64) :
  2 ^ 62 <= slot - finalized_slot →
  slot_is_justifiable_after slot finalized_slot = true ↔
  ∃ n, slot - finalized_slot = n * n.
Proof.
  intros Hd. unfold slot_is_justifiable_after, checked_sub.
  rewrite (proj2 (N.leb_le _ _)) by lia.
  rewrite !orb_true_iff, is_square_spec, pronic_check_spec, N.leb_le, !to_u64_small by lia.
  split; [intros [[?|?]|[? _]]; [lia|done|lia]|]. auto.
Qed.

(** Slots at distance 0 to 6, 9 and 12 are justifiable, 7, 8, 10 and 11 are not. *)
Example justifiable_small :
  (λ n, slot_is_justifiable_after (to_u64 (100 + n)) (to_u64 100)) <$>
    [0; 1; 2; 3; 4; 5; 6; 7; 8; 9; 10; 11; 12] =
  [true; true; true; true; true; true; true; false; false; true; false; false; true].
Proof. vm_compute. reflexivity. Qed.

Lemma slot_is_justifiable_after_correct_witness :
  slot_is_justifiable_after (to_u64 112) (to_u64 100) = true.
Proof.
  apply (slot_is_justifiable_after_correct (to_u64 112) (to_u64 100)).
  - vm_compute. reflexivity.
  - split; [by vm_compute|]. right. right. exists 3. vm_compute. reflexivity.
Defined.

(** The pronic distance 2^31 (2^31 + 1) is refused. *)
Lemma slot_is_justifiable_after_large_witness :
  slot_is_justifiable_after (to_u64 (2 ^ 31 * (2 ^ 31 + 1))) (to_u64 0) = false ∧
  justifiable_distance (2 ^ 31 * (2 ^ 31 + 1)).
Proof.
  split; [|right; right; by exists (2 ^ 31)].
  destruct (slot_is_justifiable_after _ _) eqn:Hj; [|done].
  apply (slot_is_justifiable_after_large (to_u64 (2 ^ 31 * (2 ^ 31 + 1))) (to_u64 0)) in Hj;
    [|by vm_compute].
  destruct Hj as [n Hn]. exfalso.
  assert (Hs : N.sqrt (to_u64 (2 ^ 31 * (2 ^ 31 + 1)) - to_u64 0) = n)
    by (rewrite Hn; apply N.sqrt_square).
  vm_compute in Hs. subst n. vm_compute in Hn. discriminate.
Defined.

(** * Proposer selection *)

(** Every slot has exactly one proposer, and proposers take turns. *)
Theorem is_proposer_unique (slot n v : u64) :
  0 < u64_val n →
  is_proposer v slot n = true ↔ u64_val v = slot mod n.
Proof.
  intros Hn. unfold is_proposer, current_proposer. rewrite (proj2 (N.ltb_lt _ _)) by done.
  rewrite bool_decide_eq_true.
  assert (Hm : slot mod n < 2 ^ 64).
  { pose proof (N.mod_lt slot n ltac:(lia)). pose proof (u64_lt n). lia. }
  split.
  - intros [= <-]. by apply to_u64_small.
  - intros Hv. f_equal. apply u64_eq. rewrite to_u64_small; congruence.
Qed.

Lemma is_proposer_unique_witness : is_proposer (to_u64 1) (to_u64 7) (to_u64 3) = true.
Proof. apply (is_proposer_unique (to_u64 7) (to_u64 3) (to_u64 1)); by vm_compute. Defined.

(** * Slot processing *)

Section process_slots.
Context `{HS : Hashing}.

(** One iteration of the specification's loop: cache the state root if the header has
    none, then move to the next slot. *)
Definition process_one_slot (s : State) : State :=
  let s' := if is_zero (bh_state_root (st_latest_block_header s))
            then set_latest_block_header
                   (set_state_root (tree_hash_root s) (st_latest_block_header s)) s
            else s in
  set_slot (to_u64 (st_slot s' + 1)) s'.

(** The root is cached by the first iteration only. *)
Lemma process_one_slot_next s :
  is_zero (bh_state_root (st_latest_block_header s)) = false →
  process_one_slot s = set_slot (to_u64 (st_slot s + 1)) s ∧
  is_zero (bh_state_root (st_latest_block_header (process_one_slot s))) = false.
Proof. intros Hz. unfold process_one_slot. by rewrite Hz. Qed.

Lemma iter_process_one_slot n s :
  is_zero (bh_state_root (st_latest_block_header s)) = false →
  st_slot s + N.of_nat n < 2 ^ 64 →
  Nat.iter n process_one_slot s = set_slot (to_u64 (st_slot s + N.of_nat n)) s.
Proof.
  revert s. induction n as [|n IH]; intros s Hz Hn.
  - destruct s. cbn. unfold set_slot. cbn. f_equal. rewrite N.add_0_r. symmetry. apply to_u64_of_val.
  - rewrite Nat.iter_succ_r. destruct (process_one_slot_next s Hz) as [Hstep Hz'].
    rewrite IH; [|done|].
    + rewrite Hstep. unfold set_slot. cbn. f_equal. rewrite to_u64_small by lia. f_equal. lia.
    + rewrite Hstep. cbn. rewrite to_u64_small by lia. lia.
Qed.

(** Jumping to the target slot is the slot-by-slot loop of the specification, as long
    as no state hashes to zero. *)
Theorem process_slots_stepwise (s : State) (target : u64) :
  st_slot s < u64_val target →
  tree_hash_root s ≠ H256_ZERO →
  process_slots target s =
    Done (Nat.iter (N.to_nat (target - st_slot s)) process_one_slot s) tt.
Proof.
  intros Hlt Hroot. unfold process_slots. run. rewrite (proj2 (N.leb_gt _ _)) by done.
  replace (N.to_nat (target - st_slot s)) with (S (N.to_nat (target - st_slot s - 1))) by lia.
  rewrite Nat.iter_succ_r.
  set (s1 := process_one_slot s).
  assert (Hs1 : st_slot s1 = to_u64 (st_slot s + 1)).
  { unfold s1, process_one_slot. by destruct (is_zero _). }
  assert (Hz1 : is_zero (bh_state_root (st_latest_block_header s1)) = false).
  { unfold s1, process_one_slot.
    destruct (is_zero (bh_state_root (st_latest_block_header s))) eqn:Hz; cbn; [|done].
    by apply bool_decide_eq_false. }
  rewrite iter_process_one_slot; [|done|rewrite Hs1, to_u64_small by lia; lia].
  rewrite Hs1, to_u64_small by lia.
  replace (st_slot s + 1 + N.of_nat (N.to_nat (target - st_slot s - 1))) with (u64_val target) by lia.
  rewrite to_u64_of_val. unfold s1, process_one_slot.
  by destruct (is_zero (bh_state_root (st_latest_block_header s))); run.
Qed.

(** A target that is not in the future is refused and nothing changes. *)
Lemma process_slots_past (s : State) (target : u64) :
  target <= st_slot s →
  process_slots target s = Fail s (StateSlotIsNewer target (st_slot s)).
Proof. intros Hle. unfold process_slots. run. by rewrite (proj2 (N.leb_le _ _)). Qed.

End process_slots.

#[local] Existing Instance reference_hashing.

Lemma process_slots_stepwise_witness :
  process_slots (to_u64 4) Sample.genesis =
    Done (Nat.iter 4 (process_one_slot) Sample.genesis) tt.
Proof.
  apply (process_slots_stepwise Sample.genesis (to_u64 4)).
  - by vm_compute.
  - intros Heq. assert (Hv := f_equal h256_val Heq). vm_compute in Hv. discriminate.
Defined.
