(* ===== verification/Tallies.v ===== *)
(** The vote tallies of the state: loading them into a hash map, recording the bits of
    an attestation, and writing the map back in a canonical order. *)

From S2P Require Import Prelude Types StateTransition.

(** * Setting bits one at a time *)

(** [votes] with the bits of [bits] added. *)
Definition or_bits (votes bits : list bool) : list bool :=
  imap (λ i v, v || default false (bits !! i)) votes.

Lemma or_bits_length votes bits : length (or_bits votes bits) = length votes.
Proof. apply length_imap. Qed.

Lemma or_bits_lookup votes bits i :
  or_bits votes bits !! i = (λ v, v || default false (bits !! i)) <$> votes !! i.
Proof. apply list_lookup_imap. Qed.

Lemma or_bits_nil votes : or_bits votes [] = votes.
Proof.
  apply list_eq. intros i. rewrite or_bits_lookup. cbn.
  destruct (votes !! i) as [[]|]; done.
Qed.

Lemma or_bits_snoc votes bits b :
  (length bits < length votes)%nat →
  or_bits votes (bits ++ [b]) =
    if b then <[length bits := true]> (or_bits votes bits) else or_bits votes bits.
Proof.
  intros Hlen. apply list_eq. intros i.
  assert (Hi : default false ((bits ++ [b]) !! i) =
               if decide (i = length bits) then b else default false (bits !! i)).
  { case_decide as Hc; [subst; by rewrite list_lookup_middle|].
    destruct (decide (i < length bits)%nat); [by rewrite lookup_app_l|].
    rewrite !lookup_ge_None_2; rewrite ?length_app; cbn; done || lia. }
  rewrite or_bits_lookup, Hi. destruct b; case_decide as Hc; subst.
  - rewrite list_lookup_insert_eq by (by rewrite or_bits_length).
    destruct (lookup_lt_is_Some_2 votes (length bits)) as [v ->]; [done|]. cbn.
    by rewrite orb_true_r.
  - by rewrite list_lookup_insert_ne, or_bits_lookup.
  - rewrite or_bits_lookup, (lookup_ge_None_2 bits); done.
  - by rewrite or_bits_lookup.
Qed.

Lemma or_bits_replicate bits : or_bits (replicate (length bits) false) bits = bits.
Proof.
  apply list_eq. intros i. rewrite or_bits_lookup.
  destruct (decide (i < length bits)%nat) as [Hi|Hi].
  - rewrite lookup_replicate_2 by done.
    destruct (lookup_lt_is_Some_2 bits i) as [b Hb]; [done|]. by rewrite Hb.
  - rewrite !lookup_ge_None_2; rewrite ?length_replicate; done || lia.
Qed.

(** The loop [for (i, voted) in bits.iter().enumerate().filter(..) { set(i) }]. *)
Lemma set_bits_loop (set : list bool → nat * bool → partial (list bool)) votes bits :
  (∀ l i b, (i < length votes)%nat → length l = length votes → set l (i, b) = Return (<[i := true]> l)) →
  (length bits <= length votes)%nat →
  fold_partial set votes (filter (λ '(_, voted), voted = true) (imap pair bits)) =
    Return (or_bits votes bits).
Proof.
  intros Hset. induction bits as [|b bits IH] using rev_ind; intros Hlen.
  { cbn. by rewrite or_bits_nil. }
  rewrite length_app in Hlen. cbn in Hlen.
  rewrite imap_app, filter_app, fold_partial_app, IH, or_bits_snoc by lia. cbn [mbind partial_bind].
  cbn [imap]. rewrite filter_cons, filter_nil. unfold compose. rewrite Nat.add_0_r.
  destruct b; case_decide; try done. cbn. rewrite Hset; [done|lia|apply or_bits_length].
Qed.

Lemma record_votes votes bits :
  (length bits <= length votes)%nat →
  fold_partial (λ votes '(validator_id, _), set_vote votes validator_id) votes
    (filter (λ '(_, voted), voted = true) (imap pair bits)) = Return (or_bits votes bits).
Proof.
  intros Hlen. apply set_bits_loop; [|done]. intros l i b Hi Hl.
  unfold set_vote. by rewrite decide_True by lia.
Qed.

(** * Chunks *)

(** [roots] chunks of [n] bits each, as [process_attestations] slices them. *)
Lemma concat_chunks {A} n (l : list A) m :
  length l = (m * n)%nat →
  concat ((λ i, take n (drop (i * n) l)) <$> seq 0 m) = l.
Proof.
  revert l. induction m as [|m IH]; intros l Hl.
  { cbn in *. by destruct l. }
  cbn [seq fmap list_fmap concat]. rewrite drop_0.
  rewrite <- (take_drop n l) at 2. f_equal.
  rewrite <- (IH (drop n l)) at 1 by (rewrite length_drop; lia).
  rewrite <- fmap_S_seq, <- list_fmap_compose. f_equal. apply list_fmap_ext.
  intros _ i _. unfold compose. by rewrite drop_drop.
Qed.

Lemma length_chunk {A} n (l : list A) m i :
  length l = (m * n)%nat → (i < m)%nat → length (take n (drop (i * n) l)) = n.
Proof. intros Hl Hi. rewrite length_take, length_drop. nia. Qed.

Lemma imap_lookup_fmap {A B} (f : nat → B) (l : list A) :
  imap (λ i _, f i) l = f <$> seq 0 (length l).
Proof.
  apply list_eq. intros i. rewrite list_lookup_imap, list_lookup_fmap.
  destruct (decide (i < length l)%nat).
  - rewrite lookup_seq_lt by done. destruct (lookup_lt_is_Some_2 l i) as [x ->]; done.
  - rewrite !lookup_ge_None_2; rewrite ?length_seq; done || lia.
Qed.

(** * Loading *)

Lemma load_keys (s : State) :
  (imap (λ i root, (root, take (length (st_validators s))
          (drop (i * length (st_validators s)) (st_justifications_validators s))))
     (st_justifications_roots s)).*1 = st_justifications_roots s.
Proof.
  rewrite fmap_imap. apply list_eq. intros i. rewrite list_lookup_imap.
  by destruct (st_justifications_roots s !! i).
Qed.

Lemma load_justifications_lookup (s : State) r v :
  NoDup (st_justifications_roots s) →
  load_justifications s !! r = Some v ↔
  ∃ i, st_justifications_roots s !! i = Some r ∧
       v = take (length (st_validators s))
             (drop (i * length (st_validators s)) (st_justifications_validators s)).
Proof.
  intros Hnd. unfold load_justifications.
  rewrite <- elem_of_list_to_map by (rewrite fmap_reverse, load_keys, reverse_Permutation; done).
  rewrite elem_of_reverse, list_elem_of_lookup. setoid_rewrite list_lookup_imap.
  split.
  - intros (i & Hi). destruct (st_justifications_roots s !! i) eqn:Hr; [|done].
    injection Hi as -> <-. by exists i.
  - intros (i & Hr & ->). exists i. by rewrite Hr.
Qed.

(** * Writing back *)

Section serialize.
Context `{STL : SszTypesLaws} `{HOL : HashOrderLaws}.

(** The roots in canonical order. *)
Definition sorted_roots (J : Justifications) : list H256 :=
  merge_sort h256_le (hash_iter J).*1.

Lemma sorted_roots_Sorted J : Sorted h256_le (sorted_roots J).
Proof. apply Sorted_merge_sort, _. Qed.

Lemma sorted_roots_perm J : sorted_roots J ≡ₚ (hash_iter J).*1.
Proof. apply merge_sort_Permutation. Qed.

Lemma sorted_roots_NoDup J : NoDup (sorted_roots J).
Proof. rewrite sorted_roots_perm. apply NoDup_hash_keys. Qed.

Lemma elem_of_sorted_roots (J : Justifications) (r : H256) : r ∈ sorted_roots J ↔ is_Some (J !! r).
Proof. by rewrite sorted_roots_perm, elem_of_hash_keys. Qed.

(** The canonical order of a set of roots is unique. *)
Lemma sorted_roots_unique (J : Justifications) (roots : list H256) :
  Sorted h256_le roots → NoDup roots → (∀ r, r ∈ roots ↔ is_Some (J !! r)) →
  sorted_roots J = roots.
Proof.
  intros Hs Hnd Hel. eapply (Sorted_unique h256_le); [apply sorted_roots_Sorted|done|].
  apply NoDup_Permutation; [apply sorted_roots_NoDup|done|].
  intros r. by rewrite elem_of_sorted_roots, Hel.
Qed.

Lemma map_partial_lookup (J : Justifications) (roots : list H256) :
  (∀ r, r ∈ roots → is_Some (J !! r)) →
  map_partial (λ root, expect_some (J !! root)) roots =
    Return ((λ r, default [] (J !! r)) <$> roots).
Proof.
  induction roots as [|r roots IH]; intros Hall; [done|]. cbn [map_partial].
  destruct (Hall r) as [v Hv]; [set_solver|]. rewrite Hv. cbn [expect_some mbind partial_bind].
  rewrite IH by set_solver. cbn. by rewrite Hv.
Qed.

Lemma length_concat_uniform {A} (ls : list (list A)) n :
  Forall (λ l, length l = n) ls → length (concat ls) = (length ls * n)%nat.
Proof. induction 1 as [|l ls Hl _ IH]; cbn; [done|]. rewrite length_app, IH. lia. Qed.

(** Cutting a concatenation of equal pieces gives the pieces back. *)
Lemma chunk_concat {A} n (ls : list (list A)) i l :
  Forall (λ l, length l = n) ls → ls !! i = Some l → take n (drop (i * n) (concat ls)) = l.
Proof.
  intros Hall. revert i. induction Hall as [|l' ls Hl' _ IH]; intros [|i] Hi; [done..| |].
  - injection Hi as ->. cbn [concat Nat.mul]. rewrite drop_0. by apply take_app_length'.
  - cbn [concat]. rewrite drop_app_ge by lia. rewrite Hl'.
    replace (S i * n - n)%nat with (i * n)%nat by lia. by apply IH.
Qed.

(** The result of [serialize_justifications]: the roots in order, the votes
    concatenated in the same order. *)
Lemma serialize_justifications_spec (J : Justifications) (n : N) s :
  (∀ r v, J !! r = Some v → len v = n) →
  len (sorted_roots J) <= HISTORICAL_ROOTS_LIMIT →
  n <= VALIDATOR_REGISTRY_LIMIT →
  serialize_justifications J n s =
    Done (set_justifications (sorted_roots J)
            (concat ((λ r, default [] (J !! r)) <$> sorted_roots J)) s) tt.
Proof.
  intros Hlen Hroots Hn. unfold serialize_justifications. fold (sorted_roots J).
  assert (Hin : ∀ r, r ∈ sorted_roots J → is_Some (J !! r)) by (intros r; by rewrite elem_of_sorted_roots).
  set (votes := (λ r, default [] (J !! r)) <$> sorted_roots J).
  assert (Hvotes : length (concat votes) = N.to_nat (len (sorted_roots J) * n)).
  { rewrite (length_concat_uniform _ (N.to_nat n)).
    - unfold votes, len. rewrite length_fmap. lia.
    - apply Forall_fmap, Forall_forall. intros r Hr. cbn.
      destruct (Hin r Hr) as [v Hv]. rewrite Hv. cbn. specialize (Hlen _ _ Hv). unfold len in Hlen. lia. }
  rewrite bitlist_with_capacity_spec, (proj2 (N.leb_le _ _)).
  2:{ unfold JUSTIFICATION_VALIDATORS_LIMIT. by apply N.mul_le_mono. }
  run.
  rewrite map_partial_lookup by done. fold votes. run. rewrite <- Hvotes.
  rewrite set_bits_loop; cycle 1.
  { intros l i b Hi Hl. rewrite length_replicate in Hi, Hl.
    rewrite bitlist_set_spec, (proj2 (N.ltb_lt _ _)) by (unfold len; lia). by rewrite Nat2N.id. }
  { by rewrite length_replicate. }
  run. rewrite or_bits_replicate, variable_list_new_spec, (proj2 (N.leb_le _ _)) by done.
  by run.
Qed.

End serialize.
