(* ===== verification/StateInvariant.v ===== *)
(** Well-formed states: the invariant of the state transition function, its
    preservation, and the absence of panics. *)

From S2P Require Import Prelude Types JustifiedSlots StateTransition Reference Tallies.

(** * Outcomes that do not panic *)

(** The call returns, with [Ok] (then [Q] holds of the result) or with [Err]. *)
Definition returns {S E A} (o : outcome S E A) (Q : S → A → Prop) : Prop :=
  match o with
  | Done s a => Q s a
  | Fail _ _ => True
  | Panicked | Diverged => False
  end.

Section returns.
Context {S E : Type}.

Lemma returns_mono {A} (o : outcome S E A) (P Q : S → A → Prop) :
  (∀ s a, P s a → Q s a) → returns o P → returns o Q.
Proof. destruct o; cbn; auto. Qed.

Lemma returns_bind {A B} (m : M S E A) (k : A → M S E B) s (P : S → A → Prop) Q :
  returns (m s) P →
  (∀ s' a, P s' a → returns (k a s') Q) →
  returns ((m ≫= k) s) Q.
Proof. rewrite run_bind. destruct (m s); cbn; auto. Qed.

Lemma returns_foldM {A B} (I : B → S → Prop) (f : B → A → M S E B) l :
  (∀ b a s, a ∈ l → I b s → returns (f b a s) (λ s' b', I b' s')) →
  ∀ b s, I b s → returns (foldM f b l s) (λ s' b', I b' s').
Proof.
  induction l as [|a l IH]; intros Hf b s HI; cbn; [done|].
  eapply returns_bind; [apply Hf; [set_solver|done]|].
  intros s' b' HI'. apply IH; [|done]. intros. apply Hf; [set_solver|done].
Qed.
End returns.

(** * The invariant *)

Definition fin_slot (s : State) : u64 := cp_slot (st_latest_finalized s).
Definition just_slot (s : State) : u64 := cp_slot (st_latest_justified s).
Definition header_slot (s : State) : u64 := bh_slot (st_latest_block_header s).

(** History, checkpoints and the justified-slots window. *)
Record core_wf (s : State) : Prop := {
  wf_hist_len : len (st_historical_block_hashes s) = header_slot s;
  wf_hist_limit : len (st_historical_block_hashes s) <= HISTORICAL_ROOTS_LIMIT;
  wf_validators : 0 < len (st_validators s) <= VALIDATOR_REGISTRY_LIMIT;
  wf_slot : header_slot s <= st_slot s;
  wf_finalized_justified : fin_slot s <= just_slot s;
  wf_justified_past : just_slot s < N.max 1 (len (st_historical_block_hashes s));
  wf_covers : covers (st_justified_slots s) (fin_slot s) (header_slot s - 1);
  wf_window_limit : len (st_justified_slots s) <= HISTORICAL_ROOTS_LIMIT;
}.

(** A candidate for justification: a block of the chain above the finalized slot. *)
Definition candidate (s : State) (r : H256) : Prop :=
  r ≠ H256_ZERO ∧
  ∃ slot : N, fin_slot s < slot ∧ get_at (st_historical_block_hashes s) slot = Some r.

(** The serialized vote tallies. *)
Record tallies_wf (s : State) : Prop := {
  wf_roots_sorted : Sorted h256_le (st_justifications_roots s);
  wf_roots_distinct : NoDup (st_justifications_roots s);
  wf_roots_candidates : ∀ r, r ∈ st_justifications_roots s → candidate s r;
  wf_votes_len :
    len (st_justifications_validators s) = len (st_justifications_roots s) * len (st_validators s);
}.

Definition state_wf (s : State) : Prop := core_wf s ∧ tallies_wf s.

(** The vote tallies while attestations are processed. *)
Definition votes_wf (s : State) (J : Justifications) : Prop :=
  ∀ r v, J !! r = Some v → candidate s r ∧ len v = len (st_validators s).

(** The fields that attestations do not touch. *)
Record same_chain (s s' : State) : Prop := {
  same_slot : st_slot s' = st_slot s;
  same_header : st_latest_block_header s' = st_latest_block_header s;
  same_history : st_historical_block_hashes s' = st_historical_block_hashes s;
  same_validators : st_validators s' = st_validators s;
}.

#[global] Instance same_chain_refl : Reflexive same_chain.
Proof. by split. Qed.
#[global] Instance same_chain_trans : Transitive same_chain.
Proof. intros s1 s2 s3 [] []. split; congruence. Qed.

Lemma candidate_same (s s' : State) r :
  st_historical_block_hashes s' = st_historical_block_hashes s →
  fin_slot s' = fin_slot s → candidate s r → candidate s' r.
Proof. unfold candidate. by intros -> ->. Qed.

(** Distinct candidates are entries of the history, so there are few of them. *)
Lemma candidates_bounded (s : State) (roots : list H256) :
  NoDup roots → (∀ r, r ∈ roots → candidate s r) →
  len roots <= len (st_historical_block_hashes s).
Proof.
  intros Hnd Hc. unfold len.
  enough (length roots <= length (st_historical_block_hashes s))%nat by lia.
  apply submseteq_length, NoDup_submseteq; [done|].
  intros r Hr. destruct (Hc r Hr) as (_ & slot & _ & Hget).
  rewrite get_at_lookup in Hget. by eapply list_elem_of_lookup_2.
Qed.

(** * Valid votes *)

Section valid_vote.
Context `{STL : SszTypesLaws}.

(** What [is_valid_vote] guarantees about source and target. *)
Lemma is_valid_vote_spec (s : State) source target :
  is_valid_vote s source target = true ↔
  is_slot_justified (st_justified_slots s) (fin_slot s) (cp_slot source) = true ∧
  is_slot_justified (st_justified_slots s) (fin_slot s) (cp_slot target) = false ∧
  cp_root source ≠ H256_ZERO ∧ cp_root target ≠ H256_ZERO ∧
  get_at (st_historical_block_hashes s) (cp_slot source) = Some (cp_root source) ∧
  get_at (st_historical_block_hashes s) (cp_slot target) = Some (cp_root target) ∧
  cp_slot source < cp_slot target ∧
  slot_is_justifiable_after (cp_slot target) (fin_slot s) = true.
Proof.
  unfold is_valid_vote, is_zero, checkpoint_exists, fin_slot.
  destruct (is_slot_justified _ _ (cp_slot source)); cbn; [|naive_solver].
  destruct (is_slot_justified _ _ (cp_slot target)); cbn; [naive_solver|].
  case_bool_decide; cbn; [naive_solver|]. case_bool_decide; cbn; [naive_solver|].
  destruct (get_at _ (cp_slot source)); cbn; [|naive_solver].
  case_bool_decide; cbn; [|naive_solver].
  destruct (get_at _ (cp_slot target)); cbn; [|naive_solver].
  case_bool_decide; cbn; [|naive_solver]. subst.
  destruct (N.leb_spec (cp_slot target) (cp_slot source)); [naive_solver lia|].
  destruct (slot_is_justifiable_after _ _); cbn; naive_solver.
Qed.

(** The target of a valid vote is above the finalized slot. *)
Lemma unjustified_above_finalized slots (fin t : u64) :
  is_slot_justified slots fin t = false → fin < u64_val t.
Proof. rewrite is_slot_justified_spec. destruct (N.ltb_spec fin t); [done|discriminate]. Qed.

Lemma slot_is_justifiable_after_self (x : u64) : slot_is_justifiable_after x x = true.
Proof.
  unfold slot_is_justifiable_after, checked_sub. rewrite (proj2 (N.leb_le _ _)) by lia.
  rewrite (proj2 (N.leb_le _ 5)) by lia. done.
Qed.

(** The finalization test fails when the source is behind the finalized slot, because
    the finalized slot itself lies between source and target and is justifiable. *)
Lemma finalization_not_backwards (fin source target : u64) :
  source < target → fin < target →
  existsb (λ slot, slot_is_justifiable_after slot fin)
    (u64_range (wrapping_add source (to_u64 1)) target) = false →
  fin <= u64_val source.
Proof.
  intros Hst Hft Hex. destruct (N.leb_spec fin source) as [|Hlt]; [done|].
  enough (existsb (λ slot, slot_is_justifiable_after slot fin)
    (u64_range (wrapping_add source (to_u64 1)) target) = true) by congruence.
  apply existsb_exists. exists fin. split; [|apply slot_is_justifiable_after_self].
  apply list_elem_of_In, elem_of_u64_range; unfold u64_modulus, wrapping_add.
  - pose proof (u64_lt target). lia.
  - lia.
Qed.

End valid_vote.
