(* ===== verification/BlockProcessing.v ===== *)
(** Block processing on well-formed states: what each step does, that the invariant is
    preserved, and that nothing panics. *)

From S2P Require Import Prelude Types JustifiedSlots StateTransition Tallies StateInvariant.

Section block_header.
Context `{STL : SszTypesLaws} `{HS : Hashing}.

(** The conditions under which a block header is accepted on a state. *)
Record header_accepted (s : State) (block : Block) : Prop := {
  ha_slot : b_slot block = st_slot s;
  ha_newer : header_slot s < b_slot block;
  ha_proposer : u64_val (b_proposer_index block) = b_slot block mod len (st_validators s);
  ha_parent : b_parent_root block = tree_hash_root (st_latest_block_header s);
  ha_history : b_slot block <= HISTORICAL_ROOTS_LIMIT;
}.

(** The state after an accepted header: the parent root and one zero per skipped slot
    are appended to the history, the window covers every slot before the block, the new
    header has no state root yet; the first block after genesis also fixes the roots of
    the genesis checkpoints. *)
Record header_applied (s : State) (block : Block) (s' : State) : Prop := {
  hd_slot : st_slot s' = st_slot s;
  hd_config : st_config s' = st_config s;
  hd_header : st_latest_block_header s' =
    mk_block_header (b_slot block) (b_proposer_index block) (b_parent_root block) H256_ZERO
      (tree_hash_root (b_body block));
  hd_history : st_historical_block_hashes s' =
    st_historical_block_hashes s ++ [b_parent_root block] ++
    replicate (N.to_nat (b_slot block - header_slot s - 1)) H256_ZERO;
  hd_justified : st_latest_justified s' =
    if u64_val (header_slot s) =? 0 then set_root (b_parent_root block) (st_latest_justified s)
    else st_latest_justified s;
  hd_finalized : st_latest_finalized s' =
    if u64_val (header_slot s) =? 0 then set_root (b_parent_root block) (st_latest_finalized s)
    else st_latest_finalized s;
  hd_window : covers (st_justified_slots s') (fin_slot s') (b_slot block - 1);
  hd_window_len : len (st_justified_slots s') =
    N.max (len (st_justified_slots s)) (b_slot block - 1 - fin_slot s);
  hd_window_bits : ∀ t : u64, is_slot_justified (st_justified_slots s') (fin_slot s') t =
    is_slot_justified (st_justified_slots s) (fin_slot s) t;
  hd_validators : st_validators s' = st_validators s;
  hd_roots : st_justifications_roots s' = st_justifications_roots s;
  hd_votes : st_justifications_validators s' = st_justifications_validators s;
}.

Lemma num_validators_u64 s :
  core_wf s → u64_val (to_u64 (len (st_validators s))) = len (st_validators s).
Proof. intros [_ _ Hv _ _ _ _ _]. unfold VALIDATOR_REGISTRY_LIMIT in Hv. lia. Qed.

Lemma current_proposer_wf s (slot : u64) :
  core_wf s →
  current_proposer slot (to_u64 (len (st_validators s))) =
    Some (to_u64 (slot mod len (st_validators s))).
Proof.
  intros Hwf. unfold current_proposer. rewrite (num_validators_u64 s Hwf).
  pose proof (wf_validators s Hwf). by rewrite (proj2 (N.ltb_lt _ _)) by lia.
Qed.

(** The first block after genesis fixes the roots of the genesis checkpoints. *)
Definition with_genesis_roots (root : H256) (s : State) : State :=
  if u64_val (header_slot s) =? 0 then
    set_latest_finalized (set_root root (st_latest_finalized s))
      (set_latest_justified (set_root root (st_latest_justified s)) s)
  else s.

Lemma run_genesis_roots root s :
  (if u64_val (bh_slot (st_latest_block_header s)) =? 0 then
     modify (λ s, set_latest_justified (set_root root (st_latest_justified s)) s);;
     modify (λ s, set_latest_finalized (set_root root (st_latest_finalized s)) s)
   else mret tt : M State Error unit) s = Done (with_genesis_roots root s) tt.
Proof.
  unfold with_genesis_roots, header_slot.
  destruct (u64_val (bh_slot (st_latest_block_header s)) =? 0); by run.
Qed.

Lemma with_genesis_roots_fields root s :
  let s1 := with_genesis_roots root s in
  st_config s1 = st_config s ∧ st_slot s1 = st_slot s ∧
  st_latest_justified s1 = (if u64_val (header_slot s) =? 0
    then set_root root (st_latest_justified s) else st_latest_justified s) ∧
  st_latest_finalized s1 = (if u64_val (header_slot s) =? 0
    then set_root root (st_latest_finalized s) else st_latest_finalized s) ∧
  cp_slot (st_latest_finalized s1) = fin_slot s ∧
  st_justified_slots s1 = st_justified_slots s ∧ st_validators s1 = st_validators s ∧
  st_justifications_roots s1 = st_justifications_roots s ∧
  st_justifications_validators s1 = st_justifications_validators s.
Proof. unfold with_genesis_roots. cbn. by destruct (u64_val (header_slot s) =? 0). Qed.

(** The slot-gap arithmetic does not wrap on a well-formed state. *)
Lemma gap_arithmetic s (slot : u64) :
  core_wf s → header_slot s < slot →
  let gap := wrapping_sub (wrapping_sub slot (header_slot s)) (to_u64 1) in
  u64_val gap = slot - header_slot s - 1 ∧
  u64_val (wrapping_add (wrapping_add (to_u64 (len (st_historical_block_hashes s))) (to_u64 1)) gap) =
    slot ∧
  len (st_historical_block_hashes s) + 1 + gap = slot.
Proof.
  intros [Hlen Hlim _ _ _ _ _ _] Hnew gap. unfold HISTORICAL_ROOTS_LIMIT in Hlim.
  assert (Hgap : u64_val gap = slot - header_slot s - 1)
    by (unfold gap; rewrite wrapping_sub_le; rewrite wrapping_sub_le; lia).
  split_and!; [done| |lia].
  unfold wrapping_add. rewrite !to_u64_val, Hgap, Hlen. pose proof (u64_lt slot). lia.
Qed.

(** A rejected header leaves an error, an accepted one the state described above; there
    is no third case. *)
Lemma process_block_header_cases s block :
  core_wf s →
  (∃ s' e, process_block_header block s = Fail s' e ∧ ¬ header_accepted s block) ∨
  (∃ s', process_block_header block s = Done s' tt ∧
         header_accepted s block ∧ header_applied s block s').
Proof.
  intros Hwf. unfold process_block_header. run. fold (header_slot s).
  case_bool_decide as Hslot; cbn [negb]; [|left; do 2 eexists; split; [done|by intros []]].
  destruct (N.leb_spec (b_slot block) (header_slot s)) as [Hle|Hnew].
  { left; do 2 eexists; split; [done|]. intros []; lia. }
  rewrite current_proposer_wf by done. run.
  assert (Hmod : u64_val (to_u64 (b_slot block mod len (st_validators s))) =
                 b_slot block mod len (st_validators s)).
  { pose proof (wf_validators s Hwf). pose proof (u64_lt (b_slot block)).
    pose proof (N.Div0.mod_le (b_slot block) (len (st_validators s))). apply to_u64_small. lia. }
  case_bool_decide as Hprop; cbn [negb].
  2:{ left; do 2 eexists; split; [done|]. intros [_ _ Hp _ _]. apply Hprop, u64_eq. congruence. }
  run. case_bool_decide as Hpar; cbn [negb]; [|left; do 2 eexists; split; [done|by intros []]].
  run. fold (header_slot s).
  pose proof (run_genesis_roots (tree_hash_root (st_latest_block_header s)) s) as Hm.
  fold (header_slot s) in Hm. rewrite Hm. clear Hm.
  destruct (gap_arithmetic s (b_slot block) Hwf Hnew) as (Hgap & Htot & Hsum). rewrite Htot.
  destruct (N.ltb_spec HISTORICAL_ROOTS_LIMIT (b_slot block)) as [Hbig|Hfit].
  { left; do 2 eexists; split; [done|]. intros []; lia. }
  rewrite variable_list_new_spec, (proj2 (N.leb_le _ _)) by (autorewrite with len; lia).
  run.
  rewrite <- Hpar, Hgap. pose proof (with_genesis_roots_fields (b_parent_root block) s) as Hs1.
  set (s1 := with_genesis_roots (b_parent_root block) s) in *. cbv zeta in Hs1.
  destruct Hs1 as (Hcf & Hsl & Hj1 & Hf1 & Hfs & Hjs & Hva & Hro & Hvo).
  assert (Hlast : u64_val (wrapping_sub (b_slot block) (to_u64 1)) = b_slot block - 1)
    by (apply wrapping_sub_le; lia).
  destruct (extend_to_slot_spec (st_justified_slots s) (fin_slot s)
    (wrapping_sub (b_slot block) (to_u64 1))) as (slots & Hext & Hcov & Hwl & Hbits); [lia|].
  clearbody s1. cbn. rewrite Hjs, Hfs, Hext. run. right.
  eexists. split; [done|]. rewrite Hlast in Hcov, Hwl.
  split; [split; congruence || lia|].
  split; cbn; unfold fin_slot in *; cbn; rewrite ?Hfs; done.
Qed.

End block_header.

Section header_invariant.
Context `{STL : SszTypesLaws} `{HS : Hashing}.

Lemma header_applied_slots s block s' :
  header_applied s block s' → fin_slot s' = fin_slot s ∧ just_slot s' = just_slot s.
Proof.
  intros Ha. unfold fin_slot, just_slot. rewrite (hd_finalized _ _ _ Ha), (hd_justified _ _ _ Ha).
  by destruct (u64_val (header_slot s) =? 0).
Qed.

Lemma header_applied_len s block s' :
  core_wf s → header_accepted s block → header_applied s block s' →
  len (st_historical_block_hashes s') = b_slot block.
Proof.
  intros Hwf Hacc Ha. rewrite (hd_history _ _ _ Ha). autorewrite with len.
  rewrite (wf_hist_len s Hwf). pose proof (ha_newer _ _ Hacc). lia.
Qed.

Lemma header_applied_wf s block s' :
  state_wf s → header_accepted s block → header_applied s block s' → state_wf s'.
Proof.
  intros [Hc Ht] Hacc Ha. pose proof (header_applied_len s block s' Hc Hacc Ha) as Hlen.
  destruct (header_applied_slots _ _ _ Ha) as [Hf Hj].
  pose proof (ha_newer _ _ Hacc) as Hnew. pose proof (ha_history _ _ Hacc) as Hlim.
  assert (Hh : header_slot s' = b_slot block)
    by (unfold header_slot; by rewrite (hd_header _ _ _ Ha)).
  split; split.
  - by rewrite Hlen, Hh.
  - by rewrite Hlen.
  - rewrite (hd_validators _ _ _ Ha). apply Hc.
  - rewrite Hh, (hd_slot _ _ _ Ha), (ha_slot _ _ Hacc). done.
  - rewrite Hf, Hj. apply Hc.
  - rewrite Hj, Hlen. pose proof (wf_justified_past s Hc). pose proof (wf_hist_len s Hc). lia.
  - rewrite Hh. apply (hd_window _ _ _ Ha).
  - rewrite (hd_window_len _ _ _ Ha). pose proof (wf_window_limit s Hc). lia.
  - rewrite (hd_roots _ _ _ Ha). apply Ht.
  - rewrite (hd_roots _ _ _ Ha). apply Ht.
  - intros r. rewrite (hd_roots _ _ _ Ha). intros Hr.
    destruct (wf_roots_candidates s Ht r Hr) as (Hz & slot & Hs & Hget).
    split; [done|]. exists slot. rewrite Hf. split; [done|].
    rewrite (hd_history _ _ _ Ha), get_at_lookup. apply lookup_app_l_Some.
    by rewrite <- get_at_lookup.
  - rewrite (hd_roots _ _ _ Ha), (hd_votes _ _ _ Ha), (hd_validators _ _ _ Ha). apply Ht.
Qed.

(** [process_slots] only moves the slot and completes the header. *)
Lemma process_slots_cases (target : u64) s :
  (process_slots target s = Fail s (StateSlotIsNewer target (st_slot s)) ∧ target <= st_slot s) ∨
  (∃ h, process_slots target s = Done (set_slot target (set_latest_block_header h s)) tt ∧
        st_slot s < target ∧ bh_slot h = header_slot s).
Proof.
  unfold process_slots. run. destruct (N.leb_spec target (st_slot s)); [by left|right].
  destruct (is_zero _); run.
  - eexists. split; [done|]. split; [lia|done].
  - exists (st_latest_block_header s). split; [by destruct s|]. split; [lia|done].
Qed.

Lemma slots_moved_wf (target : u64) h s :
  state_wf s → st_slot s < target → bh_slot h = header_slot s →
  state_wf (set_slot target (set_latest_block_header h s)).
Proof.
  intros [Hc Ht] Hlt Hh. destruct Hc, Ht. split; split; unfold header_slot in *; cbn;
    rewrite ?Hh; try done. unfold header_slot in *. lia.
Qed.

End header_invariant.

(** * Attestations *)

Section attestations.
Context `{STL : SszTypesLaws} `{HOL : HashOrderLaws}.

(** [root_to_slot] maps a root to the latest slot above the finalized one where it
    occurs. *)
Definition latest_slot_of (hist : list H256) (lo hi : N) (r : H256) (x : u64) : Prop :=
  lo < x ∧ x < hi ∧ get_at hist x = Some r ∧
  ∀ y : u64, lo < y → y < hi → get_at hist y = Some r → y <= x.

(** A root that occurs in a range has a latest occurrence. *)
Lemma latest_slot_exists hist lo hi r (y : u64) :
  hi <= HISTORICAL_ROOTS_LIMIT → lo < y → y < hi → get_at hist y = Some r →
  ∃ x, latest_slot_of hist lo hi r x.
Proof.
  unfold HISTORICAL_ROOTS_LIMIT. intros Hlim.
  remember (N.to_nat (hi - y)) as n eqn:Hn. revert y Hn.
  induction n as [n IH] using lt_wf_ind. intros y Hn Hlo Hhi Hget.
  destruct (decide (Exists (λ z : u64, get_at hist z = Some r) (u64_range (y + 1) hi)))
    as [(z & Hz & Hzr)%Exists_exists|Hno].
  - apply elem_of_u64_range in Hz; [|unfold u64_modulus; lia].
    eapply (IH (N.to_nat (hi - z))); [|done|..|done]; lia.
  - exists y. split_and!; [done..|]. intros z Hz1 Hz2 Hzr.
    destruct (N.leb_spec z y); [done|]. exfalso. apply Hno, Exists_exists. exists z. split; [|done].
    apply elem_of_u64_range; [unfold u64_modulus; lia|lia].
Qed.

(** One step of the loop that builds the map. *)
Definition note_slot (hist : list H256) (m : gmap H256 u64) (slot : u64) : gmap H256 u64 :=
  match get_at hist slot with
  | Some root => <[root := match m !! root with
                           | Some x => if u64_val x <? u64_val slot then slot else x
                           | None => slot
                           end]> m
  | None => m
  end.

Lemma note_slot_spec hist lo (slot : u64) (m : gmap H256 u64) :
  lo < slot → slot < len hist →
  (∀ r x, m !! r = Some x ↔ latest_slot_of hist lo slot r x) →
  ∀ r x, note_slot hist m slot !! r = Some x ↔ latest_slot_of hist lo (slot + 1) r x.
Proof.
  intros Hlo Hhi IH r x. unfold note_slot, latest_slot_of in *.
  destruct (get_at_lt hist slot) as [root Hroot]; [lia|]. rewrite Hroot.
  destruct (decide (root = r)) as [->|Hne].
  - rewrite lookup_insert_eq.
    assert (Hmax : match m !! r with
                   | Some x => if u64_val x <? u64_val slot then slot else x
                   | None => slot end = slot).
    { destruct (m !! r) as [y|] eqn:HM; [|done]. apply IH in HM as (_ & Hy & _).
      by rewrite (proj2 (N.ltb_lt _ _)). }
    rewrite Hmax. split.
    + intros [= <-]. split_and!; [lia|lia|done|]. intros; lia.
    + intros (Hl1 & Hl2 & Hl3 & Hl4). f_equal. apply u64_eq.
      specialize (Hl4 slot ltac:(lia) ltac:(lia) Hroot). lia.
  - rewrite lookup_insert_ne by done. rewrite IH. split.
    + intros (Hl1 & Hl2 & Hl3 & Hl4). split_and!; [lia|lia|done|]. intros y Hy1 Hy2 Hy3.
      apply Hl4; [done| |done]. destruct (decide (y = slot)) as [->|]; [congruence|lia].
    + intros (Hl1 & Hl2 & Hl3 & Hl4). assert (x ≠ slot) by congruence.
      split_and!; [lia|lia|done|]. intros; apply Hl4; [done|lia|done].
Qed.

Lemma note_slot_loop hist (a : N) n :
  a + N.of_nat n <= len hist → len hist <= HISTORICAL_ROOTS_LIMIT → 0 < a →
  ∀ r x, foldl (note_slot hist) ∅ ((λ i, to_u64 (a + N.of_nat i)) <$> seq 0 n) !! r = Some x ↔
    latest_slot_of hist (a - 1) (a + N.of_nat n) r x.
Proof.
  intros Hn Hlim Ha. unfold HISTORICAL_ROOTS_LIMIT in Hlim. induction n as [|n IH]; intros r x.
  { cbn. rewrite lookup_empty. split; [done|]. intros (Hl1 & Hl2 & _). lia. }
  rewrite seq_S, fmap_app, foldl_app. cbn [fmap list_fmap foldl Nat.add].
  assert (Hslot : u64_val (to_u64 (a + N.of_nat n)) = a + N.of_nat n) by (apply to_u64_small; lia).
  rewrite (note_slot_spec hist (a - 1)); [|lia|lia|].
  - rewrite Hslot. by replace (a + N.of_nat (S n)) with (a + N.of_nat n + 1) by lia.
  - rewrite Hslot. apply IH. lia.
Qed.

Lemma root_to_slot_map_spec s r x :
  core_wf s →
  root_to_slot_map s !! r = Some x ↔
  latest_slot_of (st_historical_block_hashes s) (fin_slot s)
    (len (st_historical_block_hashes s)) r x.
Proof.
  intros Hwf. pose proof (wf_hist_limit s Hwf) as Hlim.
  pose proof (wf_justified_past s Hwf). pose proof (wf_finalized_justified s Hwf).
  assert (Hstart : u64_val (wrapping_add (fin_slot s) (to_u64 1)) = fin_slot s + 1).
  { unfold HISTORICAL_ROOTS_LIMIT in Hlim. unfold wrapping_add. rewrite (to_u64_small 1) by done.
    apply to_u64_small. lia. }
  unfold root_to_slot_map. fold (fin_slot s).
  change (foldl _ _ _) with (foldl (note_slot (st_historical_block_hashes s)) ∅
    (u64_range (wrapping_add (fin_slot s) (to_u64 1)) (len (st_historical_block_hashes s)))).
  unfold u64_range. rewrite Hstart.
  destruct (N.leb_spec (len (st_historical_block_hashes s)) (fin_slot s)).
  - replace (N.to_nat _) with 0%nat by lia. cbn. rewrite lookup_empty.
    split; [done|]. intros (Hl1 & Hl2 & _). lia.
  - rewrite note_slot_loop by lia.
    replace (fin_slot s + 1 - 1) with (u64_val (fin_slot s)) by lia.
    by replace (fin_slot s + 1 + N.of_nat (N.to_nat (len (st_historical_block_hashes s) - (fin_slot s + 1))))
      with (len (st_historical_block_hashes s)) by lia.
Qed.

(** The pruning test of [try_finalize]: the root still occurs above the new boundary. *)
Lemma prune_test s fin' r :
  core_wf s → fin_slot s <= fin' →
  match root_to_slot_map s !! r with Some slot => fin' <? u64_val slot | None => false end = true ↔
  ∃ slot : N, fin' < slot ∧ get_at (st_historical_block_hashes s) slot = Some r.
Proof.
  intros Hwf Hf. pose proof (wf_hist_limit s Hwf) as Hlim. unfold HISTORICAL_ROOTS_LIMIT in Hlim.
  split.
  - destruct (root_to_slot_map s !! r) as [x|] eqn:Hx; [|done].
    apply root_to_slot_map_spec in Hx as (_ & _ & Hget & _); [|done].
    intros Hlt%N.ltb_lt. by exists x.
  - intros (slot & Hlt & Hget). pose proof (get_at_Some _ _ _ Hget) as Hl.
    set (y := to_u64 slot). assert (Hy : u64_val y = slot) by (apply to_u64_small; lia).
    destruct (root_to_slot_map s !! r) as [x|] eqn:Hx.
    + apply root_to_slot_map_spec in Hx as (_ & _ & _ & Hmax); [|done].
      apply N.ltb_lt. specialize (Hmax y). rewrite Hy in Hmax. specialize (Hmax ltac:(lia) ltac:(lia) Hget). lia.
    + exfalso. destruct (latest_slot_exists (st_historical_block_hashes s) (fin_slot s)
        (len (st_historical_block_hashes s)) r y) as [x Hlatest];
        [unfold HISTORICAL_ROOTS_LIMIT; lia|lia|lia|by rewrite Hy|].
      apply root_to_slot_map_spec in Hlatest; congruence.
Qed.

End attestations.
