(* ===== verification/Attestations.v ===== *)
(** The attestation loop: each attestation is one step of an abstract justification and
    finalization machine; the machine preserves the state invariant and finalization
    never moves backwards. *)

From S2P Require Import Prelude Types JustifiedSlots StateTransition Tallies StateInvariant BlockProcessing.

(** * The abstract machine *)

Definition supermajority (n : N) (votes : list bool) : Prop := 2 * n <= 3 * count_votes votes.

Section machine.
Context `{ST : SszTypes}.

(** A slot strictly between source and target that could still be justified. *)
Definition justifiable_between (s : State) (source target : Checkpoint) : Prop :=
  ∃ slot : u64, cp_slot source < slot ∧ slot < cp_slot target ∧
    slot_is_justifiable_after slot (fin_slot s) = true.

Definition tally (s : State) (J : Justifications) (r : H256) : list bool :=
  default (replicate (N.to_nat (len (st_validators s))) false) (J !! r).

(** [s'] is [s] with [target] justified and [finalized] as finalized checkpoint. *)
Record justified_with (s : State) (target finalized : Checkpoint) (s' : State) : Prop := {
  jw_chain : same_chain s s';
  jw_config : st_config s' = st_config s;
  jw_justified : st_latest_justified s' = target;
  jw_finalized : st_latest_finalized s' = finalized;
  jw_window : covers (st_justified_slots s') (cp_slot finalized) (header_slot s - 1);
  jw_window_limit : len (st_justified_slots s') <= HISTORICAL_ROOTS_LIMIT;
  jw_bits : ∀ t : u64, cp_slot finalized < t →
    is_slot_justified (st_justified_slots s') (cp_slot finalized) t =
      bool_decide (t = cp_slot target) || is_slot_justified (st_justified_slots s) (fin_slot s) t;
  jw_roots : st_justifications_roots s' = st_justifications_roots s;
  jw_votes : st_justifications_validators s' = st_justifications_validators s;
}.

(** The votes that survive finalization: roots that still occur above the boundary. *)
Definition pruned (s : State) (finalized_slot : N) (J J' : Justifications) : Prop :=
  ∀ r v, J' !! r = Some v ↔
    J !! r = Some v ∧
    ∃ slot : N, finalized_slot < slot ∧ get_at (st_historical_block_hashes s) slot = Some r.

Inductive attestation_step (s : State) (J : Justifications) (att : AggregatedAttestation) :
    State → Justifications → Prop :=
| step_ignored :
    is_valid_vote s (ad_source (aa_data att)) (ad_target (aa_data att)) = false →
    attestation_step s J att s J
| step_oversized :
    is_valid_vote s (ad_source (aa_data att)) (ad_target (aa_data att)) = true →
    len (st_validators s) < len (aa_aggregation_bits att) →
    attestation_step s J att s
      (<[cp_root (ad_target (aa_data att)) := tally s J (cp_root (ad_target (aa_data att)))]> J)
| step_counted votes :
    is_valid_vote s (ad_source (aa_data att)) (ad_target (aa_data att)) = true →
    len (aa_aggregation_bits att) <= len (st_validators s) →
    votes = or_bits (tally s J (cp_root (ad_target (aa_data att)))) (aa_aggregation_bits att) →
    ¬ supermajority (len (st_validators s)) votes →
    attestation_step s J att s (<[cp_root (ad_target (aa_data att)) := votes]> J)
| step_justified s' :
    is_valid_vote s (ad_source (aa_data att)) (ad_target (aa_data att)) = true →
    len (aa_aggregation_bits att) <= len (st_validators s) →
    supermajority (len (st_validators s))
      (or_bits (tally s J (cp_root (ad_target (aa_data att)))) (aa_aggregation_bits att)) →
    justifiable_between s (ad_source (aa_data att)) (ad_target (aa_data att)) →
    justified_with s (ad_target (aa_data att)) (st_latest_finalized s) s' →
    attestation_step s J att s' (delete (cp_root (ad_target (aa_data att))) J)
| step_finalized s' J' :
    is_valid_vote s (ad_source (aa_data att)) (ad_target (aa_data att)) = true →
    len (aa_aggregation_bits att) <= len (st_validators s) →
    supermajority (len (st_validators s))
      (or_bits (tally s J (cp_root (ad_target (aa_data att)))) (aa_aggregation_bits att)) →
    ¬ justifiable_between s (ad_source (aa_data att)) (ad_target (aa_data att)) →
    fin_slot s <= cp_slot (ad_source (aa_data att)) →
    justified_with s (ad_target (aa_data att)) (ad_source (aa_data att)) s' →
    pruned s (cp_slot (ad_source (aa_data att)))
      (delete (cp_root (ad_target (aa_data att))) J) J' →
    attestation_step s J att s' J'.

End machine.

(** * The code implements the machine *)

Section refinement.
Context `{STL : SszTypesLaws} `{HOL : HashOrderLaws}.

Lemma existsb_justifiable_between s (source target : Checkpoint) :
  cp_slot source < cp_slot target →
  existsb (λ slot, slot_is_justifiable_after slot (fin_slot s))
    (u64_range (wrapping_add (cp_slot source) (to_u64 1)) (cp_slot target)) = true ↔
  justifiable_between s source target.
Proof.
  intros Hlt. rewrite existsb_exists. unfold justifiable_between.
  setoid_rewrite <- list_elem_of_In. pose proof (u64_lt (cp_slot target)) as Hb.
  assert (Hs : u64_val (wrapping_add (cp_slot source) (to_u64 1)) = cp_slot source + 1)
    by (unfold wrapping_add; lia).
  rewrite Hs. split.
  - intros (x & Hx & Hj). apply elem_of_u64_range in Hx; [|unfold u64_modulus; lia].
    exists x. split_and!; [lia|lia|done].
  - intros (x & Hx1 & Hx2 & Hj). exists x. split; [|done].
    apply elem_of_u64_range; [unfold u64_modulus; lia|lia].
Qed.

(** Justifying the target of a valid vote. *)
Lemma justify_target s (target : Checkpoint) :
  core_wf s →
  get_at (st_historical_block_hashes s) (cp_slot target) = Some (cp_root target) →
  ∃ slots, set_justified (st_justified_slots s) (fin_slot s) (cp_slot target) = Return slots ∧
    justified_with s target (st_latest_finalized s)
      (set_justified_slots slots (set_latest_justified target s)).
Proof.
  intros Hwf Hget. apply get_at_Some in Hget. rewrite (wf_hist_len s Hwf) in Hget.
  destruct (set_justified_spec (st_justified_slots s) (fin_slot s) (cp_slot target))
    as (slots & Hset & Hlen & Hbits).
  { pose proof (wf_covers s Hwf). unfold covers in *. lia. }
  exists slots. split; [done|]. split; cbn; try done.
  - pose proof (wf_covers s Hwf). unfold covers in *. fold (fin_slot s). lia.
  - rewrite Hlen. apply Hwf.
Qed.

(** [try_finalize] after the target has been justified. *)
Lemma try_finalize_spec s s0 s1 (source target : Checkpoint) J :
  core_wf s → core_wf s0 → same_chain s0 s → fin_slot s0 <= fin_slot s →
  cp_slot source < cp_slot target → fin_slot s < cp_slot target →
  justified_with s target (st_latest_finalized s) s1 →
  (∃ s', try_finalize source target J (root_to_slot_map s0) s1 = Done s' J ∧
     justifiable_between s source target ∧
     justified_with s target (st_latest_finalized s) s') ∨
  (∃ s' J', try_finalize source target J (root_to_slot_map s0) s1 = Done s' J' ∧
     ¬ justifiable_between s source target ∧ fin_slot s <= cp_slot source ∧
     justified_with s target source s' ∧ pruned s (cp_slot source) J J').
Proof.
  intros Hwf Hwf0 Hchain Hfin0 Hst Hft [Hsame Hcfg Hj Hf Hcov Hlim Hbits Hro Hvo].
  unfold try_finalize. run. rewrite Hf. fold (fin_slot s).
  destruct (existsb _ _) eqn:Hex.
  { left. exists s1. apply existsb_justifiable_between in Hex; [|done]. by split_and!. }
  right. run. cbn [set_latest_finalized st_justified_slots].
  assert (Hback : fin_slot s <= cp_slot source) by (by eapply finalization_not_backwards).
  assert (Hnot : ¬ justifiable_between s source target).
  { intros Hc. apply existsb_justifiable_between in Hc; [|done]. congruence. }
  assert (Hd : u64_val (wrapping_sub (cp_slot source) (fin_slot s)) = cp_slot source - fin_slot s)
    by (by apply wrapping_sub_le).
  destruct (shift_window_spec (st_justified_slots s1) (wrapping_sub (cp_slot source) (fin_slot s)))
    as (slots & Hshift & Hlen & Hget); [done|].
  rewrite Hshift. run. do 2 eexists. split; [done|]. split_and!; [done|done| |].
  - rewrite Hd in *. split; cbn; try done.
    + destruct Hsame. split; done.
    + unfold covers in *. fold (fin_slot s) in Hcov. lia.
    + lia.
    + intros t Ht. fold (fin_slot s) in Hbits.
      rewrite (shift_window_justified (st_justified_slots s1) slots (fin_slot s) (cp_slot source) t Hback Ht); [|done].
      apply Hbits. lia.
  - intros r v. cbn. rewrite lookup_retain, prune_test; [|done|lia].
    by rewrite (same_history _ _ Hchain).
Qed.

(** The code's treatment of one attestation is one step of the machine; it returns. *)
Lemma process_attestation_step s0 s J att :
  core_wf s → core_wf s0 → same_chain s0 s → fin_slot s0 <= fin_slot s → votes_wf s J →
  ∃ s' J', process_attestation (len (st_validators s)) (root_to_slot_map s0) J att s = Done s' J' ∧
    attestation_step s J att s' J'.
Proof.
  intros Hwf Hwf0 Hchain Hfin0 Hvotes. unfold process_attestation. run.
  destruct (is_valid_vote s _ _) eqn:Hv; cbn [negb].
  2:{ exists s, J. split; [by run|]. by apply step_ignored. }
  fold (tally s J (cp_root (ad_target (aa_data att)))).
  set (target := ad_target (aa_data att)) in *. set (source := ad_source (aa_data att)) in *.
  pose proof Hv as Hspec. apply is_valid_vote_spec in Hspec as
    (_ & Hunj & _ & _ & _ & Htget & Hlt & _).
  assert (Hft : fin_slot s < cp_slot target) by (by eapply unjustified_above_finalized).
  destruct (N.ltb_spec (len (st_validators s)) (len (aa_aggregation_bits att))) as [Hover|Hfit].
  { do 2 eexists. split; [by run|]. by apply step_oversized. }
  assert (Htl : length (tally s J (cp_root target)) = length (st_validators s)).
  { unfold tally. destruct (J !! cp_root target) as [v|] eqn:HJ; cbn.
    - destruct (Hvotes _ _ HJ) as [_ Hl]. unfold len in Hl. lia.
    - rewrite length_replicate. unfold len. lia. }
  run. rewrite record_votes by (unfold len in Hfit; lia). run.
  destruct (N.leb_spec (2 * len (st_validators s))
    (3 * count_votes (or_bits (tally s J (cp_root target)) (aa_aggregation_bits att)))) as [Hsm|Hsm].
  2:{ do 2 eexists. split; [by run|]. rewrite insert_insert_eq.
      eapply step_counted; [done|done|done|]. unfold supermajority. lia. }
  run. destruct (justify_target s target Hwf Htget) as (slots & Hset & Hjust).
  cbn [set_latest_justified st_justified_slots st_latest_finalized]. fold (fin_slot s).
  rewrite Hset. run. rewrite insert_insert_eq, delete_insert_eq.
  destruct (try_finalize_spec s s0 _ source target (delete (cp_root target) J)
    Hwf Hwf0 Hchain Hfin0 Hlt Hft Hjust) as [(s' & Hrun & Hb & Hjw)|(s' & J' & Hrun & Hb & Hle & Hjw & Hpr)].
  - exists s', (delete (cp_root target) J). split; [done|]. by apply step_justified.
  - exists s', J'. split; [done|]. by apply step_finalized.
Qed.

(** * Invariants of the machine *)

Lemma justified_with_core s (target finalized : Checkpoint) s' :
  core_wf s →
  get_at (st_historical_block_hashes s) (cp_slot target) = Some (cp_root target) →
  cp_slot finalized <= cp_slot target →
  justified_with s target finalized s' → core_wf s'.
Proof.
  intros Hwf Hget Hle [Hsame Hcfg Hj Hf Hcov Hlim Hbits Hro Hvo].
  apply get_at_Some in Hget. destruct Hsame as [Hs1 Hs2 Hs3 Hs4], Hwf.
  split; unfold header_slot, fin_slot, just_slot in *; rewrite ?Hs1, ?Hs2, ?Hs3, ?Hs4, ?Hj, ?Hf; done || lia.
Qed.

Lemma candidate_target s (source target : Checkpoint) :
  is_valid_vote s source target = true → candidate s (cp_root target).
Proof.
  intros Hv. apply is_valid_vote_spec in Hv as (_ & Hunj & _ & Hz & _ & Hget & _ & _).
  split; [done|]. exists (cp_slot target). split; [|done].
  by eapply unjustified_above_finalized.
Qed.

Lemma votes_wf_insert s J r v :
  votes_wf s J → candidate s r → len v = len (st_validators s) → votes_wf s (<[r := v]> J).
Proof.
  intros Hv Hc Hl r' v' [[<- <-]|[_ HJ]]%lookup_insert_Some; [done|]. by apply Hv.
Qed.

Lemma tally_len s J r : votes_wf s J → len (tally s J r) = len (st_validators s).
Proof.
  intros Hv. unfold tally. destruct (J !! r) as [v|] eqn:HJ; cbn; [by apply (Hv r)|].
  autorewrite with len. lia.
Qed.

Lemma votes_wf_chain s s' (J J' : Justifications) :
  same_chain s s' → votes_wf s J →
  (∀ r v, J' !! r = Some v → J !! r = Some v ∧
     ∃ slot : N, fin_slot s' < slot ∧ get_at (st_historical_block_hashes s) slot = Some r) →
  votes_wf s' J'.
Proof.
  intros Hsame Hv HJ r v Hr. destruct (HJ r v Hr) as (HJr & slot & Hs & Hget).
  destruct (Hv r v HJr) as [[Hz _] Hl]. rewrite (same_validators _ _ Hsame). split; [|done].
  split; [done|]. exists slot. by rewrite (same_history _ _ Hsame).
Qed.

(** A step keeps the state well-formed, the votes consistent with it, and the finalized
    slot from decreasing. *)
Lemma attestation_step_invariant s J att s' J' :
  core_wf s → votes_wf s J → attestation_step s J att s' J' →
  core_wf s' ∧ votes_wf s' J' ∧ same_chain s s' ∧ fin_slot s <= fin_slot s'.
Proof.
  intros Hwf Hv Hstep. destruct Hstep as
    [Hval|Hval Hover|votes Hval Hfit -> Hsm|s' Hval Hfit Hsm Hb Hjw|s' J' Hval Hfit Hsm Hb Hle Hjw Hpr].
  - by split_and!.
  - split_and!; [done| |done|done]. apply votes_wf_insert; [done|by eapply candidate_target|].
    by apply tally_len.
  - split_and!; [done| |done|done]. apply votes_wf_insert; [done|by eapply candidate_target|].
    unfold len. rewrite or_bits_length. by apply tally_len.
  - pose proof Hval as (_ & Hunj & _ & _ & _ & Hget & Hlt & _)%is_valid_vote_spec.
    pose proof (unjustified_above_finalized _ _ _ Hunj) as Hft.
    assert (Hf : fin_slot s' = fin_slot s) by (unfold fin_slot; by rewrite (jw_finalized _ _ _ _ Hjw)).
    split_and!; [|..|apply Hjw|by rewrite Hf].
    + eapply justified_with_core; [done|done| |done]. unfold fin_slot in *. lia.
    + eapply votes_wf_chain; [apply Hjw|done|]. intros r v [_ HJ]%lookup_delete_Some.
      split; [done|]. rewrite Hf. by destruct (Hv r v HJ) as [[_ ?] _].
  - pose proof Hval as (_ & Hunj & _ & _ & _ & Hget & Hlt & _)%is_valid_vote_spec.
    assert (Hf : fin_slot s' = cp_slot (ad_source (aa_data att)))
      by (unfold fin_slot; by rewrite (jw_finalized _ _ _ _ Hjw)).
    split_and!; [|..|apply Hjw|by rewrite Hf].
    + eapply justified_with_core; [done|done| |done]. lia.
    + eapply votes_wf_chain; [apply Hjw|done|]. intros r v Hr. rewrite Hf.
      apply Hpr in Hr as [[_ HJ]%lookup_delete_Some Hslot]. done.
Qed.

End refinement.
