(* ===== verification/Transitions.v ===== *)
(** Whole transitions: the attestation loop as a run of the abstract machine, the
    invariant of the state transition function, the absence of panics, and the
    independence from the iteration order of hash maps. *)

From S2P Require Import Prelude Types JustifiedSlots StateTransition Reference Tallies StateInvariant BlockProcessing Attestations.

(** A block's attestations, one step each. *)
Inductive attestation_steps `{ST : SszTypes} :
    State → Justifications → list AggregatedAttestation → State → Justifications → Prop :=
| steps_nil s J : attestation_steps s J [] s J
| steps_cons s J att s1 J1 atts s2 J2 :
    attestation_step s J att s1 J1 →
    attestation_steps s1 J1 atts s2 J2 →
    attestation_steps s J (att :: atts) s2 J2.

(** The tallies [J] written into the state. *)
Definition with_tallies `{HO : HashOrder} (J : Justifications) (s : State) : State :=
  set_justifications (sorted_roots J) (concat ((λ r, default [] (J !! r)) <$> sorted_roots J)) s.

(** The checkpoints of the state are blocks of its own chain. *)
Definition anchored (s : State) : Prop :=
  0 < header_slot s →
  checkpoint_exists s (st_latest_justified s) = true ∧
  checkpoint_exists s (st_latest_finalized s) = true.

Section process_attestations.
Context `{STL : SszTypesLaws} `{HOL : HashOrderLaws}.

Lemma load_votes_wf s : state_wf s → votes_wf s (load_justifications s).
Proof.
  intros [Hc Ht] r v (i & Hr & ->)%load_justifications_lookup; [|apply Ht].
  split; [apply Ht; by eapply list_elem_of_lookup_2|].
  unfold len. f_equal. pose proof (wf_votes_len s Ht) as Hl. unfold len in Hl.
  apply (length_chunk _ _ (length (st_justifications_roots s))); [lia|by apply lookup_lt_Some in Hr].
Qed.

Lemma load_keys_wf s r :
  state_wf s → r ∈ st_justifications_roots s ↔ is_Some (load_justifications s !! r).
Proof.
  intros [_ Ht]. split.
  - intros [i Hi]%list_elem_of_lookup_1. eexists. apply load_justifications_lookup; [apply Ht|eauto].
  - intros [v (i & Hr & _)%load_justifications_lookup]; [by eapply list_elem_of_lookup_2|apply Ht].
Qed.

Lemma no_zero_roots s : state_wf s → existsb is_zero (st_justifications_roots s) = false.
Proof.
  intros [_ Ht]. destruct (existsb _ _) eqn:Hex; [|done].
  apply existsb_exists in Hex as (r & Hr%list_elem_of_In & Hz).
  destruct (wf_roots_candidates s Ht r Hr) as [Hne _].
  unfold is_zero in Hz. by apply bool_decide_eq_true in Hz.
Qed.

(** The loop runs the machine. *)
Lemma attestation_loop s0 atts :
  core_wf s0 → ∀ s J, core_wf s → votes_wf s J → same_chain s0 s → fin_slot s0 <= fin_slot s →
  ∃ s' J', foldM (process_attestation (len (st_validators s0)) (root_to_slot_map s0)) J atts s =
      Done s' J' ∧
    attestation_steps s J atts s' J' ∧ core_wf s' ∧ votes_wf s' J' ∧ same_chain s s' ∧
    fin_slot s <= fin_slot s'.
Proof.
  intros Hwf0. induction atts as [|att atts IH]; intros s J Hwf Hv Hsame Hfin; cbn.
  { exists s, J. split_and!; [done|constructor|done..]. }
  destruct (process_attestation_step s0 s J att) as (s1 & J1 & Hrun & Hstep); [done..|].
  rewrite (same_validators _ _ Hsame) in Hrun. rewrite run_bind, Hrun.
  destruct (attestation_step_invariant s J att s1 J1) as (Hwf1 & Hv1 & Hs1 & Hf1); [done..|].
  destruct (IH s1 J1) as (s2 & J2 & Hrun2 & Hsteps & Hwf2 & Hv2 & Hs2 & Hf2);
    [done|done|by etrans|lia|].
  exists s2, J2. split_and!; [done|by econstructor|done|done|by etrans|lia].
Qed.

Lemma sorted_roots_bounded s J : core_wf s → votes_wf s J → len (sorted_roots J) <= HISTORICAL_ROOTS_LIMIT.
Proof.
  intros Hwf Hv. etrans; [apply (candidates_bounded s); [apply sorted_roots_NoDup|]|apply Hwf].
  intros r [v Hr]%elem_of_sorted_roots. by apply (Hv r v).
Qed.

Lemma tallies_uniform s J :
  votes_wf s J →
  Forall (λ v, length v = length (st_validators s)) ((λ r, default [] (J !! r)) <$> sorted_roots J).
Proof.
  intros Hv. apply Forall_fmap, Forall_forall. intros r [v Hr]%elem_of_sorted_roots. cbn.
  rewrite Hr. cbn. destruct (Hv r v Hr) as [_ Hl]. unfold len in Hl. lia.
Qed.

Lemma with_tallies_wf s J : core_wf s → votes_wf s J → state_wf (with_tallies J s).
Proof.
  intros Hwf Hv. split; [by destruct Hwf; split|]. split; cbn.
  - apply sorted_roots_Sorted.
  - apply sorted_roots_NoDup.
  - intros r [v Hr]%elem_of_sorted_roots. by apply (Hv r v).
  - unfold len. rewrite (length_concat_uniform _ (length (st_validators s))).
    + rewrite length_fmap. lia.
    + by apply tallies_uniform.
Qed.

Lemma process_attestations_steps s atts :
  state_wf s →
  ∃ s1 J, attestation_steps s (load_justifications s) atts s1 J ∧
    process_attestations atts s = Done (with_tallies J s1) tt ∧
    core_wf s1 ∧ votes_wf s1 J ∧ same_chain s s1 ∧ fin_slot s <= fin_slot s1.
Proof.
  intros Hwf. pose proof (load_votes_wf s Hwf) as Hv0. pose proof Hwf as [Hc Ht].
  destruct (attestation_loop s atts Hc s (load_justifications s))
    as (s1 & J & Hrun & Hsteps & Hwf1 & Hv1 & Hsame & Hfin); [done..|].
  exists s1, J. split_and!; [done| |done..].
  unfold process_attestations. run. rewrite no_zero_roots by done. run. rewrite Hrun. run.
  rewrite serialize_justifications_spec; [done| | |apply Hc].
  - intros r v Hr. rewrite <- (same_validators _ _ Hsame). by apply (Hv1 r v).
  - by apply (sorted_roots_bounded s1).
Qed.

(** What a written state reads back as. *)
Lemma load_with_tallies s J :
  core_wf s → votes_wf s J → load_justifications (with_tallies J s) = J.
Proof.
  intros Hwf Hv. pose proof (with_tallies_wf s J Hwf Hv) as Hwf'.
  assert (Hdom : ∀ r, is_Some (load_justifications (with_tallies J s) !! r) ↔ is_Some (J !! r)).
  { intros r. rewrite <- load_keys_wf by done. cbn. apply elem_of_sorted_roots. }
  apply map_eq. intros r. destruct (load_justifications _ !! r) as [v|] eqn:Hl.
  2:{ symmetry. apply eq_None_not_Some. rewrite <- Hdom, Hl. by intros []. }
  destruct (proj1 (Hdom r)) as [w Hw]; [by eauto|]. rewrite Hw. f_equal.
  apply load_justifications_lookup in Hl as (i & Hi & ->); [|apply Hwf'].
  cbn [with_tallies set_justifications st_justifications_roots st_validators
    st_justifications_validators] in Hi |- *.
  eapply chunk_concat.
  - by apply tallies_uniform.
  - by rewrite list_lookup_fmap, Hi; cbn; rewrite Hw.
Qed.

(** Reading and writing back an untouched state changes nothing. *)
Lemma with_loaded_tallies s : state_wf s → with_tallies (load_justifications s) s = s.
Proof.
  intros Hwf. pose proof Hwf as [_ Ht].
  assert (Hroots : sorted_roots (load_justifications s) = st_justifications_roots s).
  { apply sorted_roots_unique; [apply Ht..|]. intros r. by apply load_keys_wf. }
  assert (Hvotes : (λ r, default [] (load_justifications s !! r)) <$> st_justifications_roots s =
    (λ i, take (length (st_validators s)) (drop (i * length (st_validators s))
       (st_justifications_validators s))) <$> seq 0 (length (st_justifications_roots s))).
  { rewrite <- imap_lookup_fmap. apply list_eq. intros i.
    rewrite list_lookup_fmap, list_lookup_imap.
    destruct (st_justifications_roots s !! i) as [r|] eqn:Hr; [|done]. cbn. f_equal.
    by rewrite (proj2 (load_justifications_lookup s r _ (wf_roots_distinct s Ht))) by eauto. }
  unfold with_tallies. rewrite Hroots, Hvotes, concat_chunks; [by destruct s|].
  pose proof (wf_votes_len s Ht) as Hl. unfold len in Hl. lia.
Qed.

End process_attestations.

(** * Blocks *)

Section blocks.
Context `{STL : SszTypesLaws} `{HS : Hashing} `{HOL : HashOrderLaws}.

Lemma checkpoint_exists_get s c :
  checkpoint_exists s c = true ↔ get_at (st_historical_block_hashes s) (cp_slot c) = Some (cp_root c).
Proof.
  unfold checkpoint_exists. destruct (get_at _ _); [|done].
  rewrite bool_decide_eq_true. naive_solver.
Qed.

Lemma anchored_step s J att s' J' :
  core_wf s → 0 < header_slot s → anchored s → attestation_step s J att s' J' → anchored s'.
Proof.
  intros Hwf Hpos Ha Hstep. destruct (Ha Hpos) as [Hj Hf].
  destruct Hstep as [| | |s' Hval Hx1 Hx2 Hx3 Hjw|s' J' Hval Hx1 Hx2 Hx3 Hx4 Hjw Hx5]; [done|done|done| |];
    intros _; apply is_valid_vote_spec in Hval as (_ & _ & _ & _ & Hs & Ht & _);
    rewrite !checkpoint_exists_get, (same_history _ _ (jw_chain _ _ _ _ Hjw)),
      (jw_justified _ _ _ _ Hjw), (jw_finalized _ _ _ _ Hjw).
  - by rewrite checkpoint_exists_get in Hf.
  - done.
Qed.

Lemma anchored_steps s J atts s' J' :
  core_wf s → votes_wf s J → 0 < header_slot s → anchored s →
  attestation_steps s J atts s' J' → anchored s'.
Proof.
  intros Hwf Hv Hpos Ha Hsteps. induction Hsteps as [|s J att s1 J1 atts s2 J2 Hstep _ IH]; [done|].
  destruct (attestation_step_invariant s J att s1 J1) as (Hwf1 & Hv1 & Hs1 & _); [done..|].
  apply IH; [done|done| |by apply (anchored_step s J att s1 J1)].
  unfold header_slot. by rewrite (same_header _ _ Hs1).
Qed.

Lemma header_applied_anchored s block s' :
  state_wf s → anchored s → header_accepted s block → header_applied s block s' → anchored s'.
Proof.
  intros [Hc _] Ha Hacc Happ _.
  rewrite !checkpoint_exists_get, (hd_history _ _ _ Happ), (hd_justified _ _ _ Happ), (hd_finalized _ _ _ Happ).
  pose proof (wf_hist_len s Hc) as Hlen. pose proof (wf_justified_past s Hc) as Hj.
  pose proof (wf_finalized_justified s Hc) as Hf. unfold just_slot, fin_slot in *.
  destruct (N.eqb_spec (header_slot s) 0) as [Hzero|Hpos].
  - rewrite Hzero in Hlen. destruct (st_historical_block_hashes s); [|rewrite len_cons in Hlen; lia].
    rewrite len_nil in Hj. cbn [set_root cp_root cp_slot].
    replace (u64_val (cp_slot (st_latest_justified s))) with 0 by lia.
    by replace (u64_val (cp_slot (st_latest_finalized s))) with 0 by lia.
  - destruct (Ha ltac:(lia)) as [Hja Hfa]. rewrite !checkpoint_exists_get, !get_at_lookup in Hja, Hfa.
    rewrite !get_at_lookup. split; by apply lookup_app_l_Some.
Qed.

(** What a processed block leaves behind. *)
Record block_processed (s : State) (block : Block) (s' : State) : Prop := {
  bp_wf : state_wf s';
  bp_anchored : anchored s → anchored s';
  bp_slot : st_slot s' = b_slot block;
  bp_header : st_latest_block_header s' = set_state_root H256_ZERO (block_header block);
  bp_history : st_historical_block_hashes s' = st_historical_block_hashes s ++ [b_parent_root block] ++
    replicate (N.to_nat (b_slot block - header_slot s - 1)) H256_ZERO;
  bp_validators : st_validators s' = st_validators s;
  bp_finalized : fin_slot s <= fin_slot s';
}.

Lemma process_block_accepted s block :
  state_wf s → header_accepted s block →
  ∃ s', process_block block s = Done s' tt ∧ block_processed s block s'.
Proof.
  intros Hwf Hacc. unfold process_block. rewrite run_bind.
  destruct (process_block_header_cases s block) as [(? & ? & _ & [])|(s1 & Hrun & _ & Happ)];
    [apply Hwf|done|]. rewrite Hrun.
  assert (Hwf1 : state_wf s1) by (by eapply header_applied_wf).
  destruct (process_attestations_steps s1 (bb_attestations (b_body block)))
    as (s2 & J & Hsteps & Hrun2 & Hwf2 & Hv2 & Hs2 & Hf2); [done|].
  exists (with_tallies J s2). split; [done|].
  destruct (header_applied_slots _ _ _ Happ) as [Hf1 _].
  assert (Hpos : 0 < header_slot s1).
  { unfold header_slot. rewrite (hd_header _ _ _ Happ). cbn. pose proof (ha_newer _ _ Hacc). lia. }
  split; cbn.
  - by apply with_tallies_wf.
  - intros Ha. change (anchored s2). eapply anchored_steps; [apply Hwf1| |done| |done].
    + by apply load_votes_wf.
    + by apply (header_applied_anchored s block).
  - rewrite (same_slot _ _ Hs2), (hd_slot _ _ _ Happ). symmetry. apply Hacc.
  - by rewrite (same_header _ _ Hs2), (hd_header _ _ _ Happ).
  - by rewrite (same_history _ _ Hs2), (hd_history _ _ _ Happ).
  - by rewrite (same_validators _ _ Hs2), (hd_validators _ _ _ Happ).
  - change (fin_slot (with_tallies J s2)) with (fin_slot s2). rewrite <- Hf1. done.
Qed.

(** The header with the state root that [process_slots] fills in. *)
Definition completed_header (s : State) : BlockHeader :=
  if is_zero (bh_state_root (st_latest_block_header s))
  then set_state_root (tree_hash_root s) (st_latest_block_header s)
  else st_latest_block_header s.

(** The blocks that extend [s]. *)
Record block_fits (s : State) (block : Block) : Prop := {
  bf_slot : st_slot s < b_slot block;
  bf_proposer : u64_val (b_proposer_index block) = b_slot block mod len (st_validators s);
  bf_parent : b_parent_root block = tree_hash_root (completed_header s);
  bf_limit : b_slot block <= HISTORICAL_ROOTS_LIMIT;
}.

Definition at_slot (target : u64) (s : State) : State :=
  set_slot target (set_latest_block_header (completed_header s) s).

Lemma at_slot_header_slot slot s : header_slot (at_slot slot s) = header_slot s.
Proof. unfold at_slot, header_slot, completed_header. cbn. by destruct (is_zero _). Qed.

Lemma run_process_slots target s :
  process_slots target s =
    if target <=? st_slot s then Fail s (StateSlotIsNewer target (st_slot s))
    else Done (at_slot target s) tt.
Proof.
  unfold process_slots, at_slot, completed_header. run.
  destruct (target <=? st_slot s); [done|]. destruct (is_zero _); run; [done|]. by destruct s.
Qed.

Lemma at_slot_wf target s : state_wf s → st_slot s < u64_val target → state_wf (at_slot target s).
Proof.
  intros Hwf Hlt. apply slots_moved_wf; [done..|]. unfold completed_header. by destruct (is_zero _).
Qed.

Lemma at_slot_accepted s block :
  core_wf s → st_slot s < b_slot block →
  header_accepted (at_slot (b_slot block) s) block ↔ block_fits s block.
Proof.
  intros Hwf Hlt.
  split; intros []; split; rewrite ?at_slot_header_slot in *; cbn in *; try done.
  pose proof (wf_slot s Hwf). lia.
Qed.

(** A transition either fails or processes the block. *)
Lemma state_transition_cases s block :
  state_wf s →
  (∃ s' e, state_transition block s = Fail s' e ∧ ¬ block_fits s block) ∨
  (∃ s', process_block block (at_slot (b_slot block) s) = Done s' tt ∧ block_fits s block ∧
    block_processed (at_slot (b_slot block) s) block s' ∧
    state_transition block s =
      if bool_decide (b_state_root block = tree_hash_root s') then Done s' tt
      else Fail s' (StateRootMismatch (b_state_root block) (tree_hash_root s'))).
Proof.
  intros Hwf. unfold state_transition. rewrite run_bind, run_process_slots.
  destruct (N.leb_spec (b_slot block) (st_slot s)) as [Hle|Hlt].
  { left. do 2 eexists. split; [done|]. intros []; lia. }
  pose proof (at_slot_wf (b_slot block) s Hwf Hlt) as Hwf1.
  pose proof (at_slot_accepted s block (proj1 Hwf) Hlt) as Hiff.
  destruct (process_block_header_cases (at_slot (b_slot block) s) block)
    as [(s' & e & Hrun & Hno)|(s' & Hrun & Hacc & _)]; [apply Hwf1|..].
  - left. exists s', e. split; [|by rewrite <- Hiff].
    rewrite run_bind. unfold process_block. by rewrite run_bind, Hrun.
  - right. destruct (process_block_accepted _ _ Hwf1 Hacc) as (s2 & Hpb & Hpost).
    exists s2. split_and!; [done|by apply Hiff|done|]. rewrite run_bind, Hpb. run.
    by case_bool_decide.
Qed.

Lemma process_block_state_root r block s :
  process_block (mk_block (b_slot block) (b_proposer_index block) (b_parent_root block) r (b_body block)) s =
  process_block block s.
Proof. done. Qed.

End blocks.

(** * Chains of blocks *)

Section chains.
Context `{STL : SszTypesLaws} `{HS : Hashing} `{HOL : HashOrderLaws}.

Definition with_state_root (r : H256) (block : Block) : Block :=
  mk_block (b_slot block) (b_proposer_index block) (b_parent_root block) r (b_body block).

(** The states of chains that start from a genesis with validators. *)
Inductive chain_state : State → Prop :=
| chain_genesis genesis_time validators s :
    validators ≠ [] → from_genesis genesis_time validators = Return s → chain_state s
| chain_block s block s' :
    chain_state s → state_transition block s = Done s' tt → chain_state s'.

(** [s'] is the state of a descendant of the block of [s]. *)
Inductive descends : State → State → Prop :=
| descends_refl s : descends s s
| descends_block s s1 block s2 :
    descends s s1 → state_transition block s1 = Done s2 tt → descends s s2.

Lemma genesis_wf genesis_time validators s :
  validators ≠ [] → from_genesis genesis_time validators = Return s → state_wf s ∧ anchored s.
Proof.
  intros Hne. unfold from_genesis. rewrite variable_list_new_spec, !bitlist_with_capacity_spec.
  destruct (N.leb_spec (len validators) VALIDATOR_REGISTRY_LIMIT) as [Hlim|]; [|discriminate].
  cbn. intros [= <-]. split; [split; split; cbn; try done|by intros ?].
  - split; [|done]. destruct validators; [done|]. rewrite len_cons. cbn. lia.
  - constructor.
  - intros r Hr. by apply not_elem_of_nil in Hr.
Qed.

Lemma state_transition_done s block s' :
  state_wf s → state_transition block s = Done s' tt →
  block_fits s block ∧ block_processed s block s' ∧ b_state_root block = tree_hash_root s' ∧
  process_block block (at_slot (b_slot block) s) = Done s' tt.
Proof.
  intros Hwf Hrun.
  destruct (state_transition_cases s block Hwf) as [(? & ? & Hr & _)|(s1 & Hpb & Hfits & Hpost & Hr)];
    [congruence|].
  rewrite Hrun in Hr. case_bool_decide as Hroot; [|discriminate]. injection Hr as <-.
  split_and!; [done| |done|done].
  pose proof (at_slot_header_slot (b_slot block) s) as Hh. destruct Hpost as [Hp1 Hp2 Hp3 Hp4 Hp5 Hp6 Hp7]. rewrite Hh in Hp5.
  split; [done| |done..]. intros Ha. apply Hp2. intros Hpos. apply Ha. by rewrite Hh in Hpos.
Qed.

Lemma chain_state_wf s : chain_state s → state_wf s ∧ anchored s.
Proof.
  induction 1 as [genesis_time validators s Hne Hgen|s block s' _ [Hwf Ha] Hrun];
    [by eapply genesis_wf|].
  destruct (state_transition_done _ _ _ Hwf Hrun) as (_ & Hpost & _). by split; apply Hpost.
Qed.

Lemma descends_chain s s' :
  chain_state s → descends s s' →
  chain_state s' ∧ fin_slot s <= fin_slot s' ∧
  st_historical_block_hashes s `prefix_of` st_historical_block_hashes s'.
Proof.
  intros Hs Hd. induction Hd as [s|s s1 block s2 _ IH Hrun]; [done|].
  destruct (IH Hs) as (Hs1 & Hf1 & Hp1).
  destruct (chain_state_wf _ Hs1) as [Hwf1 _].
  destruct (state_transition_done _ _ _ Hwf1 Hrun) as (_ & Hpost & _).
  split_and!; [by eapply chain_block|pose proof (bp_finalized _ _ _ Hpost); lia|].
  rewrite (bp_history _ _ _ Hpost). by apply prefix_app_r.
Qed.

(** * Theorems *)

(** C2. On a well-formed state the transition function returns for every block whatsoever:
    it never panics, and a block it accepts leaves a well-formed state again, at the
    block's slot and with the block's header, whose history extends the old one and
    whose finalized slot has not decreased. *)
Theorem state_transition_safe s block :
  state_wf s → returns (state_transition block s) (λ s' _, block_processed s block s').
Proof.
  intros Hwf. destruct (state_transition block s) as [s' []| | |] eqn:Hrun; cbn; [|done|..].
  - by apply state_transition_done.
  - destruct (state_transition_cases s block Hwf) as [(? & ? & Hr & _)|(? & _ & _ & _ & Hr)];
      rewrite Hrun in Hr; [|case_bool_decide]; discriminate.
  - destruct (state_transition_cases s block Hwf) as [(? & ? & Hr & _)|(? & _ & _ & _ & Hr)];
      rewrite Hrun in Hr; [|case_bool_decide]; discriminate.
Qed.

(** C20. Every state of a chain that starts from genesis is well-formed, and its justified and
    finalized checkpoints are blocks of that very chain. *)
Theorem chain_state_invariant s : chain_state s → state_wf s ∧ anchored s.
Proof. apply chain_state_wf. Qed.

(** C7. Finality is never reverted: a finalized checkpoint is still a block of the history of
    every descendant, and the descendants' finalized slots are at least as high. *)
Theorem finality_preserved s s' :
  chain_state s → 0 < header_slot s → descends s s' →
  checkpoint_exists s' (st_latest_finalized s) = true ∧ fin_slot s <= fin_slot s'.
Proof.
  intros Hs Hpos Hd. destruct (descends_chain s s' Hs Hd) as (_ & Hf & [rest Hrest]).
  destruct (chain_state_wf s Hs) as [_ Ha]. destruct (Ha Hpos) as [_ Hfa]. split; [|done].
  rewrite checkpoint_exists_get, get_at_lookup in Hfa |- *. rewrite Hrest.
  by apply lookup_app_l_Some.
Qed.


(** A block is accepted with some state root exactly when it fits the state (its slot is
    new and within the history limit, it comes from the slot's proposer, and its parent
    is the state's latest block), and then exactly one state root is accepted, with one
    resulting state. *)
Theorem state_transition_seals s block :
  state_wf s →
  (block_fits s block ↔
   ∃ r s', state_transition (with_state_root r block) s = Done s' tt) ∧
  (∀ r1 r2 s1 s2,
     state_transition (with_state_root r1 block) s = Done s1 tt →
     state_transition (with_state_root r2 block) s = Done s2 tt → r1 = r2 ∧ s1 = s2).
Proof.
  intros Hwf.
  assert (Hfits : ∀ r, block_fits s (with_state_root r block) ↔ block_fits s block)
    by (intros r; split; intros []; by split).
  split; [split|].
  - intros Hf.
    destruct (state_transition_cases s block Hwf) as [(? & ? & _ & [])|(s' & Hpb & _)]; [done|].
    exists (tree_hash_root s'), s'.
    destruct (state_transition_cases s (with_state_root (tree_hash_root s') block) Hwf)
      as [(? & ? & _ & [])|(s2 & Hpb2 & _ & _ & Hr)]; [by apply Hfits|].
    unfold with_state_root in Hpb2. cbn in Hpb2. rewrite process_block_state_root, Hpb in Hpb2.
    injection Hpb2 as <-. rewrite Hr. by rewrite bool_decide_eq_true_2.
  - intros (r & s' & Hrun). apply (Hfits r). by apply (state_transition_done s _ s').
  - intros r1 r2 s1 s2 Hr1 Hr2.
    apply state_transition_done in Hr1 as (_ & _ & Ht1 & Hp1); [|done].
    apply state_transition_done in Hr2 as (_ & _ & Ht2 & Hp2); [|done].
    unfold with_state_root in *. cbn in *. rewrite process_block_state_root in Hp1, Hp2.
    rewrite Hp1 in Hp2. injection Hp2 as <-. by rewrite Ht1, Ht2.
Qed.

(** A header is accepted on a well-formed state exactly under the conditions of
    [header_accepted], and an accepted header changes the state exactly as
    [header_applied] says. *)
Theorem process_block_header_spec s block :
  state_wf s →
  (header_accepted s block → ∃ s', process_block_header block s = Done s' tt ∧ header_applied s block s') ∧
  (¬ header_accepted s block → ∃ s' e, process_block_header block s = Fail s' e).
Proof.
  intros [Hc _]. destruct (process_block_header_cases s block Hc) as [(s' & e & Hr & Hn)|(s' & Hr & Ha & Hp)].
  - split; [by intros|]. intros _. by exists s', e.
  - split; [|by intros]. intros _. by exists s'.
Qed.

(** Recorded tallies survive a block without attestations: loading and writing them back
    is the identity on well-formed states. *)
Theorem process_attestations_nil s : state_wf s → process_attestations [] s = Done s tt.
Proof.
  intros Hwf. destruct (process_attestations_steps s [] Hwf) as (s' & J & Hsteps & Hrun & _).
  inversion Hsteps. subst. by rewrite Hrun, with_loaded_tallies.
Qed.

End chains.

(** The order in which hash maps are iterated leaves no trace. *)
Lemma serialize_justifications_order `{ST : SszTypes} (O1 O2 : HashOrder) J n s :
  @HashOrderLaws O1 → @HashOrderLaws O2 →
  @serialize_justifications ST O1 J n s = @serialize_justifications ST O2 J n s.
Proof.
  intros HL1 HL2. assert (Heq : @sorted_roots O1 J = @sorted_roots O2 J).
  { apply sorted_roots_unique; [apply sorted_roots_Sorted|apply sorted_roots_NoDup|].
    intros r. apply elem_of_sorted_roots. }
  unfold serialize_justifications. fold (@sorted_roots O1 J) (@sorted_roots O2 J). by rewrite Heq.
Qed.

(** Two nodes whose hash maps iterate in different orders compute the same transition, on
    every state and block. *)
Theorem state_transition_deterministic `{ST : SszTypes} `{HS : Hashing} (O1 O2 : HashOrder) block s :
  @HashOrderLaws O1 → @HashOrderLaws O2 →
  @state_transition ST HS O1 block s = @state_transition ST HS O2 block s.
Proof.
  intros HL1 HL2. unfold state_transition, process_block, process_attestations. run.
  destruct (process_slots _ s) as [s1 []| | |]; [|done..]. run.
  destruct (process_block_header block s1) as [s2 []| | |]; [|done..]. run.
  destruct (existsb _ _); [done|]. run. destruct (foldM _ _ _ s2) as [s3 J| | |]; [|done..].
  by rewrite (serialize_justifications_order O1 O2).
Qed.

(** * A chain of three validators

    Block 2 carries two votes for block 1, block 3 two votes for block 2: block 2 is
    justified and block 1 finalized. *)

Module Scenario.

#[local] Existing Instances reference_ssz_types reference_ssz_types_laws reference_hashing
  reference_hashing_laws reference_order canonical_order_laws.

Definition run_state (o : outcome State Error unit) : State :=
  match o with Done s _ | Fail s _ => s | _ => Sample.genesis end.

(** The sealed block on [s] at [slot] with the attestations [atts]. *)
Definition unsealed (s : State) (slot : N) (atts : list AggregatedAttestation) : Block :=
  mk_block (to_u64 slot) (to_u64 (slot mod 3)) (tree_hash_root (completed_header s)) H256_ZERO
    (mk_block_body atts).
Definition sealed (s : State) (slot : N) (atts : list AggregatedAttestation) : Block :=
  with_state_root
    (tree_hash_root (run_state (process_block (unsealed s slot atts) (at_slot (to_u64 slot) s))))
    (unsealed s slot atts).

Definition vote (source target : Checkpoint) : AggregatedAttestation :=
  mk_aggregated_attestation [true; false; true]
    (mk_attestation_data (cp_slot target) target target source).

Definition genesis : State := Sample.genesis.
Definition block1 : Block := sealed genesis 1 [].
Definition state1 : State := run_state (state_transition block1 genesis).
Definition checkpoint0 : Checkpoint := mk_checkpoint (b_parent_root block1) (to_u64 0).
Definition checkpoint1 : Checkpoint := mk_checkpoint (tree_hash_root block1) (to_u64 1).
Definition votes1 : list AggregatedAttestation := [vote checkpoint0 checkpoint1].
Definition block2 : Block := sealed state1 2 votes1.
Definition state2 : State := run_state (state_transition block2 state1).
Definition checkpoint2 : Checkpoint := mk_checkpoint (tree_hash_root block2) (to_u64 2).
Definition block3 : Block := sealed state2 3 [vote checkpoint1 checkpoint2].
Definition state3 : State := run_state (state_transition block3 state2).

Lemma genesis_chain : chain_state genesis.
Proof.
  apply (chain_genesis (to_u64 1000) [Sample.validator 0; Sample.validator 1; Sample.validator 2]);
    [done|by vm_compute].
Qed.

Lemma run1 : state_transition block1 genesis = Done state1 tt.
Proof. by vm_compute. Qed.
Lemma run2 : state_transition block2 state1 = Done state2 tt.
Proof. by vm_compute. Qed.
Lemma run3 : state_transition block3 state2 = Done state3 tt.
Proof. by vm_compute. Qed.

Lemma chain3 : chain_state state3.
Proof. eapply chain_block, run3. eapply chain_block, run2. eapply chain_block, run1. apply genesis_chain. Qed.

Lemma chain1 : chain_state state1.
Proof. eapply chain_block, run1. apply genesis_chain. Qed.

Lemma descends13 : descends state1 state3.
Proof. eapply descends_block, run3. eapply descends_block, run2. apply descends_refl. Qed.

Example finalized3 : st_latest_finalized state3 = checkpoint1 ∧ st_latest_justified state3 = checkpoint2.
Proof. by vm_compute. Qed.

Lemma state_transition_safe_witness : block_processed genesis block1 state1.
Proof.
  pose proof (state_transition_safe genesis block1 (proj1 (chain_state_wf _ genesis_chain))) as Hsafe.
  rewrite run1 in Hsafe. exact Hsafe.
Defined.

Lemma chain_state_invariant_witness : state_wf state3 ∧ anchored state3.
Proof. apply chain_state_invariant, chain3. Defined.

Lemma finality_preserved_witness :
  checkpoint_exists state3 (st_latest_finalized state1) = true ∧ fin_slot state1 <= fin_slot state3.
Proof. apply finality_preserved; [apply chain1|by vm_compute|apply descends13]. Defined.


Lemma state_transition_seals_witness :
  ∃ r s', state_transition (with_state_root r block3) state2 = Done s' tt.
Proof.
  apply state_transition_seals.
  - apply chain_state_wf. eapply chain_block, run2. apply chain1.
  - split; by vm_compute.
Defined.

Lemma process_block_header_spec_witness :
  ∃ s', process_block_header block1 (at_slot (to_u64 1) genesis) = Done s' tt ∧
    header_applied (at_slot (to_u64 1) genesis) block1 s'.
Proof.
  apply process_block_header_spec.
  - apply at_slot_wf; [apply chain_state_wf, genesis_chain|by vm_compute].
  - split; by vm_compute.
Defined.

Lemma process_attestations_nil_witness : process_attestations [] state3 = Done state3 tt.
Proof. apply process_attestations_nil, chain_state_wf, chain3. Defined.

Lemma state_transition_deterministic_witness :
  state_transition block3 state2 = state_transition (HO := reversed_order) block3 state2.
Proof.
  apply state_transition_deterministic; [apply canonical_order_laws|apply reversed_order_laws].
Defined.

End Scenario.
