(* ===== verification/Quorums.v ===== *)
(** The votes behind justification and finalization: every certified checkpoint of a
    chain has a quorum of votes in the chain's blocks, two different certified
    checkpoints of one slot convict a third of the validators of a double vote, and
    finalized checkpoints of two chains can conflict without any offence. *)

From S2P Require Import Prelude Types JustifiedSlots StateTransition Reference Tallies StateInvariant BlockProcessing Attestations Transitions.

(** * Votes and quorums *)

(** [i] voted from [source] to [target] in one of [atts]. *)
Definition cast (atts : list AggregatedAttestation) (i : nat) (source target : Checkpoint) : Prop :=
  ∃ att, att ∈ atts ∧ ad_source (aa_data att) = source ∧ ad_target (aa_data att) = target ∧
    aa_aggregation_bits att !! i = Some true.

(** [i] voted for [target], from whatever source. *)
Definition voted (atts : list AggregatedAttestation) (i : nat) (target : Checkpoint) : Prop :=
  ∃ source, cast atts i source target.

Definition among (n : N) (V : gset nat) : Prop := ∀ i, i ∈ V → N.of_nat i < n.

(** Two thirds of [n] validators voted for [target]. *)
Definition quorum (n : N) (atts : list AggregatedAttestation) (target : Checkpoint) : Prop :=
  ∃ V : gset nat, among n V ∧ 2 * n <= 3 * N.of_nat (size V) ∧
    ∀ i, i ∈ V → voted atts i target.

Section votes.
Implicit Types atts : list AggregatedAttestation.

Lemma cast_mono atts atts' i source target :
  atts ⊆ atts' → cast atts i source target → cast atts' i source target.
Proof. intros Hsub (att & Hin & Hatt). exists att. split; [by apply Hsub|done]. Qed.

Lemma voted_mono atts atts' i target : atts ⊆ atts' → voted atts i target → voted atts' i target.
Proof. intros Hsub [source Hc]. exists source. by eapply cast_mono. Qed.

Lemma quorum_mono n atts atts' target : atts ⊆ atts' → quorum n atts target → quorum n atts' target.
Proof.
  intros Hsub (V & Hn & Hsize & HV). exists V. split_and!; [done..|].
  intros i Hi. by eapply voted_mono, HV.
Qed.

(** Two quorums share a third of the validators. *)
Lemma quorum_intersection n (V W : gset nat) :
  among n V → among n W → 2 * n <= 3 * N.of_nat (size V) → 2 * n <= 3 * N.of_nat (size W) →
  n <= 3 * N.of_nat (size (V ∩ W)).
Proof.
  intros HV HW HVn HWn.
  assert (Hsize : (size (V ∪ W) <= N.to_nat n)%nat).
  { rewrite <- (length_seq (N.to_nat n) 0), <- (size_list_to_set (C := gset nat)) by apply NoDup_seq.
    apply subseteq_size. intros i [Hi%HV|Hi%HW]%elem_of_union; apply elem_of_list_to_set, elem_of_seq; lia. }
  rewrite size_union_alt, size_difference_alt, (intersection_comm_L W V) in Hsize. lia.
Qed.

(** The positions of the set bits. *)
Definition voters (votes : list bool) : gset nat :=
  list_to_set (filter (λ i, votes !! i = Some true) (seq 0 (length votes))).

Lemma elem_of_voters votes i : i ∈ voters votes ↔ votes !! i = Some true.
Proof.
  unfold voters. rewrite elem_of_list_to_set, list_elem_of_filter, elem_of_seq. split; [by intros []|].
  intros Hi. split; [done|]. apply lookup_lt_Some in Hi. lia.
Qed.

Lemma voters_snoc votes b :
  voters (votes ++ [b]) = if b then {[length votes]} ∪ voters votes else voters votes.
Proof.
  apply set_eq. intros i. rewrite elem_of_voters, lookup_snoc_Some.
  destruct b; rewrite ?elem_of_union, ?elem_of_singleton, elem_of_voters; [|split; [by intros [[]|[]]|]].
  - split; [intros [[]|[]]; auto|intros [->|Hi]; [by right|left]].
    split; [by apply lookup_lt_Some in Hi|done].
  - intros Hi. left. split; [by apply lookup_lt_Some in Hi|done].
Qed.

Lemma size_voters votes : N.of_nat (size (voters votes)) = count_votes votes.
Proof.
  unfold count_votes. induction votes as [|b votes IH] using rev_ind; [done|].
  rewrite voters_snoc, filter_app, len_app, <- IH, filter_cons, filter_nil.
  destruct b; case_decide; try done; autorewrite with len; [|lia].
  rewrite size_union, size_singleton; [lia|].
  apply disjoint_singleton_l. rewrite elem_of_voters. intros Hi%lookup_lt_Some. lia.
Qed.

Lemma voters_quorum n atts votes target :
  len votes = n → supermajority n votes → (∀ i, votes !! i = Some true → voted atts i target) →
  quorum n atts target.
Proof.
  intros Hlen Hsm Hall. exists (voters votes). rewrite size_voters. split_and!; [|done|].
  - intros i Hi%elem_of_voters%lookup_lt_Some. unfold len in Hlen. lia.
  - intros i Hi%elem_of_voters. by apply Hall.
Qed.

(** Bits that complete a supermajority are not all zero. *)
Lemma completing_vote n votes bits :
  ¬ supermajority n votes → supermajority n (or_bits votes bits) → ∃ i, bits !! i = Some true.
Proof.
  intros Hno Hsm. destruct (decide (Exists (λ b, b = true) bits)) as [Hex|Hnone].
  - apply Exists_exists in Hex as (b & [i Hi]%list_elem_of_lookup & ->). by exists i.
  - exfalso. apply Hno. enough (Heq : or_bits votes bits = votes) by (by rewrite Heq in Hsm).
    apply list_eq. intros i. rewrite or_bits_lookup. destruct (votes !! i) as [v|]; [|done]. cbn.
    destruct (bits !! i) as [[]|] eqn:Hi; [|by rewrite orb_false_r..].
    exfalso. apply Hnone, Exists_exists. exists true. split; [by eapply list_elem_of_lookup_2|done].
Qed.

End votes.

(** * The votes behind a state *)

(** No root occurs at two slots of the history. *)
Definition distinct_roots (hist : list H256) : Prop :=
  ∀ (t t' : N) r, r ≠ H256_ZERO → get_at hist t = Some r → get_at hist t' = Some r → t = t'.

(** [c] is a block of the chain that a vote of [i] among [atts] has as target. *)
Definition counted (hist : list H256) (atts : list AggregatedAttestation) (i : nat) (r : H256) : Prop :=
  ∃ c, voted atts i c ∧ cp_root c = r ∧ get_at hist (cp_slot c) = Some r.

(** A vote names the finalized checkpoint [c] as source, for a target with a quorum. *)
Definition finalizing (n : N) (atts : list AggregatedAttestation) (c : Checkpoint) : Prop :=
  ∃ target i, cp_slot c < cp_slot target ∧ quorum n atts target ∧ cast atts i c target.

(** The attestations [atts] account for the tallies [J] and the checkpoints of [s]. *)
Record backed `{ST : SszTypes} (atts : list AggregatedAttestation) (s : State) (J : Justifications) :
    Prop := {
  bk_tally r v i : J !! r = Some v → v !! i = Some true →
    counted (st_historical_block_hashes s) atts i r;
  bk_pending r v : J !! r = Some v → ¬ supermajority (len (st_validators s)) v;
  bk_window (t : u64) : fin_slot s < t →
    is_slot_justified (st_justified_slots s) (fin_slot s) t = true →
    ∃ r, get_at (st_historical_block_hashes s) t = Some r ∧
      quorum (len (st_validators s)) atts (mk_checkpoint r t);
  bk_justified : 0 < just_slot s → quorum (len (st_validators s)) atts (st_latest_justified s);
  bk_finalized : 0 < fin_slot s →
    quorum (len (st_validators s)) atts (st_latest_finalized s) ∧
    finalizing (len (st_validators s)) atts (st_latest_finalized s);
}.

Section backing.
Context `{STL : SszTypesLaws} `{HOL : HashOrderLaws}.
Implicit Types atts : list AggregatedAttestation.

Lemma counted_mono hist atts atts' i r : atts ⊆ atts' → counted hist atts i r → counted hist atts' i r.
Proof. intros Hsub (c & Hc & Hr). exists c. split; [by eapply voted_mono|done]. Qed.

Lemma finalizing_mono n atts atts' c : atts ⊆ atts' → finalizing n atts c → finalizing n atts' c.
Proof.
  intros Hsub (target & i & Hlt & Hq & Hc). exists target, i.
  split_and!; [done|by eapply quorum_mono|by eapply cast_mono].
Qed.

Lemma backed_mono atts atts' s J : atts ⊆ atts' → backed atts s J → backed atts' s J.
Proof.
  intros Hsub [Ht Hp Hw Hj Hf]. split.
  - intros r v i HJ Hi. by eapply counted_mono, Ht.
  - done.
  - intros t Hlt Hb. destruct (Hw t Hlt Hb) as (r & Hr & Hq). exists r. split; [done|].
    by eapply quorum_mono.
  - intros Hpos. by eapply quorum_mono, Hj.
  - intros Hpos. destruct (Hf Hpos). split; [by eapply quorum_mono|by eapply finalizing_mono].
Qed.

Lemma not_supermajority_false n : 0 < n → ¬ supermajority n (replicate (N.to_nat n) false).
Proof.
  intros Hn. unfold supermajority. rewrite <- size_voters.
  assert (Hnone : voters (replicate (N.to_nat n) false) = ∅).
  { apply set_eq. intros i. rewrite elem_of_voters, elem_of_empty. split; [|done].
    by intros [? _]%lookup_replicate. }
  rewrite Hnone, size_empty. lia.
Qed.

(** A checkpoint is determined by a root of the history that occurs once. *)
Lemma same_target hist (c target : Checkpoint) :
  distinct_roots hist → cp_root target ≠ H256_ZERO → cp_root c = cp_root target →
  get_at hist (cp_slot c) = Some (cp_root target) →
  get_at hist (cp_slot target) = Some (cp_root target) → c = target.
Proof.
  intros Hd Hz Hr Hc Ht. pose proof (Hd _ _ _ Hz Hc Ht) as Hs%u64_eq.
  destruct c, target; cbn in *; congruence.
Qed.

Section step.
Context (atts : list AggregatedAttestation) (s : State) (J : Justifications) (att : AggregatedAttestation).
Context (Hwf : core_wf s) (Hd : distinct_roots (st_historical_block_hashes s)) (Hin : att ∈ atts)
  (Hb : backed atts s J).
Context (Hval : is_valid_vote s (ad_source (aa_data att)) (ad_target (aa_data att)) = true).

#[local] Abbreviation source := (ad_source (aa_data att)).
#[local] Abbreviation target := (ad_target (aa_data att)).
#[local] Abbreviation recorded := (tally s J (cp_root target)).

Lemma recorded_counted i :
  recorded !! i = Some true → counted (st_historical_block_hashes s) atts i (cp_root target).
Proof.
  unfold tally. destruct (J !! cp_root target) as [v|] eqn:HJ; cbn; [by apply (bk_tally _ _ _ Hb)|].
  by intros [? _]%lookup_replicate.
Qed.

Lemma recorded_pending : ¬ supermajority (len (st_validators s)) recorded.
Proof.
  unfold tally. destruct (J !! cp_root target) as [v|] eqn:HJ; cbn; [by apply (bk_pending _ _ _ Hb _ _ HJ)|].
  apply not_supermajority_false, Hwf.
Qed.

(** Each bit of the new tally is a vote for the target. *)
Lemma new_tally_voted i :
  or_bits recorded (aa_aggregation_bits att) !! i = Some true → voted atts i target.
Proof.
  rewrite or_bits_lookup. destruct (recorded !! i) as [b|] eqn:Hi; [|done]. cbn.
  intros [= [Hb1|Hb1]%orb_true_iff].
  - subst b. apply is_valid_vote_spec in Hval as (_ & _ & _ & Hz & _ & Ht & _).
    destruct (recorded_counted i Hi) as (c & Hc & Hr & Hget).
    by rewrite <- (same_target _ c target Hd Hz Hr Hget Ht).
  - exists source, att. destruct (aa_aggregation_bits att !! i) as [[]|]; done.
Qed.

Lemma target_quorum :
  votes_wf s J →
  supermajority (len (st_validators s)) (or_bits recorded (aa_aggregation_bits att)) →
  quorum (len (st_validators s)) atts target.
Proof.
  intros Hv Hsm. apply (voters_quorum _ _ (or_bits recorded (aa_aggregation_bits att))); [|done|].
  - unfold len. rewrite or_bits_length. by apply tally_len.
  - apply new_tally_voted.
Qed.

(** The source of a valid vote above the finalized slot has a quorum. *)
Lemma source_quorum :
  0 < header_slot s → anchored s →
  fin_slot s <= cp_slot source → 0 < cp_slot source →
  quorum (len (st_validators s)) atts source.
Proof.
  intros Hpos Ha Hle Hs. apply is_valid_vote_spec in Hval as (Hj & _ & _ & _ & Hget & _).
  destruct (N.eq_dec (fin_slot s) (cp_slot source)) as [Heq|Hne].
  - destruct (Ha Hpos) as [_ Hf]. rewrite checkpoint_exists_get in Hf.
    apply u64_eq in Heq. unfold fin_slot in Heq. rewrite Heq in Hf.
    assert (Hsame : st_latest_finalized s = source)
      by (destruct (st_latest_finalized s), source; cbn in *; congruence).
    rewrite <- Hsame. apply (bk_finalized _ _ _ Hb). unfold fin_slot. by rewrite Heq.
  - destruct (bk_window _ _ _ Hb (cp_slot source)) as (r & Hr & Hq); [lia|done|].
    destruct source; cbn in *. congruence.
Qed.

(** The window after justifying the target. *)
Lemma justified_window (finalized : Checkpoint) s' (t : u64) :
  votes_wf s J →
  supermajority (len (st_validators s)) (or_bits recorded (aa_aggregation_bits att)) →
  justified_with s target finalized s' → fin_slot s <= cp_slot finalized →
  cp_slot finalized < t → is_slot_justified (st_justified_slots s') (cp_slot finalized) t = true →
  ∃ r, get_at (st_historical_block_hashes s) t = Some r ∧
    quorum (len (st_validators s)) atts (mk_checkpoint r t).
Proof.
  intros Hv Hsm Hjw Hle Ht. rewrite (jw_bits _ _ _ _ Hjw) by done.
  intros [Heq|Hold]%orb_true_iff.
  - apply bool_decide_eq_true in Heq as ->. exists (cp_root target).
    pose proof Hval as (_ & _ & _ & _ & _ & Hget & _)%is_valid_vote_spec. split; [done|].
    replace (mk_checkpoint _ _) with target by (by destruct target). by apply target_quorum.
  - apply (bk_window _ _ _ Hb); [lia|done].
Qed.

End step.

(** The fields that a run leaves alone. *)
Lemma attestation_steps_chain s J atts s' J' :
  core_wf s → votes_wf s J → attestation_steps s J atts s' J' → same_chain s s'.
Proof.
  intros Hwf Hv Hsteps. induction Hsteps as [|s J att s1 J1 atts s2 J2 Hstep _ IH]; [done|].
  destruct (attestation_step_invariant s J att s1 J1) as (Hwf1 & Hv1 & Hs1 & _); [done..|].
  etrans; [done|]. by apply IH.
Qed.

(** A tally that is replaced by another pending one. *)
Lemma backed_insert atts s J r v :
  (∀ i, v !! i = Some true → counted (st_historical_block_hashes s) atts i r) →
  ¬ supermajority (len (st_validators s)) v →
  backed atts s J → backed atts s (<[r := v]> J).
Proof.
  intros Hc Hp [Ht Hp' Hw Hj Hf]. split; [..|done|done|done].
  - intros r' v' i [[<- <-]|[_ HJ]]%lookup_insert_Some; [apply Hc|by apply Ht].
  - intros r' v' [[<- <-]|[_ HJ]]%lookup_insert_Some; [done|by eapply Hp'].
Qed.

(** The state after justifying the target, with some of the tallies dropped. *)
Lemma backed_justified atts s J att finalized s' J' :
  core_wf s → votes_wf s J → distinct_roots (st_historical_block_hashes s) → att ∈ atts →
  backed atts s J → is_valid_vote s (ad_source (aa_data att)) (ad_target (aa_data att)) = true →
  supermajority (len (st_validators s))
    (or_bits (tally s J (cp_root (ad_target (aa_data att)))) (aa_aggregation_bits att)) →
  justified_with s (ad_target (aa_data att)) finalized s' → fin_slot s <= cp_slot finalized →
  (∀ r v, J' !! r = Some v → J !! r = Some v) →
  (0 < cp_slot finalized → quorum (len (st_validators s)) atts finalized ∧
     finalizing (len (st_validators s)) atts finalized) →
  backed atts s' J'.
Proof.
  intros Hwf Hv Hd Hin Hb Hval Hsm Hjw Hle HJ Hf.
  pose proof (jw_chain _ _ _ _ Hjw) as [_ _ Hhist Hvals].
  assert (Hfin : fin_slot s' = cp_slot finalized) by (unfold fin_slot; by rewrite (jw_finalized _ _ _ _ Hjw)).
  split; rewrite ?Hhist, ?Hvals, ?Hfin, ?(jw_justified _ _ _ _ Hjw), ?(jw_finalized _ _ _ _ Hjw).
  - intros r v i Hr. apply (bk_tally _ _ _ Hb). by apply HJ.
  - intros r v Hr. apply (bk_pending _ _ _ Hb r). by apply HJ.
  - intros t Ht. by eapply (justified_window atts s J att).
  - intros _. by eapply target_quorum.
  - done.
Qed.

Lemma backed_step atts s J att s' J' :
  core_wf s → votes_wf s J → 0 < header_slot s → anchored s →
  distinct_roots (st_historical_block_hashes s) → att ∈ atts →
  backed atts s J → attestation_step s J att s' J' → backed atts s' J'.
Proof.
  intros Hwf Hv Hpos Ha Hd Hin Hb Hstep. destruct Hstep as
    [Hval|Hval Hover|votes Hval Hfit -> Hsm|s' Hval Hfit Hsm Hbt Hjw|s' J' Hval Hfit Hsm Hbt Hle Hjw Hpr].
  - done.
  - apply backed_insert; [|by apply (recorded_pending atts)|done].
    intros i. by apply (recorded_counted atts).
  - apply backed_insert; [|done..]. intros i Hi. exists (ad_target (aa_data att)).
    split; [by eapply new_tally_voted|]. split; [done|].
    by apply is_valid_vote_spec in Hval as (_ & _ & _ & _ & _ & Hget & _).
  - eapply (backed_justified atts s J att); try done; [by intros r v [_ ?]%lookup_delete_Some|].
    apply (bk_finalized _ _ _ Hb).
  - eapply (backed_justified atts s J att); try done;
      [by intros r v [[_ ?]%lookup_delete_Some _]%Hpr|].
    intros Hs. split; [by apply (source_quorum atts s J)|].
    destruct (completing_vote _ _ _ (recorded_pending atts s J att Hwf Hb) Hsm) as [i Hi].
    exists (ad_target (aa_data att)), i. split_and!; [|by eapply target_quorum|by exists att].
    by apply is_valid_vote_spec in Hval as (_ & _ & _ & _ & _ & _ & Hlt & _).
Qed.

Lemma backed_steps atts s J block_atts s' J' :
  core_wf s → votes_wf s J → 0 < header_slot s → anchored s →
  distinct_roots (st_historical_block_hashes s) → block_atts ⊆ atts →
  backed atts s J → attestation_steps s J block_atts s' J' → backed atts s' J'.
Proof.
  intros Hwf Hv Hpos Ha Hd Hsub Hb Hsteps.
  induction Hsteps as [|s J att s1 J1 block_atts s2 J2 Hstep _ IH]; [done|].
  destruct (attestation_step_invariant s J att s1 J1) as (Hwf1 & Hv1 & Hs1 & _); [done..|].
  apply IH; [done|done| |by apply (anchored_step s J att s1 J1)| | |].
  - unfold header_slot. by rewrite (same_header _ _ Hs1).
  - by rewrite (same_history _ _ Hs1).
  - intros a Ha'. apply Hsub. by right.
  - apply (backed_step atts s J att); try done. apply Hsub. by left.
Qed.

End backing.

(** * Chains *)

Section chains.
Context `{STL : SszTypesLaws} `{HS : Hashing} `{HOL : HashOrderLaws}.

(** [s] is the state of the chain [blocks] on the genesis state [g]. *)
Inductive chain_from (g : State) : list Block → State → Prop :=
| chain_from_genesis genesis_time validators :
    validators ≠ [] → from_genesis genesis_time validators = Return g → chain_from g [] g
| chain_from_block blocks s block s' :
    chain_from g blocks s → state_transition block s = Done s' tt →
    chain_from g (blocks ++ [block]) s'.

(** The votes in the blocks of a chain, and its headers. *)
Definition chain_votes (blocks : list Block) : list AggregatedAttestation :=
  blocks ≫= λ block, bb_attestations (b_body block).
Definition chain_headers (g : State) (blocks : list Block) : list BlockHeader :=
  completed_header g :: (block_header <$> blocks).

(** No two headers of the chain collide. *)
Definition collision_free (headers : list BlockHeader) : Prop :=
  ∀ h h', h ∈ headers → h' ∈ headers → tree_hash_root h = tree_hash_root h' → h = h'.

(** A checkpoint the state [s] holds for justified or finalized. *)
Inductive certified (s : State) : Checkpoint → Prop :=
| certified_justified : certified s (st_latest_justified s)
| certified_finalized : certified s (st_latest_finalized s)
| certified_window c :
    fin_slot s < cp_slot c → checkpoint_exists s c = true →
    is_slot_justified (st_justified_slots s) (fin_slot s) (cp_slot c) = true → certified s c.

(** The fields of a genesis state. *)
Record genesis_state (genesis_time : u64) (validators : list Validator) (g : State) : Prop := {
  gs_header : header_slot g = to_u64 0;
  gs_validators : st_validators g = validators;
  gs_window : st_justified_slots g = [];
  gs_tallies : load_justifications g = ∅;
  gs_justified : just_slot g = to_u64 0;
  gs_finalized : fin_slot g = to_u64 0;
}.

Lemma genesis_fields genesis_time validators g :
  from_genesis genesis_time validators = Return g → genesis_state genesis_time validators g.
Proof.
  unfold from_genesis. rewrite variable_list_new_spec, !bitlist_with_capacity_spec.
  destruct (_ <=? VALIDATOR_REGISTRY_LIMIT); [|done]. cbn. intros [= <-]. by split.
Qed.

Lemma chain_from_state g blocks s : chain_from g blocks s → chain_state s.
Proof. induction 1; by econstructor. Qed.

Lemma chain_from_validators g blocks s :
  chain_from g blocks s → st_validators s = st_validators g.
Proof.
  induction 1 as [|blocks s block s' Hc IH Hrun]; [done|].
  destruct (chain_state_wf s) as [Hwf _]; [by eapply chain_from_state|].
  destruct (state_transition_done _ _ _ Hwf Hrun) as (_ & Hp & _).
  by rewrite (bp_validators _ _ _ Hp).
Qed.

(** The header of the last block, once its state root is filled in. *)
Lemma completed_last g blocks s :
  chain_from g blocks s → completed_header s ∈ chain_headers g blocks.
Proof.
  destruct 1 as [|blocks s block s' Hc Hrun]; [by left|]. right.
  destruct (chain_state_wf s) as [Hwf _]; [by eapply chain_from_state|].
  destruct (state_transition_done _ _ _ Hwf Hrun) as (_ & Hp & Hroot & _).
  rewrite fmap_app, elem_of_app. right. apply list_elem_of_singleton.
  unfold completed_header. rewrite (bp_header _ _ _ Hp). cbn. by rewrite <- Hroot.
Qed.

(** The roots of the history are those of the chain's headers, at their slots. *)
Lemma history_headers g blocks s (t : N) r :
  chain_from g blocks s → r ≠ H256_ZERO → get_at (st_historical_block_hashes s) t = Some r →
  ∃ h, h ∈ chain_headers g blocks ∧ tree_hash_root h = r ∧ u64_val (bh_slot h) = t.
Proof.
  induction 1 as [genesis_time validators Hne Hgen|blocks s block s' Hc IH Hrun]; intros Hz Hget.
  { destruct (genesis_wf _ _ _ Hne Hgen) as [[Hwf _] _]. apply get_at_Some in Hget.
    rewrite (wf_hist_len _ Hwf) in Hget.
    rewrite (gs_header _ _ _ (genesis_fields _ _ _ Hgen)) in Hget. cbn in Hget. lia. }
  destruct (chain_state_wf s) as [[Hwf _] _]; [by eapply chain_from_state|].
  destruct (state_transition_done s block s') as (Hfit & Hp & _ & _);
    [by eapply chain_state_wf, chain_from_state|done|].
  rewrite (bp_history _ _ _ Hp), get_at_lookup in Hget.
  apply lookup_app_Some in Hget as [Hget|[Hle Hget]].
  - rewrite <- get_at_lookup in Hget. destruct (IH Hz Hget) as (h & Hh & Hr & Hs).
    exists h. split_and!; [|done..]. unfold chain_headers in *. rewrite fmap_app.
    apply elem_of_cons in Hh as [->|Hh]; [by left|right]. apply elem_of_app. by left.
  - assert (Ht : t = header_slot s).
    { pose proof (wf_hist_len s Hwf) as Hl. unfold len in Hl.
      destruct (N.to_nat t - length (st_historical_block_hashes s))%nat as [|k] eqn:Hk; [lia|].
      cbn in Hget. apply lookup_replicate in Hget as [? _]. done. }
    pose proof (wf_hist_len s Hwf) as Hl. unfold len in Hl.
    replace (N.to_nat t - _)%nat with 0%nat in Hget by lia. cbn in Hget. injection Hget as <-.
    exists (completed_header s). split_and!.
    + pose proof (completed_last g blocks s Hc) as Hh. unfold chain_headers in *. rewrite fmap_app.
      apply elem_of_cons in Hh as [->|Hh]; [by left|right]. apply elem_of_app. by left.
    + symmetry. apply Hfit.
    + rewrite Ht. unfold completed_header. by destruct (is_zero _).
Qed.

Lemma chain_distinct g blocks s :
  chain_from g blocks s → collision_free (chain_headers g blocks) →
  distinct_roots (st_historical_block_hashes s).
Proof.
  intros Hc Hfree t t' r Hz Hget Hget'.
  destruct (history_headers _ _ _ _ _ Hc Hz Hget) as (h & Hh & Hr & <-).
  destruct (history_headers _ _ _ _ _ Hc Hz Hget') as (h' & Hh' & Hr' & <-).
  by rewrite (Hfree h h') by congruence.
Qed.

Lemma distinct_prefix (hist rest : list H256) :
  distinct_roots (hist ++ rest) → distinct_roots hist.
Proof.
  intros Hd t t' r Hz Ht Ht'. rewrite get_at_lookup in Ht, Ht'.
  by apply (Hd t t' r Hz); rewrite get_at_lookup; apply lookup_app_l_Some.
Qed.

Lemma anchored_at_slot slot s : anchored s → anchored (at_slot slot s).
Proof. unfold anchored. by rewrite at_slot_header_slot. Qed.

(** An accepted transition, taken apart. *)
Lemma transition_steps s block s' :
  state_wf s → state_transition block s = Done s' tt →
  ∃ s1 s2 J, block_fits s block ∧ header_accepted (at_slot (b_slot block) s) block ∧
    header_applied (at_slot (b_slot block) s) block s1 ∧ state_wf s1 ∧
    attestation_steps s1 (load_justifications s1) (bb_attestations (b_body block)) s2 J ∧
    core_wf s2 ∧ votes_wf s2 J ∧ s' = with_tallies J s2.
Proof.
  intros Hwf Hrun. destruct (state_transition_done s block s' Hwf Hrun) as (Hfit & _ & _ & Hpb).
  pose proof (at_slot_wf (b_slot block) s Hwf (bf_slot _ _ Hfit)) as Hwf0.
  unfold process_block in Hpb. rewrite run_bind in Hpb.
  destruct (process_block_header_cases (at_slot (b_slot block) s) block)
    as [(? & ? & Hr & _)|(s1 & Hr & Hacc & Happ)]; [apply Hwf0|by rewrite Hr in Hpb|].
  rewrite Hr in Hpb. assert (Hwf1 : state_wf s1) by (by eapply header_applied_wf).
  destruct (process_attestations_steps s1 (bb_attestations (b_body block)) Hwf1)
    as (s2 & J & Hsteps & Hrun2 & Hwf2 & Hv2 & _).
  rewrite Hrun2 in Hpb. injection Hpb as <-. by exists s1, s2, J.
Qed.

(** Headers leave the votes behind the state untouched. *)
Lemma backed_header atts s block s1 :
  core_wf s → header_applied (at_slot (b_slot block) s) block s1 →
  backed atts s (load_justifications s) → backed atts s1 (load_justifications s1).
Proof.
  intros Hwf Ha [Ht Hp Hw Hj Hf].
  destruct (header_applied_slots _ _ _ Ha) as [Hfin Hjust].
  change (fin_slot (at_slot (b_slot block) s)) with (fin_slot s) in Hfin.
  change (just_slot (at_slot (b_slot block) s)) with (just_slot s) in Hjust.
  assert (Hload : load_justifications s1 = load_justifications s)
    by (unfold load_justifications; by rewrite (hd_roots _ _ _ Ha), (hd_votes _ _ _ Ha), (hd_validators _ _ _ Ha)).
  assert (Hhist : ∀ t r, get_at (st_historical_block_hashes s) t = Some r →
    get_at (st_historical_block_hashes s1) t = Some r).
  { intros t r. rewrite (hd_history _ _ _ Ha), !get_at_lookup. apply lookup_app_l_Some. }
  assert (Hpos : 0 < just_slot s → (u64_val (header_slot (at_slot (b_slot block) s)) =? 0) = false).
  { intros Hlt. pose proof (wf_justified_past s Hwf). pose proof (wf_hist_len s Hwf).
    apply N.eqb_neq. rewrite at_slot_header_slot. lia. }
  pose proof (wf_finalized_justified s Hwf) as Hfj.
  split; rewrite ?Hload, ?(hd_validators _ _ _ Ha), ?Hfin, ?Hjust.
  - intros r v i HJ Hi. destruct (Ht r v i HJ Hi) as (c & Hc & Hr & Hget). exists c. auto.
  - done.
  - intros t Hlt. pose proof (hd_window_bits _ _ _ Ha t) as Hbits. rewrite Hfin in Hbits.
    change (fin_slot (at_slot (b_slot block) s)) with (fin_slot s) in Hbits.
    rewrite Hbits. intros Hb.
    destruct (Hw t Hlt Hb) as (r & Hr & Hq). exists r. auto.
  - intros Hlt. rewrite (hd_justified _ _ _ Ha), Hpos by done. by apply Hj.
  - intros Hlt. rewrite (hd_finalized _ _ _ Ha), Hpos by lia. by apply Hf.
Qed.

(** Every chain is backed by the votes in its blocks. *)
Lemma chain_backed g blocks s :
  chain_from g blocks s → distinct_roots (st_historical_block_hashes s) →
  backed (chain_votes blocks) s (load_justifications s).
Proof.
  induction 1 as [genesis_time validators Hne Hgen|blocks s block s' Hc IH Hrun]; intros Hd.
  { destruct (genesis_fields _ _ _ Hgen) as [Hh Hvals Hw Ht Hj Hf].
    split; rewrite ?Ht, ?Hj, ?Hf, ?Hw; [done..| |done|done].
    intros t Hlt. rewrite is_slot_justified_spec, (proj2 (N.ltb_lt _ _)) by done. by rewrite get_at_lookup. }
  destruct (chain_state_wf s) as [Hwf Ha]; [by eapply chain_from_state|].
  destruct (transition_steps s block s' Hwf Hrun)
    as (s1 & s2 & J & Hfit & Hacc & Happ & Hwf1 & Hsteps & Hwf2 & Hv2 & ->).
  rewrite load_with_tallies by done.
  destruct (attestation_steps_chain _ _ _ _ _ (proj1 Hwf1) (load_votes_wf s1 Hwf1) Hsteps) as [_ _ Hhist _].
  change (st_historical_block_hashes (with_tallies J s2)) with (st_historical_block_hashes s2) in Hd.
  rewrite Hhist in Hd.
  assert (Hpos : 0 < header_slot s1).
  { unfold header_slot. rewrite (hd_header _ _ _ Happ). cbn. pose proof (ha_newer _ _ Hacc). lia. }
  enough (Hb : backed (chain_votes (blocks ++ [block])) s2 J) by (by destruct Hb; split).
  eapply (backed_steps _ s1); [apply Hwf1|by apply load_votes_wf|done| |done| | |done].
  - eapply header_applied_anchored; [by apply at_slot_wf, Hfit|by apply anchored_at_slot|done..].
  - unfold chain_votes. rewrite bind_app. cbn. rewrite app_nil_r. set_solver.
  - eapply backed_mono, backed_header; [|apply Hwf|done|apply IH].
    + unfold chain_votes. rewrite bind_app. set_solver.
    + rewrite (hd_history _ _ _ Happ) in Hd. by eapply distinct_prefix.
Qed.

End chains.

(** * Offences *)

(** A validator that casts both [a] and [b] breaks one of Casper's two rules. *)

Definition double_vote (a b : AttestationData) : Prop :=
  ad_target a ≠ ad_target b ∧ cp_slot (ad_target a) = cp_slot (ad_target b).
Definition surrounds (a b : AttestationData) : Prop :=
  u64_val (cp_slot (ad_source a)) < cp_slot (ad_source b) ∧
  u64_val (cp_slot (ad_target b)) < cp_slot (ad_target a).

Definition offends (atts : list AggregatedAttestation) (i : nat) : Prop :=
  ∃ a b, a ∈ atts ∧ b ∈ atts ∧
    aa_aggregation_bits a !! i = Some true ∧ aa_aggregation_bits b !! i = Some true ∧
    (double_vote (aa_data a) (aa_data b) ∨ surrounds (aa_data a) (aa_data b)).

#[global] Instance double_vote_dec a b : Decision (double_vote a b).
Proof. unfold double_vote. apply _. Defined.
#[global] Instance surrounds_dec a b : Decision (surrounds a b).
Proof. unfold surrounds. apply _. Defined.

(** No two of the votes are an offence of whoever cast both. *)
Definition harmless (atts : list AggregatedAttestation) : Prop :=
  Forall (λ a, Forall (λ b, ¬ (double_vote (aa_data a) (aa_data b) ∨
    surrounds (aa_data a) (aa_data b))) atts) atts.

#[global] Instance harmless_dec atts : Decision (harmless atts).
Proof. unfold harmless. apply _. Defined.

Lemma harmless_spec atts i : harmless atts → ¬ offends atts i.
Proof.
  intros Hall (a & b & Ha & Hb & _ & _ & Hoff).
  eapply Forall_forall in Hall; [|exact Ha]. cbn in Hall.
  eapply Forall_forall in Hall; [|exact Hb]. done.
Qed.

Lemma collision_free_NoDup `{HS : Hashing} headers :
  NoDup ((tree_hash_root : BlockHeader → H256) <$> headers) → collision_free headers.
Proof.
  intros Hnd h h' [i Hi]%list_elem_of_lookup [j Hj]%list_elem_of_lookup Heq.
  assert (i = j) as ->; [|congruence]. eapply NoDup_lookup; [done|..].
  - by rewrite list_lookup_fmap, Hi.
  - rewrite list_lookup_fmap, Hj. cbn. by rewrite Heq.
Qed.

(** * Theorems *)

Section theorems.
Context `{STL : SszTypesLaws} `{HS : Hashing} `{HOL : HashOrderLaws}.

Lemma certified_quorum g blocks s c :
  chain_from g blocks s → collision_free (chain_headers g blocks) →
  certified s c → 0 < cp_slot c → quorum (len (st_validators g)) (chain_votes blocks) c.
Proof.
  intros Hc Hfree Hcert Hpos.
  destruct (chain_backed g blocks s Hc (chain_distinct g blocks s Hc Hfree)) as [_ _ Hw Hj Hf].
  rewrite (chain_from_validators _ _ _ Hc) in Hw, Hj, Hf.
  destruct Hcert as [| |c Hlt Hex Hb]; [by apply Hj|by apply Hf|].
  destruct (Hw (cp_slot c) Hlt Hb) as (r & Hr & Hq).
  rewrite checkpoint_exists_get, Hr in Hex. injection Hex as ->. by destruct c.
Qed.

(** C8. Nothing is certified without votes: each checkpoint above genesis that a chain's state
    holds for justified or finalized has the votes of two thirds of the validators in the
    blocks of that chain, all for this very root and slot; and the finalized checkpoint is
    the source of a vote for a later checkpoint that has a quorum too. *)
Theorem certificates g blocks s :
  chain_from g blocks s → collision_free (chain_headers g blocks) →
  (∀ c, certified s c → 0 < cp_slot c → quorum (len (st_validators g)) (chain_votes blocks) c) ∧
  (0 < fin_slot s →
   finalizing (len (st_validators g)) (chain_votes blocks) (st_latest_finalized s)).
Proof.
  intros Hc Hfree. split; [intros c; by apply (certified_quorum g blocks s)|]. intros Hpos.
  pose proof (chain_backed g blocks s Hc (chain_distinct g blocks s Hc Hfree)) as Hb.
  rewrite <- (chain_from_validators _ _ _ Hc). by apply (bk_finalized _ _ _ Hb).
Qed.

(** Accountability at one slot: when two chains from the same genesis certify different
    blocks of one slot, the votes of a third of the validators in the blocks of the first
    chain and in those of the second are double votes. *)
Theorem double_justification_accountable g blocks1 s1 blocks2 s2 c1 c2 :
  chain_from g blocks1 s1 → collision_free (chain_headers g blocks1) →
  chain_from g blocks2 s2 → collision_free (chain_headers g blocks2) →
  certified s1 c1 → certified s2 c2 →
  c1 ≠ c2 → cp_slot c1 = cp_slot c2 → 0 < cp_slot c1 →
  ∃ V : gset nat, among (len (st_validators g)) V ∧
    len (st_validators g) <= 3 * N.of_nat (size V) ∧
    ∀ i, i ∈ V → ∃ a b, a ∈ chain_votes blocks1 ∧ b ∈ chain_votes blocks2 ∧
      aa_aggregation_bits a !! i = Some true ∧ aa_aggregation_bits b !! i = Some true ∧
      double_vote (aa_data a) (aa_data b).
Proof.
  intros Hc1 Hf1 Hc2 Hf2 Hcert1 Hcert2 Hne Hs Hpos.
  destruct (certified_quorum g blocks1 s1 c1) as (V & HV & HVn & HVv); [done..|].
  destruct (certified_quorum g blocks2 s2 c2) as (W & HW & HWn & HWv); [done..|by rewrite <- Hs|].
  exists (V ∩ W). split_and!.
  - intros i [Hi _]%elem_of_intersection. by apply HV.
  - by apply quorum_intersection.
  - intros i [Hi1 Hi2]%elem_of_intersection.
    destruct (HVv i Hi1) as (? & a & Ha & _ & Hta & Hba).
    destruct (HWv i Hi2) as (? & b & Hb & _ & Htb & Hbb).
    exists a, b. split_and!; [done..|]. unfold double_vote. by rewrite Hta, Htb.
Qed.

End theorems.

(** * Progress *)

Section progress.
Context `{STL : SszTypesLaws} `{HS : Hashing} `{HOL : HashOrderLaws}.

(** The slot [t] counts as justified in [s]. *)
Definition justified_slot (s : State) (t : u64) : Prop :=
  is_slot_justified (st_justified_slots s) (fin_slot s) t = true.

#[global] Instance justified_slot_dec s t : Decision (justified_slot s t).
Proof. unfold justified_slot. apply _. Defined.

(** [s] knows the checkpoint [c] as a block of its chain. *)
Definition on_chain (s : State) (c : Checkpoint) : Prop :=
  cp_root c ≠ H256_ZERO ∧ checkpoint_exists s c = true.

Lemma finalized_slot_justified (s : State) (t : u64) : u64_val t <= fin_slot s → justified_slot s t.
Proof. intros Ht. unfold justified_slot. by rewrite is_slot_justified_spec, (proj2 (N.ltb_ge _ _)). Qed.

(** Justification is not taken back. *)
Lemma step_keeps_justified s J att s' J' (t : u64) :
  attestation_step s J att s' J' → justified_slot s t → justified_slot s' t.
Proof.
  intros Hstep Ht.
  assert (Hjust : ∀ target finalized s1, justified_with s target finalized s1 → justified_slot s1 t).
  { intros target finalized s1 Hjw. assert (Hf : fin_slot s1 = cp_slot finalized)
      by (unfold fin_slot; by rewrite (jw_finalized _ _ _ _ Hjw)).
    destruct (N.le_gt_cases t (fin_slot s1)) as [Hle|Hgt]; [by apply finalized_slot_justified|].
    unfold justified_slot. rewrite Hf in *. rewrite (jw_bits _ _ _ _ Hjw) by done. by rewrite Ht, orb_true_r. }
  by destruct Hstep; eauto.
Qed.

Lemma steps_keep_justified s J atts s' J' :
  core_wf s → votes_wf s J → attestation_steps s J atts s' J' →
  fin_slot s <= fin_slot s' ∧ ∀ t, justified_slot s t → justified_slot s' t.
Proof.
  intros Hwf Hv Hsteps. induction Hsteps as [|s J att s1 J1 atts s2 J2 Hstep _ IH]; [done|].
  destruct (attestation_step_invariant s J att s1 J1) as (Hwf1 & Hv1 & _ & Hf); [done..|].
  destruct IH as [Hf' Hall]; [done..|]. split; [lia|]. intros t Ht. by eapply Hall, step_keeps_justified.
Qed.

(** More bits keep a supermajority. *)
Lemma supermajority_or n votes bits :
  length votes = N.to_nat n → len bits <= n → supermajority n bits → supermajority n (or_bits votes bits).
Proof.
  unfold supermajority. intros Hv Hb Hsm.
  enough (count_votes bits <= count_votes (or_bits votes bits)) by lia.
  rewrite <- !size_voters. enough (size (voters bits) <= size (voters (or_bits votes bits)))%nat by lia.
  apply subseteq_size. intros i. rewrite !elem_of_voters, or_bits_lookup. intros Hi.
  destruct (lookup_lt_is_Some_2 votes i) as [v Hvi]; [apply lookup_lt_Some in Hi; unfold len in Hb; lia|].
  rewrite Hvi, Hi. cbn. by rewrite orb_true_r.
Qed.

(** The step of a valid vote of two thirds of the validators. *)
Lemma step_justifies s J att s' J' :
  core_wf s → votes_wf s J → attestation_step s J att s' J' →
  is_valid_vote s (ad_source (aa_data att)) (ad_target (aa_data att)) = true →
  len (aa_aggregation_bits att) <= len (st_validators s) →
  supermajority (len (st_validators s)) (aa_aggregation_bits att) →
  justified_slot s' (cp_slot (ad_target (aa_data att))) ∧
  (¬ justifiable_between s (ad_source (aa_data att)) (ad_target (aa_data att)) →
   fin_slot s' = cp_slot (ad_source (aa_data att))).
Proof.
  intros Hwf Hv Hstep Hval Hfit Hsm.
  assert (Hor : supermajority (len (st_validators s))
    (or_bits (tally s J (cp_root (ad_target (aa_data att)))) (aa_aggregation_bits att))).
  { apply supermajority_or; [|done|done].
    pose proof (tally_len s J (cp_root (ad_target (aa_data att))) Hv) as Hl. unfold len in *. lia. }
  assert (Hbit : ∀ finalized s1, justified_with s (ad_target (aa_data att)) finalized s1 →
    justified_slot s1 (cp_slot (ad_target (aa_data att)))).
  { intros finalized s1 Hjw. assert (Hf : fin_slot s1 = cp_slot finalized)
      by (unfold fin_slot; by rewrite (jw_finalized _ _ _ _ Hjw)).
    destruct (N.le_gt_cases (cp_slot (ad_target (aa_data att))) (fin_slot s1)); [by apply finalized_slot_justified|].
    unfold justified_slot. rewrite Hf in *. rewrite (jw_bits _ _ _ _ Hjw) by done. by rewrite bool_decide_eq_true_2. }
  destruct Hstep as [Hno|_ Hover|votes _ _ -> Hnot|s' _ _ _ Hbt Hjw|s' J' _ _ _ Hbt Hle Hjw _];
    [congruence|lia|done| |].
  - split; [by eapply Hbit|done].
  - split; [by eapply Hbit|]. intros _. unfold fin_slot. by rewrite (jw_finalized _ _ _ _ Hjw).
Qed.


End progress.

(** * Forks of three validators *)

Module Forks.

#[local] Existing Instances reference_ssz_types reference_ssz_types_laws reference_hashing
  reference_hashing_laws reference_order canonical_order_laws.

Import Scenario.

Definition at_block (block : Block) : Checkpoint := mk_checkpoint (tree_hash_root block) (b_slot block).
Definition ballot (bits : list bool) (source target : Checkpoint) : AggregatedAttestation :=
  mk_aggregated_attestation bits (mk_attestation_data (cp_slot target) target target source).
Definition is_done {S E A} (o : outcome S E A) : bool := if o is Done _ _ then true else false.
Definition all : list bool := [true; true; true].

(** [s] after the block at [slot] with the attestations [atts]. *)
Definition after (s : State) (block : Block) : State := run_state (state_transition block s).

(** Blocks 3 and 4 are common to both chains; block 4 justifies block 3. *)
Definition block3 : Block := Eval vm_compute in sealed genesis 3 [].
Definition state3 : State := Eval vm_compute in after genesis block3.
Definition check0 : Checkpoint := Eval vm_compute in mk_checkpoint (b_parent_root block3) (to_u64 0).
Definition check3 : Checkpoint := Eval vm_compute in at_block block3.
Definition block4 : Block := Eval vm_compute in sealed state3 4 [ballot all check0 check3].
Definition state4 : State := Eval vm_compute in after state3 block4.
Definition check4 : Checkpoint := Eval vm_compute in at_block block4.
Definition common : list Block := [block3; block4].

(** The left chain: 6 is justified from 3, then 9 from 6; nothing between 6 and 9 can be
    justified while genesis is the finalized block, so 6 is finalized. *)
Definition left6 : Block := Eval vm_compute in sealed state4 6 [].
Definition lstate6 : State := Eval vm_compute in after state4 left6.
Definition left9 : Block := Eval vm_compute in sealed lstate6 9 [ballot all check3 (at_block left6)].
Definition lstate9 : State := Eval vm_compute in after lstate6 left9.
Definition left10 : Block := Eval vm_compute in sealed lstate9 10 [ballot all (at_block left6) (at_block left9)].
Definition lstate10 : State := Eval vm_compute in after lstate9 left10.
Definition left : list Block := [left6; left9; left10].

(** The right chain: block 8 has votes from 3 to 4, which finalize 3. Seen from 3, slot 8
    can be justified; then 12 from 8 and 15 from 12, which finalizes 12. *)
Definition right8 : Block := Eval vm_compute in sealed state4 8 [ballot all check3 check4].
Definition rstate8 : State := Eval vm_compute in after state4 right8.
Definition right12 : Block := Eval vm_compute in sealed rstate8 12 [ballot all check4 (at_block right8)].
Definition rstate12 : State := Eval vm_compute in after rstate8 right12.
Definition right15 : Block := Eval vm_compute in sealed rstate12 15 [ballot all (at_block right8) (at_block right12)].
Definition rstate15 : State := Eval vm_compute in after rstate12 right15.
Definition right16 : Block := Eval vm_compute in sealed rstate15 16 [ballot all (at_block right12) (at_block right15)].
Definition rstate16 : State := Eval vm_compute in after rstate15 right16.
Definition right : list Block := [right8; right12; right15; right16].

(** A block that leads from one state to the next. *)
Lemma extend blocks s block s' :
  chain_from genesis blocks s → state_transition block s = Done s' tt → chain_from genesis (blocks ++ [block]) s'.
Proof. intros Hc Hrun. by eapply chain_from_block. Qed.

Ltac run_step := vm_compute; reflexivity.

Lemma genesis_chain_from : chain_from genesis [] genesis.
Proof.
  apply (chain_from_genesis _ (to_u64 1000) [Sample.validator 0; Sample.validator 1; Sample.validator 2]);
    [done|by vm_compute].
Qed.

Lemma common_chain : chain_from genesis common state4.
Proof.
  apply (extend [block3] state3 block4); [|run_step].
  apply (extend [] genesis block3); [apply genesis_chain_from|run_step].
Qed.

Lemma left_chain : chain_from genesis (common ++ left) lstate10.
Proof.
  apply (extend [block3; block4; left6; left9] lstate9 left10); [|run_step].
  apply (extend [block3; block4; left6] lstate6 left9); [|run_step].
  apply (extend [block3; block4] state4 left6); [apply common_chain|run_step].
Qed.

Lemma right_chain : chain_from genesis (common ++ right) rstate16.
Proof.
  apply (extend [block3; block4; right8; right12; right15] rstate15 right16); [|run_step].
  apply (extend [block3; block4; right8; right12] rstate12 right15); [|run_step].
  apply (extend [block3; block4; right8] rstate8 right12); [|run_step].
  apply (extend [block3; block4] state4 right8); [apply common_chain|run_step].
Qed.

(** The votes of both chains. *)
Definition both : list AggregatedAttestation := Eval vm_compute in chain_votes (common ++ left ++ right).

Lemma headers_distinct blocks :
  bool_decide (NoDup ((tree_hash_root : BlockHeader → H256) <$> chain_headers genesis blocks)) = true →
  collision_free (chain_headers genesis blocks).
Proof. intros Hnd. by apply collision_free_NoDup, (bool_decide_eq_true_1 _). Qed.

(** Finalized checkpoints can conflict without an offence: two chains of the same genesis
    finalize different blocks, neither of which is a block of the other chain, although
    every validator takes part in every vote and no validator ever breaks one of Casper's
    two rules. The right chain knows that block 3 is finalized and the left one does not,
    so they disagree on which slots can be justified, and the right chain justifies slot 8
    between the source 6 and the target 9 that finalize block 6 on the left. *)
Theorem conflicting_finalization :
  chain_from genesis (common ++ left) lstate10 ∧ chain_from genesis (common ++ right) rstate16 ∧
  collision_free (chain_headers genesis (common ++ left ++ right)) ∧
  0 < fin_slot lstate10 ∧ fin_slot lstate10 < fin_slot rstate16 ∧
  checkpoint_exists rstate16 (st_latest_finalized lstate10) = false ∧
  checkpoint_exists lstate10 (st_latest_finalized rstate16) = false ∧
  (∀ att, att ∈ both → aa_aggregation_bits att = replicate (length (st_validators genesis)) true) ∧
  (∀ i, ¬ offends both i).
Proof.
  split; [apply left_chain|]. split; [apply right_chain|].
  split; [apply headers_distinct; by vm_compute|]. split_and!; [by vm_compute..| |].
  - apply Forall_forall, (bool_decide_eq_true_1 _). by vm_compute.
  - intros i. apply harmless_spec, (bool_decide_eq_true_1 _). by vm_compute.
Qed.

(** A chain with the blocks 1, 2 and 3. *)
Definition solo1 : Block := Eval vm_compute in sealed genesis 1 [].
Definition sstate1 : State := Eval vm_compute in after genesis solo1.
Definition solo2 : Block := Eval vm_compute in sealed sstate1 2
  [ballot all (mk_checkpoint (b_parent_root solo1) (to_u64 0)) (at_block solo1)].
Definition sstate2 : State := Eval vm_compute in after sstate1 solo2.
Definition solo3 : Block := Eval vm_compute in sealed sstate2 3
  [ballot [false; true; false] (mk_checkpoint (b_parent_root solo1) (to_u64 0)) (at_block solo2);
   ballot [true; false; false] (at_block solo1) (at_block solo2)].
Definition sstate3 : State := Eval vm_compute in after sstate2 solo3.

(** One vote can finalize: votes count for their target whatever their source is, and the
    source of the vote that completes the quorum is finalized. Here one of three
    validators names block 1 as source, and block 1 is finalized. *)
Theorem one_vote_finalizes :
  chain_from genesis [solo1; solo2; solo3] sstate3 ∧
  st_latest_finalized sstate3 = at_block solo1 ∧
  ∀ i target, cast (chain_votes [solo1; solo2; solo3]) i (at_block solo1) target → i = 0%nat.
Proof.
  split; [|split; [by vm_compute|]].
  - apply (extend [solo1; solo2] sstate2 solo3); [|run_step].
    apply (extend [solo1] sstate1 solo2); [|run_step].
    apply (extend [] genesis solo1); [apply genesis_chain_from|run_step].
  - intros i target (att & Hin & Hs & _ & Hi).
    assert (Hall : Forall (λ att, ad_source (aa_data att) = at_block solo1 →
      aa_aggregation_bits att = [true; false; false]) (chain_votes [solo1; solo2; solo3]))
      by (apply (bool_decide_eq_true_1 _); by vm_compute).
    eapply Forall_forall in Hall; [|exact Hin]. rewrite (Hall Hs) in Hi.
    destruct i as [|[|[|i]]]; by cbn in Hi.
Qed.

Lemma certificates_witness :
  (∀ c, certified lstate10 c → 0 < cp_slot c → quorum (len (st_validators genesis)) (chain_votes (common ++ left)) c) ∧
  (0 < fin_slot lstate10 →
   finalizing (len (st_validators genesis)) (chain_votes (common ++ left)) (st_latest_finalized lstate10)).
Proof.
  apply (certificates genesis (common ++ left) lstate10); [apply left_chain|].
  apply headers_distinct. by vm_compute.
Defined.

(** Another block at slot 3. *)
Definition twin3 : Block := Eval vm_compute in sealed genesis 3 [ballot [] check0 check0].
Definition tstate3 : State := Eval vm_compute in after genesis twin3.
Definition twin4 : Block := Eval vm_compute in sealed tstate3 4 [ballot [true; false; true] check0 (at_block twin3)].
Definition tstate4 : State := Eval vm_compute in after tstate3 twin4.

Lemma twin_chain : chain_from genesis [twin3; twin4] tstate4.
Proof.
  apply (extend [twin3] tstate3 twin4); [|run_step].
  apply (extend [] genesis twin3); [apply genesis_chain_from|run_step].
Qed.

Lemma double_justification_accountable_witness :
  ∃ V : gset nat, among (len (st_validators genesis)) V ∧
    len (st_validators genesis) <= 3 * N.of_nat (size V) ∧
    ∀ i, i ∈ V → ∃ a b, a ∈ chain_votes common ∧ b ∈ chain_votes [twin3; twin4] ∧
      aa_aggregation_bits a !! i = Some true ∧ aa_aggregation_bits b !! i = Some true ∧
      double_vote (aa_data a) (aa_data b).
Proof.
  apply (double_justification_accountable genesis common state4 [twin3; twin4] tstate4
    (st_latest_justified state4) (st_latest_justified tstate4));
    [apply common_chain|apply headers_distinct; by vm_compute|apply twin_chain
    |apply headers_distinct; by vm_compute|apply certified_justified..| | |].
  - apply (bool_decide_eq_true_1 _). by vm_compute.
  - by vm_compute.
  - by vm_compute.
Defined.

Lemma lchain9 : chain_from genesis (common ++ [left6; left9]) lstate9.
Proof.
  apply (extend [block3; block4; left6] lstate6 left9); [|run_step].
  apply (extend [block3; block4] state4 left6); [apply common_chain|run_step].
Qed.

Lemma run10 : state_transition left10 lstate9 = Done lstate10 tt.
Proof. by vm_compute. Qed.


(** The latest justified checkpoint can go back: a block with votes for slot 2 and then for
    slot 1 leaves slot 1 as the latest justified one, although slot 2 is justified too. *)
Definition plain2 : Block := Eval vm_compute in sealed sstate1 2 [].
Definition pstate2 : State := Eval vm_compute in after sstate1 plain2.
Definition origin : Checkpoint := Eval vm_compute in mk_checkpoint (b_parent_root solo1) (to_u64 0).
Definition votes_back (n : nat) : Block :=
  sealed pstate2 3 (take n [ballot all origin (at_block plain2); ballot all origin (at_block solo1)]).

Example latest_justified_goes_back :
  st_latest_justified (after pstate2 (votes_back 1)) = at_block plain2 ∧
  st_latest_justified (after pstate2 (votes_back 2)) = at_block solo1 ∧
  justified_slot (after pstate2 (votes_back 2)) (b_slot plain2).
Proof. split_and!; by vm_compute. Qed.

End Forks.
