(* ===== verification/ForkChoice.v ===== *)
(** LMD GHOST fork choice (crates/blockchain/fork_choice/src/lib.rs): attestation
    weights and the greedy descent to the head. *)

From S2P Require Import Prelude Types Reference.

(** Slot and parent root of each live block. *)
Abbreviation BlockTree := (gmap H256 (u64 * H256)).
Abbreviation Weights := (gmap H256 u64).

(** * The code *)

Section fork_choice.
Context `{HO : HashOrder}.

Definition weight_of (weights : Weights) (root : H256) : u64 := default (to_u64 0) (weights !! root).

(** [*weights.entry(root).or_default() += 1] *)
Definition add_vote (weights : Weights) (root : H256) : Weights :=
  <[root := wrapping_add (weight_of weights root) (to_u64 1)]> weights.

(** The inner loop of [compute_block_weights]: walk from the head towards the start. *)
Fixpoint walk_votes (fuel : nat) (start_slot : u64) (blocks : BlockTree) (weights : Weights)
    (current_root : H256) : partial Weights :=
  match fuel with
  | O => Diverge
  | S fuel =>
      match blocks !! current_root with
      | Some (slot, parent_root) =>
          if start_slot <? u64_val slot
          then walk_votes fuel start_slot blocks (add_vote weights current_root) parent_root
          else Return weights
      | None => Return weights
      end
  end.

(** A walk that visits more blocks than there are never ends. *)
Definition walk_fuel (blocks : BlockTree) : nat := S (size blocks).

(** [compute_block_weights] *)
Definition compute_block_weights (start_slot : u64) (blocks : BlockTree)
    (attestations : gmap u64 AttestationData) : partial Weights :=
  fold_partial (λ weights attestation_data,
      walk_votes (walk_fuel blocks) start_slot blocks weights (cp_root (ad_head attestation_data)))
    ∅ (hash_iter attestations).*2.

(** The children that pass the score threshold, by parent. *)
Definition push_child (weights : Weights) (min_score : u64) (children_map : gmap H256 (list H256))
    (entry : H256 * (u64 * H256)) : gmap H256 (list H256) :=
  let '(root, (_, parent_root)) := entry in
  if is_zero parent_root then children_map
  else if (0 <? min_score) && (weight_of weights root <? min_score) then children_map
  else <[parent_root := default [] (children_map !! parent_root) ++ [root]]> children_map.

(** [max_by_key(|root| (weight, root))]: the last of the greatest keys. *)
Definition heavier (weights : Weights) (x y : H256) : bool :=
  (weight_of weights x <? weight_of weights y) ||
  ((weight_of weights x =? weight_of weights y) && (h256_val x <=? h256_val y)).
Definition best_child (weights : Weights) (children : list H256) : option H256 :=
  foldl (λ best root, match best with
                      | None => Some root
                      | Some b => if heavier weights b root then Some root else Some b
                      end) None children.

(** [min_by_key(|(_, (slot, _))| slot)]: the first of the least keys. *)
Definition lowest_block (blocks : list (H256 * (u64 * H256))) : option H256 :=
  fst <$> foldl (λ best entry, match best with
                               | None => Some entry
                               | Some b => if u64_val entry.2.1 <? u64_val b.2.1 then Some entry else Some b
                               end) None blocks.

(** The descent: the final loop of [compute_lmd_ghost_head]. *)
Fixpoint descend (fuel : nat) (children_map : gmap H256 (list H256)) (weights : Weights)
    (head : H256) : partial H256 :=
  match fuel with
  | O => Diverge
  | S fuel =>
      match children_map !! head with
      | Some ((_ :: _) as children) =>
          head ← expect_some (best_child weights children);
          descend fuel children_map weights head
      | _ => Return head
      end
  end.

(** [compute_lmd_ghost_head] *)
Definition compute_lmd_ghost_head (start_root : H256) (blocks : BlockTree)
    (attestations : gmap u64 AttestationData) (min_score : u64) : partial (H256 * Weights) :=
  if bool_decide (blocks = ∅) then Return (start_root, ∅)
  else
    start_root ← (if is_zero start_root then expect_some (lowest_block (hash_iter blocks))
                  else Return start_root);
    match blocks !! start_root with
    | None => Return (start_root, ∅)
    | Some (start_slot, _) =>
        weights ← compute_block_weights start_slot blocks attestations;
        let children_map := foldl (push_child weights min_score) ∅ (hash_iter blocks) in
        head ← descend (walk_fuel blocks) children_map weights start_root;
        Return (head, weights)
    end.

End fork_choice.

(** * What it computes *)

(** A child's slot is above its parent's. *)
Definition slots_increase (blocks : BlockTree) : Prop :=
  ∀ (r parent pparent : H256) (slot pslot : u64),
    blocks !! r = Some (slot, parent) → blocks !! parent = Some (pslot, pparent) →
    pslot < slot.

(** [r] lies on the chain of [head] above the start slot: a vote for [head] counts for
    [r]. *)
Inductive supports (start : u64) (blocks : BlockTree) : H256 → H256 → Prop :=
| supports_here r (slot : u64) parent :
    blocks !! r = Some (slot, parent) → start < u64_val slot → supports start blocks r r
| supports_parent h (slot : u64) parent r :
    blocks !! h = Some (slot, parent) → start < u64_val slot →
    supports start blocks parent r → supports start blocks h r.

(** The same, computed. *)
Fixpoint chain_above (fuel : nat) (start : u64) (blocks : BlockTree) (head : H256) : list H256 :=
  match fuel with
  | O => []
  | S fuel =>
      match blocks !! head with
      | Some (slot, parent) =>
          if start <? u64_val slot then head :: chain_above fuel start blocks parent else []
      | None => []
      end
  end.

Definition votes_for (start : u64) (blocks : BlockTree) (r : H256) (a : AttestationData) : bool :=
  bool_decide (r ∈ chain_above (walk_fuel blocks) start blocks (cp_root (ad_head a))).

(** The number of attestations that count for [r]. *)
Definition support (start : u64) (blocks : BlockTree) (attestations : gmap u64 AttestationData)
    (r : H256) : N :=
  len (filter (λ a, votes_for start blocks r a = true) (map_to_list attestations).*2).

(** [c] is a child of [p] that passes the threshold. *)
Definition viable_child (blocks : BlockTree) (weight : H256 → N) (min_score : N) (p c : H256) : Prop :=
  p ≠ H256_ZERO ∧ (∃ slot, blocks !! c = Some (slot, p)) ∧ min_score <= weight c.

(** The greedy descent: always to the heaviest viable child, the greater root on a tie,
    until there is none. *)
Definition best_viable (blocks : BlockTree) (weight : H256 → N) (min_score : N) (p c : H256) : Prop :=
  viable_child blocks weight min_score p c ∧
  ∀ c', viable_child blocks weight min_score p c' →
    weight c' < weight c ∨ weight c' = weight c ∧ h256_le c' c.

Inductive greedy (blocks : BlockTree) (weight : H256 → N) (min_score : N) : H256 → H256 → Prop :=
| greedy_leaf p : (∀ c, ¬ viable_child blocks weight min_score p c) → greedy blocks weight min_score p p
| greedy_step p c h : best_viable blocks weight min_score p c → greedy blocks weight min_score c h →
    greedy blocks weight min_score p h.

(** * Walks end *)

Section ranks.
Context (blocks : BlockTree) (Hinc : slots_increase blocks).

(** The number of blocks at or below the slot of a block. *)
Definition rank (root : H256) : nat :=
  match blocks !! root with
  | Some (slot, _) => size (filter (λ kv : H256 * (u64 * H256), u64_val kv.2.1 <= u64_val slot) blocks)
  | None => 0
  end.

Lemma rank_pos root : is_Some (blocks !! root) → (0 < rank root)%nat.
Proof.
  intros [[slot parent] Hr]. unfold rank. rewrite Hr.
  set (m := filter _ _). enough (size m ≠ 0%nat) by lia. apply map_size_non_empty_iff. intros He.
  assert (Hm : m !! root = Some (slot, parent)) by (by apply map_lookup_filter_Some).
  by rewrite He, lookup_empty in Hm.
Qed.

Lemma rank_le root : (rank root <= size blocks)%nat.
Proof.
  unfold rank. destruct (blocks !! root) as [[slot parent]|]; [|lia].
  apply map_subseteq_size, map_filter_subseteq.
Qed.

Lemma rank_parent h slot parent :
  blocks !! h = Some (slot, parent) → (rank parent < rank h)%nat.
Proof.
  intros Hh. destruct (blocks !! parent) as [[pslot pparent]|] eqn:Hp.
  2:{ unfold rank at 1. rewrite Hp. apply rank_pos. by rewrite Hh. }
  pose proof (Hinc _ _ _ _ _ Hh Hp) as Hlt. unfold rank. rewrite Hh, Hp.
  apply map_subset_size, map_subset_alt. split.
  - apply map_filter_subseteq_ext. intros r [s p] _. cbn. lia.
  - exists h. split.
    + apply map_lookup_filter_None. right. intros [s p]. rewrite Hh. intros [= <- <-]. cbn. lia.
    + exists (slot, parent). by apply map_lookup_filter_Some.
Qed.

Lemma chain_above_fuel start head n m :
  (rank head < n)%nat → (rank head < m)%nat →
  chain_above n start blocks head = chain_above m start blocks head.
Proof.
  revert m head. induction n as [|n IH]; intros [|m] head Hn Hm; [lia..|]. cbn.
  destruct (blocks !! head) as [[slot parent]|] eqn:Hh; [|done].
  destruct (start <? u64_val slot); [|done]. f_equal.
  pose proof (rank_parent _ _ _ Hh). apply IH; lia.
Qed.

Lemma walk_votes_spec start weights head n :
  (rank head < n)%nat →
  walk_votes n start blocks weights head =
    Return (foldl add_vote weights (chain_above n start blocks head)).
Proof.
  revert weights head. induction n as [|n IH]; intros weights head Hn; [lia|]. cbn.
  destruct (blocks !! head) as [[slot parent]|] eqn:Hh; [|done].
  destruct (start <? u64_val slot); [|done]. pose proof (rank_parent _ _ _ Hh).
  rewrite IH by lia. done.
Qed.

Lemma chain_above_supports (start : u64) head n r :
  (rank head < n)%nat → r ∈ chain_above n start blocks head ↔ supports start blocks head r.
Proof.
  revert head. induction n as [|n IH]; intros head Hn; [lia|]. cbn. split.
  - destruct (blocks !! head) as [[slot parent]|] eqn:Hh; [|set_solver].
    destruct (N.ltb_spec start slot) as [Hs|]; [|set_solver].
    pose proof (rank_parent _ _ _ Hh).
    intros [->|Hr]%elem_of_cons; [by eapply supports_here|].
    eapply supports_parent; [done..|]. apply IH; [lia|done].
  - intros Hs. destruct Hs as [r slot parent Hh Hs|h slot parent r Hh Hs Hr];
      rewrite Hh, (proj2 (N.ltb_lt _ _)) by done; [set_solver|].
    apply elem_of_cons. right. pose proof (rank_parent _ _ _ Hh). apply IH; [lia|done].
Qed.

Lemma chain_above_rank start head n r :
  r ∈ chain_above n start blocks head → (rank r <= rank head)%nat.
Proof.
  revert head. induction n as [|n IH]; intros head Hr; cbn in Hr; [set_solver|].
  destruct (blocks !! head) as [[slot parent]|] eqn:Hh; [|set_solver].
  destruct (start <? u64_val slot); [|set_solver].
  apply elem_of_cons in Hr as [->|Hr]; [done|]. pose proof (rank_parent _ _ _ Hh).
  specialize (IH _ Hr). lia.
Qed.

Lemma chain_above_NoDup start head n : NoDup (chain_above n start blocks head).
Proof.
  revert head. induction n as [|n IH]; intros head; cbn; [constructor|].
  destruct (blocks !! head) as [[slot parent]|] eqn:Hh; [|constructor].
  destruct (start <? u64_val slot); [|constructor]. constructor; [|apply IH].
  intros Hr%chain_above_rank. pose proof (rank_parent _ _ _ Hh). lia.
Qed.

(** * Weights *)

Lemma add_votes_count (weights : Weights) l r :
  NoDup l →
  weight_of (foldl add_vote weights l) r =
    to_u64 (weight_of weights r + if bool_decide (r ∈ l) then 1 else 0).
Proof.
  revert weights. induction l as [|x l IH]; intros weights Hnd; cbn.
  { rewrite bool_decide_eq_false_2 by set_solver. rewrite N.add_0_r. symmetry. apply to_u64_of_val. }
  apply NoDup_cons in Hnd as [Hx Hnd]. rewrite IH by done. apply u64_eq.
  unfold weight_of at 1, add_vote. destruct (decide (r = x)) as [->|Hne].
  - rewrite lookup_insert_eq, (bool_decide_eq_false_2 (x ∈ l)), bool_decide_eq_true_2 by set_solver.
    cbn. unfold wrapping_add. lia.
  - rewrite lookup_insert_ne by done. fold (weight_of weights r).
    by rewrite (bool_decide_ext (r ∈ x :: l) (r ∈ l)) by set_solver.
Qed.

Lemma walk_all start (atts : list AttestationData) weights :
  ∃ weights', fold_partial (λ weights a,
      walk_votes (walk_fuel blocks) start blocks weights (cp_root (ad_head a))) weights atts = Return weights' ∧
    ∀ r, weight_of weights' r =
      to_u64 (weight_of weights r + len (filter (λ a, votes_for start blocks r a = true) atts)).
Proof.
  revert weights. induction atts as [|a atts IH]; intros weights; cbn [fold_partial].
  { exists weights. split; [done|]. intros r. cbn. rewrite N.add_0_r. symmetry. apply to_u64_of_val. }
  pose proof (rank_le (cp_root (ad_head a))) as Hrank.
  rewrite walk_votes_spec by (unfold walk_fuel; lia). cbn [mbind partial_bind].
  destruct (IH (foldl add_vote weights (chain_above (walk_fuel blocks) start blocks (cp_root (ad_head a)))))
    as (weights' & Hrun & Hw).
  exists weights'. split; [done|]. intros r. rewrite Hw, add_votes_count by apply chain_above_NoDup.
  rewrite filter_cons. fold (votes_for start blocks r a). apply u64_eq.
  destruct (votes_for start blocks r a) eqn:Hv; cbn [decide bool_eq_dec].
  - rewrite decide_True by done. rewrite len_cons. lia.
  - rewrite decide_False by done. lia.
Qed.

End ranks.

(** * The children map and the best child *)

Section children.
Context (weights : Weights).

Lemma heavier_total x y : heavier weights x y = false → heavier weights y x = true.
Proof.
  unfold heavier. rewrite orb_false_iff, orb_true_iff, andb_false_iff, andb_true_iff.
  rewrite !N.ltb_lt, !N.ltb_ge, !N.eqb_eq, !N.eqb_neq, !N.leb_le, !N.leb_gt. lia.
Qed.

Lemma heavier_trans x y z :
  heavier weights x y = true → heavier weights y z = true → heavier weights x z = true.
Proof.
  unfold heavier. rewrite !orb_true_iff, !andb_true_iff, !N.ltb_lt, !N.eqb_eq, !N.leb_le. lia.
Qed.

Lemma heavier_refl x : heavier weights x x = true.
Proof. unfold heavier. rewrite N.eqb_refl, N.leb_refl. by destruct (_ <? _). Qed.

Lemma heavier_spec x y :
  heavier weights x y = true ↔
  weight_of weights x < weight_of weights y ∨
  u64_val (weight_of weights x) = weight_of weights y ∧ h256_le x y.
Proof. unfold heavier, h256_le. by rewrite orb_true_iff, andb_true_iff, N.ltb_lt, N.eqb_eq, N.leb_le. Qed.

Lemma best_child_spec (children : list H256) :
  match best_child weights children with
  | Some c => c ∈ children ∧ ∀ c', c' ∈ children → heavier weights c' c = true
  | None => children = []
  end.
Proof.
  unfold best_child. induction children as [|x l IH] using rev_ind; [done|].
  rewrite foldl_app. cbn. destruct (foldl _ None l) as [b|].
  - destruct IH as [Hb Hmax]. destruct (heavier weights b x) eqn:Hh.
    + split; [set_solver|]. intros c' [Hc| ->%list_elem_of_singleton]%elem_of_app; [|apply heavier_refl].
      eapply heavier_trans; [by apply Hmax|done].
    + split; [set_solver|]. intros c' [Hc| ->%list_elem_of_singleton]%elem_of_app; [by apply Hmax|].
      by apply heavier_total.
  - subst l. split; [set_solver|]. intros c' ->%list_elem_of_singleton. apply heavier_refl.
Qed.

Context (min_score : u64).

Lemma push_child_spec (entries : list (H256 * (u64 * H256))) p c :
  c ∈ default [] (foldl (push_child weights min_score) ∅ entries !! p) ↔
  p ≠ H256_ZERO ∧ (∃ slot, (c, (slot, p)) ∈ entries) ∧ min_score <= weight_of weights c.
Proof.
  induction entries as [|[root [slot parent]] l IH] using rev_ind; cbn; [set_solver|].
  rewrite foldl_app. cbn. set (m := foldl _ ∅ l) in *.
  assert (Hiff : (∃ s, (c, (s, p)) ∈ l ++ [(root, (slot, parent))]) ↔
    (∃ s, (c, (s, p)) ∈ l) ∨ root = c ∧ parent = p).
  { split.
    - intros [s [Hs|[= -> -> ->]%list_elem_of_singleton]%elem_of_app]; [left; by exists s|by right].
    - intros [[s Hs]|[-> ->]]; [exists s; set_solver|exists slot; set_solver]. }
  rewrite Hiff. unfold is_zero. case_bool_decide as Hz.
  { rewrite IH. naive_solver. }
  destruct (N.ltb_spec 0 min_score); cbn [andb].
  1: destruct (N.ltb_spec (weight_of weights root) min_score) as [Hlow|Hok].
  { rewrite IH. split; [naive_solver|]. intros (Hp & [Hl|[-> ->]] & Hw); [naive_solver|lia]. }
  all: destruct (decide (parent = p)) as [->|Hne];
    [rewrite lookup_insert_eq|rewrite lookup_insert_ne, IH by done; naive_solver];
    cbn; rewrite elem_of_app, list_elem_of_singleton, IH; split; [|naive_solver];
    intros [?| ->]; [naive_solver|]; split_and!; [done|naive_solver|lia].
Qed.

End children.

(** * The descent *)

Section descent.
Context (blocks : BlockTree) (Hinc : slots_increase blocks).
Context (weights : Weights) (min_score : u64) (entries : list (H256 * (u64 * H256))).
Context (Hentries : ∀ r v, (r, v) ∈ entries ↔ blocks !! r = Some v).

Abbreviation weight := (λ r, u64_val (weight_of weights r)).
Abbreviation children_map := (foldl (push_child weights min_score) ∅ entries).

Lemma children_viable p c :
  c ∈ default [] (children_map !! p) ↔ viable_child blocks weight min_score p c.
Proof. rewrite push_child_spec. unfold viable_child. by setoid_rewrite Hentries. Qed.

Lemma viable_child_rank p c :
  is_Some (blocks !! p) → viable_child blocks weight min_score p c →
  (rank blocks p < rank blocks c)%nat.
Proof. intros [[? ?] ?] (_ & [slot Hc] & _). by eapply rank_parent. Qed.

Lemma descend_spec n head :
  is_Some (blocks !! head) → (size blocks - rank blocks head < n)%nat →
  ∃ h, descend n children_map weights head = Return h ∧
    greedy blocks weight min_score head h.
Proof.
  revert head. induction n as [|n IH]; intros head Hhead Hn; [lia|]. cbn.
  pose proof (children_viable head) as Hv.
  destruct (children_map !! head) as [[|c cs]|]; cbn in Hv.
  - exists head. split; [done|]. apply greedy_leaf. intros c. rewrite <- Hv. set_solver.
  - pose proof (best_child_spec weights (c :: cs)) as Hbest.
    destruct (best_child weights (c :: cs)) as [b|]; [|discriminate]. cbn [expect_some mbind partial_bind].
    destruct Hbest as [Hb Hmax].
    assert (Hviable : viable_child blocks weight min_score head b) by (by apply Hv).
    pose proof (viable_child_rank _ _ Hhead Hviable). pose proof (rank_le blocks b).
    destruct (IH b) as (h & Hrun & Hg); [destruct Hviable as (_ & [s Hs] & _); by rewrite Hs|lia|].
    exists h. split; [done|]. eapply greedy_step; [|done]. split; [done|].
    intros c' Hc'. apply heavier_spec, Hmax, Hv, Hc'.
  - exists head. split; [done|]. apply greedy_leaf. intros c. rewrite <- Hv. set_solver.
Qed.

End descent.

(** * Greedy heads *)

Section greedy.
Context (blocks : BlockTree).

Lemma viable_child_ext (w1 w2 : H256 → N) m p c :
  (∀ r, w1 r = w2 r) → viable_child blocks w1 m p c ↔ viable_child blocks w2 m p c.
Proof. intros Heq. unfold viable_child. by rewrite Heq. Qed.

Lemma greedy_ext (w1 w2 : H256 → N) m p h :
  (∀ r, w1 r = w2 r) → greedy blocks w1 m p h → greedy blocks w2 m p h.
Proof.
  intros Heq. induction 1 as [p Hleaf|p c h [Hv Hmax] _ IH].
  - apply greedy_leaf. intros c. rewrite <- (viable_child_ext w1 w2) by done. apply Hleaf.
  - eapply greedy_step; [|done]. split; [by apply (viable_child_ext w1 w2)|].
    intros c' Hc'. rewrite <- !Heq. apply Hmax. by apply (viable_child_ext w1 w2).
Qed.

Lemma best_viable_unique w m p c1 c2 :
  best_viable blocks w m p c1 → best_viable blocks w m p c2 → c1 = c2.
Proof.
  intros [Hv1 Hm1] [Hv2 Hm2]. apply (anti_symm h256_le).
  - destruct (Hm2 _ Hv1) as [|[]]; [|done]. destruct (Hm1 _ Hv2) as [|[]]; lia.
  - destruct (Hm1 _ Hv2) as [|[]]; [|done]. destruct (Hm2 _ Hv1) as [|[]]; lia.
Qed.

Lemma greedy_unique w m p h1 h2 :
  greedy blocks w m p h1 → greedy blocks w m p h2 → h1 = h2.
Proof.
  intros Hg1. revert h2. induction Hg1 as [p Hleaf|p c h1 Hbest _ IH]; intros h2 Hg2.
  - destruct Hg2 as [|p c h2 [Hv _] _]; [done|by destruct (Hleaf c)].
  - destruct Hg2 as [p Hleaf|p c' h2 Hbest' Hg2]; [by destruct (Hleaf c); apply Hbest|].
    apply IH. by rewrite (best_viable_unique w m p c c').
Qed.

(** A head other than the start passes the threshold. *)
Lemma greedy_score w m p h : greedy blocks w m p h → h = p ∨ m <= w h.
Proof.
  induction 1 as [|p c h [(_ & _ & Hw) _] _ IH]; [by left|right]. by destruct IH as [->|].
Qed.

(** ... and has no viable child. *)
Lemma greedy_is_leaf w m p h : greedy blocks w m p h → ∀ c, ¬ viable_child blocks w m h c.
Proof. by induction 1. Qed.

End greedy.

(** * Votes *)

Section votes.
Context (blocks : BlockTree) (Hinc : slots_increase blocks).
Implicit Types start : u64.

Lemma votes_for_supports start r a :
  votes_for start blocks r a = true ↔ supports start blocks (cp_root (ad_head a)) r.
Proof.
  unfold votes_for. rewrite bool_decide_eq_true. apply chain_above_supports; [done|].
  pose proof (rank_le blocks (cp_root (ad_head a))). unfold walk_fuel. lia.
Qed.

Lemma support_le start atts r : support start blocks atts r <= N.of_nat (size atts).
Proof.
  unfold support, len. rewrite <- length_map_to_list, <- (length_fmap snd).
  pose proof (length_filter (λ a, votes_for start blocks r a = true) (map_to_list atts).*2). lia.
Qed.

(** The supported blocks of one head form a chain. *)
Lemma supports_linear start h r1 r2 :
  supports start blocks h r1 → supports start blocks h r2 →
  supports start blocks r1 r2 ∨ supports start blocks r2 r1.
Proof.
  intros Hs1. revert r2. induction Hs1 as [r slot parent Hr Hs|h slot parent r Hh Hs Hsup IH]; intros r2 Hs2.
  - by left.
  - destruct Hs2 as [r' slot' parent' Hr' Hs'|h slot' parent' r' Hh' Hs' Hsup'].
    + right. by apply (supports_parent _ _ _ slot parent).
    + rewrite Hh in Hh'. injection Hh' as <- <-. by apply IH.
Qed.

Lemma supports_slot start h (slot : u64) parent r (rslot : u64) rparent :
  supports start blocks h r → blocks !! h = Some (slot, parent) → blocks !! r = Some (rslot, rparent) →
  rslot <= slot.
Proof.
  intros Hs. revert slot parent. induction Hs as [r s p Hr _|h s p r Hh _ Hsup IH]; intros slot parent Hh' Hr'.
  - rewrite Hh' in Hr'. injection Hr' as <- <-. lia.
  - rewrite Hh in Hh'. injection Hh' as -> ->. destruct (blocks !! parent) as [[ps pp]|] eqn:Hp.
    + specialize (IH ps pp eq_refl Hr'). pose proof (Hinc _ _ _ _ _ Hh Hp). lia.
    + destruct Hsup; congruence.
Qed.

(** Two children of one parent never support each other. *)
Lemma siblings_apart start c1 c2 (s1 s2 : u64) p :
  blocks !! c1 = Some (s1, p) → blocks !! c2 = Some (s2, p) → supports start blocks c1 c2 → c1 = c2.
Proof.
  intros Hc1 Hc2 Hs. destruct Hs as [|c1 s p' c2 Hc1' _ Hs]; [done|exfalso].
  rewrite Hc1 in Hc1'. injection Hc1' as <- <-.
  destruct (blocks !! p) as [[ps pp]|] eqn:Hp; [|destruct Hs; congruence].
  pose proof (supports_slot _ _ _ _ _ _ _ Hs Hp Hc2). pose proof (Hinc _ _ _ _ _ Hc2 Hp). lia.
Qed.

Lemma support_parent start atts c (slot pslot : u64) p pp :
  blocks !! c = Some (slot, p) → blocks !! p = Some (pslot, pp) → start < pslot →
  support start blocks atts c <= support start blocks atts p.
Proof.
  intros Hc Hp Hs. apply len_filter_mono. intros a _. rewrite !votes_for_supports.
  generalize (cp_root (ad_head a)). intros h Hsup.
  induction Hsup as [r s parent Hr Hsr|h s parent r Hh Hsh _ IH].
  - rewrite Hc in Hr. injection Hr as <- <-. apply (supports_parent _ _ _ slot p); [done..|].
    by apply (supports_here _ _ _ pslot pp).
  - apply (supports_parent _ _ _ s parent); [done..|]. by apply IH.
Qed.

(** With a threshold above half of the votes, a parent has at most one viable child. *)
Lemma majority_child start atts m p c1 c2 :
  N.of_nat (size atts) < 2 * m →
  viable_child blocks (support start blocks atts) m p c1 →
  viable_child blocks (support start blocks atts) m p c2 → c1 = c2.
Proof.
  intros Hm (_ & [s1 Hc1] & Hw1) (_ & [s2 Hc2] & Hw2). unfold support in *.
  assert (Hl : len (map_to_list atts).*2 = N.of_nat (size atts))
    by (unfold len; by rewrite length_fmap, length_map_to_list).
  destruct (filter_quorum (λ a, votes_for start blocks c1 a = true)
    (λ a, votes_for start blocks c2 a = true) (map_to_list atts).*2) as (a & _ & Ha1 & Ha2); [lia|].
  apply votes_for_supports in Ha1, Ha2.
  destruct (supports_linear _ _ _ _ Ha1 Ha2) as [Hs|Hs].
  - by apply (siblings_apart start c1 c2 s1 s2 p).
  - symmetry. by apply (siblings_apart start c2 c1 s2 s1 p).
Qed.

End votes.

(** * Theorems *)

Section weights.
Context `{HOL : HashOrderLaws}.

Lemma compute_block_weights_returns start blocks atts :
  slots_increase blocks →
  ∃ weights, compute_block_weights start blocks atts = Return weights ∧
    ∀ r, weight_of weights r = to_u64 (support start blocks atts r).
Proof.
  intros Hinc. unfold compute_block_weights.
  destruct (walk_all blocks Hinc start (hash_iter atts).*2 ∅) as (weights & Hrun & Hw).
  exists weights. split; [done|]. intros r. rewrite Hw. unfold weight_of. rewrite lookup_empty.
  unfold support, len. by rewrite hash_iter_perm.
Qed.

Lemma compute_lmd_ghost_head_returns start_root start_slot parent blocks atts (min_score : u64) :
  slots_increase blocks → start_root ≠ H256_ZERO →
  blocks !! start_root = Some (start_slot, parent) → N.of_nat (size atts) < 2 ^ 64 →
  ∃ head weights, compute_lmd_ghost_head start_root blocks atts min_score = Return (head, weights) ∧
    (∀ r, u64_val (weight_of weights r) = support start_slot blocks atts r) ∧
    greedy blocks (support start_slot blocks atts) min_score start_root head.
Proof.
  intros Hinc Hz Hstart Hsize. unfold compute_lmd_ghost_head, is_zero.
  rewrite !bool_decide_eq_false_2; [|done|intros ->; by rewrite lookup_empty in Hstart].
  cbn [mbind partial_bind]. rewrite Hstart.
  destruct (compute_block_weights_returns start_slot blocks atts Hinc) as (weights & Hrun & Hw).
  rewrite Hrun. cbn [mbind partial_bind].
  destruct (descend_spec blocks Hinc weights min_score (hash_iter blocks)
    (λ r v, elem_of_hash_iter blocks r v) (walk_fuel blocks) start_root) as (head & Hd & Hg);
    [by rewrite Hstart|unfold walk_fuel; lia|].
  assert (Hval : ∀ r, u64_val (weight_of weights r) = support start_slot blocks atts r).
  { intros r. rewrite Hw. apply to_u64_small. pose proof (support_le blocks start_slot atts r). lia. }
  exists head, weights. rewrite Hd. split_and!; [done..|].
  by apply (greedy_ext blocks (λ r, u64_val (weight_of weights r))).
Qed.

End weights.

Section theorems.
Context `{HOL : HashOrderLaws}.

(** The weight of a block is the number of attestations whose head descends from it (in
    64-bit arithmetic), whatever the block tree with increasing slots; the walks end. *)
Theorem compute_block_weights_spec start blocks atts :
  slots_increase blocks →
  ∃ weights, compute_block_weights start blocks atts = Return weights ∧
    ∀ r, weight_of weights r = to_u64 (support start blocks atts r) ∧
      ∀ a, votes_for start blocks r a = true ↔ supports start blocks (cp_root (ad_head a)) r.
Proof.
  intros Hinc. destruct (compute_block_weights_returns start blocks atts Hinc) as (weights & Hrun & Hw).
  exists weights. split; [done|]. intros r. split; [apply Hw|].
  intros a. by apply votes_for_supports.
Qed.

(** C16. LMD GHOST terminates and finds the greedy head: from the start root it follows, at
    every block, the viable child with the most votes (the greatest root on a tie) down
    to a block without viable children. *)
Theorem compute_lmd_ghost_head_greedy start_root start_slot parent blocks atts (min_score : u64) :
  slots_increase blocks → start_root ≠ H256_ZERO →
  blocks !! start_root = Some (start_slot, parent) → N.of_nat (size atts) < 2 ^ 64 →
  ∃ head weights, compute_lmd_ghost_head start_root blocks atts min_score = Return (head, weights) ∧
    greedy blocks (support start_slot blocks atts) min_score start_root head ∧
    (head = start_root ∨ min_score <= support start_slot blocks atts head).
Proof.
  intros Hinc Hz Hstart Hsize.
  destruct (compute_lmd_ghost_head_returns start_root start_slot parent blocks atts min_score)
    as (head & weights & Hrun & _ & Hg); [done..|].
  exists head, weights. split_and!; [done..|]. by eapply greedy_score.
Qed.

(** With a threshold above half of the attestations the choice is forced: no parent has
    two viable children, so the head does not depend on tie breaking. *)
Theorem majority_head_forced (start_slot : u64) blocks atts min_score p c1 c2 :
  slots_increase blocks → N.of_nat (size atts) < 2 * min_score →
  viable_child blocks (support start_slot blocks atts) min_score p c1 →
  viable_child blocks (support start_slot blocks atts) min_score p c2 → c1 = c2.
Proof. intros Hinc. by apply (majority_child blocks Hinc start_slot atts min_score p). Qed.

(** A vote for a child counts for its parent: along any branch above the start slot
    weights do not increase. *)
Theorem weights_decrease (start_slot : u64) blocks atts c (slot pslot : u64) p pp :
  slots_increase blocks → blocks !! c = Some (slot, p) → blocks !! p = Some (pslot, pp) →
  start_slot < pslot →
  support start_slot blocks atts c <= support start_slot blocks atts p.
Proof. intros Hinc. by apply (support_parent blocks Hinc start_slot atts c slot pslot p pp). Qed.

(** An empty tree, or a start root that is not in it, is answered with the start root. *)
Theorem compute_lmd_ghost_head_unknown start_root (blocks : BlockTree) atts min_score :
  start_root ≠ H256_ZERO → blocks !! start_root = None →
  compute_lmd_ghost_head start_root blocks atts min_score = Return (start_root, ∅).
Proof.
  intros Hz Hnone. unfold compute_lmd_ghost_head, is_zero. case_bool_decide; [done|].
  rewrite bool_decide_eq_false_2 by done. cbn. by rewrite Hnone.
Qed.

End theorems.

(** The head does not depend on the order in which the hash maps are iterated. *)
Theorem ghost_head_deterministic (O1 O2 : HashOrder) start_root start_slot parent blocks atts
    (min_score : u64) h1 h2 w1 w2 :
  @HashOrderLaws O1 → @HashOrderLaws O2 →
  slots_increase blocks → start_root ≠ H256_ZERO →
  blocks !! start_root = Some (start_slot, parent) → N.of_nat (size atts) < 2 ^ 64 →
  @compute_lmd_ghost_head O1 start_root blocks atts min_score = Return (h1, w1) →
  @compute_lmd_ghost_head O2 start_root blocks atts min_score = Return (h2, w2) →
  h1 = h2 ∧ ∀ r, weight_of w1 r = weight_of w2 r.
Proof.
  intros HL1 HL2 Hinc Hz Hstart Hsize Hr1 Hr2.
  destruct (@compute_lmd_ghost_head_returns O1 HL1 start_root start_slot parent blocks atts min_score)
    as (h & w & Hrun1 & Hw1 & Hg1); [done..|].
  destruct (@compute_lmd_ghost_head_returns O2 HL2 start_root start_slot parent blocks atts min_score)
    as (h' & w' & Hrun2 & Hw2 & Hg2); [done..|].
  rewrite Hrun1 in Hr1. rewrite Hrun2 in Hr2. injection Hr1 as <- <-. injection Hr2 as <- <-.
  split; [by eapply greedy_unique|]. intros r. apply u64_eq. by rewrite Hw1, Hw2.
Qed.

(** * A fork: two children of the same block, two votes against one *)

Module Fork.

#[local] Instance fork_order : HashOrder := canonical_order.
#[local] Existing Instance canonical_order_laws.

Definition node (n slot parent : N) : H256 * (u64 * H256) := (h256 n, (to_u64 slot, h256 parent)).
Definition tree : BlockTree :=
  list_to_map [node 1 0 0; node 2 1 1; node 3 2 2; node 4 2 2].
Definition att (head : N) : AttestationData :=
  mk_attestation_data (to_u64 2) (mk_checkpoint (h256 head) (to_u64 2))
    Checkpoint_default Checkpoint_default.
Definition atts : gmap u64 AttestationData :=
  list_to_map [(to_u64 0, att 3); (to_u64 1, att 3); (to_u64 2, att 4)].

Lemma tree_slots : slots_increase tree.
Proof.
  assert (Hall : map_Forall (λ _ v, match tree !! v.2 with
                                     | Some (pslot, _) => u64_val pslot <? u64_val v.1
                                     | None => true end = true) tree)
    by (apply (bool_decide_unpack _); by vm_compute).
  intros r parent pparent slot pslot Hr Hp. specialize (Hall r _ Hr). cbn [fst snd] in Hall.
  rewrite Hp in Hall. by apply N.ltb_lt.
Qed.

Lemma start_nonzero : h256 1 ≠ H256_ZERO.
Proof. intros Heq. assert (Hv := f_equal h256_val Heq). vm_compute in Hv. discriminate. Qed.

Example head_is_3 :
  match compute_lmd_ghost_head (h256 1) tree atts (to_u64 0) with
  | Return (head, weights) => head = h256 3 ∧ weight_of weights (h256 2) = to_u64 3
  | _ => False
  end.
Proof. by vm_compute. Qed.

Lemma compute_block_weights_spec_witness :
  ∃ weights, compute_block_weights (to_u64 0) tree atts = Return weights ∧
    ∀ r, weight_of weights r = to_u64 (support (to_u64 0) tree atts r) ∧
      ∀ a, votes_for (to_u64 0) tree r a = true ↔ supports (to_u64 0) tree (cp_root (ad_head a)) r.
Proof. apply compute_block_weights_spec, tree_slots. Defined.

Lemma compute_lmd_ghost_head_greedy_witness :
  ∃ head weights, compute_lmd_ghost_head (h256 1) tree atts (to_u64 2) = Return (head, weights) ∧
    greedy tree (support (to_u64 0) tree atts) (to_u64 2) (h256 1) head ∧
    (head = h256 1 ∨ to_u64 2 <= support (to_u64 0) tree atts head).
Proof.
  apply (compute_lmd_ghost_head_greedy (h256 1) (to_u64 0) (h256 0)); [apply tree_slots|..].
  - apply start_nonzero.
  - by vm_compute.
  - by vm_compute.
Defined.

Lemma majority_head_forced_witness : h256 3 = h256 3.
Proof.
  apply (majority_head_forced (to_u64 0) tree atts 2 (h256 2)); [apply tree_slots|by vm_compute|..].
  all: split; [intros Heq; assert (Hv := f_equal h256_val Heq); vm_compute in Hv; discriminate|].
  all: split; [by exists (to_u64 2); vm_compute|by vm_compute].
Defined.

Lemma weights_decrease_witness :
  support (to_u64 0) tree atts (h256 3) <= support (to_u64 0) tree atts (h256 2).
Proof.
  apply (weights_decrease (to_u64 0) tree atts (h256 3) (to_u64 2) (to_u64 1) (h256 2) (h256 1));
    [apply tree_slots|by vm_compute..].
Defined.

Lemma compute_lmd_ghost_head_unknown_witness :
  compute_lmd_ghost_head (h256 9) tree atts (to_u64 0) = Return (h256 9, ∅).
Proof.
  apply compute_lmd_ghost_head_unknown; [|by vm_compute].
  intros Heq. assert (Hv := f_equal h256_val Heq). vm_compute in Hv. discriminate.
Defined.

Definition result (O : HashOrder) : H256 * Weights :=
  match @compute_lmd_ghost_head O (h256 1) tree atts (to_u64 0) with
  | Return r => r
  | _ => (H256_ZERO, ∅)
  end.

Lemma result_returns (O : HashOrder) :
  @HashOrderLaws O →
  @compute_lmd_ghost_head O (h256 1) tree atts (to_u64 0) = Return ((result O).1, (result O).2).
Proof.
  intros HL.
  destruct (@compute_lmd_ghost_head_returns O HL (h256 1) (to_u64 0) (h256 0) tree atts (to_u64 0))
    as (h & w & Hrun & _); [apply tree_slots|apply start_nonzero|by vm_compute|by vm_compute|].
  unfold result. by rewrite Hrun.
Qed.

Lemma ghost_head_deterministic_witness :
  (result canonical_order).1 = (result reversed_order).1 ∧
  ∀ r, weight_of (result canonical_order).2 r = weight_of (result reversed_order).2 r.
Proof.
  apply (ghost_head_deterministic canonical_order reversed_order (h256 1) (to_u64 0) (h256 0) tree
    atts (to_u64 0) _ _ _ _ canonical_order_laws reversed_order_laws tree_slots);
    [apply start_nonzero|by vm_compute|by vm_compute|apply result_returns, canonical_order_laws
    |apply result_returns, reversed_order_laws].
Defined.

End Fork.
