(* ===== verification/Backend.v ===== *)
(** The storage backend (crates/storage/src/api, crates/storage/src/backend/in_memory.rs):
    the interface of key-value tables with atomic write batches, its contract, and the
    in-memory implementation. *)

From S2P Require Import Prelude Types.

Inductive Table : Type :=
| BlockHeaders | BlockBodies | BlockSignatures_ | States | GossipSignatures
| AttestationDataByRoot | Metadata | LiveChain.

#[global] Instance Table_eq_dec : EqDecision Table.
Proof. solve_decision. Defined.

Definition ALL_TABLES : list Table :=
  [BlockHeaders; BlockBodies; BlockSignatures_; States; GossipSignatures;
   AttestationDataByRoot; Metadata; LiveChain].

#[local] Instance Table_finite : finite.Finite Table.
Proof.
  refine {| finite.enum := ALL_TABLES |}.
  - apply (bool_decide_unpack _). by vm_compute.
  - intros []; apply (bool_decide_unpack _); by vm_compute.
Defined.

#[global] Instance Table_countable : Countable Table := finite.finite_countable.

(** The table's label. *)
Definition Table_name (t : Table) : string :=
  match t with
  | BlockHeaders => "block_headers"
  | BlockBodies => "block_bodies"
  | BlockSignatures_ => "block_signatures"
  | States => "states"
  | GossipSignatures => "gossip_signatures"
  | AttestationDataByRoot => "attestation_data_by_root"
  | Metadata => "metadata"
  | LiveChain => "live_chain"
  end.

(** * The interface

    [StorageBackend], [StorageReadView] and [StorageWriteBatch]: [D] is the stored data,
    [B] a write batch. Every caller [expect]s the [Result]s, so an [Err] is a panic; the
    items of an iterator are results that the callers filter. *)

Class StorageBackend (D B : Type) := {
  begin_write : D → partial B;
  view_get : D → Table → bytes → partial (option bytes);
  prefix_iterator : D → Table → bytes → partial (list (option (bytes * bytes)));
  put_batch : B → Table → list (bytes * bytes) → partial B;
  delete_batch : B → Table → list bytes → partial B;
  batch_commit : B → D → partial D;
}.

(** Writes on one table. *)
Definition put_all (entries : list (bytes * bytes)) (m : gmap bytes bytes) : gmap bytes bytes :=
  foldl (λ m '(k, v), <[k := v]> m) m entries.
Definition delete_all (keys : list bytes) (m : gmap bytes bytes) : gmap bytes bytes :=
  foldl (λ m k, delete k m) m keys.

(** The pending operations of a batch: the last one of each key wins. *)
Definition put_pending (entries : list (bytes * bytes)) (o : gmap bytes (option bytes)) :
    gmap bytes (option bytes) :=
  foldl (λ o '(k, v), <[k := Some v]> o) o entries.
Definition delete_pending (keys : list bytes) (o : gmap bytes (option bytes)) :
    gmap bytes (option bytes) :=
  foldl (λ o k, <[k := None]> o) o keys.
Definition apply_pending (o : gmap bytes (option bytes)) (m : gmap bytes bytes) : gmap bytes bytes :=
  merge (λ o v, match o with Some r => r | None => v end) o m.

Definition on_table {A} (t t' : Table) (f : A → A) (x : A) : A :=
  if decide (t' = t) then f x else x.

(** What a backend promises: tables are maps, batches are atomic, an iterator lists every
    entry under the prefix once. A batch belongs to the database it was begun on. *)
Class StorageLaws (D B : Type) `{StorageBackend D B} := {
  db_ok : D → Prop;
  contents : D → Table → gmap bytes bytes;
  pending : B → Table → gmap bytes (option bytes);
  batch_of : D → B → Prop;
  begin_write_spec d : db_ok d → ∃ b, begin_write d = Return b ∧ batch_of d b ∧ ∀ t, pending b t = ∅;
  view_get_spec d t k : db_ok d → view_get d t k = Return (contents d t !! k);
  prefix_iterator_spec d t prefix :
    db_ok d → ∃ l, prefix_iterator d t prefix = Return (Some <$> l) ∧ NoDup l.*1 ∧
      ∀ k v, (k, v) ∈ l ↔ contents d t !! k = Some v ∧ prefix `prefix_of` k;
  put_batch_spec d b t entries :
    batch_of d b → ∃ b', put_batch b t entries = Return b' ∧ batch_of d b' ∧
      ∀ t', pending b' t' = on_table t t' (put_pending entries) (pending b t');
  delete_batch_spec d b t keys :
    batch_of d b → ∃ b', delete_batch b t keys = Return b' ∧ batch_of d b' ∧
      ∀ t', pending b' t' = on_table t t' (delete_pending keys) (pending b t');
  batch_commit_spec b d :
    db_ok d → batch_of d b → ∃ d', batch_commit b d = Return d' ∧ db_ok d' ∧
      ∀ t, contents d' t = apply_pending (pending b t) (contents d t);
}.


(** * Batches as sequences of writes *)

Inductive table_write : Type :=
| Put (t : Table) (entries : list (bytes * bytes))
| Delete (t : Table) (keys : list bytes).

Section batches.
Context `{SB : StorageBackend D B}.

Definition add_write (b : B) (w : table_write) : partial B :=
  match w with
  | Put t entries => put_batch b t entries
  | Delete t keys => delete_batch b t keys
  end.

(** A fresh batch, its writes, and the commit. *)
Definition commit_writes (ws : list table_write) (d : D) : partial D :=
  b ← begin_write d;
  b ← fold_partial add_write b ws;
  batch_commit b d.

End batches.

(** The same writes on the tables themselves. *)
Definition write_table (t : Table) (m : gmap bytes bytes) (w : table_write) : gmap bytes bytes :=
  match w with
  | Put t' entries => on_table t' t (put_all entries) m
  | Delete t' keys => on_table t' t (delete_all keys) m
  end.

Section contract.
Context `{SL : StorageLaws D B}.

Lemma apply_put_pending entries o m :
  apply_pending (put_pending entries o) m = put_all entries (apply_pending o m).
Proof.
  revert o. induction entries as [|[k v] entries IH] using rev_ind; intros o; [done|].
  unfold put_pending, put_all in *. rewrite !foldl_app. cbn. rewrite <- IH.
  unfold apply_pending. apply map_eq. intros k'. rewrite lookup_merge.
  destruct (decide (k = k')) as [->|Hne].
  - rewrite !lookup_insert_eq. by destruct (m !! k').
  - rewrite !lookup_insert_ne, lookup_merge by done. done.
Qed.

Lemma apply_delete_pending keys o m :
  apply_pending (delete_pending keys o) m = delete_all keys (apply_pending o m).
Proof.
  revert o. induction keys as [|k keys IH] using rev_ind; intros o; [done|].
  unfold delete_pending, delete_all in *. rewrite !foldl_app. cbn. rewrite <- IH.
  unfold apply_pending. apply map_eq. intros k'. rewrite lookup_merge.
  destruct (decide (k = k')) as [->|Hne].
  - rewrite lookup_insert_eq, lookup_delete_eq. by destruct (m !! k').
  - rewrite lookup_insert_ne, lookup_delete_ne, lookup_merge by done. done.
Qed.

Lemma apply_pending_empty m : apply_pending ∅ m = m.
Proof.
  unfold apply_pending. apply map_eq. intros k. rewrite lookup_merge, lookup_empty.
  by destruct (m !! k).
Qed.

Lemma add_write_spec d b w :
  batch_of d b → ∃ b', add_write b w = Return b' ∧ batch_of d b' ∧
    ∀ t m, apply_pending (pending b' t) m = write_table t (apply_pending (pending b t) m) w.
Proof.
  intros Hof. destruct w as [t entries|t keys]; cbn.
  - destruct (put_batch_spec d b t entries Hof) as (b' & Hb' & Hof' & Hp). exists b'. split; [done|split; [done|]].
    intros t' m. rewrite Hp. unfold on_table. destruct (decide _); [apply apply_put_pending|done].
  - destruct (delete_batch_spec d b t keys Hof) as (b' & Hb' & Hof' & Hp). exists b'. split; [done|split; [done|]].
    intros t' m. rewrite Hp. unfold on_table. destruct (decide _); [apply apply_delete_pending|done].
Qed.

Lemma add_writes_spec d ws b :
  batch_of d b → ∃ b', fold_partial add_write b ws = Return b' ∧ batch_of d b' ∧
    ∀ t m, apply_pending (pending b' t) m = foldl (write_table t) (apply_pending (pending b t) m) ws.
Proof.
  revert b. induction ws as [|w ws IH]; intros b Hof; cbn; [by exists b|].
  destruct (add_write_spec d b w Hof) as (b1 & Hb1 & Hof1 & Hp1). rewrite Hb1. cbn.
  destruct (IH b1 Hof1) as (b2 & Hb2 & Hof2 & Hp2). exists b2. split; [done|split; [done|]].
  intros t m. by rewrite Hp2, Hp1.
Qed.

(** A committed batch is its writes in sequence. *)
Lemma commit_writes_spec ws d :
  db_ok d → ∃ d', commit_writes ws d = Return d' ∧ db_ok d' ∧
    ∀ t, contents d' t = foldl (write_table t) (contents d t) ws.
Proof.
  intros Hd. unfold commit_writes. destruct (begin_write_spec d Hd) as (b & Hb & Hof & Hp). rewrite Hb. cbn.
  destruct (add_writes_spec d ws b Hof) as (b' & Hb' & Hof' & Hp'). rewrite Hb'. cbn.
  destruct (batch_commit_spec b' d Hd Hof') as (d' & Hd' & Hok & Hc).
  exists d'. split_and!; [done..|]. intros t. by rewrite Hc, Hp', Hp, apply_pending_empty.
Qed.

End contract.
