(* ===== verification/InMemory.v ===== *)
(** The in-memory backend (crates/storage/src/backend/in_memory.rs) and the proof that it
    keeps the contract of [StorageLaws]. *)

From S2P Require Import Prelude Types Backend.

Abbreviation TableData := (gmap bytes bytes).
Abbreviation StorageData := (gmap Table TableData).

(** Pending operation for a key; the last operation wins. *)
Inductive PendingOp : Type :=
| OpPut (value : bytes)
| OpDelete.

Abbreviation PendingOps := (gmap Table (gmap bytes PendingOp)).

Section in_memory.
Context `{HO : HashOrder}.

(** [InMemoryBackend::new]: every table exists and is empty. *)
Definition InMemoryBackend_new : StorageData :=
  foldl (λ data table, <[table := ∅]> data) ∅ ALL_TABLES.

Definition in_memory_get (data : StorageData) (table : Table) (key : bytes) : partial (option bytes) :=
  table_data ← expect_some (data !! table);
  Return (table_data !! key).

Definition in_memory_prefix_iterator (data : StorageData) (table : Table) (prefix : bytes) :
    partial (list (option (bytes * bytes))) :=
  table_data ← expect_some (data !! table);
  Return (Some <$> filter (λ kv, bool_decide (prefix `prefix_of` kv.1) = true) (hash_iter table_data)).

Definition in_memory_put_batch (ops : PendingOps) (table : Table) (batch : list (bytes * bytes)) :
    partial PendingOps :=
  let table_ops := default ∅ (ops !! table) in
  Return (<[table := foldl (λ table_ops '(key, value), <[key := OpPut value]> table_ops)
                       table_ops batch]> ops).

Definition in_memory_delete_batch (ops : PendingOps) (table : Table) (keys : list bytes) :
    partial PendingOps :=
  let table_ops := default ∅ (ops !! table) in
  Return (<[table := foldl (λ table_ops key, <[key := OpDelete]> table_ops) table_ops keys]> ops).

Definition commit_op (table_data : TableData) (kop : bytes * PendingOp) : TableData :=
  match kop.2 with
  | OpPut value => <[kop.1 := value]> table_data
  | OpDelete => delete kop.1 table_data
  end.

Definition commit_table (data : StorageData) (tops : Table * gmap bytes PendingOp) :
    partial StorageData :=
  table_data ← expect_some (data !! tops.1);
  Return (<[tops.1 := foldl commit_op table_data (hash_iter tops.2)]> data).

Definition in_memory_commit (ops : PendingOps) (data : StorageData) : partial StorageData :=
  fold_partial commit_table data (hash_iter ops).

#[export] Instance in_memory_backend : StorageBackend StorageData PendingOps := {|
  begin_write := λ _, Return ∅;
  view_get := in_memory_get;
  prefix_iterator := in_memory_prefix_iterator;
  put_batch := in_memory_put_batch;
  delete_batch := in_memory_delete_batch;
  batch_commit := in_memory_commit;
|}.

(** * The contract *)

Definition op_result (op : PendingOp) : option bytes :=
  match op with OpPut value => Some value | OpDelete => None end.

Definition in_memory_ok (data : StorageData) : Prop := ∀ t, is_Some (data !! t).
Definition in_memory_contents (data : StorageData) (t : Table) : TableData := default ∅ (data !! t).
Definition in_memory_pending (ops : PendingOps) (t : Table) : gmap bytes (option bytes) :=
  op_result <$> default ∅ (ops !! t).

Lemma pending_puts (batch : list (bytes * bytes)) (o : gmap bytes PendingOp) :
  op_result <$> foldl (λ o '(k, v), <[k := OpPut v]> o) o batch = put_pending batch (op_result <$> o).
Proof.
  revert o. induction batch as [|[k v] batch IH]; intros o; cbn; [done|].
  rewrite IH. by rewrite fmap_insert.
Qed.

Lemma pending_deletes (keys : list bytes) (o : gmap bytes PendingOp) :
  op_result <$> foldl (λ o k, <[k := OpDelete]> o) o keys = delete_pending keys (op_result <$> o).
Proof.
  revert o. induction keys as [|k keys IH]; intros o; cbn; [done|].
  rewrite IH. by rewrite fmap_insert.
Qed.

Lemma pending_insert (ops : PendingOps) (t t' : Table) (o : gmap bytes PendingOp)
    (f : gmap bytes (option bytes) → gmap bytes (option bytes)) :
  op_result <$> o = f (in_memory_pending ops t) →
  in_memory_pending (<[t := o]> ops) t' = on_table t t' f (in_memory_pending ops t').
Proof.
  intros Ho. unfold in_memory_pending at 1, on_table. destruct (decide (t' = t)) as [->|Hne].
  - by rewrite lookup_insert_eq.
  - by rewrite lookup_insert_ne.
Qed.

(** Operations on distinct keys commute, so the order of the hash map is irrelevant. *)
Lemma commit_ops_lookup (l : list (bytes * PendingOp)) (m : TableData) k :
  NoDup l.*1 →
  foldl commit_op m l !! k =
    match (list_to_map l : gmap bytes PendingOp) !! k with
    | Some op => op_result op
    | None => m !! k
    end.
Proof.
  revert m. induction l as [|[k' op] l IH]; intros m Hnd; cbn; [by rewrite lookup_empty|].
  apply NoDup_cons in Hnd as [Hk' Hnd]. rewrite IH by done.
  destruct (decide (k' = k)) as [->|Hne].
  - rewrite lookup_insert_eq. rewrite not_elem_of_list_to_map_1 by done.
    destruct op; cbn; [apply lookup_insert_eq|apply lookup_delete_eq].
  - rewrite lookup_insert_ne by done. destruct (list_to_map l !! k); [done|].
    destruct op; cbn; [by apply lookup_insert_ne|by apply lookup_delete_ne].
Qed.

Context {HOL : HashOrderLaws}.

Lemma list_to_map_hash_iter `{Countable K} {V} (m : gmap K V) : list_to_map (hash_iter m) = m.
Proof.
  apply map_eq. intros k. apply option_eq. intros v.
  rewrite <- elem_of_list_to_map by apply NoDup_hash_keys. apply elem_of_hash_iter.
Qed.

Lemma commit_ops_spec (o : gmap bytes PendingOp) (m : TableData) :
  foldl commit_op m (hash_iter o) = apply_pending (op_result <$> o) m.
Proof.
  apply map_eq. intros k. rewrite commit_ops_lookup by apply NoDup_hash_keys.
  rewrite list_to_map_hash_iter. unfold apply_pending. rewrite lookup_merge, lookup_fmap.
  destruct (o !! k); cbn; by destruct (m !! k).
Qed.

Lemma commit_tables (l : list (Table * gmap bytes PendingOp)) data :
  NoDup l.*1 → in_memory_ok data →
  ∃ data', fold_partial commit_table data l = Return data' ∧ in_memory_ok data' ∧
    ∀ t, in_memory_contents data' t =
      apply_pending (op_result <$> default ∅ ((list_to_map l : PendingOps) !! t)) (in_memory_contents data t).
Proof.
  revert data. induction l as [|[t o] l IH]; intros data Hnd Hok.
  { exists data. split_and!; [done..|]. intros t. by rewrite apply_pending_empty. }
  apply NoDup_cons in Hnd as [Ht Hnd]. cbn [fold_partial].
  destruct (Hok t) as [m Hm].
  assert (Hstep : commit_table data (t, o) = Return (<[t := foldl commit_op m (hash_iter o)]> data)).
  { unfold commit_table. cbn [fst snd]. by rewrite Hm. }
  rewrite Hstep. cbn [mbind partial_bind].
  destruct (IH (<[t := foldl commit_op m (hash_iter o)]> data) Hnd) as (data' & Hrun & Hok' & Hc).
  { intros t'. destruct (decide (t' = t)) as [->|]; [by rewrite lookup_insert_eq|by rewrite lookup_insert_ne]. }
  exists data'. split_and!; [done..|]. intros t'. rewrite Hc. unfold in_memory_contents. cbn.
  destruct (decide (t = t')) as [->|Hne].
  - rewrite !lookup_insert_eq, not_elem_of_list_to_map_1, Hm by done. cbn.
    rewrite fmap_empty, apply_pending_empty. apply commit_ops_spec.
  - by rewrite !lookup_insert_ne.
Qed.

#[export] Program Instance in_memory_laws : StorageLaws StorageData PendingOps := {|
  db_ok := in_memory_ok;
  contents := in_memory_contents;
  pending := in_memory_pending;
  batch_of := λ _ _, True;
|}.
Next Obligation. intros d _. exists ∅. split; [done|split; [done|]]. intros t. unfold in_memory_pending. by rewrite lookup_empty. Qed.
Next Obligation.
  intros d t k Hok. cbn. unfold in_memory_get, in_memory_contents. by destruct (Hok t) as [m Hm]; rewrite Hm.
Qed.
Next Obligation.
  intros d t prefix Hok. cbn. unfold in_memory_prefix_iterator, in_memory_contents.
  destruct (Hok t) as [m Hm]. rewrite Hm. cbn. eexists. split; [done|]. split.
  - eapply sublist_NoDup; [apply (NoDup_hash_keys m)|]. apply fmap_sublist, sublist_filter.
  - intros k v. rewrite list_elem_of_filter, elem_of_hash_iter, bool_decide_eq_true. cbn. tauto.
Qed.
Next Obligation.
  intros d ops t entries _. cbn. eexists. split; [done|split; [done|]]. intros t'. apply pending_insert, pending_puts.
Qed.
Next Obligation.
  intros d ops t keys _. cbn. eexists. split; [done|split; [done|]]. intros t'. apply pending_insert, pending_deletes.
Qed.
Next Obligation.
  intros ops d Hok _. cbn. unfold in_memory_commit.
  destruct (commit_tables (hash_iter ops) d) as (d' & Hrun & Hok' & Hc); [apply NoDup_hash_keys|done|].
  exists d'. split_and!; [done..|]. intros t. by rewrite Hc, list_to_map_hash_iter.
Qed.

Lemma in_memory_new_ok : in_memory_ok InMemoryBackend_new.
Proof. intros []; eexists; reflexivity. Qed.

Lemma in_memory_new_empty t : in_memory_contents InMemoryBackend_new t = ∅.
Proof. by destruct t. Qed.

End in_memory.
