(* ===== verification/Keys.v ===== *)
(** Storage keys (crates/storage/src/store.rs, "Key Encoding Helpers"): fixed-width
    big-endian numbers, live-chain keys and signature keys, their round trips and their
    order. *)

From S2P Require Import Prelude Types.

(** * Big-endian numbers *)

Fixpoint be_bytes (k : nat) (n : N) : bytes :=
  match k with
  | O => []
  | S k => be_bytes k (n / 256) ++ [byte_of_N n]
  end.

Definition be_val (l : bytes) : N := foldl (λ acc b, acc * 256 + Byte.to_N b) 0 l.

Lemma length_be_bytes k n : length (be_bytes k n) = k.
Proof. revert n. induction k as [|k IH]; intros n; cbn; [done|]. rewrite length_app, IH. cbn. lia. Qed.

Lemma be_val_snoc l b : be_val (l ++ [b]) = be_val l * 256 + Byte.to_N b.
Proof. unfold be_val. by rewrite foldl_app. Qed.

Lemma be_val_bytes k n : be_val (be_bytes k n) = n mod 256 ^ N.of_nat k.
Proof.
  revert n. induction k as [|k IH]; intros n; cbn [be_bytes]; [by rewrite N.mod_1_r|].
  rewrite be_val_snoc, IH, byte_of_N_val. rewrite Nat2N.inj_succ, N.pow_succ_r'.
  rewrite N.Div0.mod_mul_r. lia.
Qed.

Lemma be_val_bound l : be_val l < 256 ^ len l.
Proof.
  induction l as [|b l IH] using rev_ind; [done|].
  rewrite be_val_snoc. autorewrite with len. rewrite N.add_0_l, N.add_1_r, N.pow_succ_r'.
  pose proof (byte_val_lt b). lia.
Qed.

Lemma be_bytes_val l : be_bytes (length l) (be_val l) = l.
Proof.
  induction l as [|b l IH] using rev_ind; [done|].
  rewrite length_app, Nat.add_1_r. cbn [be_bytes]. rewrite be_val_snoc.
  pose proof (byte_val_lt b) as Hb.
  rewrite N.add_comm, N.div_add, N.div_small, N.add_0_l, IH by done. f_equal.
  apply (f_equal (λ x, [x])), byte_inj. rewrite byte_of_N_val, N.Div0.mod_add. by apply N.mod_small.
Qed.

Lemma be_val_cons b l : be_val (b :: l) = Byte.to_N b * 256 ^ len l + be_val l.
Proof.
  induction l as [|c l IH] using rev_ind; [unfold be_val; cbn [foldl]; rewrite (@len_nil byte), N.pow_0_r; lia|].
  rewrite app_comm_cons, !be_val_snoc, IH. autorewrite with len.
  rewrite N.add_0_l, N.add_1_r, N.pow_succ_r'. lia.
Qed.

(** The bytewise order of a sorted key-value store. *)
Fixpoint bytes_le (l k : bytes) : bool :=
  match l, k with
  | [], _ => true
  | _ :: _, [] => false
  | a :: l, b :: k =>
      (Byte.to_N a <? Byte.to_N b) || (bool_decide (a = b) && bytes_le l k)
  end.

(** On numbers of one width it is the numeric order. *)
Lemma bytes_le_val l k : length l = length k → bytes_le l k = (be_val l <=? be_val k).
Proof.
  revert k. induction l as [|a l IH]; intros [|b k] Hlen; [done..|].
  injection Hlen as Hlen. cbn [bytes_le]. rewrite IH, !be_val_cons by done.
  pose proof (be_val_bound l) as Hl. pose proof (be_val_bound k) as Hk.
  replace (len k) with (len l) in * by (unfold len; lia).
  set (m := 256 ^ len l) in *. apply eq_true_iff_eq.
  rewrite orb_true_iff, andb_true_iff, bool_decide_eq_true, N.ltb_lt, !N.leb_le. split.
  - intros [Hlt|[-> Hle]]; nia.
  - intros Hle. destruct (N.lt_trichotomy (Byte.to_N a) (Byte.to_N b)) as [?|[?|?]].
    + by left.
    + right. split; [by apply byte_inj|nia].
    + nia.
Qed.

Lemma bytes_le_app l1 l2 k1 k2 :
  length l1 = length k1 →
  bytes_le (l1 ++ l2) (k1 ++ k2) =
    (be_val l1 <? be_val k1) || (bool_decide (l1 = k1) && bytes_le l2 k2).
Proof.
  revert k1. induction l1 as [|a l1 IH]; intros [|b k1] Hlen; [by cbn|done..|].
  injection Hlen as Hlen. cbn [app bytes_le]. rewrite IH, !be_val_cons by done.
  pose proof (be_val_bound l1) as Hl. pose proof (be_val_bound k1) as Hk.
  replace (len k1) with (len l1) in * by (unfold len; lia).
  set (m := 256 ^ len l1) in *. apply eq_true_iff_eq.
  rewrite !orb_true_iff, !andb_true_iff, !orb_true_iff, !andb_true_iff, !bool_decide_eq_true, !N.ltb_lt.
  assert (Hcmp : Byte.to_N a * m + be_val l1 < Byte.to_N b * m + be_val k1 ↔
    Byte.to_N a < Byte.to_N b ∨ a = b ∧ be_val l1 < be_val k1).
  { split.
    - intros Hlt. destruct (N.lt_trichotomy (Byte.to_N a) (Byte.to_N b)) as [?|[?|?]];
        [by left|right; split; [by apply byte_inj|nia]|nia].
    - intros [?|[-> ?]]; nia. }
  rewrite Hcmp. naive_solver.
Qed.

(** * Numbers and hashes as bytes *)

(** [slot.to_be_bytes()], [u64::from_be_bytes] *)
Definition u64_to_be_bytes (x : u64) : bytes := be_bytes 8 x.
Definition u64_from_be_bytes (l : bytes) : u64 := to_u64 (be_val l).

(** [root.0], [H256::from_slice] *)
Definition H256_bytes (h : H256) : bytes := be_bytes 32 (h256_val h).
Definition H256_from_slice (l : bytes) : partial H256 :=
  if bool_decide (length l = 32%nat) then Return (h256 (be_val l)) else Panic.

Lemma u64_be_roundtrip x : u64_from_be_bytes (u64_to_be_bytes x) = x.
Proof.
  unfold u64_from_be_bytes, u64_to_be_bytes. rewrite be_val_bytes. apply u64_eq.
  pose proof (u64_lt x). change (256 ^ N.of_nat 8) with (2 ^ 64). rewrite N.mod_small by done.
  by apply to_u64_small.
Qed.

Lemma be_val_u64 (x : u64) : be_val (u64_to_be_bytes x) = x.
Proof.
  unfold u64_to_be_bytes. rewrite be_val_bytes. apply N.mod_small. apply u64_lt.
Qed.

Lemma be_val_H256 h : be_val (H256_bytes h) = h256_val h.
Proof.
  unfold H256_bytes. rewrite be_val_bytes. apply N.mod_small.
  change (256 ^ N.of_nat 32) with h256_modulus. apply h256_lt.
Qed.

Lemma length_H256_bytes h : length (H256_bytes h) = 32%nat.
Proof. apply length_be_bytes. Qed.

Lemma H256_bytes_roundtrip h : H256_from_slice (H256_bytes h) = Return h.
Proof.
  unfold H256_from_slice. rewrite bool_decide_eq_true_2 by apply length_be_bytes.
  by rewrite be_val_H256, h256_of_val.
Qed.

(** * Live-chain keys: slot (8 bytes, big-endian) then root *)

Definition encode_live_chain_key (slot : u64) (root : H256) : bytes :=
  u64_to_be_bytes slot ++ H256_bytes root.

Definition decode_live_chain_key (l : bytes) : partial (u64 * H256) :=
  if (length l <? 8)%nat then Panic
  else
    root ← H256_from_slice (drop 8 l);
    Return (u64_from_be_bytes (take 8 l), root).

Lemma live_chain_key_decodes slot root :
  decode_live_chain_key (encode_live_chain_key slot root) = Return (slot, root).
Proof.
  unfold decode_live_chain_key, encode_live_chain_key.
  assert (Hs : length (u64_to_be_bytes slot) = 8%nat) by apply length_be_bytes.
  rewrite length_app, (proj2 (Nat.ltb_ge _ _)) by lia.
  rewrite drop_app_length', take_app_length' by done. rewrite H256_bytes_roundtrip. cbn [mbind partial_bind].
  by rewrite u64_be_roundtrip.
Qed.

#[global] Instance encode_live_chain_key_inj : Inj2 (=) (=) (=) encode_live_chain_key.
Proof.
  intros s1 r1 s2 r2 Heq. apply (f_equal decode_live_chain_key) in Heq.
  rewrite !live_chain_key_decodes in Heq. by injection Heq.
Qed.

Lemma live_chain_key_le s1 r1 s2 r2 :
  bytes_le (encode_live_chain_key s1 r1) (encode_live_chain_key s2 r2) =
    (u64_val s1 <? u64_val s2) || ((u64_val s1 =? u64_val s2) && (h256_val r1 <=? h256_val r2)).
Proof.
  unfold encode_live_chain_key. rewrite bytes_le_app, !be_val_u64 by (unfold u64_to_be_bytes, H256_bytes; by rewrite !length_be_bytes).
  rewrite (bytes_le_val (H256_bytes r1)), !be_val_H256 by (unfold u64_to_be_bytes, H256_bytes; by rewrite !length_be_bytes).
  f_equal. f_equal. apply eq_true_iff_eq. rewrite bool_decide_eq_true, N.eqb_eq. split.
  - intros Heq. by rewrite <- (be_val_u64 s1), <- (be_val_u64 s2), Heq.
  - intros Heq. by rewrite (u64_eq _ _ Heq).
Qed.

(** * Signature keys: validator id then data root, both SSZ *)

Abbreviation SignatureKey := (u64 * H256)%type.

Section signature_keys.
Context `{U : Ssz u64} `{H : Ssz H256}.

Definition encode_signature_key (key : SignatureKey) : bytes :=
  as_ssz_bytes key.1 ++ as_ssz_bytes key.2.

Definition decode_signature_key (l : bytes) : partial SignatureKey :=
  if (length l <? 8)%nat then Panic
  else
    validator_id ← expect_some (from_ssz_bytes (take 8 l));
    root ← expect_some (from_ssz_bytes (drop 8 l));
    Return (validator_id, root).

(** SSZ writes a [u64] as eight bytes. *)
Context {UL : SszLaws u64} {HL : SszLaws H256} (u64_width : ∀ x : u64, length (as_ssz_bytes x) = 8%nat).

Lemma signature_key_decodes key : decode_signature_key (encode_signature_key key) = Return key.
Proof.
  unfold decode_signature_key, encode_signature_key. destruct key as [v r]. cbn [fst snd].
  rewrite length_app, u64_width, (proj2 (Nat.ltb_ge _ _)) by lia.
  rewrite take_app_length', drop_app_length' by done. by rewrite !ssz_roundtrip.
Qed.

End signature_keys.

#[global] Opaque u64_to_be_bytes H256_bytes be_bytes.
