(* ===== verification/Signatures.v ===== *)
(** Validator signatures and keys (crates/common/types/src/signature.rs) over the leanSig
    scheme, and the signature records of the store (crates/storage/src/types.rs). *)

From S2P Require Import Prelude Types.

(** The leansig library: an XMSS scheme with byte serialization. The slot is a [u32]. *)
Class SignatureScheme := {
  LeanSigSignature : Type;
  LeanSigPublicKey : Type;
  LeanSigSecretKey : Type;
  leansig_signature_from_bytes : bytes → option LeanSigSignature;
  leansig_signature_to_bytes : LeanSigSignature → bytes;
  leansig_public_key_from_bytes : bytes → option LeanSigPublicKey;
  leansig_public_key_to_bytes : LeanSigPublicKey → bytes;
  leansig_secret_key_from_bytes : bytes → option LeanSigSecretKey;
  leansig_verify : LeanSigPublicKey → N → H256 → LeanSigSignature → bool;
  leansig_sign : LeanSigSecretKey → N → H256 → option LeanSigSignature;
}.

(** Serialization round trips and honest signatures verify. *)
Class SignatureSchemeLaws `{SignatureScheme} := {
  signature_bytes_roundtrip s :
    leansig_signature_from_bytes (leansig_signature_to_bytes s) = Some s;
  public_key_bytes_roundtrip pk :
    leansig_public_key_from_bytes (leansig_public_key_to_bytes pk) = Some pk;
  leansig_public : LeanSigSecretKey → LeanSigPublicKey;
  leansig_sign_verifies sk slot message s :
    leansig_sign sk slot message = Some s →
    leansig_verify (leansig_public sk) slot message s = true;
}.

(** [x as u32], [u32::try_from(x)] *)
Definition as_u32 (x : N) : N := x mod 2 ^ 32.
Definition u32_try_from (x : N) : option N := if x <? 2 ^ 32 then Some x else None.

Section signatures.
Context `{SignatureScheme}.

Record ValidatorSignature := mk_validator_signature { vs_inner : LeanSigSignature }.
Record ValidatorPublicKey := mk_validator_public_key { vpk_inner : LeanSigPublicKey }.
Record ValidatorSecretKey := mk_validator_secret_key { vsk_inner : LeanSigSecretKey }.

Definition ValidatorSignature_from_bytes (b : bytes) : option ValidatorSignature :=
  sig ← leansig_signature_from_bytes b; Some (mk_validator_signature sig).
Definition ValidatorSignature_to_bytes (s : ValidatorSignature) : bytes :=
  leansig_signature_to_bytes (vs_inner s).
Definition is_valid (s : ValidatorSignature) (pubkey : ValidatorPublicKey) (slot : N) (message : H256) : bool :=
  leansig_verify (vpk_inner pubkey) slot message (vs_inner s).

Definition ValidatorPublicKey_from_bytes (b : bytes) : option ValidatorPublicKey :=
  pk ← leansig_public_key_from_bytes b; Some (mk_validator_public_key pk).
Definition ValidatorPublicKey_to_bytes (pk : ValidatorPublicKey) : bytes :=
  leansig_public_key_to_bytes (vpk_inner pk).

Definition ValidatorSecretKey_from_bytes (b : bytes) : option ValidatorSecretKey :=
  sk ← leansig_secret_key_from_bytes b; Some (mk_validator_secret_key sk).
Definition sign (sk : ValidatorSecretKey) (slot : N) (message : H256) : option ValidatorSignature :=
  sig ← leansig_sign (vsk_inner sk) slot message; Some (mk_validator_signature sig).

(** [Validator::get_pubkey] (state.rs) *)
Definition get_pubkey (v : Validator) : option ValidatorPublicKey :=
  ValidatorPublicKey_from_bytes (v_pubkey v).

(** * storage/types.rs *)

Record StoredSignature := mk_stored_signature {
  ss_slot : u64;
  ss_signature_bytes : bytes;
}.

Definition StoredSignature_new (slot : u64) (signature : ValidatorSignature) : StoredSignature :=
  mk_stored_signature slot (ValidatorSignature_to_bytes signature).

Definition to_validator_signature (s : StoredSignature) : option ValidatorSignature :=
  ValidatorSignature_from_bytes (ss_signature_bytes s).

Record StoredAggregatedPayload := mk_stored_payload {
  sap_slot : u64;
  sap_proof : AggregatedSignatureProof;
}.

Lemma stored_signature_roundtrip `{!SignatureSchemeLaws} slot signature :
  to_validator_signature (StoredSignature_new slot signature) = Some signature.
Proof.
  unfold to_validator_signature, StoredSignature_new, ValidatorSignature_to_bytes,
    ValidatorSignature_from_bytes. cbn. rewrite signature_bytes_roundtrip. by destruct signature.
Qed.

Lemma sign_is_valid `{!SignatureSchemeLaws} sk slot message s :
  sign sk slot message = Some s →
  is_valid s (mk_validator_public_key (leansig_public (vsk_inner sk))) slot message = true.
Proof.
  unfold sign. destruct (leansig_sign _ _ _) as [sig|] eqn:Hs; [|done]. intros [= <-].
  by apply leansig_sign_verifies.
Qed.

End signatures.
