(* ===== verification/PayloadBuffer.v ===== *)
(** The bounded buffer of aggregated payloads (crates/storage/src/store.rs): first in,
    first out, with eviction of the oldest entry at capacity. *)

From S2P Require Import Prelude Types Keys Signatures.

Abbreviation PayloadEntry := (SignatureKey * StoredAggregatedPayload)%type.

Record PayloadBuffer := mk_payload_buffer {
  pb_entries : list PayloadEntry;
  pb_capacity : u64;
}.

Definition PayloadBuffer_new (capacity : u64) : PayloadBuffer := mk_payload_buffer [] capacity.

Definition buffer_push (b : PayloadBuffer) (key : SignatureKey) (payload : StoredAggregatedPayload) :
    PayloadBuffer :=
  let entries := if pb_capacity b <=? len (pb_entries b) then tail (pb_entries b) else pb_entries b in
  mk_payload_buffer (entries ++ [(key, payload)]) (pb_capacity b).

Definition push_batch (b : PayloadBuffer) (entries : list PayloadEntry) : PayloadBuffer :=
  foldl (λ b '(key, payload), buffer_push b key payload) b entries.

(** The drained entries and the emptied buffer. *)
Definition drain (b : PayloadBuffer) : list PayloadEntry * PayloadBuffer :=
  (pb_entries b, mk_payload_buffer [] (pb_capacity b)).

Definition grouped (b : PayloadBuffer) : gmap SignatureKey (list StoredAggregatedPayload) :=
  foldl (λ (m : gmap SignatureKey (list StoredAggregatedPayload)) '(key, payload),
    <[key := default [] (m !! key) ++ [payload]]> m) ∅ (pb_entries b).

Definition unique_keys (b : PayloadBuffer) : gset SignatureKey := list_to_set (pb_entries b).*1.

Definition buffer_len (b : PayloadBuffer) : u64 := to_u64 (len (pb_entries b)).

(** * The abstract buffer: the last [capacity] entries of everything pushed *)

Definition last_n {A} (n : nat) (l : list A) : list A := drop (length l - n) l.

Lemma last_n_all {A} n (l : list A) : (length l <= n)%nat → last_n n l = l.
Proof. intros Hl. unfold last_n. by replace (length l - n)%nat with 0%nat by lia. Qed.

Lemma last_n_app {A} n (l k : list A) : last_n n (last_n n l ++ k) = last_n n (l ++ k).
Proof.
  unfold last_n. rewrite !length_app, length_drop, !drop_app, drop_drop, length_drop.
  f_equal; f_equal; lia.
Qed.

Lemma length_last_n {A} n (l : list A) : (length (last_n n l) <= n)%nat.
Proof. unfold last_n. rewrite length_drop. lia. Qed.

(** A buffer within its capacity. *)
Definition buffer_wf (b : PayloadBuffer) : Prop :=
  0 < pb_capacity b ∧ len (pb_entries b) <= pb_capacity b.

Lemma push_last_n b key payload :
  buffer_wf b →
  buffer_push b key payload =
    mk_payload_buffer (last_n (N.to_nat (pb_capacity b)) (pb_entries b ++ [(key, payload)])) (pb_capacity b).
Proof.
  intros [Hpos Hlen]. unfold buffer_push. f_equal. unfold last_n. rewrite length_app. cbn [length].
  unfold len in *. destruct (N.leb_spec (pb_capacity b) (N.of_nat (length (pb_entries b)))).
  - replace (length (pb_entries b) + 1 - N.to_nat (pb_capacity b))%nat with 1%nat by lia.
    destruct (pb_entries b); [cbn in *; lia|done].
  - by replace (length (pb_entries b) + 1 - N.to_nat (pb_capacity b))%nat with 0%nat by lia.
Qed.

Lemma push_wf b key payload : buffer_wf b → buffer_wf (buffer_push b key payload).
Proof.
  intros Hwf. rewrite push_last_n by done. destruct Hwf as [Hpos _]. split; cbn [pb_entries pb_capacity]; [done|].
  pose proof (length_last_n (N.to_nat (pb_capacity b)) (pb_entries b ++ [(key, payload)])). unfold len. lia.
Qed.

(** Pushing a batch keeps the newest entries of the old content followed by the batch. *)
Lemma push_batch_last_n entries b :
  buffer_wf b →
  push_batch b entries =
    mk_payload_buffer (last_n (N.to_nat (pb_capacity b)) (pb_entries b ++ entries)) (pb_capacity b).
Proof.
  revert b. induction entries as [|[key payload] entries IH]; intros b Hwf.
  - rewrite app_nil_r, last_n_all; [by destruct b|]. destruct Hwf as [_ Hl]. unfold len in Hl. lia.
  - cbn. change (foldl _ ?b0 entries) with (push_batch b0 entries). rewrite IH by (by apply push_wf).
    rewrite push_last_n by done. cbn [pb_entries pb_capacity]. rewrite last_n_app.
    by rewrite <- app_assoc.
Qed.

Lemma push_batch_wf entries b : buffer_wf b → buffer_wf (push_batch b entries).
Proof.
  revert b. induction entries as [|[key payload] entries IH]; intros b Hwf; cbn; [done|].
  by apply IH, push_wf.
Qed.

(** [grouped] lists, for each key, its payloads in insertion order. *)
Lemma grouped_spec b key :
  grouped b !! key =
    (let l := (filter (λ e : PayloadEntry, e.1 = key) (pb_entries b)).*2 in
     if decide (l = []) then None else Some l).
Proof.
  unfold grouped. destruct b as [entries cap]. cbn [pb_entries].
  induction entries as [|[k p] entries IH] using rev_ind; [done|].
  rewrite foldl_app, filter_app, fmap_app. cbn [foldl]. rewrite filter_cons, filter_nil. cbn [fst].
  destruct (decide (k = key)) as [->|Hne].
  - rewrite lookup_insert_eq, IH. cbn zeta. rewrite (decide_False (P := _ ++ _ = [])).
    + destruct (decide _) as [->|]; done.
    + intros [_ Hc]%app_nil. done.
  - rewrite lookup_insert_ne by done. rewrite IH, app_nil_r. done.
Qed.

Lemma elem_of_unique_keys b key : key ∈ unique_keys b ↔ is_Some (grouped b !! key).
Proof.
  unfold unique_keys. rewrite elem_of_list_to_set, grouped_spec. cbn zeta.
  rewrite list_elem_of_fmap. split.
  - intros ([k p] & -> & Hin). rewrite decide_False; [by eexists|]. cbn.
    intros Hnil. apply (f_equal length) in Hnil. rewrite length_fmap in Hnil.
    apply length_zero_iff_nil in Hnil.
    assert (Hf : (k, p) ∈ filter (λ e : PayloadEntry, e.1 = k) (pb_entries b)) by (by apply list_elem_of_filter).
    rewrite Hnil in Hf. by apply not_elem_of_nil in Hf.
  - destruct (decide _) as [|Hne]; [by intros []|]. intros _.
    destruct (filter _ _) as [|[k p] l] eqn:Hf; [done|].
    assert (Hin : (k, p) ∈ filter (λ e : PayloadEntry, e.1 = key) (pb_entries b)) by (rewrite Hf; set_solver).
    apply list_elem_of_filter in Hin as [<- Hin]. by exists (k, p).
Qed.
