(* ===== verification/Store.v ===== *)
(** The fork-choice store (crates/storage/src/store.rs): metadata, blocks, states, the
    live chain, attestation data, payload buffers and gossip signatures, over a storage
    backend. *)

From Stdlib Require Import Strings.String.
From S2P Require Import Prelude Types Backend Keys Signatures PayloadBuffer.

(** SSZ of every type the store writes. *)
Class Codecs := {
  #[global] ssz_u64 :: Ssz u64;
  #[global] ssz_H256 :: Ssz H256;
  #[global] ssz_ChainConfig :: Ssz ChainConfig;
  #[global] ssz_Checkpoint :: Ssz Checkpoint;
  #[global] ssz_BlockHeader :: Ssz BlockHeader;
  #[global] ssz_BlockBody :: Ssz BlockBody;
  #[global] ssz_BlockSignaturesWithAttestation :: Ssz BlockSignaturesWithAttestation;
  #[global] ssz_State :: Ssz State;
  #[global] ssz_AttestationData :: Ssz AttestationData;
  #[global] ssz_StoredSignature :: Ssz StoredSignature;
}.

Class CodecsLaws `{Codecs} : Prop := {
  #[global] ssz_u64_laws :: SszLaws u64;
  #[global] ssz_H256_laws :: SszLaws H256;
  #[global] ssz_ChainConfig_laws :: SszLaws ChainConfig;
  #[global] ssz_Checkpoint_laws :: SszLaws Checkpoint;
  #[global] ssz_BlockHeader_laws :: SszLaws BlockHeader;
  #[global] ssz_BlockBody_laws :: SszLaws BlockBody;
  #[global] ssz_BlockSignaturesWithAttestation_laws :: SszLaws BlockSignaturesWithAttestation;
  #[global] ssz_State_laws :: SszLaws State;
  #[global] ssz_AttestationData_laws :: SszLaws AttestationData;
  #[global] ssz_StoredSignature_laws :: SszLaws StoredSignature;
  ssz_u64_width (x : u64) : length (as_ssz_bytes x) = 8%nat;
}.

(** [from_ssz_bytes(..).expect(..)] *)
Definition decode_or_panic {A} `{Ssz A} (b : bytes) : partial A := expect_some (from_ssz_bytes b).

(** * Constants *)

Definition KEY_TIME : bytes := list_byte_of_string "time".
Definition KEY_CONFIG : bytes := list_byte_of_string "config".
Definition KEY_HEAD : bytes := list_byte_of_string "head".
Definition KEY_SAFE_TARGET : bytes := list_byte_of_string "safe_target".
Definition KEY_LATEST_JUSTIFIED : bytes := list_byte_of_string "latest_justified".
Definition KEY_LATEST_FINALIZED : bytes := list_byte_of_string "latest_finalized".

Definition BLOCKS_TO_KEEP : nat := N.to_nat 21600.
Definition STATES_TO_KEEP : nat := N.to_nat 3000.
Definition AGGREGATED_PAYLOAD_CAP : u64 := to_u64 4096.
Definition NEW_PAYLOAD_CAP : u64 := to_u64 512.

Record ForkCheckpoints := mk_fork_checkpoints {
  fc_head : H256;
  fc_justified : option Checkpoint;
  fc_finalized : option Checkpoint;
}.

Definition head_only (head : H256) : ForkCheckpoints := mk_fork_checkpoints head None None.

(** * The store *)

Record Store (D : Type) := mk_store {
  s_backend : D;
  s_new_payloads : PayloadBuffer;
  s_known_payloads : PayloadBuffer;
  s_gossip_signatures_count : u64;
}.
Arguments mk_store {D}.
Arguments s_backend {D}.
Arguments s_new_payloads {D}.
Arguments s_known_payloads {D}.
Arguments s_gossip_signatures_count {D}.

Definition set_backend {D} (d : D) (s : Store D) : Store D :=
  mk_store d (s_new_payloads s) (s_known_payloads s) (s_gossip_signatures_count s).
Definition set_new_payloads {D} (b : PayloadBuffer) (s : Store D) : Store D :=
  mk_store (s_backend s) b (s_known_payloads s) (s_gossip_signatures_count s).
Definition set_known_payloads {D} (b : PayloadBuffer) (s : Store D) : Store D :=
  mk_store (s_backend s) (s_new_payloads s) b (s_gossip_signatures_count s).
Definition set_gossip_count {D} (n : u64) (s : Store D) : Store D :=
  mk_store (s_backend s) (s_new_payloads s) (s_known_payloads s) n.

Section store.
Context `{SB : StorageBackend D B} `{CO : Codecs} `{HS : Hashing} `{HO : HashOrder} `{SC : SignatureScheme}.

Abbreviation store := (Store D).

(** A write batch of the store, from [begin_write] to [commit]. *)
Definition write {E} (ws : list table_write) : M store E unit :=
  d ← reads (λ s, commit_writes ws (s_backend s));
  modify (set_backend d).

(** [prefix_iterator(table, &[]).filter_map(|r| r.ok())] *)
Definition table_entries (d : D) (t : Table) : partial (list (bytes * bytes)) :=
  items ← prefix_iterator d t [];
  Return (omap (M := list) id items).

(** ** Initialization *)

Definition count_gossip_signatures (d : D) : partial u64 :=
  entries ← table_entries d GossipSignatures;
  Return (to_u64 (len entries)).

(** [init_store] *)
Definition init_store (backend : D) (anchor_state : State) (anchor_body : option BlockBody) : partial store :=
  let original_state_root := bh_state_root (st_latest_block_header anchor_state) in
  let anchor_state := set_latest_block_header
    (set_state_root H256_ZERO (st_latest_block_header anchor_state)) anchor_state in
  let anchor_state_root := tree_hash_root anchor_state in
  _ ← assert_that (is_zero original_state_root || bool_decide (original_state_root = anchor_state_root));
  let anchor_state := set_latest_block_header
    (set_state_root anchor_state_root (st_latest_block_header anchor_state)) anchor_state in
  let header := st_latest_block_header anchor_state in
  let anchor_block_root := tree_hash_root header in
  let anchor_checkpoint := mk_checkpoint anchor_block_root (bh_slot header) in
  backend ← commit_writes (
    [ Put Metadata
        [ (KEY_TIME, as_ssz_bytes (to_u64 0));
          (KEY_CONFIG, as_ssz_bytes (st_config anchor_state));
          (KEY_HEAD, as_ssz_bytes anchor_block_root);
          (KEY_SAFE_TARGET, as_ssz_bytes anchor_block_root);
          (KEY_LATEST_JUSTIFIED, as_ssz_bytes anchor_checkpoint);
          (KEY_LATEST_FINALIZED, as_ssz_bytes anchor_checkpoint) ];
      Put BlockHeaders [ (as_ssz_bytes anchor_block_root, as_ssz_bytes header) ] ] ++
    match anchor_body with
    | Some body => [ Put BlockBodies [ (as_ssz_bytes anchor_block_root, as_ssz_bytes body) ] ]
    | None => []
    end ++
    [ Put States [ (as_ssz_bytes anchor_block_root, as_ssz_bytes anchor_state) ];
      Put LiveChain [ (encode_live_chain_key (bh_slot header) anchor_block_root,
                       as_ssz_bytes (bh_parent_root header)) ] ]) backend;
  initial_gossip_count ← count_gossip_signatures backend;
  Return (mk_store backend (PayloadBuffer_new NEW_PAYLOAD_CAP) (PayloadBuffer_new AGGREGATED_PAYLOAD_CAP)
            initial_gossip_count).

Definition from_anchor_state (backend : D) (anchor_state : State) : partial store :=
  init_store backend anchor_state None.

Definition get_forkchoice_store (backend : D) (anchor_state : State) (anchor_block : Block) : partial store :=
  let state_header := set_state_root H256_ZERO (st_latest_block_header anchor_state) in
  let block_header := set_state_root H256_ZERO (block_header anchor_block) in
  _ ← assert_that (bool_decide (state_header = block_header));
  init_store backend anchor_state (Some (b_body anchor_block)).

(** ** Metadata *)

Definition get_metadata {A} `{Ssz A} (key : bytes) (s : store) : partial A :=
  value ← view_get (s_backend s) Metadata key;
  b ← expect_some value;
  decode_or_panic b.

Definition set_metadata {A E} `{Ssz A} (key : bytes) (value : A) : M store E unit :=
  write [ Put Metadata [ (key, as_ssz_bytes value) ] ].

Definition store_time : store → partial u64 := get_metadata KEY_TIME.
Definition set_time {E} (time : u64) : M store E unit := set_metadata KEY_TIME time.
Definition store_config : store → partial ChainConfig := get_metadata KEY_CONFIG.
Definition store_head : store → partial H256 := get_metadata KEY_HEAD.
Definition safe_target : store → partial H256 := get_metadata KEY_SAFE_TARGET.
Definition set_safe_target {E} (root : H256) : M store E unit := set_metadata KEY_SAFE_TARGET root.
Definition latest_justified : store → partial Checkpoint := get_metadata KEY_LATEST_JUSTIFIED.
Definition latest_finalized : store → partial Checkpoint := get_metadata KEY_LATEST_FINALIZED.

(** ** Pruning of small tables *)

(** [take_while(slot < finalized_slot)] over the decoded keys. *)
Fixpoint keys_below (finalized_slot : u64) (l : list (bytes * bytes)) : partial (list bytes) :=
  match l with
  | [] => Return []
  | (k, _) :: l =>
      '(slot, _) ← decode_live_chain_key k;
      if u64_val slot <? finalized_slot
      then ks ← keys_below finalized_slot l; Return (k :: ks)
      else Return []
  end.

(** [prune_live_chain]: stops at the first key that is not below the finalized slot. *)
Definition prune_live_chain {E} (finalized_slot : u64) : M store E u64 :=
  entries ← reads (λ s, table_entries (s_backend s) LiveChain);
  keys_to_delete ← lift_partial (keys_below finalized_slot entries);
  let count := to_u64 (len keys_to_delete) in
  match keys_to_delete with
  | [] => mret (to_u64 0)
  | _ => write [ Delete LiveChain keys_to_delete ];; mret count
  end.

(** [prune_by_slot] *)
Definition prune_by_slot {E} (table : Table) (finalized_slot : u64) (get_slot : bytes → option u64) :
    M store E u64 :=
  entries ← reads (λ s, table_entries (s_backend s) table);
  let to_delete := omap (M := list) (λ '(k, v), match get_slot v with
                                    | Some slot => if u64_val slot <=? finalized_slot then Some k else None
                                    | None => None
                                    end) entries in
  match to_delete with
  | [] => mret (to_u64 0)
  | _ => write [ Delete table to_delete ];; mret (to_u64 (len to_delete))
  end.

Definition prune_gossip_signatures {E} (finalized_slot : u64) : M store E u64 :=
  pruned ← prune_by_slot GossipSignatures finalized_slot
    (λ b, ss_slot <$> (from_ssz_bytes b : option StoredSignature));
  modify (λ s, set_gossip_count (saturating_sub (s_gossip_signatures_count s) pruned) s);;
  mret pruned.

Definition prune_attestation_data_by_root {E} (finalized_slot : u64) : M store E u64 :=
  prune_by_slot AttestationDataByRoot finalized_slot
    (λ b, ad_slot <$> (from_ssz_bytes b : option AttestationData)).

(** [update_checkpoints] *)
Definition update_checkpoints {E} (checkpoints : ForkCheckpoints) : M store E unit :=
  old_finalized ← reads latest_finalized;
  write [ Put Metadata (
    [ (KEY_HEAD, as_ssz_bytes (fc_head checkpoints)) ] ++
    match fc_justified checkpoints with
    | Some justified => [ (KEY_LATEST_JUSTIFIED, as_ssz_bytes justified) ]
    | None => []
    end ++
    match fc_finalized checkpoints with
    | Some finalized => [ (KEY_LATEST_FINALIZED, as_ssz_bytes finalized) ]
    | None => []
    end) ];;
  match fc_finalized checkpoints with
  | Some finalized =>
      if cp_slot old_finalized <? u64_val (cp_slot finalized) then
        prune_live_chain (cp_slot finalized);;
        prune_gossip_signatures (cp_slot finalized);;
        prune_attestation_data_by_root (cp_slot finalized);;
        mret tt
      else mret tt
  | None => mret tt
  end.

(** ** Live chain *)

Definition live_entry (kv : bytes * bytes) : partial (H256 * (u64 * H256)) :=
  '(slot, root) ← decode_live_chain_key kv.1;
  parent_root ← decode_or_panic kv.2;
  Return (root, (slot, parent_root)).

Definition get_live_chain (s : store) : partial (gmap H256 (u64 * H256)) :=
  entries ← table_entries (s_backend s) LiveChain;
  entries ← map_partial live_entry entries;
  Return (foldl (λ m '(root, v), <[root := v]> m) ∅ entries).

Definition get_block_roots (s : store) : partial (gset H256) :=
  entries ← table_entries (s_backend s) LiveChain;
  roots ← map_partial (λ '(k, _), '(_, root) ← decode_live_chain_key k; Return root) entries;
  Return (list_to_set roots).

(** ** Heavy pruning *)

(** Newest first. *)
Definition slot_ge (a b : bytes * u64) : Prop := u64_val b.2 <= a.2.

#[global] Instance slot_ge_dec : RelDecision slot_ge.
Proof. intros a b. unfold slot_ge. apply _. Defined.

(** The keys beyond the retention window that are not protected. *)
Definition prunable_keys (keep : nat) (protected_roots : list H256) (s : store) : partial (list bytes) :=
  entries ← table_entries (s_backend s) BlockHeaders;
  entries ← map_partial (λ '(key, value),
    header ← decode_or_panic value; Return (key, bh_slot header)) entries;
  if (length entries <=? keep)%nat then Return []
  else
    let protected : gset bytes := list_to_set (as_ssz_bytes <$> protected_roots) in
    Return (filter (λ key, bool_decide (key ∈ protected) = false)
      (drop keep (merge_sort slot_ge entries)).*1).

Definition prune_old_states {E} (protected_roots : list H256) : M store E u64 :=
  keys_to_delete ← reads (prunable_keys STATES_TO_KEEP protected_roots);
  match keys_to_delete with
  | [] => mret (to_u64 0)
  | _ => write [ Delete States keys_to_delete ];; mret (to_u64 (len keys_to_delete))
  end.

Definition prune_old_blocks {E} (protected_roots : list H256) : M store E u64 :=
  keys_to_delete ← reads (prunable_keys BLOCKS_TO_KEEP protected_roots);
  match keys_to_delete with
  | [] => mret (to_u64 0)
  | _ =>
      write [ Delete BlockHeaders keys_to_delete; Delete BlockBodies keys_to_delete;
              Delete BlockSignatures_ keys_to_delete ];;
      mret (to_u64 (len keys_to_delete))
  end.

Definition prune_old_data {E} : M store E unit :=
  finalized ← reads latest_finalized;
  justified ← reads latest_justified;
  let protected_roots := [cp_root finalized; cp_root justified] in
  prune_old_states protected_roots;;
  prune_old_blocks protected_roots;;
  mret tt.

(** ** Blocks *)

Definition get_block_header (root : H256) (s : store) : partial (option BlockHeader) :=
  value ← view_get (s_backend s) BlockHeaders (as_ssz_bytes root);
  match value with
  | Some b => header ← decode_or_panic b; Return (Some header)
  | None => Return None
  end.

Definition EMPTY_BODY_ROOT : H256 := tree_hash_root BlockBody_default.

(** [write_signed_block]: the writes it adds to a batch. *)
Definition write_signed_block (root : H256) (signed_block : SignedBlockWithAttestation) : list table_write :=
  let block := bwa_block (sb_message signed_block) in
  let signatures := from_signed_block signed_block in
  let header := block_header block in
  let root_bytes := as_ssz_bytes root in
  [ Put BlockHeaders [ (root_bytes, as_ssz_bytes header) ] ] ++
  (if bool_decide (bh_body_root header = EMPTY_BODY_ROOT) then []
   else [ Put BlockBodies [ (root_bytes, as_ssz_bytes (b_body block)) ] ]) ++
  [ Put BlockSignatures_ [ (root_bytes, as_ssz_bytes signatures) ] ].

Definition insert_pending_block {E} (root : H256) (signed_block : SignedBlockWithAttestation) :
    M store E unit :=
  write (write_signed_block root signed_block).

Definition insert_signed_block {E} (root : H256) (signed_block : SignedBlockWithAttestation) :
    M store E unit :=
  let block := bwa_block (sb_message signed_block) in
  write (write_signed_block root signed_block ++
         [ Put LiveChain [ (encode_live_chain_key (b_slot block) root, as_ssz_bytes (b_parent_root block)) ] ]).

Definition get_signed_block (root : H256) (s : store) : partial (option SignedBlockWithAttestation) :=
  let key := as_ssz_bytes root in
  header_bytes ← view_get (s_backend s) BlockHeaders key;
  match header_bytes with
  | None => Return None
  | Some header_bytes =>
      sig_bytes ← view_get (s_backend s) BlockSignatures_ key;
      match sig_bytes with
      | None => Return None
      | Some sig_bytes =>
          header ← (decode_or_panic header_bytes : partial BlockHeader);
          body ← (if bool_decide (bh_body_root header = EMPTY_BODY_ROOT)
                  then Return (Some BlockBody_default)
                  else
                    body_bytes ← view_get (s_backend s) BlockBodies key;
                    match body_bytes with
                    | None => Return None
                    | Some b => body ← decode_or_panic b; Return (Some body)
                    end);
          match body with
          | None => Return None
          | Some body =>
              let block := from_header_and_body header body in
              signatures ← (decode_or_panic sig_bytes : partial BlockSignaturesWithAttestation);
              Return (Some (to_signed_block signatures block))
          end
      end
  end.

(** ** States *)

Definition get_state (root : H256) (s : store) : partial (option State) :=
  value ← view_get (s_backend s) States (as_ssz_bytes root);
  match value with
  | Some b => state ← decode_or_panic b; Return (Some state)
  | None => Return None
  end.

Definition has_state (root : H256) (s : store) : partial bool :=
  value ← view_get (s_backend s) States (as_ssz_bytes root);
  Return (bool_decide (is_Some value)).

Definition insert_state {E} (root : H256) (state : State) : M store E unit :=
  write [ Put States [ (as_ssz_bytes root, as_ssz_bytes state) ] ].

(** ** Attestation data by root *)

Definition insert_attestation_data_by_root {E} (root : H256) (data : AttestationData) : M store E unit :=
  write [ Put AttestationDataByRoot [ (as_ssz_bytes root, as_ssz_bytes data) ] ].

Definition insert_attestation_data_by_root_batch {E} (entries : list (H256 * AttestationData)) :
    M store E unit :=
  match entries with
  | [] => mret tt
  | _ => write [ Put AttestationDataByRoot
                   ((λ '(root, data), (as_ssz_bytes root, as_ssz_bytes data)) <$> entries) ]
  end.

Definition get_attestation_data_by_root (root : H256) (s : store) : partial (option AttestationData) :=
  value ← view_get (s_backend s) AttestationDataByRoot (as_ssz_bytes root);
  match value with
  | Some b => data ← decode_or_panic b; Return (Some data)
  | None => Return None
  end.

(** One iteration of [extract_latest_attestations], with its cache. *)
Definition extract_step (s : store)
    (acc : gmap u64 AttestationData * gmap H256 (option AttestationData)) (key : SignatureKey) :
    partial (gmap u64 AttestationData * gmap H256 (option AttestationData)) :=
  let '(result, data_cache) := acc in
  let '(validator_id, data_root) := key in
  data ← match data_cache !! data_root with
         | Some data => Return data
         | None => get_attestation_data_by_root data_root s
         end;
  let data_cache := <[data_root := data]> data_cache in
  match data with
  | None => Return (result, data_cache)
  | Some data =>
      let should_update := match result !! validator_id with
                           | None => true
                           | Some existing => ad_slot existing <? u64_val (ad_slot data)
                           end in
      Return (if should_update then <[validator_id := data]> result else result, data_cache)
  end.

Definition extract_latest_attestations (keys : list SignatureKey) (s : store) :
    partial (gmap u64 AttestationData) :=
  acc ← fold_partial (extract_step s) (∅, ∅) keys;
  Return acc.1.

Definition extract_latest_known_attestations (s : store) : partial (gmap u64 AttestationData) :=
  extract_latest_attestations (hash_elems (unique_keys (s_known_payloads s))) s.

(** ** Payload buffers *)

Definition iter_known_aggregated_payloads (s : store) : list (SignatureKey * list StoredAggregatedPayload) :=
  hash_iter (grouped (s_known_payloads s)).
Definition iter_known_aggregated_payload_keys (s : store) : list SignatureKey :=
  hash_elems (unique_keys (s_known_payloads s)).
Definition insert_known_aggregated_payload {E} (key : SignatureKey) (payload : StoredAggregatedPayload) :
    M store E unit :=
  modify (λ s, set_known_payloads (buffer_push (s_known_payloads s) key payload) s).
Definition insert_known_aggregated_payloads_batch {E} (entries : list PayloadEntry) : M store E unit :=
  modify (λ s, set_known_payloads (push_batch (s_known_payloads s) entries) s).

Definition iter_new_aggregated_payloads (s : store) : list (SignatureKey * list StoredAggregatedPayload) :=
  hash_iter (grouped (s_new_payloads s)).
Definition iter_new_aggregated_payload_keys (s : store) : list SignatureKey :=
  hash_elems (unique_keys (s_new_payloads s)).
Definition insert_new_aggregated_payload {E} (key : SignatureKey) (payload : StoredAggregatedPayload) :
    M store E unit :=
  modify (λ s, set_new_payloads (buffer_push (s_new_payloads s) key payload) s).
Definition insert_new_aggregated_payloads_batch {E} (entries : list PayloadEntry) : M store E unit :=
  modify (λ s, set_new_payloads (push_batch (s_new_payloads s) entries) s).

Definition promote_new_aggregated_payloads {E} : M store E unit :=
  s ← get;
  let '(drained, emptied) := drain (s_new_payloads s) in
  put (set_known_payloads (push_batch (s_known_payloads s) drained) (set_new_payloads emptied s)).

Definition new_aggregated_payloads_count (s : store) : u64 := buffer_len (s_new_payloads s).
Definition known_aggregated_payloads_count (s : store) : u64 := buffer_len (s_known_payloads s).

(** ** Gossip signatures *)

Definition delete_gossip_signatures {E} (keys : list SignatureKey) : M store E unit :=
  match keys with
  | [] => mret tt
  | _ =>
      let count := to_u64 (len keys) in
      write [ Delete GossipSignatures (encode_signature_key <$> keys) ];;
      modify (λ s, set_gossip_count (saturating_sub (s_gossip_signatures_count s) count) s)
  end.

Definition iter_gossip_signatures (s : store) : partial (list (SignatureKey * StoredSignature)) :=
  entries ← table_entries (s_backend s) GossipSignatures;
  entries ← map_partial (λ '(k, v),
    key ← decode_signature_key k;
    Return ((λ stored, (key, stored)) <$> (from_ssz_bytes v : option StoredSignature))) entries;
  Return (omap (M := list) id entries).

Definition insert_gossip_signature {E} (data_root : H256) (slot validator_id : u64)
    (signature : ValidatorSignature) : M store E unit :=
  let encoded_key := encode_signature_key (validator_id, data_root) in
  existing ← reads (λ s, view_get (s_backend s) GossipSignatures encoded_key);
  let stored := StoredSignature_new slot signature in
  write [ Put GossipSignatures [ (encoded_key, as_ssz_bytes stored) ] ];;
  match existing with
  | None => modify (λ s, set_gossip_count (wrapping_add (s_gossip_signatures_count s) (to_u64 1)) s)
  | Some _ => mret tt
  end.

(** ** Derived accessors *)

Definition head_slot (s : store) : partial u64 :=
  head ← store_head s;
  header ← get_block_header head s;
  header ← expect_some header;
  Return (bh_slot header).

Definition safe_target_slot (s : store) : partial u64 :=
  root ← safe_target s;
  header ← get_block_header root s;
  header ← expect_some header;
  Return (bh_slot header).

Definition head_state (s : store) : partial State :=
  head ← store_head s;
  state ← get_state head s;
  expect_some state.

End store.
