(* ===== verification/Crypto.v ===== *)
(** Signature aggregation (crates/common/crypto/src/lib.rs) over the lean_multisig
    library. *)

From S2P Require Import Prelude Types Signatures.

(** The lean_multisig library: an aggregate proves that a list of keys signed one message
    in one slot. A [Result] is a sum with the error on the left. *)
Class MultisigScheme `{SignatureScheme} := {
  XmssAggregateSignature : Type;
  XmssAggregateError : Type;
  ProofError : Type;
  xmss_aggregate_signatures :
    list LeanSigPublicKey → list LeanSigSignature → H256 → N → XmssAggregateError + XmssAggregateSignature;
  xmss_verify_aggregated_signatures :
    list LeanSigPublicKey → H256 → XmssAggregateSignature → N → ProofError + unit;
  #[global] ssz_XmssAggregateSignature :: Ssz XmssAggregateSignature;
}.

(** An aggregate of valid signatures verifies against the keys it was made from, and
    survives serialization. *)
Class MultisigLaws `{MultisigScheme} : Prop := {
  #[global] ssz_XmssAggregateSignature_laws :: SszLaws XmssAggregateSignature;
  xmss_aggregate_verifies pks sigs message slot aggregate :
    Forall2 (λ pk sig, leansig_verify pk slot message sig = true) pks sigs →
    xmss_aggregate_signatures pks sigs message slot = inr aggregate →
    xmss_verify_aggregated_signatures pks message aggregate slot = inr tt;
}.

(** [ByteListMiB], a byte list of at most one mebibyte. *)
Definition BYTE_LIST_MIB_LIMIT : N := 1048576.

Section crypto.
Context `{ST : SszTypes} `{MS : MultisigScheme}.

Inductive AggregationError : Type :=
| EmptyInput
| CountMismatch (public_keys signatures : N)
| AggregationFailed (e : XmssAggregateError)
| ProofTooBig (size : N).

Inductive VerificationError : Type :=
| PublicKeyConversion (index : N) (reason : string)
| DeserializationFailed
| ProofErr (e : ProofError).

(** [aggregate_signatures]; preparing the prover leaves no trace in the result. *)
Definition aggregate_signatures (public_keys : list ValidatorPublicKey)
    (signatures : list ValidatorSignature) (message : H256) (slot : N) : AggregationError + bytes :=
  if negb (len public_keys =? len signatures)
  then inl (CountMismatch (len public_keys) (len signatures))
  else
    match public_keys with
    | [] => inl EmptyInput
    | _ =>
        let lean_pubkeys := vpk_inner <$> public_keys in
        let lean_sigs := vs_inner <$> signatures in
        match xmss_aggregate_signatures lean_pubkeys lean_sigs message slot with
        | inl e => inl (AggregationFailed e)
        | inr aggregate =>
            let serialized := as_ssz_bytes aggregate in
            match variable_list_new BYTE_LIST_MIB_LIMIT serialized with
            | Some proof => inr proof
            | None => inl (ProofTooBig (len serialized))
            end
        end
    end.

(** [verify_aggregated_signature] *)
Definition verify_aggregated_signature (proof_data : bytes) (public_keys : list ValidatorPublicKey)
    (message : H256) (slot : N) : VerificationError + unit :=
  let lean_pubkeys := vpk_inner <$> public_keys in
  match from_ssz_bytes proof_data with
  | None => inl DeserializationFailed
  | Some aggregate =>
      match xmss_verify_aggregated_signatures lean_pubkeys message aggregate slot with
      | inl e => inl (ProofErr e)
      | inr _ => inr tt
      end
  end.

(** An aggregate verifies against the keys it was made from, in the same order. *)
Lemma aggregate_verifies `{!SszTypesLaws} `{!MultisigLaws} public_keys signatures message slot proof :
  Forall2 (λ pk sig, is_valid sig pk slot message = true) public_keys signatures →
  aggregate_signatures public_keys signatures message slot = inr proof →
  verify_aggregated_signature proof public_keys message slot = inr tt.
Proof.
  intros Hvalid. unfold aggregate_signatures, verify_aggregated_signature.
  destruct (len public_keys =? len signatures); [|done]. cbn [negb].
  destruct public_keys as [|pk pks]; [done|].
  destruct (xmss_aggregate_signatures _ _ _ _) as [|aggregate] eqn:Hagg; [done|].
  rewrite variable_list_new_spec. destruct (_ <=? _); [|done]. intros [= <-].
  rewrite ssz_roundtrip. erewrite xmss_aggregate_verifies; [done| |exact Hagg].
  apply Forall2_fmap. eapply Forall2_impl; [exact Hvalid|]. intros x y Hxy. exact Hxy.
Qed.

End crypto.
