(* ===== verification/ForkChoiceTree.v ===== *)
(** The picture of the fork choice that the node logs
    (crates/blockchain/src/fork_choice_tree.rs): the trunk of the live chain up to its
    first fork, then one line per branch, cut at a depth of 20. *)

From stdpp Require Import pretty.
From Stdlib Require Import Strings.Byte.
From S2P Require Import Prelude Types Keys ForkChoice.

Definition MAX_DISPLAY_DEPTH : nat := 20.

(** [{:02x}] of the first four bytes of a root. *)
Definition hex_digit (n : N) : string := default EmptyString (String.get (N.to_nat n) "0123456789abcdef" ≫= λ c, Some (String c EmptyString)).
Definition hex_byte (b : byte) : string := hex_digit (Byte.to_N b / 16) +:+ hex_digit (Byte.to_N b mod 16).
Definition short_root (r : H256) : string := String.concat "" (hex_byte <$> take 4 (H256_bytes r)).
Definition newline : string := String (Ascii.ascii_of_nat 10) EmptyString.

Definition show (n : u64) : string := pretty (u64_val n).
Definition show_node (r : H256) (slot : u64) : string := short_root r +:+ "(" +:+ show slot +:+ ")".

(** [render_gap] *)
Definition render_gap (output : string) (prev_slot : option u64) (slot : u64) (depth : nat) : string * nat :=
  match prev_slot with
  | None => (output, depth)
  | Some ps =>
      let gap := saturating_sub (saturating_sub slot ps) (to_u64 1) in
      if gap =? 1 then (output +:+ "[ ]── ", S depth)
      else if 1 <? gap then (output +:+ "[" +:+ show gap +:+ "]── ", S depth)
      else (output, depth)
  end.

(** [TreeRenderer] *)
Section renderer.
Context (blocks : BlockTree) (children_map : gmap H256 (list H256)) (weights : Weights) (head : H256).

Definition children_of (r : H256) : list H256 := default [] (children_map !! r).

Fixpoint render_trunk (fuel : nat) (output : string) (current : H256) (depth : nat) (prev_slot : option u64) :
    partial (string * H256 * nat) :=
  match fuel with
  | O => Diverge
  | S fuel =>
      node ← expect_some (blocks !! current);
      let slot := node.1 in
      let '(output, depth) := render_gap output prev_slot slot depth in
      let output := output +:+ show_node current slot in
      let depth := S depth in
      if (MAX_DISPLAY_DEPTH <=? depth)%nat then Return (output +:+ "── ...", current, depth)
      else
        match children_of current with
        | [child] => render_trunk fuel (output +:+ "── ") child depth (Some slot)
        | _ => Return (output, current, depth)
        end
  end.

(** One line per branch; [line] renders it. *)
Definition render_branches (line : string → H256 → string → string → nat → partial string)
    (output : string) (children : list H256) (prefix : string) (depth : nat) : partial string :=
  fold_partial (λ output (x : nat * H256),
      let is_last := bool_decide (x.1 = (length children - 1)%nat) in
      let connector := if is_last then "└── " else "├── " in
      let continuation := if is_last then "    " else "│   " in
      line (output +:+ prefix +:+ connector) x.2 prefix continuation depth)
    output (imap pair children).

Definition parent_slot (r : H256) : option u64 :=
  node ← blocks !! r;
  parent ← blocks !! node.2;
  Some parent.1.

Fixpoint branch_line (fuel : nat) (output : string) (current : H256) (prev_slot : option u64)
    (prefix continuation : string) (depth : nat) : partial string :=
  match fuel with
  | O => Diverge
  | S fuel =>
      node ← expect_some (blocks !! current);
      let slot := node.1 in
      let '(output, depth) := render_gap output prev_slot slot depth in
      let is_head := bool_decide (current = head) in
      let output := output +:+ show_node current slot in
      let depth := S depth in
      if (MAX_DISPLAY_DEPTH <=? depth)%nat then Return (output +:+ "── ..." +:+ newline)
      else
        let marker := if is_head then " *" else "" in
        match children_of current with
        | [] => Return (output +:+ marker +:+ "  [w:" +:+ show (weight_of weights current) +:+ "]" +:+ newline)
        | [only_child] =>
            branch_line fuel (output +:+ marker +:+ "── ") only_child (Some slot) prefix continuation depth
        | children =>
            render_branches (λ output child, branch_line fuel output child (parent_slot child))
              (output +:+ marker +:+ " ─ " +:+ pretty (length children) +:+ " branches" +:+ newline)
              children (prefix +:+ continuation) depth
        end
  end.

Definition render_branch_line (fuel : nat) (output : string) (start : H256) : string → string → nat → partial string :=
  branch_line fuel output start (parent_slot start).

End renderer.

(** Every step of a line increases the depth. *)
Definition render_fuel : nat := MAX_DISPLAY_DEPTH.

Section tree.
Context `{HO : HashOrder}.

(** [find_tree_root] *)
Definition is_tree_root (blocks : BlockTree) (entry : H256 * (u64 * H256)) : bool :=
  is_zero entry.2.2 || bool_decide (blocks !! entry.2.2 = None).
Definition find_tree_root (blocks : BlockTree) : partial H256 :=
  expect_some (lowest_block (filter (λ entry, is_tree_root blocks entry = true) (hash_iter blocks))).

Definition link_child (blocks : BlockTree) (children_map : gmap H256 (list H256)) (entry : H256 * (u64 * H256)) :
    gmap H256 (list H256) :=
  let '(root, (_, parent_root)) := entry in
  if negb (is_zero parent_root) && bool_decide (is_Some (blocks !! parent_root))
  then <[parent_root := default [] (children_map !! parent_root) ++ [root]]> children_map
  else children_map.

(** The order of siblings: the heavier first, on a tie the greater root. *)
Definition before (weights : Weights) (x y : H256) : Prop := heavier weights y x = true.
#[global] Instance before_dec weights : RelDecision (before weights).
Proof. intros x y. unfold before. apply _. Defined.

Definition sorted_children_map (blocks : BlockTree) (weights : Weights) : gmap H256 (list H256) :=
  merge_sort (before weights) <$> foldl (link_child blocks) ∅ (hash_iter blocks).

Definition format_fork_choice_tree (blocks : BlockTree) (weights : Weights) (head : H256)
    (justified finalized : Checkpoint) : partial string :=
  let output := "Fork Choice Tree:" +:+ newline +:+
    "  Finalized: slot " +:+ show (cp_slot finalized) +:+ " | root " +:+ short_root (cp_root finalized) +:+ newline +:+
    "  Justified: slot " +:+ show (cp_slot justified) +:+ " | root " +:+ short_root (cp_root justified) +:+ newline +:+
    "  Head:      slot " +:+ show (default (to_u64 0) (fst <$> blocks !! head)) +:+ " | root " +:+ short_root head +:+ newline in
  if bool_decide (blocks = ∅) then Return (output +:+ newline +:+ "  (empty)" +:+ newline)
  else
    let children_map := sorted_children_map blocks weights in
    tree_root ← find_tree_root blocks;
    trunk ← render_trunk blocks children_map render_fuel (output +:+ newline +:+ "  ") tree_root 0 None;
    let '(output, trunk_tip, trunk_depth) := trunk in
    let children := children_of children_map trunk_tip in
    if (1 <? length children)%nat then
      render_branches (render_branch_line blocks children_map weights head render_fuel)
        (output +:+ " ─ " +:+ pretty (length children) +:+ " branches" +:+ newline) children "  " trunk_depth
    else if bool_decide (trunk_tip = head) then Return (output +:+ " *" +:+ newline)
    else Return (output +:+ newline).

End tree.
