(* ===== verification/TreeTheorems.v ===== *)
(** The theorems about the logged picture: it is always produced, shows the children of a
    block in a fixed order, and does not depend on the iteration order of hash maps. *)

From S2P Require Import Prelude Types Reference Keys ForkChoice ForkChoiceTree.

(** * The order of siblings *)

Section before.
Context (weights : Weights).

#[local] Instance before_total : Total (before weights).
Proof.
  intros x y. unfold before. destruct (heavier weights y x) eqn:Hh; [by left|right]. by apply heavier_total.
Qed.

#[local] Instance before_trans : Transitive (before weights).
Proof. intros x y z Hxy Hyz. by apply (heavier_trans weights z y x). Qed.

#[local] Instance before_antisymm : AntiSymm (=) (before weights).
Proof.
  intros x y Hxy%heavier_spec Hyx%heavier_spec. apply (anti_symm h256_le); destruct Hxy as [|[]], Hyx as [|[]]; (done || lia).
Qed.

Lemma sorted_siblings l : Sorted (before weights) (merge_sort (before weights) l).
Proof. apply Sorted_merge_sort, _. Qed.

Lemma sorted_siblings_perm l k :
  l ≡ₚ k → merge_sort (before weights) l = merge_sort (before weights) k.
Proof.
  intros Hp. apply (Sorted_unique (before weights)); [apply sorted_siblings..|].
  by rewrite !merge_sort_Permutation.
Qed.
End before.

(** * Children and the root *)

(** The entry is a child of the live block [p]. *)
Definition linked (blocks : BlockTree) (p : H256) (entry : H256 * (u64 * H256)) : Prop :=
  entry.2.2 = p ∧ p ≠ H256_ZERO ∧ is_Some (blocks !! p).

#[local] Instance linked_dec blocks p entry : Decision (linked blocks p entry).
Proof. unfold linked. apply _. Defined.

Definition nonempty {A} (l : list A) : option (list A) := match l with [] => None | _ => Some l end.

Lemma link_children blocks entries p :
  foldl (link_child blocks) ∅ entries !! p = nonempty (filter (linked blocks p) entries).*1.
Proof.
  induction entries as [|[r [slot parent]] l IH] using rev_ind; [done|].
  rewrite foldl_app, filter_app, fmap_app. cbn [foldl]. set (m := foldl (link_child blocks) ∅ l) in *.
  unfold link_child, is_zero. rewrite filter_cons.
  case_bool_decide as Hz; cbn [negb andb].
  { rewrite decide_False by (intros (? & ? & _); cbn in *; congruence). by rewrite filter_nil, app_nil_r. }
  case_bool_decide as Hp.
  2: { rewrite decide_False by (intros (Heq & _ & Hs); cbn in *; congruence). by rewrite filter_nil, app_nil_r. }
  destruct (decide (parent = p)) as [->|Hne].
  - rewrite lookup_insert_eq, IH, decide_True by done. rewrite filter_nil. cbn.
    by destruct (filter (linked blocks p) l).*1.
  - rewrite lookup_insert_ne by done. rewrite decide_False by (intros (? & _); cbn in *; congruence).
    by rewrite filter_nil, app_nil_r.
Qed.

Section sorted_children.
Context `{HOL : HashOrderLaws} (blocks : BlockTree) (weights : Weights).

Lemma children_sorted p :
  children_of (sorted_children_map blocks weights) p =
    merge_sort (before weights) (filter (linked blocks p) (hash_iter blocks)).*1.
Proof.
  unfold children_of, sorted_children_map. rewrite lookup_fmap, link_children.
  by destruct (filter (linked blocks p) (hash_iter blocks)).*1.
Qed.

Lemma elem_of_children p c :
  c ∈ children_of (sorted_children_map blocks weights) p ↔
  p ≠ H256_ZERO ∧ is_Some (blocks !! p) ∧ ∃ slot, blocks !! c = Some (slot, p).
Proof.
  rewrite children_sorted, merge_sort_Permutation, list_elem_of_fmap. split.
  - intros ([r [slot parent]] & -> & [(Heq & Hz & Hp) Hin]%list_elem_of_filter). cbn in *. subst parent.
    apply elem_of_hash_iter in Hin. eauto.
  - intros (Hz & Hp & slot & Hc). exists (c, (slot, p)). split; [done|].
    apply list_elem_of_filter. by rewrite elem_of_hash_iter.
Qed.

(** The first entry of the least slot. *)
Lemma lowest_block_spec (l : list (H256 * (u64 * H256))) :
  match lowest_block l with
  | Some r => ∃ e, e ∈ l ∧ e.1 = r ∧ ∀ e', e' ∈ l → u64_val e.2.1 <= u64_val e'.2.1
  | None => l = []
  end.
Proof.
  unfold lowest_block. match goal with |- context [foldl ?f None l] => set (step := f) end.
  enough (match foldl step None l with
          | Some b => b ∈ l ∧ ∀ e', e' ∈ l → u64_val b.2.1 <= u64_val e'.2.1
          | None => l = []
          end) as Hl by (destruct (foldl step None l) as [b|]; [exists b; destruct Hl; by split_and!|done]).
  induction l as [|x l IH] using rev_ind; [done|]. rewrite foldl_app. cbn.
  destruct (foldl step None l) as [b|]; cbn.
  - destruct IH as [Hb Hmin]. destruct (N.ltb_spec x.2.1 b.2.1) as [Hlt|Hge]; split.
    + set_solver.
    + intros e' [He|He%list_elem_of_singleton]%elem_of_app; [pose proof (Hmin e' He); lia|subst; lia].
    + set_solver.
    + intros e' [He|He%list_elem_of_singleton]%elem_of_app; [by apply Hmin|subst; lia].
  - subst l. split; [set_solver|]. intros e' He%list_elem_of_singleton. subst. lia.
Qed.

Lemma elem_of_tree_roots e :
  e ∈ filter (λ entry, is_tree_root blocks entry = true) (hash_iter blocks) ↔
  blocks !! e.1 = Some e.2 ∧ (e.2.2 = H256_ZERO ∨ blocks !! e.2.2 = None).
Proof.
  destruct e as [r v]. rewrite list_elem_of_filter, elem_of_hash_iter. unfold is_tree_root, is_zero.
  rewrite orb_true_iff, !bool_decide_eq_true. cbn. naive_solver.
Qed.

(** A tree with increasing slots has a root: the lowest block has no live parent. *)
Lemma find_tree_root_returns :
  slots_increase blocks → blocks ≠ ∅ → ∃ r v, find_tree_root blocks = Return r ∧ blocks !! r = Some v.
Proof.
  intros Hinc Hne. unfold find_tree_root.
  set (roots := filter (λ entry, is_tree_root blocks entry = true) (hash_iter blocks)).
  pose proof (lowest_block_spec roots) as Hroots. destruct (lowest_block roots) as [r|].
  { destruct Hroots as (e & [He _]%elem_of_tree_roots & <- & _). by exists e.1, e.2. }
  exfalso. pose proof (lowest_block_spec (hash_iter blocks)) as Hlow.
  destruct (lowest_block (hash_iter blocks)) as [r|].
  - destruct Hlow as ([r' [slot parent]] & He & _ & Hmin). apply elem_of_hash_iter in He.
    assert (Hin : (r', (slot, parent)) ∈ roots).
    { apply elem_of_tree_roots. split; [done|]. right. cbn.
      destruct (blocks !! parent) as [[pslot pp]|] eqn:Hp; [|done].
      pose proof (Hinc _ _ _ _ _ He Hp) as Hlt.
      assert (Hpin : (parent, (pslot, pp)) ∈ hash_iter blocks) by (by apply elem_of_hash_iter).
      pose proof (Hmin _ Hpin) as Hge. cbn in Hge. lia. }
    rewrite Hroots in Hin. by apply not_elem_of_nil in Hin.
  - apply Hne. apply map_empty. intros k. destruct (blocks !! k) as [v|] eqn:Hk; [|done].
    apply (elem_of_hash_iter blocks k v) in Hk. rewrite Hlow in Hk. by apply not_elem_of_nil in Hk.
Qed.
End sorted_children.

(** * Rendering ends *)

Section render.
Context (blocks : BlockTree) (children_map : gmap H256 (list H256)) (weights : Weights) (head : H256).
Context (Hchildren : ∀ p c, c ∈ children_of children_map p → is_Some (blocks !! c)).

Lemma render_gap_depth output prev_slot slot depth :
  ∃ text depth', render_gap output prev_slot slot depth = (text, depth') ∧ (depth <= depth')%nat.
Proof.
  unfold render_gap. destruct prev_slot as [ps|]; [|by eauto].
  destruct (_ =? 1); [eauto with lia|]. destruct (1 <? _); eauto with lia.
Qed.

Lemma render_trunk_returns fuel output current depth prev_slot :
  is_Some (blocks !! current) → (0 < fuel)%nat → (MAX_DISPLAY_DEPTH <= fuel + depth)%nat →
  ∃ text tip depth', render_trunk blocks children_map fuel output current depth prev_slot = Return (text, tip, depth') ∧
    is_Some (blocks !! tip).
Proof.
  revert output current depth prev_slot. induction fuel as [|fuel IH]; intros output current depth prev_slot Hcur Hpos Hfuel; [lia|].
  cbn [render_trunk]. destruct Hcur as [[slot parent] Hcur]. rewrite Hcur. cbn [expect_some mbind partial_bind fst].
  destruct (render_gap_depth output prev_slot slot depth) as (text & depth' & -> & Hd).
  destruct (Nat.leb_spec MAX_DISPLAY_DEPTH (S depth')) as [|Hlt]; [by eauto 10|].
  pose proof (Hchildren current) as Hc. destruct (children_of children_map current) as [|c [|]]; [by eauto 10| |by eauto 10].
  apply IH; [apply Hc; set_solver|lia..].
Qed.

Lemma fold_partial_returns {A A'} (f : A' → A → partial A') (l : list A) x :
  (∀ y a, a ∈ l → ∃ y', f y a = Return y') → ∃ y, fold_partial f x l = Return y.
Proof.
  revert x. induction l as [|a l IH]; intros x Hf; [by eexists|]. cbn.
  destruct (Hf x a) as [y ->]; [by left|]. cbn. apply IH. intros y' b Hb. apply Hf. by right.
Qed.

Lemma render_branches_returns line output children prefix depth :
  (∀ output c prefix continuation, c ∈ children → ∃ text, line output c prefix continuation depth = Return text) →
  ∃ text, render_branches line output children prefix depth = Return text.
Proof.
  intros Hline. unfold render_branches. apply fold_partial_returns.
  intros y [i c] (i' & c' & [= -> ->] & Hc)%elem_of_lookup_imap_1. apply Hline. by eapply list_elem_of_lookup_2.
Qed.

Lemma branch_line_returns fuel output current prev_slot prefix continuation depth :
  is_Some (blocks !! current) → (0 < fuel)%nat → (MAX_DISPLAY_DEPTH <= fuel + depth)%nat →
  ∃ text, branch_line blocks children_map weights head fuel output current prev_slot prefix continuation depth = Return text.
Proof.
  revert output current prev_slot prefix continuation depth.
  induction fuel as [|fuel IH]; intros output current prev_slot prefix continuation depth Hcur Hpos Hfuel; [lia|].
  cbn [branch_line]. destruct Hcur as [[slot parent] Hcur]. rewrite Hcur. cbn [expect_some mbind partial_bind fst].
  destruct (render_gap_depth output prev_slot slot depth) as (text & depth' & -> & Hd).
  destruct (Nat.leb_spec MAX_DISPLAY_DEPTH (S depth')) as [|Hlt]; [by eauto|].
  pose proof (Hchildren current) as Hc. destruct (children_of children_map current) as [|c [|c' l]]; [by eauto| |].
  - apply IH; [apply Hc; set_solver|lia..].
  - apply render_branches_returns. intros output' c0 prefix' continuation' Hin. apply IH; [by apply Hc|lia..].
Qed.
End render.

Section theorems.
Context `{HOL : HashOrderLaws}.

Lemma children_known blocks weights p c :
  c ∈ children_of (sorted_children_map blocks weights) p → is_Some (blocks !! c).
Proof. intros (_ & _ & slot & Hc)%elem_of_children. by eexists. Qed.

Lemma format_returns blocks weights head justified finalized :
  slots_increase blocks → ∃ text, format_fork_choice_tree blocks weights head justified finalized = Return text.
Proof.
  intros Hinc. unfold format_fork_choice_tree. case_bool_decide as Hne; [by eexists|].
  destruct (find_tree_root_returns blocks Hinc Hne) as (r & v & -> & Hr). cbn [mbind partial_bind].
  match goal with |- context [render_trunk _ _ _ ?out _ _ _] =>
    destruct (render_trunk_returns blocks (sorted_children_map blocks weights) (children_known blocks weights)
      render_fuel out r 0 None) as (text & tip & depth & -> & Htip); [by eexists|unfold render_fuel, MAX_DISPLAY_DEPTH; lia..|] end.
  cbn [mbind partial_bind]. destruct (1 <? _)%nat; [|case_bool_decide; by eexists].
  apply render_branches_returns. intros output c prefix continuation Hc. unfold render_branch_line.
  apply branch_line_returns; [by apply children_known|by eapply children_known|unfold render_fuel, MAX_DISPLAY_DEPTH; lia..].
Qed.

(** C37. The picture is always produced: on any block tree whose slots increase from parent to
    child (as those of the live chain do) rendering ends without a panic, whatever the
    weights and the head; the children of every block are exactly its live children, the
    heavier first and the greater root first on a tie. *)
Theorem format_fork_choice_tree_total blocks weights head justified finalized :
  slots_increase blocks →
  (∃ text, format_fork_choice_tree blocks weights head justified finalized = Return text) ∧
  ∀ p, Sorted (before weights) (children_of (sorted_children_map blocks weights) p) ∧
    ∀ c, c ∈ children_of (sorted_children_map blocks weights) p ↔
      p ≠ H256_ZERO ∧ is_Some (blocks !! p) ∧ ∃ slot, blocks !! c = Some (slot, p).
Proof.
  intros Hinc. split; [by apply format_returns|]. intros p. split; [|intros c; apply elem_of_children].
  rewrite children_sorted. apply sorted_siblings.
Qed.

End theorems.

(** Two blocks without a live parent at the same slot. *)
Definition tied_roots (blocks : BlockTree) : Prop :=
  ∃ (r1 r2 p1 p2 : H256) (slot : u64), r1 ≠ r2 ∧ blocks !! r1 = Some (slot, p1) ∧ blocks !! r2 = Some (slot, p2) ∧
    (p1 = H256_ZERO ∨ blocks !! p1 = None) ∧ (p2 = H256_ZERO ∨ blocks !! p2 = None).

Lemma sorted_children_map_order (O1 O2 : HashOrder) blocks weights :
  @HashOrderLaws O1 → @HashOrderLaws O2 →
  @sorted_children_map O1 blocks weights = @sorted_children_map O2 blocks weights.
Proof.
  intros L1 L2. unfold sorted_children_map. apply map_eq. intros p. rewrite !lookup_fmap, !link_children.
  assert (Hp : (filter (linked blocks p) (@hash_iter O1 _ _ _ _ blocks)).*1 ≡ₚ
    (filter (linked blocks p) (@hash_iter O2 _ _ _ _ blocks)).*1) by (by rewrite !hash_iter_perm).
  pose proof (sorted_siblings_perm weights _ _ Hp) as Hs.
  destruct (filter _ (@hash_iter O1 _ _ _ _ blocks)).*1 as [|x l], (filter _ (@hash_iter O2 _ _ _ _ blocks)).*1 as [|y k].
  - done.
  - by apply Permutation_nil_cons in Hp.
  - symmetry in Hp. by apply Permutation_nil_cons in Hp.
  - cbn [nonempty fmap option_fmap option_map]. by rewrite Hs.
Qed.

Lemma find_tree_root_order (O1 O2 : HashOrder) blocks :
  @HashOrderLaws O1 → @HashOrderLaws O2 → ¬ tied_roots blocks →
  @find_tree_root O1 blocks = @find_tree_root O2 blocks.
Proof.
  intros L1 L2 Htied. unfold find_tree_root.
  pose proof (@elem_of_tree_roots O1 L1 blocks) as H1'. pose proof (@elem_of_tree_roots O2 L2 blocks) as H2'.
  set (l1 := filter _ (@hash_iter O1 _ _ _ _ blocks)) in *. set (l2 := filter _ (@hash_iter O2 _ _ _ _ blocks)) in *.
  assert (Hp : ∀ e, e ∈ l1 ↔ e ∈ l2) by (intros e; by rewrite H1', H2').
  pose proof (lowest_block_spec l1) as Hl1. pose proof (lowest_block_spec l2) as Hl2.
  destruct (lowest_block l1) as [x|], (lowest_block l2) as [y|]; [| | |done].
  - f_equal. f_equal. destruct Hl1 as (e1 & He1 & <- & Hmin1), Hl2 as (e2 & He2 & <- & Hmin2).
    destruct (decide (e1.1 = e2.1)) as [|Hne]; [done|]. exfalso. apply Htied.
    pose proof (Hmin1 _ (proj2 (Hp _) He2)) as Hle1. pose proof (Hmin2 _ (proj1 (Hp _) He1)) as Hle2.
    apply H1' in He1 as [Hb1 Hr1]. apply H2' in He2 as [Hb2 Hr2].
    destruct e1 as [r1 [s1 p1]], e2 as [r2 [s2 p2]]. cbn in *.
    assert (s1 = s2) as -> by (apply u64_eq; lia). by exists r1, r2, p1, p2, s2.
  - destruct Hl1 as (e & He%Hp & _). subst l2. rewrite Hl2 in He. by apply not_elem_of_nil in He.
  - destruct Hl2 as (e & He%Hp & _). rewrite Hl1 in He. by apply not_elem_of_nil in He.
Qed.

(** The picture does not depend on the iteration order of the hash maps, except when two
    blocks without a live parent share a slot. *)
Theorem format_fork_choice_tree_deterministic (O1 O2 : HashOrder) blocks weights head justified finalized :
  @HashOrderLaws O1 → @HashOrderLaws O2 → ¬ tied_roots blocks →
  @format_fork_choice_tree O1 blocks weights head justified finalized =
    @format_fork_choice_tree O2 blocks weights head justified finalized.
Proof.
  intros L1 L2 Htied. unfold format_fork_choice_tree.
  by rewrite (sorted_children_map_order O1 O2), (find_tree_root_order O1 O2).
Qed.

(** * The picture of a fork *)

Module Picture.

#[local] Existing Instances canonical_order canonical_order_laws.

Definition weights : Weights := {[ h256 2 := to_u64 3; h256 3 := to_u64 2; h256 4 := to_u64 1 ]}.
Definition checkpoint : Checkpoint := mk_checkpoint (h256 1) (to_u64 0).

(** The last characters of the picture: the line of the lighter branch. *)
Example last_branch :
  match format_fork_choice_tree Fork.tree weights (h256 3) checkpoint checkpoint with
  | Return text => String.substring (String.length text - 29) 28 text = "└── 00000000(2)  [w:1]"%string
  | _ => False
  end.
Proof. by vm_compute. Qed.

Lemma one_root : ¬ tied_roots Fork.tree.
Proof.
  assert (Hall : map_Forall (λ r v, implb (is_tree_root Fork.tree (r, v)) (bool_decide (r = h256 1)) = true) Fork.tree)
    by (apply (bool_decide_unpack _); by vm_compute).
  assert (Hroot : ∀ r v, Fork.tree !! r = Some v → v.2 = H256_ZERO ∨ Fork.tree !! v.2 = None → r = h256 1).
  { intros r v Hr Hv. specialize (Hall r v Hr). cbn beta in Hall.
    assert (is_tree_root Fork.tree (r, v) = true) as Ht
      by (unfold is_tree_root, is_zero; by rewrite orb_true_iff, !bool_decide_eq_true).
    rewrite Ht in Hall. by apply bool_decide_eq_true in Hall. }
  intros (r1 & r2 & p1 & p2 & slot & Hne & H1 & H2 & Hp1 & Hp2). apply Hne.
  by rewrite (Hroot r1 _ H1 Hp1), (Hroot r2 _ H2 Hp2).
Qed.

Lemma format_fork_choice_tree_total_witness :
  ∃ text, format_fork_choice_tree Fork.tree weights (h256 3) checkpoint checkpoint = Return text.
Proof.
  exact (proj1 (format_fork_choice_tree_total Fork.tree weights (h256 3) checkpoint checkpoint Fork.tree_slots)).
Defined.

Lemma format_fork_choice_tree_deterministic_witness :
  @format_fork_choice_tree canonical_order Fork.tree weights (h256 3) checkpoint checkpoint =
    @format_fork_choice_tree reversed_order Fork.tree weights (h256 3) checkpoint checkpoint.
Proof.
  apply (format_fork_choice_tree_deterministic canonical_order reversed_order Fork.tree weights (h256 3) checkpoint checkpoint
    canonical_order_laws reversed_order_laws one_root).
Defined.

End Picture.
