(* ===== verification/StoreSpec.v ===== *)
(** The abstract store: typed maps in place of byte tables. The operations of the store
    refine the obvious operations on it. *)

From S2P Require Import Prelude Types Backend Keys Signatures PayloadBuffer Store.

(** * The abstract store *)

Record View := mk_view {
  vw_time : u64;
  vw_config : ChainConfig;
  vw_head : H256;
  vw_safe_target : H256;
  vw_justified : Checkpoint;
  vw_finalized : Checkpoint;
  vw_headers : gmap H256 BlockHeader;
  vw_bodies : gmap H256 BlockBody;
  vw_signatures : gmap H256 BlockSignaturesWithAttestation;
  vw_states : gmap H256 State;
  vw_gossip : gmap SignatureKey StoredSignature;
  vw_data : gmap H256 AttestationData;
  vw_live : gmap (u64 * H256) H256;
  vw_new : PayloadBuffer;
  vw_known : PayloadBuffer;
  vw_count : u64;
}.

Definition vset_time (x : u64) (a : View) : View :=
  mk_view x (vw_config a) (vw_head a) (vw_safe_target a) (vw_justified a) (vw_finalized a)
    (vw_headers a) (vw_bodies a) (vw_signatures a) (vw_states a) (vw_gossip a) (vw_data a)
    (vw_live a) (vw_new a) (vw_known a) (vw_count a).
Definition vset_head (x : H256) (a : View) : View :=
  mk_view (vw_time a) (vw_config a) x (vw_safe_target a) (vw_justified a) (vw_finalized a)
    (vw_headers a) (vw_bodies a) (vw_signatures a) (vw_states a) (vw_gossip a) (vw_data a)
    (vw_live a) (vw_new a) (vw_known a) (vw_count a).
Definition vset_safe_target (x : H256) (a : View) : View :=
  mk_view (vw_time a) (vw_config a) (vw_head a) x (vw_justified a) (vw_finalized a)
    (vw_headers a) (vw_bodies a) (vw_signatures a) (vw_states a) (vw_gossip a) (vw_data a)
    (vw_live a) (vw_new a) (vw_known a) (vw_count a).
Definition vset_justified (x : Checkpoint) (a : View) : View :=
  mk_view (vw_time a) (vw_config a) (vw_head a) (vw_safe_target a) x (vw_finalized a)
    (vw_headers a) (vw_bodies a) (vw_signatures a) (vw_states a) (vw_gossip a) (vw_data a)
    (vw_live a) (vw_new a) (vw_known a) (vw_count a).
Definition vset_finalized (x : Checkpoint) (a : View) : View :=
  mk_view (vw_time a) (vw_config a) (vw_head a) (vw_safe_target a) (vw_justified a) x
    (vw_headers a) (vw_bodies a) (vw_signatures a) (vw_states a) (vw_gossip a) (vw_data a)
    (vw_live a) (vw_new a) (vw_known a) (vw_count a).
Definition vset_headers (x : gmap H256 BlockHeader) (a : View) : View :=
  mk_view (vw_time a) (vw_config a) (vw_head a) (vw_safe_target a) (vw_justified a)
    (vw_finalized a) x (vw_bodies a) (vw_signatures a) (vw_states a) (vw_gossip a) (vw_data a)
    (vw_live a) (vw_new a) (vw_known a) (vw_count a).
Definition vset_bodies (x : gmap H256 BlockBody) (a : View) : View :=
  mk_view (vw_time a) (vw_config a) (vw_head a) (vw_safe_target a) (vw_justified a)
    (vw_finalized a) (vw_headers a) x (vw_signatures a) (vw_states a) (vw_gossip a) (vw_data a)
    (vw_live a) (vw_new a) (vw_known a) (vw_count a).
Definition vset_signatures (x : gmap H256 BlockSignaturesWithAttestation) (a : View) : View :=
  mk_view (vw_time a) (vw_config a) (vw_head a) (vw_safe_target a) (vw_justified a)
    (vw_finalized a) (vw_headers a) (vw_bodies a) x (vw_states a) (vw_gossip a) (vw_data a)
    (vw_live a) (vw_new a) (vw_known a) (vw_count a).
Definition vset_states (x : gmap H256 State) (a : View) : View :=
  mk_view (vw_time a) (vw_config a) (vw_head a) (vw_safe_target a) (vw_justified a)
    (vw_finalized a) (vw_headers a) (vw_bodies a) (vw_signatures a) x (vw_gossip a) (vw_data a)
    (vw_live a) (vw_new a) (vw_known a) (vw_count a).
Definition vset_gossip (x : gmap SignatureKey StoredSignature) (a : View) : View :=
  mk_view (vw_time a) (vw_config a) (vw_head a) (vw_safe_target a) (vw_justified a)
    (vw_finalized a) (vw_headers a) (vw_bodies a) (vw_signatures a) (vw_states a) x (vw_data a)
    (vw_live a) (vw_new a) (vw_known a) (vw_count a).
Definition vset_data (x : gmap H256 AttestationData) (a : View) : View :=
  mk_view (vw_time a) (vw_config a) (vw_head a) (vw_safe_target a) (vw_justified a)
    (vw_finalized a) (vw_headers a) (vw_bodies a) (vw_signatures a) (vw_states a) (vw_gossip a)
    x (vw_live a) (vw_new a) (vw_known a) (vw_count a).
Definition vset_live (x : gmap (u64 * H256) H256) (a : View) : View :=
  mk_view (vw_time a) (vw_config a) (vw_head a) (vw_safe_target a) (vw_justified a)
    (vw_finalized a) (vw_headers a) (vw_bodies a) (vw_signatures a) (vw_states a) (vw_gossip a)
    (vw_data a) x (vw_new a) (vw_known a) (vw_count a).
Definition vset_new (x : PayloadBuffer) (a : View) : View :=
  mk_view (vw_time a) (vw_config a) (vw_head a) (vw_safe_target a) (vw_justified a)
    (vw_finalized a) (vw_headers a) (vw_bodies a) (vw_signatures a) (vw_states a) (vw_gossip a)
    (vw_data a) (vw_live a) x (vw_known a) (vw_count a).
Definition vset_known (x : PayloadBuffer) (a : View) : View :=
  mk_view (vw_time a) (vw_config a) (vw_head a) (vw_safe_target a) (vw_justified a)
    (vw_finalized a) (vw_headers a) (vw_bodies a) (vw_signatures a) (vw_states a) (vw_gossip a)
    (vw_data a) (vw_live a) (vw_new a) x (vw_count a).
Definition vset_count (x : u64) (a : View) : View :=
  mk_view (vw_time a) (vw_config a) (vw_head a) (vw_safe_target a) (vw_justified a)
    (vw_finalized a) (vw_headers a) (vw_bodies a) (vw_signatures a) (vw_states a) (vw_gossip a)
    (vw_data a) (vw_live a) (vw_new a) (vw_known a) x.

(** A typed map as the bytes of a table. *)
Definition encoded `{Countable K} {V} (fk : K → bytes) (fv : V → bytes) (m : gmap K V) : gmap bytes bytes :=
  kmap fk (fv <$> m).

Section encoded.
Context `{Countable K} {V : Type} (fk : K → bytes) (fv : V → bytes) `{!Inj (=) (=) fk}.
Implicit Types m : gmap K V.

Lemma lookup_encoded m k : encoded fk fv m !! fk k = fv <$> m !! k.
Proof. unfold encoded. by rewrite lookup_kmap, lookup_fmap. Qed.

Lemma lookup_encoded_Some m kb vb :
  encoded fk fv m !! kb = Some vb ↔ ∃ k v, kb = fk k ∧ vb = fv v ∧ m !! k = Some v.
Proof.
  unfold encoded. rewrite lookup_kmap_Some by done. split.
  - intros (k & -> & Hk). rewrite lookup_fmap in Hk. destruct (m !! k) as [v|] eqn:Hv; [|done].
    injection Hk as <-. eauto.
  - intros (k & v & -> & -> & Hk). exists k. by rewrite lookup_fmap, Hk.
Qed.

Lemma insert_encoded m k v : <[fk k := fv v]> (encoded fk fv m) = encoded fk fv (<[k := v]> m).
Proof. unfold encoded. by rewrite fmap_insert, kmap_insert. Qed.

Lemma put_all_encoded (entries : list (K * V)) m :
  put_all ((λ kv, (fk kv.1, fv kv.2)) <$> entries) (encoded fk fv m) =
  encoded fk fv (foldl (λ m kv, <[kv.1 := kv.2]> m) m entries).
Proof.
  revert m. induction entries as [|[k v] entries IH]; intros m; cbn; [done|].
  rewrite insert_encoded. apply IH.
Qed.

Lemma delete_encoded m k : delete (fk k) (encoded fk fv m) = encoded fk fv (delete k m).
Proof. unfold encoded. by rewrite fmap_delete, kmap_delete. Qed.

Lemma delete_all_encoded (keys : list K) m :
  delete_all (fk <$> keys) (encoded fk fv m) = encoded fk fv (foldl (λ m k, delete k m) m keys).
Proof.
  revert m. induction keys as [|k keys IH]; intros m; cbn; [done|]. rewrite delete_encoded. apply IH.
Qed.

Lemma size_encoded m : size (encoded fk fv m) = size m.
Proof.
  unfold encoded. rewrite <- (map_size_fmap fv m), <- !length_map_to_list.
  by rewrite map_to_list_kmap, length_fmap.
Qed.

End encoded.

(** Deleting a set of keys. *)
Lemma foldl_delete_lookup `{Countable K} {V} (keys : list K) (m : gmap K V) k v :
  foldl (λ m k, delete k m) m keys !! k = Some v ↔ m !! k = Some v ∧ k ∉ keys.
Proof.
  revert m. induction keys as [|k' keys IH]; intros m; cbn; [set_solver|].
  rewrite IH, lookup_delete_Some. set_solver.
Qed.

Definition sig_key_bytes `{CO : Codecs} (k : SignatureKey) : bytes := encode_signature_key k.
Definition live_key_bytes (k : u64 * H256) : bytes := encode_live_chain_key k.1 k.2.

#[global] Instance live_key_bytes_inj : Inj (=) (=) live_key_bytes.
Proof.
  intros [s1 r1] [s2 r2] Heq. unfold live_key_bytes in Heq. cbn [fst snd] in Heq.
  by destruct (encode_live_chain_key_inj _ _ _ _ Heq) as [-> ->].
Qed.

Lemma live_key_decodes k : decode_live_chain_key (live_key_bytes k) = Return k.
Proof. destruct k as [slot r]. apply live_chain_key_decodes. Qed.

(** The metadata table. *)
Record metadata_is `{CO : Codecs} (m : gmap bytes bytes) (a : View) : Prop := {
  md_time : m !! KEY_TIME = Some (as_ssz_bytes (vw_time a));
  md_config : m !! KEY_CONFIG = Some (as_ssz_bytes (vw_config a));
  md_head : m !! KEY_HEAD = Some (as_ssz_bytes (vw_head a));
  md_safe_target : m !! KEY_SAFE_TARGET = Some (as_ssz_bytes (vw_safe_target a));
  md_justified : m !! KEY_LATEST_JUSTIFIED = Some (as_ssz_bytes (vw_justified a));
  md_finalized : m !! KEY_LATEST_FINALIZED = Some (as_ssz_bytes (vw_finalized a));
}.

Section represents.
Context `{SL : StorageLaws D B} `{CO : Codecs} `{HS : Hashing} `{SC : SignatureScheme}.

(** [s] holds exactly the data of [a]. *)
Record represents (s : Store D) (a : View) : Prop := {
  rep_ok : db_ok (s_backend s);
  rep_metadata : metadata_is (contents (s_backend s) Metadata) a;
  rep_headers : contents (s_backend s) BlockHeaders = encoded as_ssz_bytes as_ssz_bytes (vw_headers a);
  rep_bodies : contents (s_backend s) BlockBodies = encoded as_ssz_bytes as_ssz_bytes (vw_bodies a);
  rep_signatures :
    contents (s_backend s) BlockSignatures_ = encoded as_ssz_bytes as_ssz_bytes (vw_signatures a);
  rep_states : contents (s_backend s) States = encoded as_ssz_bytes as_ssz_bytes (vw_states a);
  rep_gossip : contents (s_backend s) GossipSignatures = encoded sig_key_bytes as_ssz_bytes (vw_gossip a);
  rep_data : contents (s_backend s) AttestationDataByRoot = encoded as_ssz_bytes as_ssz_bytes (vw_data a);
  rep_live : contents (s_backend s) LiveChain = encoded live_key_bytes as_ssz_bytes (vw_live a);
  rep_new : s_new_payloads s = vw_new a;
  rep_known : s_known_payloads s = vw_known a;
  rep_count : s_gossip_signatures_count s = vw_count a;
}.

Context {CL : CodecsLaws}.

#[global] Instance sig_key_bytes_inj : Inj (=) (=) sig_key_bytes.
Proof.
  intros k1 k2 Heq. apply (f_equal decode_signature_key) in Heq. unfold sig_key_bytes in Heq.
  rewrite !signature_key_decodes in Heq by apply ssz_u64_width. by injection Heq.
Qed.

(** ** Writing and reading *)

Lemma run_write {E} ws (s : Store D) :
  db_ok (s_backend s) →
  ∃ d', (write ws : M (Store D) E unit) s = Done (set_backend d' s) tt ∧ db_ok d' ∧
    ∀ t, contents d' t = foldl (write_table t) (contents (s_backend s) t) ws.
Proof.
  intros Hok. destruct (commit_writes_spec ws (s_backend s) Hok) as (d' & Hrun & Hok' & Hc).
  exists d'. split_and!; [|done..]. unfold write. run. by rewrite Hrun.
Qed.

Lemma table_entries_spec d t :
  db_ok d → ∃ l, table_entries d t = Return l ∧ NoDup l.*1 ∧
    ∀ k v, (k, v) ∈ l ↔ contents d t !! k = Some v.
Proof.
  intros Hok. destruct (prefix_iterator_spec d t [] Hok) as (l & Hrun & Hnd & Hl).
  exists l. unfold table_entries. rewrite Hrun. cbn [mbind partial_bind]. split_and!; [|done|].
  - f_equal. clear. induction l as [|kv l IH]; [done|]. cbn. f_equal. apply IH.
  - intros k v. rewrite Hl. split; [by intros []|]. split; [done|apply prefix_nil].
Qed.

Lemma decode_encoded {A} `{SszLaws A} (x : A) : decode_or_panic (as_ssz_bytes x) = Return x.
Proof. unfold decode_or_panic. by rewrite ssz_roundtrip. Qed.

Lemma view_get_encoded {V} `{SszLaws V} d t (m : gmap H256 V) r :
  db_ok d → contents d t = encoded as_ssz_bytes as_ssz_bytes m →
  view_get d t (as_ssz_bytes r) = Return (as_ssz_bytes <$> m !! r).
Proof. intros Hok Hc. rewrite view_get_spec, Hc by done. f_equal. by apply lookup_encoded, _. Qed.

(** [m] run on [s] returns [x] and leaves a store that holds [a]. *)
Definition implements {E A} (m : M (Store D) E A) (s : Store D) (x : A) (a : View) : Prop :=
  ∃ s', m s = Done s' x ∧ represents s' a.

Lemma implements_bind {E A A'} (m : M (Store D) E A) (k : A → M (Store D) E A') s x a y a' :
  implements m s x a → (∀ s', represents s' a → implements (k x) s' y a') →
  implements (m ≫= k) s y a'.
Proof.
  intros (s1 & Hm & Hr) Hk. destruct (Hk s1 Hr) as (s2 & Hk2 & Hr2).
  exists s2. by rewrite run_bind, Hm.
Qed.

Lemma implements_ret {E A} (x : A) s a : represents s a → implements (mret x : M (Store D) E A) s x a.
Proof. intros Hr. by exists s. Qed.

Lemma implements_reads {E A} (f : Store D → partial A) s x a :
  represents s a → f s = Return x → implements (reads f : M (Store D) E A) s x a.
Proof. intros Hr Hf. exists s. by rewrite run_reads, Hf. Qed.

Lemma implements_lift {E A} (p : partial A) s x a :
  represents s a → p = Return x → implements (lift_partial p : M (Store D) E A) s x a.
Proof. intros Hr Hf. exists s. by rewrite run_lift_partial, Hf. Qed.

Lemma implements_modify {E} f s a :
  represents (f s) a → implements (modify f : M (Store D) E unit) s tt a.
Proof. intros Hr. by exists (f s). Qed.

(** The contents of the tables after a sequence of writes. *)
Lemma implements_write {E} ws s a a' :
  represents s a →
  (∀ d', db_ok d' → (∀ t, contents d' t = foldl (write_table t) (contents (s_backend s) t) ws) →
    represents (set_backend d' s) a') →
  implements (write ws : M (Store D) E unit) s tt a'.
Proof.
  intros Hr Hw. destruct (run_write (E := E) ws s (rep_ok _ _ Hr)) as (d' & Hrun & Hok & Hc).
  exists (set_backend d' s). split; [done|by apply Hw].
Qed.

End represents.

(** Reduce the contents of a table after the writes of a batch. *)
Ltac on_tables :=
  unfold on_table; repeat first [rewrite decide_True by done|rewrite decide_False by done].
Ltac tables Hc := rewrite Hc; cbn [foldl write_table app]; on_tables.

(** Distinct metadata keys. *)
Ltac distinct_keys := let H := fresh in intros H; vm_compute in H; discriminate H.

(** A write that leaves metadata alone. *)
Ltac data_write Hr :=
  eapply implements_write; [exact Hr|]; let d := fresh "d" in let Hc := fresh "Hc" in
  intros d ? Hc; split; cbn; try done; try (tables Hc); try solve [apply Hr];
  try solve [destruct (rep_metadata _ _ Hr); split; assumption].

Section data_ops.
Context `{SL : StorageLaws D B} `{CO : Codecs} {CL : CodecsLaws} `{HS : Hashing} `{SC : SignatureScheme}.
Context {E : Type}.
Implicit Types (s : Store D) (a : View).

Lemma insert_state_refines s a root state :
  represents s a →
  implements (insert_state root state : M (Store D) E unit) s tt
    (vset_states (<[root := state]> (vw_states a)) a).
Proof.
  intros Hr. unfold insert_state. data_write Hr. rewrite (rep_states _ _ Hr). by apply insert_encoded, _.
Qed.

Lemma insert_attestation_data_refines s a root data :
  represents s a →
  implements (insert_attestation_data_by_root root data : M (Store D) E unit) s tt
    (vset_data (<[root := data]> (vw_data a)) a).
Proof.
  intros Hr. unfold insert_attestation_data_by_root. data_write Hr. rewrite (rep_data _ _ Hr).
  by apply insert_encoded, _.
Qed.

End data_ops.
