(* ===== verification/StoreOps.v ===== *)
(** The operations of the fork-choice store on a store that holds a view: what they
    read, and the view they leave. *)

From S2P Require Import Prelude Types Backend Keys Signatures PayloadBuffer Store StoreSpec.

Section reads.
Context `{SL : StorageLaws D B} `{CO : Codecs} {CL : CodecsLaws} `{HS : Hashing} `{SC : SignatureScheme}.
Implicit Types (s : Store D) (a : View).

Lemma get_metadata_refines {A} `{SszLaws A} (key : bytes) (x : A) s a :
  represents s a → contents (s_backend s) Metadata !! key = Some (as_ssz_bytes x) →
  get_metadata key s = Return x.
Proof.
  intros Hr Hk. unfold get_metadata. rewrite view_get_spec by apply Hr. cbn [mbind partial_bind].
  rewrite Hk. cbn [expect_some mbind partial_bind]. apply decode_encoded.
Qed.

Lemma store_time_refines s a : represents s a → store_time s = Return (vw_time a).
Proof. intros Hr. apply (get_metadata_refines _ _ _ _ Hr), Hr. Qed.
Lemma store_config_refines s a : represents s a → store_config s = Return (vw_config a).
Proof. intros Hr. apply (get_metadata_refines _ _ _ _ Hr), Hr. Qed.
Lemma store_head_refines s a : represents s a → store_head s = Return (vw_head a).
Proof. intros Hr. apply (get_metadata_refines _ _ _ _ Hr), Hr. Qed.
Lemma safe_target_refines s a : represents s a → safe_target s = Return (vw_safe_target a).
Proof. intros Hr. apply (get_metadata_refines _ _ _ _ Hr), Hr. Qed.
Lemma latest_justified_refines s a : represents s a → latest_justified s = Return (vw_justified a).
Proof. intros Hr. apply (get_metadata_refines _ _ _ _ Hr), Hr. Qed.
Lemma latest_finalized_refines s a : represents s a → latest_finalized s = Return (vw_finalized a).
Proof. intros Hr. apply (get_metadata_refines _ _ _ _ Hr), Hr. Qed.

Lemma get_state_refines s a root : represents s a → get_state root s = Return (vw_states a !! root).
Proof.
  intros Hr. unfold get_state. rewrite (view_get_encoded _ _ _ _ (rep_ok _ _ Hr) (rep_states _ _ Hr)).
  cbn [mbind partial_bind]. destruct (vw_states a !! root); cbn [fmap option_fmap option_map]; [|done].
  by rewrite decode_encoded.
Qed.

Lemma has_state_refines s a root :
  represents s a → has_state root s = Return (bool_decide (is_Some (vw_states a !! root))).
Proof.
  intros Hr. unfold has_state. rewrite (view_get_encoded _ _ _ _ (rep_ok _ _ Hr) (rep_states _ _ Hr)).
  cbn [mbind partial_bind]. f_equal. apply bool_decide_ext. by rewrite fmap_is_Some.
Qed.

Lemma get_block_header_refines s a root :
  represents s a → get_block_header root s = Return (vw_headers a !! root).
Proof.
  intros Hr. unfold get_block_header. rewrite (view_get_encoded _ _ _ _ (rep_ok _ _ Hr) (rep_headers _ _ Hr)).
  cbn [mbind partial_bind]. destruct (vw_headers a !! root); cbn [fmap option_fmap option_map]; [|done].
  by rewrite decode_encoded.
Qed.

Lemma get_attestation_data_refines s a root :
  represents s a → get_attestation_data_by_root root s = Return (vw_data a !! root).
Proof.
  intros Hr. unfold get_attestation_data_by_root.
  rewrite (view_get_encoded _ _ _ _ (rep_ok _ _ Hr) (rep_data _ _ Hr)).
  cbn [mbind partial_bind]. destruct (vw_data a !! root); cbn [fmap option_fmap option_map]; [|done].
  by rewrite decode_encoded.
Qed.

Lemma head_state_refines s a state :
  represents s a → vw_states a !! vw_head a = Some state → head_state s = Return state.
Proof.
  intros Hr Hs. unfold head_state. rewrite (store_head_refines s a Hr). cbn [mbind partial_bind].
  by rewrite (get_state_refines s a _ Hr), Hs.
Qed.

Lemma head_slot_refines s a header :
  represents s a → vw_headers a !! vw_head a = Some header → head_slot s = Return (bh_slot header).
Proof.
  intros Hr Hs. unfold head_slot. rewrite (store_head_refines s a Hr). cbn [mbind partial_bind].
  by rewrite (get_block_header_refines s a _ Hr), Hs.
Qed.

Lemma safe_target_slot_refines s a header :
  represents s a → vw_headers a !! vw_safe_target a = Some header →
  safe_target_slot s = Return (bh_slot header).
Proof.
  intros Hr Hs. unfold safe_target_slot. rewrite (safe_target_refines s a Hr). cbn [mbind partial_bind].
  by rewrite (get_block_header_refines s a _ Hr), Hs.
Qed.

(** ** Blocks *)

(** The block that the view holds under [root]. *)
Definition view_signed_block (a : View) (root : H256) : option SignedBlockWithAttestation :=
  header ← vw_headers a !! root;
  signatures ← vw_signatures a !! root;
  body ← (if bool_decide (bh_body_root header = EMPTY_BODY_ROOT) then Some BlockBody_default
          else vw_bodies a !! root);
  Some (to_signed_block signatures (from_header_and_body header body)).

Lemma get_signed_block_refines s a root :
  represents s a → get_signed_block root s = Return (view_signed_block a root).
Proof.
  intros Hr. unfold get_signed_block, view_signed_block.
  rewrite (view_get_encoded _ _ _ _ (rep_ok _ _ Hr) (rep_headers _ _ Hr)). cbn [mbind partial_bind].
  destruct (vw_headers a !! root) as [header|]; cbn [fmap option_fmap option_map mbind option_bind]; [|done].
  rewrite (view_get_encoded _ _ _ _ (rep_ok _ _ Hr) (rep_signatures _ _ Hr)).
  cbn [mbind partial_bind].
  destruct (vw_signatures a !! root) as [sigs|]; cbn [fmap option_fmap option_map mbind option_bind]; [|done].
  rewrite (decode_encoded header). cbn [mbind partial_bind].
  case_bool_decide; cbn [mbind partial_bind option_bind]; [by rewrite decode_encoded|].
  rewrite (view_get_encoded _ _ _ _ (rep_ok _ _ Hr) (rep_bodies _ _ Hr)). cbn [mbind partial_bind].
  destruct (vw_bodies a !! root) as [body|]; cbn [fmap option_fmap option_map mbind option_bind]; [|done].
  by rewrite !decode_encoded.
Qed.

(** ** Listing tables *)

Lemma map_partial_fmap {A A' A''} (f : A' → partial A'') (g : A → A') (h : A → A'') (l : list A) :
  (∀ x, x ∈ l → f (g x) = Return (h x)) → map_partial f (g <$> l) = Return (h <$> l).
Proof.
  induction l as [|x l IH]; intros Hf; [done|]. rewrite !fmap_cons. cbn [map_partial].
  rewrite Hf by set_solver. cbn [mbind partial_bind]. by rewrite IH by set_solver.
Qed.

(** The entries of an encoded table are the encodings of the entries of the map, each
    listed once. *)
Lemma encoded_entries `{Countable K} {V} (fk : K → bytes) (fv : V → bytes) `{!Inj (=) (=) fk}
    (m : gmap K V) d t :
  db_ok d → contents d t = encoded fk fv m →
  ∃ l, table_entries d t = Return ((λ kv : K * V, (fk kv.1, fv kv.2)) <$> l) ∧ l ≡ₚ map_to_list m.
Proof.
  intros Hok Hc. destruct (table_entries_spec d t Hok) as (lb & Hrun & Hnd & Hl). rewrite Hc in Hl.
  assert (Hperm : lb ≡ₚ map_to_list (encoded fk fv m)).
  { apply NoDup_Permutation; [by eapply NoDup_fmap_1|apply NoDup_map_to_list|].
    intros [k v]. by rewrite Hl, elem_of_map_to_list. }
  unfold encoded in Hperm. rewrite map_to_list_kmap, map_to_list_fmap, <- list_fmap_compose in Hperm by done.
  apply (Permutation_map_inv _ _ (l1 := lb)) in Hperm as (l & Hlb & Hl').
  exists l. split; [|done]. by rewrite Hrun, Hlb.
Qed.

End reads.

(** * Writing *)

(** A metadata write. *)
Ltac metadata_write Hr :=
  eapply implements_write; [exact Hr|]; let d := fresh "d" in let Hc := fresh "Hc" in
  intros d ? Hc; split; cbn; try done; try (tables Hc); try solve [apply Hr];
  destruct (rep_metadata _ _ Hr); split; cbn;
  repeat first [rewrite lookup_insert_eq|rewrite lookup_insert_ne by distinct_keys]; done.

Section writes.
Context `{SL : StorageLaws D B} `{CO : Codecs} {CL : CodecsLaws} `{HS : Hashing} `{SC : SignatureScheme}.
Context {E : Type}.
Implicit Types (s : Store D) (a : View).

Lemma set_time_refines s a time :
  represents s a → implements (set_time time : M (Store D) E unit) s tt (vset_time time a).
Proof. intros Hr. unfold set_time, set_metadata. metadata_write Hr. Qed.

Lemma set_safe_target_refines s a root :
  represents s a → implements (set_safe_target root : M (Store D) E unit) s tt (vset_safe_target root a).
Proof. intros Hr. unfold set_safe_target, set_metadata. metadata_write Hr. Qed.

Definition view_checkpoints (c : ForkCheckpoints) (a : View) : View :=
  vset_finalized (default (vw_finalized a) (fc_finalized c))
    (vset_justified (default (vw_justified a) (fc_justified c)) (vset_head (fc_head c) a)).

Lemma write_checkpoints_refines s a c :
  represents s a →
  implements (write [ Put Metadata (
    [ (KEY_HEAD, as_ssz_bytes (fc_head c)) ] ++
    match fc_justified c with
    | Some justified => [ (KEY_LATEST_JUSTIFIED, as_ssz_bytes justified) ]
    | None => []
    end ++
    match fc_finalized c with
    | Some finalized => [ (KEY_LATEST_FINALIZED, as_ssz_bytes finalized) ]
    | None => []
    end) ] : M (Store D) E unit) s tt (view_checkpoints c a).
Proof. intros Hr. destruct c as [h [j|] [f|]]; cbn; metadata_write Hr. Qed.

(** ** Blocks *)

Definition view_write_block (root : H256) (sb : SignedBlockWithAttestation) (a : View) : View :=
  let block := bwa_block (sb_message sb) in
  vset_signatures (<[root := from_signed_block sb]> (vw_signatures a))
    (vset_bodies (if bool_decide (tree_hash_root (b_body block) = EMPTY_BODY_ROOT) then vw_bodies a
                  else <[root := b_body block]> (vw_bodies a))
       (vset_headers (<[root := block_header block]> (vw_headers a)) a)).

Definition view_insert_block (root : H256) (sb : SignedBlockWithAttestation) (a : View) : View :=
  let block := bwa_block (sb_message sb) in
  vset_live (<[(b_slot block, root) := b_parent_root block]> (vw_live a)) (view_write_block root sb a).

(** No body other than the empty one hashes to the root of the empty body. *)
Definition no_empty_collision (body : BlockBody) : Prop :=
  tree_hash_root body = EMPTY_BODY_ROOT → body = BlockBody_default.

Lemma written_block a root sb :
  no_empty_collision (b_body (bwa_block (sb_message sb))) →
  view_signed_block (view_write_block root sb a) root = Some sb.
Proof.
  intros Hbody. unfold view_signed_block, view_write_block. cbn.
  rewrite !lookup_insert_eq. cbn. destruct sb as [[block att] sigs]. cbn in *.
  case_bool_decide as Heq.
  - cbn. rewrite <- (Hbody Heq). by destruct block.
  - rewrite lookup_insert_eq. by destruct block.
Qed.

Lemma written_other a root sb r :
  r ≠ root → view_signed_block (view_write_block root sb a) r = view_signed_block a r.
Proof.
  intros Hne. unfold view_signed_block, view_write_block. cbn. rewrite !lookup_insert_ne by done.
  case_bool_decide; [done|]. by rewrite lookup_insert_ne.
Qed.

Lemma insert_pending_block_refines s a root sb :
  represents s a →
  implements (insert_pending_block root sb : M (Store D) E unit) s tt (view_write_block root sb a).
Proof.
  intros Hr. unfold insert_pending_block, write_signed_block, view_write_block. cbn [block_header bh_body_root].
  case_bool_decide; data_write Hr; cbn.
  - rewrite (rep_headers _ _ Hr). by apply insert_encoded, _.
  - rewrite (rep_signatures _ _ Hr). by apply insert_encoded, _.
  - rewrite (rep_headers _ _ Hr). by apply insert_encoded, _.
  - rewrite (rep_bodies _ _ Hr). by apply insert_encoded, _.
  - rewrite (rep_signatures _ _ Hr). by apply insert_encoded, _.
Qed.

Lemma insert_signed_block_refines s a root sb :
  represents s a →
  implements (insert_signed_block root sb : M (Store D) E unit) s tt (view_insert_block root sb a).
Proof.
  intros Hr. unfold insert_signed_block, write_signed_block, view_insert_block, view_write_block.
  cbn [block_header bh_body_root].
  set (key := encode_live_chain_key (b_slot (bwa_block (sb_message sb))) root).
  change key with (live_key_bytes (b_slot (bwa_block (sb_message sb)), root)).
  case_bool_decide; data_write Hr; cbn.
  - rewrite (rep_headers _ _ Hr). by apply insert_encoded, _.
  - rewrite (rep_signatures _ _ Hr). by apply insert_encoded, _.
  - rewrite (rep_live _ _ Hr). by apply (insert_encoded live_key_bytes), _.
  - rewrite (rep_headers _ _ Hr). by apply insert_encoded, _.
  - rewrite (rep_bodies _ _ Hr). by apply insert_encoded, _.
  - rewrite (rep_signatures _ _ Hr). by apply insert_encoded, _.
  - rewrite (rep_live _ _ Hr). by apply (insert_encoded live_key_bytes), _.
Qed.

Lemma insert_attestation_data_batch_refines s a entries :
  represents s a →
  implements (insert_attestation_data_by_root_batch entries : M (Store D) E unit) s tt
    (vset_data (foldl (λ m kv, <[kv.1 := kv.2]> m) (vw_data a) entries) a).
Proof.
  intros Hr. unfold insert_attestation_data_by_root_batch. destruct entries as [|entry entries].
  { cbn. apply implements_ret. by destruct Hr as [? [] ? ? ? ? ? ? ? ? ? ?]. }
  generalize (entry :: entries). intros l.
  rewrite (list_fmap_ext _ (λ kv, (as_ssz_bytes kv.1, as_ssz_bytes kv.2))) by (by intros i [k v] _).
  data_write Hr. rewrite (rep_data _ _ Hr). by apply put_all_encoded, _.
Qed.

(** ** Payload buffers *)

Lemma insert_new_payload_refines s a key payload :
  represents s a →
  implements (insert_new_aggregated_payload key payload : M (Store D) E unit) s tt
    (vset_new (buffer_push (vw_new a) key payload) a).
Proof.
  intros Hr. apply implements_modify. destruct (rep_metadata _ _ Hr).
  split; cbn; try apply Hr; [by split|]. by rewrite (rep_new _ _ Hr).
Qed.

Lemma insert_known_payloads_refines s a entries :
  represents s a →
  implements (insert_known_aggregated_payloads_batch entries : M (Store D) E unit) s tt
    (vset_known (push_batch (vw_known a) entries) a).
Proof.
  intros Hr. apply implements_modify. destruct (rep_metadata _ _ Hr).
  split; cbn; try apply Hr; [by split|]. by rewrite (rep_known _ _ Hr).
Qed.

Lemma insert_new_payloads_refines s a entries :
  represents s a →
  implements (insert_new_aggregated_payloads_batch entries : M (Store D) E unit) s tt
    (vset_new (push_batch (vw_new a) entries) a).
Proof.
  intros Hr. apply implements_modify. destruct (rep_metadata _ _ Hr).
  split; cbn; try apply Hr; [by split|]. by rewrite (rep_new _ _ Hr).
Qed.

Definition view_promote (a : View) : View :=
  vset_known (push_batch (vw_known a) (pb_entries (vw_new a))) (vset_new (drain (vw_new a)).2 a).

Lemma promote_refines s a :
  represents s a →
  implements (promote_new_aggregated_payloads : M (Store D) E unit) s tt (view_promote a).
Proof.
  intros Hr. unfold promote_new_aggregated_payloads. eexists. split; [run; done|].
  destruct (rep_metadata _ _ Hr). split; cbn; try apply Hr; [by split|..];
    by rewrite ?(rep_new _ _ Hr), ?(rep_known _ _ Hr).
Qed.

(** ** Gossip signatures *)

Definition view_insert_gossip (key : SignatureKey) (stored : StoredSignature) (a : View) : View :=
  vset_count (match vw_gossip a !! key with
              | None => wrapping_add (vw_count a) (to_u64 1)
              | Some _ => vw_count a
              end) (vset_gossip (<[key := stored]> (vw_gossip a)) a).

Lemma set_count_represents s a n :
  represents s a → represents (set_gossip_count n s) (vset_count n a).
Proof. intros Hr. destruct (rep_metadata _ _ Hr). split; cbn; try apply Hr; [by split|done]. Qed.

Lemma insert_gossip_signature_refines s a data_root slot validator_id signature :
  represents s a →
  implements (insert_gossip_signature data_root slot validator_id signature : M (Store D) E unit) s tt
    (view_insert_gossip (validator_id, data_root) (StoredSignature_new slot signature) a).
Proof.
  intros Hr. unfold insert_gossip_signature. set (key := (validator_id, data_root)).
  change (encode_signature_key key) with (sig_key_bytes key).
  eapply implements_bind.
  { apply implements_reads; [done|]. rewrite view_get_spec, (rep_gossip _ _ Hr) by apply Hr.
    rewrite lookup_encoded by apply _. done. }
  intros s1 Hr1. eapply implements_bind with (a := vset_gossip (<[key := StoredSignature_new slot signature]> (vw_gossip a)) a) (x := tt).
  { data_write Hr1. rewrite (rep_gossip _ _ Hr1). by apply insert_encoded, _. }
  intros s2 Hr2. unfold view_insert_gossip. destruct (vw_gossip a !! key); cbn.
  - apply implements_ret. pose proof (set_count_represents _ _ (vw_count a) Hr2) as Hc.
    replace s2 with (set_gossip_count (vw_count a) s2); [done|].
    pose proof (rep_count _ _ Hr2) as Hn. cbn in Hn. rewrite <- Hn. by destruct s2.
  - apply implements_modify. rewrite (rep_count _ _ Hr2). by apply set_count_represents.
Qed.

Lemma delete_gossip_signatures_refines s a keys :
  represents s a → keys ≠ [] →
  implements (delete_gossip_signatures keys : M (Store D) E unit) s tt
    (vset_count (saturating_sub (vw_count a) (to_u64 (len keys)))
       (vset_gossip (foldl (λ m k, delete k m) (vw_gossip a) keys) a)).
Proof.
  intros Hr Hne. unfold delete_gossip_signatures. destruct keys as [|k keys]; [done|].
  eapply implements_bind with (x := tt) (a := vset_gossip (foldl (λ m k, delete k m) (vw_gossip a) (k :: keys)) a).
  { generalize (k :: keys). intros l. data_write Hr. rewrite (rep_gossip _ _ Hr).
    by apply (delete_all_encoded sig_key_bytes), _. }
  intros s1 Hr1. apply implements_modify. rewrite (rep_count _ _ Hr1). by apply set_count_represents.
Qed.

End writes.
