(* ===== verification/StorePruning.v ===== *)
(** Listing and pruning: the live chain, pruning by slot, and the retention windows. *)

From S2P Require Import Prelude Types Backend Keys Signatures PayloadBuffer Store StoreSpec StoreOps.

(** * Lists *)

(** The longest prefix whose elements satisfy [p]. *)
Fixpoint take_while {A} (p : A → bool) (l : list A) : list A :=
  match l with
  | [] => []
  | x :: l => if p x then x :: take_while p l else []
  end.

Lemma elem_of_take_while {A} (p : A → bool) l x : x ∈ take_while p l → x ∈ l ∧ p x = true.
Proof.
  induction l as [|y l IH]; cbn; [set_solver|]. destruct (p y) eqn:Hp; [|set_solver].
  intros [->|Hx]%elem_of_cons; [set_solver|]. destruct (IH Hx). set_solver.
Qed.

(** On a list where [p] never comes back once it fails, it is the filter. *)
Lemma take_while_complete {A} (R : relation A) (p : A → bool) l :
  StronglySorted R l → (∀ x y, R x y → p x = false → p y = false) →
  ∀ x, x ∈ l → p x = true → x ∈ take_while p l.
Proof.
  intros Hs Hmono. induction Hs as [|y l Hs IH Hall]; intros x Hx Hpx; [set_solver|]. cbn.
  rewrite Forall_forall in Hall. destruct (p y) eqn:Hp.
  - apply elem_of_cons in Hx as [->|Hx]; [set_solver|]. apply elem_of_cons. right. by apply IH.
  - exfalso. apply elem_of_cons in Hx as [->|Hx]; [congruence|].
    rewrite (Hmono y x) in Hpx; [done|by apply Hall|done].
Qed.

(** Building a map from a list with distinct keys. *)
Lemma foldl_insert_lookup `{Countable K} {V} (l : list (K * V)) k v :
  NoDup l.*1 → foldl (λ (m : gmap K V) '(k, v), <[k := v]> m) ∅ l !! k = Some v ↔ (k, v) ∈ l.
Proof.
  induction l as [|[k' v'] l IH] using rev_ind; intros Hnd; cbn.
  { rewrite lookup_empty. set_solver. }
  rewrite fmap_app in Hnd. apply NoDup_app in Hnd as (Hnd & Hdis & _).
  rewrite foldl_app. cbn. rewrite elem_of_app, list_elem_of_singleton.
  destruct (decide (k' = k)) as [->|Hne].
  - rewrite lookup_insert_eq. split.
    + intros [= ->]. by right.
    + intros [Hin|[= ->]]; [|done]. exfalso. apply (Hdis k); [|set_solver].
      apply list_elem_of_fmap. by exists (k, v).
  - rewrite lookup_insert_ne, IH by done. naive_solver.
Qed.

(** * Sorted iteration

    A sorted store lists its keys in bytewise order. *)

Class SortedBackend (D B : Type) `{StorageBackend D B} : Prop :=
  prefix_iterator_sorted (d : D) t prefix items :
    prefix_iterator d t prefix = Return (Some <$> items) →
    StronglySorted (λ x y : bytes * bytes, bytes_le x.1 y.1 = true) items.

Section pruning.
Context `{SL : StorageLaws D B} `{CO : Codecs} {CL : CodecsLaws} `{HS : Hashing} `{SC : SignatureScheme}.
Context {E : Type}.
Implicit Types (s : Store D) (a : View).

(** ** The live chain *)

(** A root is live at one slot only. *)
Definition live_functional (a : View) : Prop :=
  ∀ (s1 s2 : u64) (r : H256), is_Some (vw_live a !! (s1, r)) → is_Some (vw_live a !! (s2, r)) → s1 = s2.

Lemma live_entry_encoded (kv : (u64 * H256) * H256) :
  live_entry (live_key_bytes kv.1, as_ssz_bytes kv.2) = Return (kv.1.2, (kv.1.1, kv.2)).
Proof.
  destruct kv as [[slot r] p]. unfold live_entry. cbn [fst snd].
  rewrite live_key_decodes. cbn [mbind partial_bind]. by rewrite decode_encoded.
Qed.

Lemma get_live_chain_refines s a :
  represents s a → live_functional a →
  ∃ m, get_live_chain s = Return m ∧
    ∀ r slot p, m !! r = Some (slot, p) ↔ vw_live a !! (slot, r) = Some p.
Proof.
  intros Hr Hfun. unfold get_live_chain.
  destruct (encoded_entries live_key_bytes as_ssz_bytes (vw_live a) (s_backend s) LiveChain)
    as (l & Hrun & Hperm); [apply Hr|apply Hr|].
  rewrite Hrun. cbn [mbind partial_bind].
  rewrite (map_partial_fmap _ _ (λ kv : u64 * H256 * H256, (kv.1.2, (kv.1.1, kv.2))))
    by (intros kv _; apply live_entry_encoded).
  cbn [mbind partial_bind]. eexists. split; [done|]. intros r slot p.
  rewrite foldl_insert_lookup.
  - rewrite list_elem_of_fmap. setoid_rewrite Hperm. split.
    + intros ([[slot' r'] p'] & [= -> -> ->] & Hin). by apply elem_of_map_to_list in Hin.
    + intros Hl. exists ((slot, r), p). by rewrite elem_of_map_to_list.
  - rewrite <- list_fmap_compose. cbn.
    assert (Hnd : NoDup l) by (rewrite Hperm; apply NoDup_map_to_list).
    assert (Hin : ∀ kv, kv ∈ l → vw_live a !! kv.1 = Some kv.2)
      by (intros [k v]; rewrite Hperm; apply elem_of_map_to_list).
    clear -Hfun Hnd Hin. induction Hnd as [|kv l Hkv Hnd IH]; [constructor|]. cbn. constructor.
    + intros ([[slot' r'] p'] & Heq & Hl)%list_elem_of_fmap. cbn in Heq. destruct kv as [[slot r] p]. cbn in Heq. subst r'.
      pose proof (Hin _ (list_elem_of_here _ _)) as Ha1. pose proof (Hin _ (list_elem_of_further _ _ _ Hl)) as Ha2.
      cbn in Ha1, Ha2. assert (slot = slot') as <- by (eapply Hfun; eauto).
      rewrite Ha1 in Ha2. injection Ha2 as <-. done.
    + apply IH. intros kv' Hkv'. apply Hin. by right.
Qed.

Lemma get_block_roots_refines s a :
  represents s a →
  ∃ X, get_block_roots s = Return X ∧ ∀ r, r ∈ X ↔ ∃ slot, is_Some (vw_live a !! (slot, r)).
Proof.
  intros Hr. unfold get_block_roots.
  destruct (encoded_entries live_key_bytes as_ssz_bytes (vw_live a) (s_backend s) LiveChain)
    as (l & Hrun & Hperm); [apply Hr|apply Hr|].
  rewrite Hrun. cbn [mbind partial_bind].
  rewrite (map_partial_fmap _ _ (λ kv : u64 * H256 * H256, kv.1.2)).
  2:{ intros [[slot r] p] _. by rewrite live_key_decodes. }
  cbn [mbind partial_bind]. eexists. split; [done|]. intros r.
  rewrite elem_of_list_to_set, list_elem_of_fmap. setoid_rewrite Hperm. split.
  - intros ([[slot r'] p] & -> & Hin%elem_of_map_to_list). exists slot. cbn. by rewrite Hin.
  - intros [slot [p Hp]]. exists ((slot, r), p). by rewrite elem_of_map_to_list.
Qed.

(** ** Pruning the live chain *)

Lemma keys_below_encoded f (l : list ((u64 * H256) * H256)) :
  keys_below f ((λ kv : (u64 * H256) * H256, (live_key_bytes kv.1, as_ssz_bytes kv.2)) <$> l) =
    Return (live_key_bytes <$> (take_while (λ kv : (u64 * H256) * H256, kv.1.1 <? u64_val f) l).*1).
Proof.
  induction l as [|[[slot r] p] l IH]; [done|]. rewrite fmap_cons. cbn [keys_below take_while fst snd].
  rewrite live_key_decodes. cbn [mbind partial_bind].
  destruct (slot <? u64_val f); [|done]. by rewrite IH.
Qed.

Lemma prune_keys_refines s a (keys : list (u64 * H256)) :
  represents s a →
  implements (write [ Delete LiveChain (live_key_bytes <$> keys) ] : M (Store D) E unit) s tt
    (vset_live (foldl (λ m k, delete k m) (vw_live a) keys) a).
Proof.
  intros Hr. data_write Hr. rewrite (rep_live _ _ Hr). by apply (delete_all_encoded live_key_bytes), _.
Qed.

(** Only entries below the finalized slot are removed; a sorted backend removes all of
    them. *)
Lemma prune_live_chain_refines s a f :
  represents s a →
  ∃ keys, implements (prune_live_chain f : M (Store D) E u64) s (to_u64 (len keys))
      (vset_live (foldl (λ m k, delete k m) (vw_live a) keys) a) ∧
    (∀ k : u64 * H256, k ∈ keys → is_Some (vw_live a !! k) ∧ u64_val k.1 < f) ∧
    (SortedBackend D B → ∀ k : u64 * H256, is_Some (vw_live a !! k) → u64_val k.1 < f → k ∈ keys).
Proof.
  intros Hr.
  destruct (encoded_entries live_key_bytes as_ssz_bytes (vw_live a) (s_backend s) LiveChain)
    as (l & Hrun & Hperm); [apply Hr|apply Hr|].
  set (p := λ kv : (u64 * H256) * H256, kv.1.1 <? u64_val f).
  exists (take_while p l).*1. split_and!.
  - unfold prune_live_chain. eapply implements_bind; [by apply implements_reads|].
    intros s1 Hr1. eapply implements_bind; [apply implements_lift; [done|apply keys_below_encoded]|].
    intros s2 Hr2. fold p. replace (len (live_key_bytes <$> (take_while p l).*1)) with (len (take_while p l).*1)
      by (unfold len; by rewrite !length_fmap).
    destruct (take_while p l).*1 as [|k keys] eqn:Hk.
    + cbn. apply implements_ret. by destruct Hr2 as [? [] ? ? ? ? ? ? ? ? ? ?].
    + rewrite <- Hk. destruct (live_key_bytes <$> (take_while p l).*1) as [|kb kbs] eqn:Hkb; [by rewrite Hk in Hkb|].
      rewrite <- Hkb. eapply implements_bind; [by apply prune_keys_refines|]. intros s3 Hr3. by apply implements_ret.
  - intros k ([k' v] & -> & [Hin Hp]%elem_of_take_while)%list_elem_of_fmap. cbn.
    rewrite Hperm, elem_of_map_to_list in Hin. rewrite Hin. split; [done|]. by apply N.ltb_lt in Hp.
  - intros Hsorted k [v Hv] Hk. apply list_elem_of_fmap. exists (k, v). split; [done|].
    unfold table_entries in Hrun.
    destruct (prefix_iterator_spec (s_backend s) LiveChain [] (rep_ok _ _ Hr)) as (items & Hit & _ & _).
    rewrite Hit in Hrun. cbn [mbind partial_bind] in Hrun. injection Hrun as Hrun.
    assert (Hitems : items = (λ kv : u64 * H256 * H256, (live_key_bytes kv.1, as_ssz_bytes kv.2)) <$> l).
    { rewrite <- Hrun. clear. induction items as [|x items IH]; [done|]. cbn. by f_equal. }
    apply Hsorted in Hit. rewrite Hitems in Hit. clear Hrun Hitems.
    apply (take_while_complete (λ x y : (u64 * H256) * H256, u64_val x.1.1 <= y.1.1)).
    + clear -Hit. induction l as [|x l IH]; [constructor|]. cbn in Hit.
      inversion Hit as [|? ? Hs Hall]. subst. constructor; [by apply IH|].
      apply Forall_fmap in Hall. eapply Forall_impl; [done|]. intros y Hy. cbn in Hy.
      unfold live_key_bytes in Hy. rewrite live_chain_key_le in Hy.
      apply orb_true_iff in Hy as [Hy%N.ltb_lt|[Hy%N.eqb_eq _]%andb_true_iff]; lia.
    + intros x y Hle. unfold p. rewrite !N.ltb_ge. lia.
    + rewrite Hperm. by apply elem_of_map_to_list.
    + by apply N.ltb_lt.
Qed.

(** ** Pruning by slot *)

Definition slot_at_most `{Countable K} {V} (slot_of : V → u64) (f : u64) (m : gmap K V) : gmap K V :=
  filter (λ kv : K * V, u64_val (slot_of kv.2) <= f) m.
Definition slot_above `{Countable K} {V} (slot_of : V → u64) (f : u64) (m : gmap K V) : gmap K V :=
  filter (λ kv : K * V, f < u64_val (slot_of kv.2)) m.

Lemma delete_old_slots `{Countable K} {V} (slot_of : V → u64) (f : u64) (m : gmap K V) (l : list (K * V)) :
  l ≡ₚ map_to_list m →
  foldl (λ m k, delete k m) m (filter (λ kv : K * V, u64_val (slot_of kv.2) <= f) l).*1 =
    slot_above slot_of f m.
Proof.
  intros Hperm. apply map_eq. intros k. apply option_eq. intros v. unfold slot_above.
  rewrite foldl_delete_lookup, map_lookup_filter_Some. cbn.
  split; intros [Hk Hno]; (split; [done|]).
  - destruct (N.lt_ge_cases f (slot_of v)) as [|Hle]; [done|]. exfalso. apply Hno.
    apply list_elem_of_fmap. exists (k, v). split; [done|]. apply list_elem_of_filter.
    split; [done|]. by rewrite Hperm, elem_of_map_to_list.
  - intros ([k' v'] & -> & [Hle Hin]%list_elem_of_filter)%list_elem_of_fmap. cbn in *.
    rewrite Hperm, elem_of_map_to_list in Hin. rewrite Hk in Hin. injection Hin as ->. lia.
Qed.

Lemma size_slot_at_most `{Countable K} {V} (slot_of : V → u64) (f : u64) (m : gmap K V) (l : list (K * V)) :
  l ≡ₚ map_to_list m →
  length (filter (λ kv : K * V, u64_val (slot_of kv.2) <= f) l) = size (slot_at_most slot_of f m).
Proof.
  intros Hperm. rewrite <- length_map_to_list. unfold slot_at_most.
  apply Permutation_length, NoDup_Permutation.
  - apply NoDup_filter. rewrite Hperm. apply NoDup_map_to_list.
  - apply NoDup_map_to_list.
  - intros [k v]. rewrite list_elem_of_filter, Hperm, !elem_of_map_to_list, map_lookup_filter_Some. tauto.
Qed.

(** [prune_by_slot] removes exactly the entries at or below the finalized slot. *)
Lemma prune_by_slot_refines `{Countable K} {V} `{SszLaws V} (fk : K → bytes) `{!Inj (=) (=) fk}
    (slot_of : V → u64) s a a' (m : gmap K V) t (f : u64) :
  represents s a →
  contents (s_backend s) t = encoded fk as_ssz_bytes m →
  (∀ d', db_ok d' → contents d' t = encoded fk as_ssz_bytes (slot_above slot_of f m) →
    (∀ t', t' ≠ t → contents d' t' = contents (s_backend s) t') → represents (set_backend d' s) a') →
  implements (prune_by_slot t f (λ b, slot_of <$> (from_ssz_bytes b : option V)) : M (Store D) E u64) s
    (to_u64 (N.of_nat (size (slot_at_most slot_of f m)))) a'.
Proof.
  intros Hr Hc Hrep. destruct (encoded_entries fk as_ssz_bytes m (s_backend s) t) as (l & Hrun & Hperm);
    [apply Hr|done|].
  set (old := filter (λ kv : K * V, u64_val (slot_of kv.2) <= f) l).
  pose proof (delete_old_slots slot_of f m l Hperm) as Hdel.
  rewrite <- (size_slot_at_most slot_of f m l Hperm). fold old in Hdel |- *.
  unfold prune_by_slot, implements. setoid_rewrite run_bind. setoid_rewrite run_reads. rewrite Hrun.
  assert (Homap : omap (M := list) (λ '(k, v), match slot_of <$> (from_ssz_bytes v : option V) with
      | Some slot => if u64_val slot <=? f then Some k else None | None => None end)
      ((λ kv : K * V, (fk kv.1, as_ssz_bytes kv.2)) <$> l) = fk <$> old.*1).
  { unfold old. clear -H2. induction l as [|[k v] l IH]; [done|]. rewrite fmap_cons. cbn [omap list_omap fst snd].
    rewrite ssz_roundtrip. cbn [fmap option_fmap option_map]. rewrite filter_cons. cbn [fst snd].
    destruct (N.leb_spec (slot_of v) f).
    - rewrite decide_True by done. rewrite !fmap_cons. f_equal. apply IH.
    - rewrite decide_False by lia. apply IH. }
  rewrite Homap. destruct (fk <$> old.*1) as [|kb kbs] eqn:Hk.
  - apply fmap_nil_inv in Hk. rewrite Hk in Hdel. cbn in Hdel.
    apply fmap_nil_inv in Hk. rewrite Hk. exists s. split; [done|].
    assert (Hs : s = set_backend (s_backend s) s) by (by destruct s). rewrite Hs.
    apply Hrep; [apply Hr|by rewrite <- Hdel|done].
  - rewrite <- Hk. destruct (run_write (E := E) [Delete t (fk <$> old.*1)] s (rep_ok _ _ Hr)) as (d' & Hw & Hok & Hc').
    exists (set_backend d' s). rewrite run_bind, Hw. split; [unfold len; by rewrite !length_fmap|].
    apply Hrep; [done|..].
    + rewrite Hc'. cbn. unfold on_table. rewrite decide_True by done. rewrite Hc.
      rewrite delete_all_encoded by done. by rewrite Hdel.
    + intros t' Ht'. rewrite Hc'. cbn. unfold on_table. by rewrite decide_False.
Qed.

(** What finalization at slot [f] removes besides the live-chain entries. *)
Definition view_prune_gossip (f : u64) (a : View) : View :=
  vset_count (saturating_sub (vw_count a) (to_u64 (N.of_nat (size (slot_at_most ss_slot f (vw_gossip a))))))
    (vset_gossip (slot_above ss_slot f (vw_gossip a)) a).
Definition view_prune_data (f : u64) (a : View) : View :=
  vset_data (slot_above ad_slot f (vw_data a)) a.

Lemma prune_gossip_refines s a f :
  represents s a →
  implements (prune_gossip_signatures f : M (Store D) E u64) s
    (to_u64 (N.of_nat (size (slot_at_most ss_slot f (vw_gossip a))))) (view_prune_gossip f a).
Proof.
  intros Hr. unfold prune_gossip_signatures. eapply implements_bind.
  { apply (prune_by_slot_refines sig_key_bytes ss_slot s a
      (vset_gossip (slot_above ss_slot f (vw_gossip a)) a) (vw_gossip a)); [done|apply Hr|].
    intros d' Hok Hc Ho. split; cbn; try apply Hr; try done; rewrite Ho by done; try apply Hr.
    destruct (rep_metadata _ _ Hr). by split. }
  intros s1 Hr1. eapply implements_bind; [|intros s2 Hr2; by apply implements_ret].
  apply implements_modify. rewrite (rep_count _ _ Hr1). by apply set_count_represents.
Qed.

Lemma prune_data_refines s a f :
  represents s a →
  implements (prune_attestation_data_by_root f : M (Store D) E u64) s
    (to_u64 (N.of_nat (size (slot_at_most ad_slot f (vw_data a))))) (view_prune_data f a).
Proof.
  intros Hr. apply (prune_by_slot_refines as_ssz_bytes ad_slot s a _ (vw_data a)); [done|apply Hr|].
  intros d' Hok Hc Ho. split; cbn; try apply Hr; try done; rewrite Ho by done; try apply Hr.
  destruct (rep_metadata _ _ Hr). by split.
Qed.

End pruning.
