(* ===== verification/Codec.v ===== *)
(** A reference instance of the SSZ interface: self-delimiting encoders, with numbers at
    the widths SSZ gives them. It shows that the hypotheses on the codecs can be met, and
    lets the store be evaluated. *)

From Stdlib Require Import Strings.Byte.
From S2P Require Import Prelude Types Keys Signatures Backend InMemory PayloadBuffer Store Crypto StoreSpec StoreOps StorePruning.

(** [put] writes a value, [pop] reads one off the front. *)
Class Serial (A : Type) := {
  put_bytes : A → bytes;
  pop_bytes : bytes → option (A * bytes);
}.

Class SerialLaws (A : Type) `{Serial A} : Prop :=
  pop_put (x : A) rest : pop_bytes (put_bytes x ++ rest) = Some (x, rest).

Definition serial_ssz `{Serial A} : Ssz A := {|
  as_ssz_bytes := put_bytes;
  from_ssz_bytes b := match pop_bytes b with Some (x, []) => Some x | _ => None end;
|}.

Lemma serial_ssz_laws `{SerialLaws A} : @SszLaws A serial_ssz.
Proof. intros x. cbn. rewrite <- (app_nil_r (put_bytes x)), pop_put. done. Qed.

(** Fixed width. *)
Definition pop_width (k : nat) (l : bytes) : option (N * bytes) :=
  if (length l <? k)%nat then None else Some (be_val (take k l), drop k l).

Lemma pop_width_put k n rest :
  n < 256 ^ N.of_nat k → pop_width k (be_bytes k n ++ rest) = Some (n, rest).
Proof.
  intros Hn. unfold pop_width. rewrite length_app, length_be_bytes, (proj2 (Nat.ltb_ge _ _)) by lia.
  rewrite take_app_length', drop_app_length' by (symmetry; apply length_be_bytes).
  by rewrite be_val_bytes, N.mod_small.
Qed.

#[local] Instance serial_u64 : Serial u64 := {|
  put_bytes (x : u64) := be_bytes 8 x;
  pop_bytes l := '(n, rest) ← pop_width 8 l; Some (to_u64 n, rest);
|}.
#[local] Instance serial_u64_laws : SerialLaws u64.
Proof.
  intros x rest. cbn [put_bytes pop_bytes serial_u64]. rewrite pop_width_put by apply (u64_lt x).
  cbn. by rewrite to_u64_of_val.
Qed.

#[local] Instance serial_H256 : Serial H256 := {|
  put_bytes x := be_bytes 32 (h256_val x);
  pop_bytes l := '(n, rest) ← pop_width 32 l; Some (h256 n, rest);
|}.
#[local] Instance serial_H256_laws : SerialLaws H256.
Proof.
  intros x rest. cbn [put_bytes pop_bytes serial_H256]. rewrite pop_width_put by apply (h256_lt x).
  cbn. by rewrite h256_of_val.
Qed.

#[local] Instance serial_byte : Serial byte := {|
  put_bytes b := [b];
  pop_bytes l := match l with b :: rest => Some (b, rest) | [] => None end;
|}.
#[local] Instance serial_byte_laws : SerialLaws byte.
Proof. by intros x rest. Qed.

#[local] Instance serial_bool : Serial bool := {|
  put_bytes b := [if b : bool then x01 else x00];
  pop_bytes l := match l with b :: rest => Some (bool_decide (b = x01), rest) | [] => None end;
|}.
#[local] Instance serial_bool_laws : SerialLaws bool.
Proof. by intros [] rest. Qed.

(** Lists, with a marker before each element. *)
Fixpoint pop_list `{Serial A} (fuel : nat) (l : bytes) : option (list A * bytes) :=
  match fuel with
  | O => None
  | S fuel =>
      match l with
      | x00 :: rest => Some ([], rest)
      | x01 :: rest =>
          '(x, rest) ← pop_bytes rest;
          '(xs, rest) ← pop_list fuel rest;
          Some (x :: xs, rest)
      | _ => None
      end
  end.

#[local] Instance serial_list `{Serial A} : Serial (list A) := {|
  put_bytes l := foldr (λ x acc, x01 :: put_bytes x ++ acc) [x00] l;
  pop_bytes l := pop_list (S (length l)) l;
|}.

Lemma pop_list_put `{SerialLaws A} (l : list A) rest fuel :
  (length l < fuel)%nat →
  pop_list fuel (foldr (λ x acc, x01 :: put_bytes x ++ acc) [x00] l ++ rest) = Some (l, rest).
Proof.
  revert fuel. induction l as [|x l IH]; intros [|fuel] Hf; cbn [length] in Hf; [lia|done|lia|].
  cbn [foldr app pop_list]. rewrite <- app_assoc, pop_put. cbn. by rewrite IH by lia.
Qed.

#[local] Instance serial_list_laws `{SerialLaws A} : SerialLaws (list A).
Proof.
  intros l rest. cbn [put_bytes pop_bytes serial_list]. apply pop_list_put.
  rewrite length_app. enough (length l <= length (foldr (λ x acc, x01 :: put_bytes x ++ acc) [x00] l))%nat by lia.
  induction l as [|x l IH]; cbn; [lia|]. rewrite length_app. lia.
Qed.

#[local] Instance serial_prod `{Serial A, Serial B} : Serial (A * B) := {|
  put_bytes p := put_bytes p.1 ++ put_bytes p.2;
  pop_bytes l := '(a, rest) ← pop_bytes l; '(b, rest) ← pop_bytes rest; Some ((a, b), rest);
|}.
#[local] Instance serial_prod_laws `{SerialLaws A, SerialLaws B} : SerialLaws (A * B).
Proof.
  intros [a b] rest. cbn [put_bytes pop_bytes serial_prod fst snd]. rewrite <- app_assoc, pop_put. cbn.
  by rewrite pop_put.
Qed.

(** Records, through tuples. *)
Definition serial_iso {A B} `{Serial B} (f : A → B) (g : B → A) : Serial A := {|
  put_bytes x := put_bytes (f x);
  pop_bytes l := '(b, rest) ← pop_bytes l; Some (g b, rest);
|}.

Lemma serial_iso_laws {A B} `{SerialLaws B} (f : A → B) (g : B → A) :
  (∀ x, g (f x) = x) → @SerialLaws A (serial_iso f g).
Proof. intros Hgf x rest. cbn [put_bytes pop_bytes serial_iso]. rewrite pop_put. cbn. by rewrite Hgf. Qed.

Ltac serial_record := apply serial_iso_laws; by intros [].

#[local] Instance serial_checkpoint : Serial Checkpoint :=
  serial_iso (λ c, (cp_root c, cp_slot c)) (λ '(r, s), mk_checkpoint r s).
#[local] Instance serial_checkpoint_laws : SerialLaws Checkpoint.
Proof. serial_record. Qed.

#[local] Instance serial_data : Serial AttestationData :=
  serial_iso (λ d, (ad_slot d, (ad_head d, (ad_target d, ad_source d))))
    (λ '(s, (h, (t, r))), mk_attestation_data s h t r).
#[local] Instance serial_data_laws : SerialLaws AttestationData.
Proof. serial_record. Qed.

#[local] Instance serial_attestation : Serial Attestation :=
  serial_iso (λ a, (att_validator_id a, att_data a)) (λ '(v, d), mk_attestation v d).
#[local] Instance serial_attestation_laws : SerialLaws Attestation.
Proof. serial_record. Qed.

#[local] Instance serial_aggregated : Serial AggregatedAttestation :=
  serial_iso (λ a, (aa_aggregation_bits a, aa_data a)) (λ '(b, d), mk_aggregated_attestation b d).
#[local] Instance serial_aggregated_laws : SerialLaws AggregatedAttestation.
Proof. serial_record. Qed.

#[local] Instance serial_proof : Serial AggregatedSignatureProof :=
  serial_iso (λ p, (pf_participants p, pf_proof_data p)) (λ '(b, d), mk_proof b d).
#[local] Instance serial_proof_laws : SerialLaws AggregatedSignatureProof.
Proof. serial_record. Qed.

#[local] Instance serial_header : Serial BlockHeader :=
  serial_iso (λ h, (bh_slot h, (bh_proposer_index h, (bh_parent_root h, (bh_state_root h, bh_body_root h)))))
    (λ '(a, (b, (c, (d, e)))), mk_block_header a b c d e).
#[local] Instance serial_header_laws : SerialLaws BlockHeader.
Proof. serial_record. Qed.

#[local] Instance serial_body : Serial BlockBody := serial_iso bb_attestations mk_block_body.
#[local] Instance serial_body_laws : SerialLaws BlockBody.
Proof. serial_record. Qed.

#[local] Instance serial_signatures : Serial BlockSignaturesWithAttestation :=
  serial_iso (λ s, (bsa_proposer_attestation s,
                    (bs_attestation_signatures (bsa_signatures s), bs_proposer_signature (bsa_signatures s))))
    (λ '(a, (l, p)), mk_block_signatures_with_attestation a (mk_block_signatures l p)).
#[local] Instance serial_signatures_laws : SerialLaws BlockSignaturesWithAttestation.
Proof. apply serial_iso_laws. by intros [? []]. Qed.

#[local] Instance serial_config : Serial ChainConfig := serial_iso cc_genesis_time mk_chain_config.
#[local] Instance serial_config_laws : SerialLaws ChainConfig.
Proof. serial_record. Qed.

#[local] Instance serial_validator : Serial Validator :=
  serial_iso (λ v, (v_pubkey v, v_index v)) (λ '(p, i), mk_validator p i).
#[local] Instance serial_validator_laws : SerialLaws Validator.
Proof. serial_record. Qed.

#[local] Instance serial_state : Serial State :=
  serial_iso (λ s, (st_config s, (st_slot s, (st_latest_block_header s, (st_latest_justified s,
                    (st_latest_finalized s, (st_historical_block_hashes s, (st_justified_slots s,
                    (st_validators s, (st_justifications_roots s, st_justifications_validators s))))))))))
    (λ '(a, (b, (c, (d, (e, (f, (g, (h, (i, j))))))))), mk_state a b c d e f g h i j).
#[local] Instance serial_state_laws : SerialLaws State.
Proof. serial_record. Qed.

#[local] Instance serial_stored : Serial StoredSignature :=
  serial_iso (λ s, (ss_slot s, ss_signature_bytes s)) (λ '(s, b), mk_stored_signature s b).
#[local] Instance serial_stored_laws : SerialLaws StoredSignature.
Proof. serial_record. Qed.

Definition reference_codecs : Codecs := {|
  ssz_u64 := serial_ssz; ssz_H256 := serial_ssz; ssz_ChainConfig := serial_ssz;
  ssz_Checkpoint := serial_ssz; ssz_BlockHeader := serial_ssz; ssz_BlockBody := serial_ssz;
  ssz_BlockSignaturesWithAttestation := serial_ssz; ssz_State := serial_ssz;
  ssz_AttestationData := serial_ssz; ssz_StoredSignature := serial_ssz;
|}.

Lemma reference_codecs_laws : @CodecsLaws reference_codecs.
Proof. split; try apply serial_ssz_laws. intros x. apply length_be_bytes. Qed.

(** A signature scheme: the public key is the secret key, a signature repeats slot, message
    and key, and has the size of the program's for the empty key. *)
Definition signature_padding : bytes := repeat Byte.x00 3076.

Definition reference_scheme : SignatureScheme := {|
  LeanSigSignature := bytes; LeanSigPublicKey := bytes; LeanSigSecretKey := bytes;
  leansig_signature_from_bytes b := Some b; leansig_signature_to_bytes b := b;
  leansig_public_key_from_bytes b := Some b; leansig_public_key_to_bytes b := b;
  leansig_secret_key_from_bytes b := Some b;
  leansig_verify pk slot message sig := bool_decide (sig = be_bytes 4 slot ++ H256_bytes message ++ pk ++ signature_padding);
  leansig_sign sk slot message := Some (be_bytes 4 slot ++ H256_bytes message ++ sk ++ signature_padding);
|}.

#[program] Definition reference_scheme_laws : @SignatureSchemeLaws reference_scheme :=
  {| leansig_public := λ sk, sk |}.
Next Obligation. done. Qed.
Next Obligation. done. Qed.
Next Obligation. intros sk slot message s [= <-]. by apply bool_decide_eq_true. Qed.

(** An aggregation scheme: the aggregate lists the signatures. *)
Fixpoint verify_all (slot : N) (message : H256) (pks sigs : list bytes) : bool :=
  match pks, sigs with
  | [], [] => true
  | pk :: pks, sig :: sigs =>
      leansig_verify (SignatureScheme := reference_scheme) pk slot message sig && verify_all slot message pks sigs
  | _, _ => false
  end.

Definition reference_multisig : @MultisigScheme reference_scheme :=
  @Build_MultisigScheme reference_scheme (list bytes) unit unit
    (λ (pks sigs : list bytes) message slot, inr sigs)
    (λ (pks : list bytes) message (sigs : list bytes) slot,
       if verify_all slot message pks sigs then inr tt else inl tt) serial_ssz.

Lemma reference_multisig_laws : @MultisigLaws reference_scheme reference_multisig.
Proof.
  split; [apply serial_ssz_laws|]. intros pks sigs message slot aggregate Hall [= <-]. cbn.
  enough (verify_all slot message pks sigs = true) as -> by done.
  induction Hall as [|pk sig pks sigs Hv _ IH]; [done|]. cbn [verify_all]. by rewrite Hv, IH.
Qed.

(** * A sorted backend

    The in-memory tables, listed in the order of the keys: the iteration order of a sorted
    key-value store. *)

Section sorted.
Context `{HOL : HashOrderLaws}.

Definition entry_le (x y : bytes * bytes) : Prop := bytes_le x.1 y.1 = true.

#[local] Instance entry_le_dec : RelDecision entry_le.
Proof. intros x y. unfold entry_le. apply _. Defined.

Lemma bytes_le_total x y : bytes_le x y = true ∨ bytes_le y x = true.
Proof.
  revert y. induction x as [|a x IH]; intros [|b y]; cbn; auto.
  destruct (N.lt_trichotomy (Byte.to_N a) (Byte.to_N b)) as [?|[Heq|?]].
  - left. by rewrite (proj2 (N.ltb_lt _ _)).
  - apply byte_inj in Heq as ->. rewrite N.ltb_irrefl, bool_decide_eq_true_2 by done. cbn. apply IH.
  - right. by rewrite (proj2 (N.ltb_lt _ _)).
Qed.

Lemma bytes_le_trans x y z : bytes_le x y = true → bytes_le y z = true → bytes_le x z = true.
Proof.
  revert y z. induction x as [|a x IH]; intros [|b y] [|c z]; cbn; try done.
  rewrite !orb_true_iff, !andb_true_iff, !N.ltb_lt, !bool_decide_eq_true.
  intros [?|[-> ?]] [?|[-> ?]]; [left; lia|left; lia|left; lia|right; split; [done|by eapply IH]].
Qed.

Definition sorted_prefix_iterator (data : StorageData) (table : Table) (prefix : bytes) :
    partial (list (option (bytes * bytes))) :=
  items ← in_memory_prefix_iterator data table prefix;
  Return (Some <$> merge_sort entry_le (omap (M := list) id items)).

Definition sorted_backend : StorageBackend StorageData PendingOps := {|
  begin_write := λ _, Return ∅;
  view_get := in_memory_get;
  prefix_iterator := sorted_prefix_iterator;
  put_batch := in_memory_put_batch;
  delete_batch := in_memory_delete_batch;
  batch_commit := in_memory_commit;
|}.

Lemma omap_id_Some {A} (l : list A) : omap (M := list) id (Some <$> l) = l.
Proof. induction l as [|x l IH]; [done|]. cbn. f_equal. apply IH. Qed.

#[program] Definition sorted_laws : @StorageLaws StorageData PendingOps sorted_backend := {|
  db_ok := in_memory_ok;
  contents := in_memory_contents;
  pending := in_memory_pending;
  batch_of := λ _ _, True;
|}.
Next Obligation. intros d Hok. apply (begin_write_spec (StorageLaws := in_memory_laws) d Hok). Qed.
Next Obligation. intros d t k Hok. apply (view_get_spec (StorageLaws := in_memory_laws) d t k Hok). Qed.
Next Obligation.
  intros d t prefix Hok. destruct (prefix_iterator_spec (StorageLaws := in_memory_laws) d t prefix Hok)
    as (l & Hrun & Hnd & Hl).
  exists (merge_sort entry_le l). cbn in Hrun |- *. unfold sorted_prefix_iterator.
  rewrite Hrun. cbn [mbind partial_bind]. rewrite omap_id_Some. split; [done|].
  rewrite (merge_sort_Permutation entry_le l). split; [done|]. intros k v.
  rewrite (merge_sort_Permutation entry_le l). apply Hl.
Qed.
Next Obligation. intros d b t e. apply (put_batch_spec (StorageLaws := in_memory_laws) d b t e). Qed.
Next Obligation. intros d b t ks. apply (delete_batch_spec (StorageLaws := in_memory_laws) d b t ks). Qed.
Next Obligation. intros b d Hok Hof. apply (batch_commit_spec (StorageLaws := in_memory_laws) b d Hok Hof). Qed.

Lemma sorted_backend_sorted : @SortedBackend StorageData PendingOps sorted_backend.
Proof.
  intros d t prefix items Hrun. cbn in Hrun. unfold sorted_prefix_iterator in Hrun.
  destruct (in_memory_prefix_iterator d t prefix) as [l| |]; [|done..].
  cbn in Hrun. injection Hrun as Hrun. apply (f_equal (omap (M := list) id)) in Hrun.
  rewrite !omap_id_Some in Hrun. rewrite <- Hrun.
  change (StronglySorted entry_le (merge_sort entry_le (omap (M := list) id l))).
  apply Sorted_StronglySorted; [intros x y z; apply bytes_le_trans|].
  apply Sorted_merge_sort. intros x y. apply bytes_le_total.
Qed.

End sorted.
