(* ===== verification/RocksDB.v ===== *)
(** The RocksDB backend (crates/storage/src/backend/rocksdb.rs): the library it calls as a
    type class, its operations, and the proofs that it keeps the contract of [StorageLaws],
    lists keys in order, and agrees with the in-memory backend. *)

From Stdlib Require Import Strings.Byte.
From S2P Require Import Prelude Types Reference Keys Backend InMemory Signatures PayloadBuffer Store StoreSpec StoreOps StorePruning Codec.

(** * The library

    An [Err] of the library is [None]. [Disk] is what is stored at the path of the database. *)
Class RocksDBLib := {
  Disk : Type;
  DB : Type;
  ColumnFamily : Type;
  WriteBatch : Type;
  cf_eq_dec :: EqDecision ColumnFamily;
  open_cf_descriptors : Disk → list string → option DB;
  cf_handle : DB → string → option ColumnFamily;
  get_cf : DB → ColumnFamily → bytes → option (option bytes);
  prefix_iterator_cf : DB → ColumnFamily → bytes → list (option (bytes * bytes));
  property_int_value_cf : DB → ColumnFamily → string → option (option u64);
  WriteBatch_default : WriteBatch;
  put_cf : WriteBatch → ColumnFamily → bytes → bytes → WriteBatch;
  delete_cf : WriteBatch → ColumnFamily → bytes → WriteBatch;
  write_opt : DB → WriteBatch → option DB;
}.

(** One operation of a batch: the column family, the key, and the value of a put. *)
Abbreviation batch_op cf := (cf * bytes * option bytes)%type.

(** The effect of an operation on the column family [cf]. *)
Definition apply_op `{EqDecision CF} (cf : CF) (m : gmap bytes bytes) (op : batch_op CF) : gmap bytes bytes :=
  if decide (op.1.1 = cf) then match op.2 with Some v => <[op.1.2 := v]> m | None => delete op.1.2 m end else m.

(** Its documented behaviour. A database without I/O errors ([healthy]) has maps for column
    families; opening creates the missing ones; a batch is applied in order and at once.
    Without a prefix extractor, a prefix iterator starts at the first key that is not below
    the prefix and goes on in bytewise order, past the keys with the prefix. *)
Class RocksDBLaws `{RocksDBLib} := {
  healthy : DB → Prop;
  cf_contents : DB → ColumnFamily → gmap bytes bytes;
  batch_ops : WriteBatch → list (batch_op ColumnFamily);
  open_families disk names db : open_cf_descriptors disk names = Some db → ∀ n, n ∈ names → is_Some (cf_handle db n);
  cf_handle_inj db n m cf : cf_handle db n = Some cf → cf_handle db m = Some cf → n = m;
  get_cf_spec db cf k : healthy db → get_cf db cf k = Some (cf_contents db cf !! k);
  iterator_healthy db cf p : healthy db → ∃ items, prefix_iterator_cf db cf p = Some <$> items ∧ NoDup items.*1 ∧
    (∀ k v, (k, v) ∈ items → cf_contents db cf !! k = Some v ∧ bytes_le p k = true) ∧
    (∀ k v, cf_contents db cf !! k = Some v → p `prefix_of` k → (k, v) ∈ items);
  iterator_sorted db cf p : StronglySorted entry_le (omap (M := list) id (prefix_iterator_cf db cf p));
  batch_default : batch_ops WriteBatch_default = [];
  batch_put b cf k v : batch_ops (put_cf b cf k v) = batch_ops b ++ [(cf, k, Some v)];
  batch_delete b cf k : batch_ops (delete_cf b cf k) = batch_ops b ++ [(cf, k, None)];
  write_opt_spec db b : healthy db → ∃ db', write_opt db b = Some db' ∧ healthy db' ∧
    (∀ n, cf_handle db' n = cf_handle db n) ∧
    ∀ n cf, cf_handle db n = Some cf → cf_contents db' cf = foldl (apply_op cf) (cf_contents db cf) (batch_ops b);
}.

(** * The backend *)

Section rocksdb.
Context `{RL : RocksDBLib}.

Definition cf_name (table : Table) : string :=
  match table with
  | BlockHeaders => "block_headers"
  | BlockBodies => "block_bodies"
  | BlockSignatures_ => "block_signatures"
  | States => "states"
  | GossipSignatures => "gossip_signatures"
  | AttestationDataByRoot => "attestation_data_by_root"
  | Metadata => "metadata"
  | LiveChain => "live_chain"
  end.

(** [RocksDBBackend::open]; the backend and the read view hold the database itself. *)
Definition RocksDBBackend_open (disk : Disk) : option DB :=
  open_cf_descriptors disk (cf_name <$> ALL_TABLES).

Definition estimate_table_bytes (db : DB) (table : Table) : u64 :=
  match cf_handle db (cf_name table) with
  | None => to_u64 0
  | Some cf =>
      let sst_bytes := default (to_u64 0) (mjoin (property_int_value_cf db cf "rocksdb.estimate-live-data-size")) in
      let memtable_bytes := default (to_u64 0) (mjoin (property_int_value_cf db cf "rocksdb.cur-size-all-mem-tables")) in
      wrapping_add sst_bytes memtable_bytes
  end.

(** ** Reading *)

Definition rocksdb_get (db : DB) (table : Table) (key : bytes) : option (option bytes) :=
  cf ← cf_handle db (cf_name table);
  get_cf db cf key.

(** [Iterator::take_while] *)
Fixpoint take_while {A} (f : A → bool) (l : list A) : list A :=
  match l with
  | [] => []
  | x :: l => if f x then x :: take_while f l else []
  end.

Definition starts_with_prefix (prefix : bytes) (result : option (bytes * bytes)) : bool :=
  match result with
  | Some (key, _) => bool_decide (prefix `prefix_of` key)
  | None => true
  end.

Definition rocksdb_prefix_iterator (db : DB) (table : Table) (prefix : bytes) : option (list (option (bytes * bytes))) :=
  cf ← cf_handle db (cf_name table);
  Some (take_while (starts_with_prefix prefix) (prefix_iterator_cf db cf prefix)).

(** ** Writing: a batch shares the database with the backend. *)

Record RocksDBWriteBatch := mk_write_batch { wb_db : DB; wb_batch : WriteBatch }.

Definition rocksdb_put_batch (b : RocksDBWriteBatch) (table : Table) (batch : list (bytes * bytes)) : option RocksDBWriteBatch :=
  cf ← cf_handle (wb_db b) (cf_name table);
  Some (mk_write_batch (wb_db b) (foldl (λ b '(key, value), put_cf b cf key value) (wb_batch b) batch)).

Definition rocksdb_delete_batch (b : RocksDBWriteBatch) (table : Table) (keys : list bytes) : option RocksDBWriteBatch :=
  cf ← cf_handle (wb_db b) (cf_name table);
  Some (mk_write_batch (wb_db b) (foldl (λ b key, delete_cf b cf key) (wb_batch b) keys)).

(** [commit], on the present state [db] of the shared database. *)
Definition rocksdb_commit (b : RocksDBWriteBatch) (db : DB) : option DB := write_opt db (wb_batch b).

#[export] Instance rocksdb_backend : StorageBackend DB RocksDBWriteBatch := {|
  begin_write := λ db, Return (mk_write_batch db WriteBatch_default);
  view_get := λ db t k, expect_some (rocksdb_get db t k);
  prefix_iterator := λ db t p, expect_some (rocksdb_prefix_iterator db t p);
  put_batch := λ b t entries, expect_some (rocksdb_put_batch b t entries);
  delete_batch := λ b t keys, expect_some (rocksdb_delete_batch b t keys);
  batch_commit := λ b db, expect_some (rocksdb_commit b db);
|}.

End rocksdb.

(** * Prefixes in bytewise order *)

(** Between a prefix and a key that has it there are only keys that have it. *)
Lemma prefix_interval p k k' : bytes_le p k = true → bytes_le k k' = true → p `prefix_of` k' → p `prefix_of` k.
Proof.
  revert k k'. induction p as [|a p IH]; intros k k' Hp Hk [r ->]; [apply prefix_nil|].
  destruct k as [|b k]; [done|]. cbn in Hp, Hk. rewrite orb_true_iff, andb_true_iff, N.ltb_lt, bool_decide_eq_true in Hp, Hk.
  destruct Hp as [Hlt|[-> Hp]], Hk as [Hlt'|[Heq Hk]]; subst; try lia. apply prefix_cons, (IH k (p ++ r)); [done..|by exists r].
Qed.

(** So the keys with the prefix come first. *)
Lemma take_while_prefix p (items : list (bytes * bytes)) :
  StronglySorted entry_le items → Forall (λ kv, bytes_le p kv.1 = true) items →
  take_while (starts_with_prefix p) (Some <$> items) = Some <$> filter (λ kv, p `prefix_of` kv.1) items.
Proof.
  induction 1 as [|[k v] items Hs IH Hall]; intros Hge; [done|]. apply Forall_cons in Hge as [Hk Hge].
  cbn [fmap list_fmap take_while starts_with_prefix]. case_bool_decide as Hp.
  - rewrite filter_cons_True by done. cbn [fmap list_fmap]. f_equal. by apply IH.
  - rewrite filter_cons_False by done. assert (Hnone : filter (λ kv : bytes * bytes, p `prefix_of` kv.1) items = []); [|by rewrite Hnone].
    clear IH Hge. induction Hall as [|kv items Hle _ IH]; [done|]. rewrite filter_cons_False; [|].
    + apply IH. by apply StronglySorted_inv in Hs as [].
    + intros Hkv. apply Hp. by apply (prefix_interval p k kv.1).
Qed.

Lemma take_while_sublist {A} (f : A → bool) l : ∃ r, l = take_while f l ++ r.
Proof.
  induction l as [|x l [r IH]]; [by exists []|]. cbn. destruct (f x); [|by exists (x :: l)].
  exists r. cbn. by rewrite <- IH.
Qed.

(** * The contract *)

Section contract.
Context `{RL : RocksDBLaws}.
Implicit Types (db : DB) (b : RocksDBWriteBatch) (t : Table).

#[export] Instance cf_name_inj : Inj (=) (=) cf_name.
Proof. intros [] []; by intros. Qed.

Definition rocksdb_ok db : Prop := healthy db ∧ ∀ t, is_Some (cf_handle db (cf_name t)).

Definition rocksdb_contents db t : gmap bytes bytes :=
  match cf_handle db (cf_name t) with Some cf => cf_contents db cf | None => ∅ end.

(** The last operation of the batch on each key of a column family. *)
Definition family_pending (cf : ColumnFamily) (ops : list (batch_op ColumnFamily)) : gmap bytes (option bytes) :=
  foldl (λ o op, if decide (op.1.1 = cf) then <[op.1.2 := op.2]> o else o) ∅ ops.
Definition rocksdb_pending b t : gmap bytes (option bytes) :=
  match cf_handle (wb_db b) (cf_name t) with Some cf => family_pending cf (batch_ops (wb_batch b)) | None => ∅ end.

(** A batch of [db]: its handles are those of [db], and all tables have one. *)
Definition rocksdb_batch_of db b : Prop :=
  (∀ n, cf_handle db n = cf_handle (wb_db b) n) ∧ ∀ t, is_Some (cf_handle db (cf_name t)).

Lemma open_ok disk db : RocksDBBackend_open disk = Some db → healthy db → rocksdb_ok db.
Proof.
  intros Hopen Hh. split; [done|]. intros t. apply (open_families _ _ _ Hopen), list_elem_of_fmap. exists t. split; [done|].
  destruct t; apply (bool_decide_unpack _); by vm_compute.
Qed.

Lemma put_ops cf entries wb :
  batch_ops (foldl (λ wb '(k, v), put_cf wb cf k v) wb entries) = batch_ops wb ++ ((λ e, (cf, e.1, Some e.2)) <$> entries).
Proof.
  revert wb. induction entries as [|[k v] entries IH]; intros wb; cbn; [by rewrite app_nil_r|].
  by rewrite IH, batch_put, <- (assoc_L (++)).
Qed.

Lemma delete_ops cf keys wb :
  batch_ops (foldl (λ wb k, delete_cf wb cf k) wb keys) = batch_ops wb ++ ((λ k, (cf, k, None)) <$> keys).
Proof.
  revert wb. induction keys as [|k keys IH]; intros wb; cbn; [by rewrite app_nil_r|].
  by rewrite IH, batch_delete, <- (assoc_L (++)).
Qed.

Lemma family_pending_snoc cf ops cf' k r :
  family_pending cf (ops ++ [(cf', k, r)]) = if decide (cf' = cf) then <[k := r]> (family_pending cf ops) else family_pending cf ops.
Proof. unfold family_pending. by rewrite foldl_app. Qed.

Lemma family_pending_puts cf cf' entries ops :
  family_pending cf (ops ++ ((λ e : bytes * bytes, (cf', e.1, Some e.2)) <$> entries)) =
    if decide (cf' = cf) then put_pending entries (family_pending cf ops) else family_pending cf ops.
Proof.
  induction entries as [|[k v] entries IH] using rev_ind; [rewrite app_nil_r; by destruct (decide _)|].
  rewrite fmap_app, (assoc_L (++)). cbn [fmap list_fmap]. rewrite family_pending_snoc, IH.
  destruct (decide (cf' = cf)); [|done]. unfold put_pending. by rewrite foldl_app.
Qed.

Lemma family_pending_deletes cf cf' keys ops :
  family_pending cf (ops ++ ((λ k : bytes, (cf', k, None)) <$> keys)) =
    if decide (cf' = cf) then delete_pending keys (family_pending cf ops) else family_pending cf ops.
Proof.
  induction keys as [|k keys IH] using rev_ind; [rewrite app_nil_r; by destruct (decide _)|].
  rewrite fmap_app, (assoc_L (++)). cbn [fmap list_fmap]. rewrite family_pending_snoc, IH.
  destruct (decide (cf' = cf)); [|done]. unfold delete_pending. by rewrite foldl_app.
Qed.

(** Operations in sequence are the pending ones at once. *)
Lemma apply_family_pending (cf : ColumnFamily) (ops : list (batch_op ColumnFamily)) (m : gmap bytes bytes) : foldl (apply_op cf) m ops = apply_pending (family_pending cf ops) m.
Proof.
  induction ops as [|[[cf' k] r] ops IH] using rev_ind; [by rewrite apply_pending_empty|].
  rewrite foldl_app, family_pending_snoc. cbn [foldl]. rewrite IH. unfold apply_op. cbn.
  destruct (decide (cf' = cf)); [|done]. unfold apply_pending. apply map_eq. intros k'. rewrite lookup_merge.
  destruct (decide (k = k')) as [->|Hne]; destruct r; rewrite ?lookup_insert_eq, ?lookup_delete_eq, ?lookup_insert_ne, ?lookup_delete_ne, ?lookup_merge by done;
    by destruct (m !! k').
Qed.

(** Writing to a table leaves the other tables alone. *)
Lemma pending_written db b wb t t' cf f :
  rocksdb_batch_of db b → cf_handle (wb_db b) (cf_name t) = Some cf →
  (∀ cf', family_pending cf' (batch_ops wb) =
    if decide (cf = cf') then f (family_pending cf' (batch_ops (wb_batch b))) else family_pending cf' (batch_ops (wb_batch b))) →
  rocksdb_pending (mk_write_batch (wb_db b) wb) t' = on_table t t' f (rocksdb_pending b t').
Proof.
  intros [Hsame Hall] Hcf Hf. unfold rocksdb_pending, on_table. cbn [wb_db wb_batch].
  destruct (Hall t') as [cf' Hcf']. rewrite Hsame in Hcf'. rewrite Hcf', Hf.
  destruct (decide (cf = cf')) as [->|Hne], (decide (t' = t)) as [->|Hne']; [done| | |done].
  - destruct Hne'. apply (inj cf_name). by apply (cf_handle_inj (wb_db b) _ _ cf').
  - congruence.
Qed.

#[export] Program Instance rocksdb_laws : StorageLaws DB RocksDBWriteBatch := {|
  db_ok := rocksdb_ok;
  contents := rocksdb_contents;
  pending := rocksdb_pending;
  batch_of := rocksdb_batch_of;
|}.
Next Obligation.
  intros db [_ Hall]. eexists. split; [done|]. split; [by split|]. intros t. unfold rocksdb_pending. cbn. rewrite batch_default.
  by destruct (cf_handle _ _).
Qed.
Next Obligation.
  intros db t k [Hh Hall]. cbn. unfold rocksdb_get, rocksdb_contents. destruct (Hall t) as [cf ->]. cbn. by rewrite get_cf_spec.
Qed.
Next Obligation.
  intros db t p [Hh Hall]. cbn. unfold rocksdb_prefix_iterator, rocksdb_contents. destruct (Hall t) as [cf ->]. cbn.
  destruct (iterator_healthy db cf p Hh) as (items & Hitems & Hnd & Hin & Hall').
  pose proof (iterator_sorted db cf p) as Hs. rewrite Hitems in Hs |- *. rewrite omap_id_Some in Hs.
  rewrite (take_while_prefix p items Hs); [|by apply Forall_forall; intros [k v] [_ Hle]%Hin].
  eexists. split; [done|]. split.
  - eapply sublist_NoDup; [exact Hnd|]. apply fmap_sublist, sublist_filter.
  - intros k v. rewrite list_elem_of_filter. cbn. split; [by intros [? [? _]%Hin]|]. intros [Hk Hp]. split; [done|by apply Hall'].
Qed.
Next Obligation.
  intros db b t entries Hof. cbn. unfold rocksdb_put_batch. pose proof Hof as [Hsame Hall]. destruct (Hall t) as [cf Hcf]. rewrite Hsame in Hcf.
  rewrite Hcf. cbn. eexists. split; [done|]. split; [by split|]. intros t'. apply (pending_written db b _ t t' cf); [done..|].
  intros cf'. rewrite put_ops. apply family_pending_puts.
Qed.
Next Obligation.
  intros db b t keys Hof. cbn. unfold rocksdb_delete_batch. pose proof Hof as [Hsame Hall]. destruct (Hall t) as [cf Hcf]. rewrite Hsame in Hcf.
  rewrite Hcf. cbn. eexists. split; [done|]. split; [by split|]. intros t'. apply (pending_written db b _ t t' cf); [done..|].
  intros cf'. rewrite delete_ops. apply family_pending_deletes.
Qed.
Next Obligation.
  intros b db [Hh Hall] [Hsame _]. cbn. unfold rocksdb_commit.
  destruct (write_opt_spec db (wb_batch b) Hh) as (db' & Hrun & Hh' & Hcf & Hc). rewrite Hrun. exists db'. split; [done|].
  split; [split; [done|]; intros t; by rewrite Hcf|]. intros t. unfold rocksdb_contents, rocksdb_pending. rewrite Hcf, <- Hsame.
  destruct (cf_handle db (cf_name t)) as [cf|] eqn:Hn; [by rewrite (Hc _ _ Hn), apply_family_pending|by rewrite apply_pending_empty].
Qed.

(** Keys come in order, whatever happens on the disk. *)
#[export] Instance rocksdb_sorted : SortedBackend DB RocksDBWriteBatch.
Proof.
  intros db t p items. cbn. unfold rocksdb_prefix_iterator. destruct (cf_handle _ _) as [cf|]; [|done]. cbn. intros [= Hitems].
  destruct (take_while_sublist (starts_with_prefix p) (prefix_iterator_cf db cf p)) as [r Hr].
  pose proof (iterator_sorted db cf p) as Hs. rewrite Hr, Hitems, omap_app, omap_id_Some in Hs. by apply StronglySorted_app_1_l in Hs.
Qed.
End contract.

(** * Two backends *)

Section agreement.
Context `{SL1 : StorageLaws D1 B1} `{SL2 : StorageLaws D2 B2}.

Definition same_contents (d1 : D1) (d2 : D2) : Prop := db_ok d1 ∧ db_ok d2 ∧ ∀ t, contents d1 t = contents d2 t.

Lemma commits_agree (batches : list (list table_write)) : ∀ (d1 : D1) (d2 : D2), same_contents d1 d2 →
  ∃ d1' d2', fold_partial (λ d ws, commit_writes ws d) d1 batches = Return d1' ∧
    fold_partial (λ d ws, commit_writes ws d) d2 batches = Return d2' ∧ same_contents d1' d2'.
Proof.
  induction batches as [|ws batches IH]; intros d1 d2 Hsame; [by exists d1, d2|]. pose proof Hsame as (H1 & H2 & Heq). cbn [fold_partial].
  destruct (commit_writes_spec ws d1 H1) as (d1' & Hrun1 & Hok1 & Hc1). destruct (commit_writes_spec ws d2 H2) as (d2' & Hrun2 & Hok2 & Hc2).
  destruct (IH d1' d2') as (e1 & e2 & Hr1 & Hr2 & He); [split_and!; [done..|]; intros t; by rewrite Hc1, Hc2, Heq|].
  exists e1, e2. rewrite Hrun1, Hrun2. by split_and!.
Qed.

Lemma reads_agree (d1 : D1) (d2 : D2) : same_contents d1 d2 →
  (∀ t k, view_get d1 t k = view_get d2 t k) ∧
  ∀ t p, ∃ l1 l2, prefix_iterator d1 t p = Return (Some <$> l1) ∧ prefix_iterator d2 t p = Return (Some <$> l2) ∧ l1 ≡ₚ l2.
Proof.
  intros (H1 & H2 & Heq). split; [intros t k; by rewrite !view_get_spec, Heq|]. intros t p.
  destruct (prefix_iterator_spec d1 t p H1) as (l1 & Hrun1 & Hnd1 & Hl1).
  destruct (prefix_iterator_spec d2 t p H2) as (l2 & Hrun2 & Hnd2 & Hl2). exists l1, l2. split_and!; [done..|].
  apply NoDup_Permutation; [by eapply NoDup_fmap_1|by eapply NoDup_fmap_1|]. intros [k v]. by rewrite Hl1, Hl2, Heq.
Qed.
End agreement.

(** * Theorems *)

Section theorems.
Context `{RL : RocksDBLaws} `{HOL : HashOrderLaws}.

(** The prefix iterator of the backend, whose [take_while] stops at the first other key, lists
    exactly the entries of the table under the prefix, each once, in the bytewise order of
    their keys, although the library's iterator goes on past them. *)
Theorem rocksdb_prefix_iterator_correct disk db t prefix :
  RocksDBBackend_open disk = Some db → healthy db →
  ∃ items, rocksdb_prefix_iterator db t prefix = Some (Some <$> items) ∧ NoDup items.*1 ∧ StronglySorted entry_le items ∧
    ∀ k v, (k, v) ∈ items ↔ rocksdb_get db t k = Some (Some v) ∧ prefix `prefix_of` k.
Proof.
  intros Hopen Hh. pose proof (open_ok disk db Hopen Hh) as Hok.
  destruct (prefix_iterator_spec (StorageLaws := rocksdb_laws) db t prefix Hok) as (items & Hrun & Hnd & Hin). exists items.
  pose proof (prefix_iterator_sorted db t prefix items Hrun) as Hs. cbn in Hrun.
  destruct (rocksdb_prefix_iterator db t prefix) as [l|]; [|done]. injection Hrun as ->. split_and!; [done..|].
  intros k v. rewrite Hin. pose proof (view_get_spec (StorageLaws := rocksdb_laws) db t k Hok) as Hget. cbn in Hget.
  destruct (rocksdb_get db t k) as [o|]; [|done]. injection Hget as ->.
  change (contents db t) with (rocksdb_contents db t). split; (intros [Hv Hp]; split; [congruence|done]).
Qed.

(** C21. The two backends are interchangeable: a freshly opened database without entries and the
    in-memory backend, after any sequence of committed batches, give the same answer for
    every key, and iterators with the same entries, in order on RocksDB. No operation fails. *)
Theorem rocksdb_agrees_with_memory disk db batches :
  RocksDBBackend_open disk = Some db → healthy db → (∀ t k, rocksdb_get db t k = Some None) →
  ∃ db' data', fold_partial (λ d ws, commit_writes ws d) db batches = Return db' ∧
    fold_partial (λ d ws, commit_writes ws d) InMemoryBackend_new batches = Return data' ∧
    (∀ t k, expect_some (rocksdb_get db' t k) = in_memory_get data' t k) ∧
    ∀ t p, ∃ l l', rocksdb_prefix_iterator db' t p = Some (Some <$> l) ∧
      in_memory_prefix_iterator data' t p = Return (Some <$> l') ∧ l ≡ₚ l' ∧ StronglySorted entry_le l.
Proof.
  intros Hopen Hh Hempty. pose proof (open_ok disk db Hopen Hh) as Hok.
  assert (Hsame : same_contents (SL1 := rocksdb_laws) (SL2 := in_memory_laws) db InMemoryBackend_new).
  { split_and!; [done|apply in_memory_new_ok|]. intros t.
    change (rocksdb_contents db t = in_memory_contents InMemoryBackend_new t). rewrite in_memory_new_empty.
    apply map_eq. intros k. rewrite lookup_empty. pose proof (view_get_spec (StorageLaws := rocksdb_laws) db t k Hok) as Hget. cbn in Hget.
    rewrite Hempty in Hget. by injection Hget. }
  destruct (commits_agree batches db InMemoryBackend_new Hsame) as (db' & data' & Hrun & Hrun' & Hsame').
  exists db', data'. split_and!; [done..| |].
  - apply (reads_agree db' data' Hsame').
  - intros t p. destruct (proj2 (reads_agree db' data' Hsame') t p) as (l & l' & Hl & Hl' & Hperm). exists l, l'.
    pose proof (prefix_iterator_sorted db' t p l Hl) as Hs. cbn in Hl. destruct (rocksdb_prefix_iterator db' t p) as [x|]; [|done].
    injection Hl as ->. by split_and!.
Qed.
End theorems.

(** * A reference library

    Maps of column families; iterators run to the end of the family. *)

#[local] Instance entry_le_decision : RelDecision entry_le.
Proof. intros x y. unfold entry_le. apply _. Defined.

Definition reference_entries (p : bytes) (m : gmap bytes bytes) : list (bytes * bytes) :=
  filter (λ kv, bytes_le p kv.1 = true) (merge_sort entry_le (map_to_list m)).

Definition reference_rocksdb : RocksDBLib := {|
  Disk := gmap string (gmap bytes bytes);
  DB := gmap string (gmap bytes bytes);
  ColumnFamily := string;
  WriteBatch := list (batch_op string);
  open_cf_descriptors disk names := Some (foldr (λ n db, <[n := default ∅ (disk !! n)]> db) disk names);
  cf_handle db n := n' ← guard (is_Some (db !! n)); Some n;
  get_cf db cf k := Some (default ∅ (db !! cf) !! k);
  prefix_iterator_cf db cf p := Some <$> reference_entries p (default ∅ (db !! cf));
  property_int_value_cf db cf name := Some None;
  WriteBatch_default := [];
  put_cf b cf k v := b ++ [(cf, k, Some v)];
  delete_cf b cf k := b ++ [(cf, k, None)];
  write_opt db b := Some (map_imap (λ n m, Some (foldl (apply_op n) m b)) db);
|}.

Lemma prefix_bytes_le p k : p `prefix_of` k → bytes_le p k = true.
Proof.
  intros [r ->]. induction p as [|a p IH]; [done|]. cbn. by rewrite bool_decide_eq_true_2, IH, orb_true_r.
Qed.

Lemma reference_entries_spec p m k v : (k, v) ∈ reference_entries p m ↔ m !! k = Some v ∧ bytes_le p k = true.
Proof. unfold reference_entries. rewrite list_elem_of_filter, (merge_sort_Permutation entry_le), elem_of_map_to_list. cbn. tauto. Qed.

Lemma StronglySorted_filter {A} (R : A → A → Prop) (P : A → Prop) `{∀ x, Decision (P x)} l :
  StronglySorted R l → StronglySorted R (filter P l).
Proof.
  induction 1 as [|x l _ IH Hx]; [constructor|]. rewrite filter_cons. destruct (decide (P x)); [|done].
  constructor; [done|]. apply Forall_forall. intros y [_ Hy]%list_elem_of_filter. by eapply Forall_forall in Hx.
Qed.

#[program] Definition reference_rocksdb_laws : @RocksDBLaws reference_rocksdb := {|
  healthy _ := True;
  cf_contents db cf := default ∅ (db !! cf);
  batch_ops b := b;
|}.
Next Obligation.
  cbn. intros disk names db [= <-] n Hin. rewrite option_guard_True; [by eexists|].
  induction names as [|n' names IH]; [by apply not_elem_of_nil in Hin|]. cbn. destruct (decide (n' = n)) as [->|Hne].
  - rewrite lookup_insert_eq. by eexists.
  - rewrite lookup_insert_ne by done. apply IH. by apply elem_of_cons in Hin as [->|].
Qed.
Next Obligation. cbn. intros db n m cf. repeat case_guard; cbn; try done. congruence. Qed.
Next Obligation. done. Qed.
Next Obligation.
  cbn. intros db cf p _. eexists. split; [done|]. split; [|split].
  - eapply sublist_NoDup; [|apply fmap_sublist, sublist_filter]. rewrite merge_sort_Permutation. apply NoDup_fst_map_to_list.
  - intros k v. apply reference_entries_spec.
  - intros k v Hk Hp. apply reference_entries_spec. split; [done|by apply prefix_bytes_le].
Qed.
Next Obligation.
  cbn. intros db cf p. rewrite omap_id_Some. unfold reference_entries. apply StronglySorted_filter.
  apply Sorted_StronglySorted; [intros x y z; apply bytes_le_trans|]. apply Sorted_merge_sort. intros x y. apply bytes_le_total.
Qed.
Next Obligation. done. Qed.
Next Obligation. done. Qed.
Next Obligation. done. Qed.
Next Obligation.
  cbn. intros db b _. eexists. split; [done|]. split; [done|]. split.
  - intros n. rewrite map_lookup_imap. by destruct (db !! n).
  - intros n cf. case_guard as Hn; cbn; [|done]. intros [= <-]. rewrite map_lookup_imap. by destruct Hn as [m ->].
Qed.

(** ** Two batches *)

Module RocksSample.

#[local] Existing Instances reference_rocksdb reference_rocksdb_laws reference_order canonical_order_laws.

(** A database at an empty directory. *)
Definition fresh : @DB reference_rocksdb :=
  foldr (λ n (db : gmap string (gmap bytes bytes)), <[n := ∅]> db) ∅ (cf_name <$> ALL_TABLES).

Lemma fresh_opens : RocksDBBackend_open (∅ : gmap string (gmap bytes bytes)) = Some fresh.
Proof. done. Qed.

Definition batches : list (list table_write) :=
  [[Put LiveChain [([x02; x01], [x0a]); ([x01; x09], [x0b])]; Put States [([x01], [x0c])]];
   [Put LiveChain [([x01; x02], [x0d]); ([x03], [x0e])]; Delete States [[x01]]; Delete LiveChain [[x02; x01]]]].

Lemma rocksdb_agrees_with_memory_witness : ∃ db' data',
  fold_partial (λ d ws, commit_writes ws d) fresh batches = Return db' ∧
  fold_partial (λ d ws, commit_writes ws d) InMemoryBackend_new batches = Return data' ∧
  expect_some (rocksdb_get db' LiveChain [x01; x09]) = in_memory_get data' LiveChain [x01; x09].
Proof.
  destruct (rocksdb_agrees_with_memory (RL := reference_rocksdb_laws) ∅ fresh batches fresh_opens I) as (db' & data' & Hrun & Hrun' & Hget & _).
  - intros t k. destruct t; reflexivity.
  - exists db', data'. split; [exact Hrun|split; [exact Hrun'|apply Hget]].
Defined.

(** A database that was written before: the live chain has three entries, two of them below
    the prefix 1. *)
Definition stored : gmap string (gmap bytes bytes) :=
  {[ "live_chain" := list_to_map [([x02; x01], [x0a]); ([x01; x09], [x0b]); ([x01; x02], [x0d])] ]}.
Definition reopened : @DB reference_rocksdb :=
  foldr (λ n (db : gmap string (gmap bytes bytes)), <[n := default ∅ (stored !! n)]> db) stored (cf_name <$> ALL_TABLES).

Lemma stored_opens : RocksDBBackend_open stored = Some reopened.
Proof. done. Qed.

Lemma rocksdb_prefix_iterator_correct_witness :
  rocksdb_prefix_iterator reopened LiveChain [x01] = Some [Some ([x01; x02], [x0d]); Some ([x01; x09], [x0b])] ∧
  ∃ items, rocksdb_prefix_iterator reopened LiveChain [x01] = Some (Some <$> items) ∧ StronglySorted entry_le items.
Proof.
  destruct (rocksdb_prefix_iterator_correct (RL := reference_rocksdb_laws) stored reopened LiveChain [x01] stored_opens I) as (items & Hrun & _ & Hs & _).
  split; [by vm_compute|]. exists items. split; [exact Hrun|exact Hs].
Defined.

End RocksSample.
