(* ===== verification/StoreMaintenance.v ===== *)
(** Checkpoint updates, retention windows, attestation extraction and initialization of
    the store. *)

From S2P Require Import Prelude Types Backend Keys Signatures PayloadBuffer Store StoreSpec StoreOps StorePruning.

Section maintenance.
Context `{SL : StorageLaws D B} `{CO : Codecs} {CL : CodecsLaws} `{HS : Hashing} `{SC : SignatureScheme}.
Context {E : Type}.
Implicit Types (s : Store D) (a : View).

(** * Checkpoints *)

(** What may be left of the live chain after pruning at slot [f]: entries at or above [f]
    stay, and a sorted backend drops all others. *)
Definition live_pruned (f : u64) (live live' : gmap (u64 * H256) H256) : Prop :=
  (∀ k v, live' !! k = Some v → live !! k = Some v) ∧
  (∀ k v, live !! k = Some v → f <= u64_val k.1 → live' !! k = Some v) ∧
  (SortedBackend D B → ∀ k v, live' !! k = Some v → f <= u64_val k.1).

Definition view_finalize (f : u64) (live' : gmap (u64 * H256) H256) (a : View) : View :=
  view_prune_data f (view_prune_gossip f (vset_live live' a)).

Lemma prune_keys_live_pruned (f : u64) live (keys : list (u64 * H256)) :
  (∀ k : u64 * H256, k ∈ keys → is_Some (live !! k) ∧ u64_val k.1 < f) →
  (SortedBackend D B → ∀ k : u64 * H256, is_Some (live !! k) → u64_val k.1 < f → k ∈ keys) →
  live_pruned f live (foldl (λ m k, delete k m) live keys).
Proof.
  intros Hin Hall. split_and!.
  - by intros k v [Hk _]%foldl_delete_lookup.
  - intros k v Hk Hle. apply foldl_delete_lookup. split; [done|].
    intros Hkeys. destruct (Hin k Hkeys) as [_ Hlt]. lia.
  - intros Hs k v [Hk Hno]%foldl_delete_lookup.
    destruct (N.lt_ge_cases k.1 f) as [Hlt|]; [|done].
    exfalso. apply Hno, Hall; [done| |done]. by rewrite Hk.
Qed.

(** Whether a checkpoint update advances finalization. *)
Definition advances (a : View) (c : ForkCheckpoints) : option u64 :=
  finalized ← fc_finalized c;
  if cp_slot (vw_finalized a) <? u64_val (cp_slot finalized) then Some (cp_slot finalized) else None.

Lemma update_checkpoints_refines s a c :
  represents s a →
  match advances a c with
  | Some f => ∃ live', live_pruned f (vw_live a) live' ∧
      implements (update_checkpoints c : M (Store D) E unit) s tt (view_finalize f live' (view_checkpoints c a))
  | None => implements (update_checkpoints c : M (Store D) E unit) s tt (view_checkpoints c a)
  end.
Proof.
  intros Hr. destruct (write_checkpoints_refines (E := E) s a c Hr) as (s1 & Hw & Hr1).
  assert (Hrun : (update_checkpoints c : M (Store D) E unit) s =
    match fc_finalized c with
    | Some finalized =>
        if cp_slot (vw_finalized a) <? u64_val (cp_slot finalized) then
          (prune_live_chain (cp_slot finalized);;
           prune_gossip_signatures (cp_slot finalized);;
           prune_attestation_data_by_root (cp_slot finalized);;
           mret tt : M (Store D) E unit) s1
        else Done s1 tt
    | None => Done s1 tt
    end).
  { unfold update_checkpoints. rewrite run_bind, run_reads, (latest_finalized_refines s a Hr).
    rewrite run_bind, Hw. by destruct (fc_finalized c) as [f|]; [destruct (_ <? _)|]. }
  unfold implements. rewrite Hrun. unfold advances.
  destruct (fc_finalized c) as [f|]; cbn [mbind option_bind]; [|by exists s1].
  destruct (cp_slot (vw_finalized a) <? u64_val (cp_slot f)); [|by exists s1].
  destruct (prune_live_chain_refines (E := E) s1 _ (cp_slot f) Hr1) as (keys & (s2 & Hp & Hr2) & Hin & Hall).
  exists (foldl (λ m k, delete k m) (vw_live a) keys).
  split; [by apply prune_keys_live_pruned|].
  destruct (prune_gossip_refines (E := E) s2 _ (cp_slot f) Hr2) as (s3 & Hp3 & Hr3).
  destruct (prune_data_refines (E := E) s3 _ (cp_slot f) Hr3) as (s4 & Hp4 & Hr4).
  exists s4. split; [|done]. by rewrite run_bind, Hp, run_bind, Hp3, run_bind, Hp4.
Qed.

(** * Retention windows *)

(** The roots beyond the newest [keep] blocks: each has [keep] blocks at least as new, none
    is protected, and at most [keep] unprotected blocks are left. *)
Record beyond_window (keep : nat) (protected : list H256) (headers : gmap H256 BlockHeader)
    (roots : list H256) : Prop := {
  bw_known r : r ∈ roots → is_Some (headers !! r);
  bw_protected r : r ∈ roots → r ∉ protected;
  bw_older r h : r ∈ roots → headers !! r = Some h →
    (keep < size (filter (λ kv : H256 * BlockHeader, (bh_slot h <= bh_slot kv.2)%N) headers))%nat;
  bw_newer r h : r ∉ roots → r ∉ protected → headers !! r = Some h →
    (size (filter (λ kv : H256 * BlockHeader, (bh_slot h < bh_slot kv.2)%N) headers) < keep)%nat;
  bw_left : (size (filter (λ kv : H256 * BlockHeader, (kv.1 ∉ roots) ∧ (kv.1 ∉ protected)) headers) <= keep)%nat;
}.

(** The window is the first [keep] entries of any list of the headers, newest first. *)
Lemma sorted_window keep protected headers (l : list (H256 * BlockHeader)) :
  l ≡ₚ map_to_list headers →
  StronglySorted (λ x y : H256 * BlockHeader, u64_val (bh_slot y.2) <= bh_slot x.2) l →
  beyond_window keep protected headers
    (filter (λ r, r ∉ protected) (drop keep l).*1).
Proof.
  intros Hperm Hsorted.
  assert (Hin : ∀ r h, (r, h) ∈ l ↔ headers !! r = Some h)
    by (intros r h; by rewrite Hperm, elem_of_map_to_list).
  assert (Hnd : NoDup l) by (rewrite Hperm; apply NoDup_map_to_list).
  rewrite <- (take_drop keep l) in Hsorted, Hnd. apply StronglySorted_app in Hsorted as (Hcut & _ & _).
  apply NoDup_app in Hnd as (Hnd1 & Hdis & _).
  assert (Hall : ∀ x, x ∈ l ↔ x ∈ take keep l ∨ x ∈ drop keep l)
    by (intros x; by rewrite <- elem_of_app, take_drop).
  split.
  - intros r [_ ([r' h] & -> & Hr)%list_elem_of_fmap]%list_elem_of_filter. cbn.
    exists h. apply Hin, Hall. by right.
  - by intros r [? _]%list_elem_of_filter.
  - intros r h [_ ([r' h'] & -> & Hr)%list_elem_of_fmap]%list_elem_of_filter Hh. cbn in Hh.
    assert (h' = h) as -> by (assert (headers !! r' = Some h') by (apply Hin, Hall; by right); congruence).
    apply (Nat.lt_le_trans _ (length ((r', h) :: take keep l))).
    { cbn. rewrite length_take_le; [lia|]. destruct (Nat.le_gt_cases keep (length l)) as [|Hlt]; [done|].
      rewrite drop_ge in Hr by lia. by apply not_elem_of_nil in Hr. }
    rewrite <- length_map_to_list. apply submseteq_length, NoDup_submseteq.
    { constructor; [|done]. intros Ht. by apply (Hdis _ Ht). }
    intros [r2 h2] [[= -> ->]|Ht]%elem_of_cons; rewrite elem_of_map_to_list, map_lookup_filter_Some; cbn.
    + split; [apply Hin, Hall; by right|done].
    + split; [apply Hin, Hall; by left|]. by apply (Hcut _ _ Ht Hr).
  - intros r h Hr Hp Hh.
    assert (Ht : (r, h) ∈ take keep l).
    { apply Hin, Hall in Hh as [|Hd]; [done|]. exfalso. apply Hr, list_elem_of_filter.
      split; [done|]. apply list_elem_of_fmap. by exists (r, h). }
    apply (Nat.le_trans _ (length (take keep l))); [|rewrite length_take; lia].
    rewrite <- length_map_to_list. set (newer := map_to_list _).
    apply (submseteq_length ((r, h) :: newer)), NoDup_submseteq.
    { constructor; [|apply NoDup_map_to_list]. unfold newer. rewrite elem_of_map_to_list, map_lookup_filter_Some. cbn. lia. }
    intros [r2 h2] [[= -> ->]|Ht2]%elem_of_cons; [done|].
    apply elem_of_map_to_list, map_lookup_filter_Some in Ht2 as [Hh2 Hlt]. cbn in Hlt.
    apply Hin, Hall in Hh2 as [|Hd]; [done|]. pose proof (Hcut _ _ Ht Hd) as Hle. cbn in Hle. lia.
  - apply (Nat.le_trans _ (length (take keep l))); [|rewrite length_take; lia].
    rewrite <- length_map_to_list. apply submseteq_length, NoDup_submseteq; [apply NoDup_map_to_list|].
    intros [r h]. rewrite elem_of_map_to_list, map_lookup_filter_Some. cbn. intros [Hh [Hr Hp]].
    apply Hin, Hall in Hh as [|Hd]; [done|]. exfalso. apply Hr, list_elem_of_filter.
    split; [done|]. apply list_elem_of_fmap. by exists (r, h).
Qed.

Lemma merge_sort_fmap_inv {A A'} (R : relation A') `{!RelDecision R} (f : A → A') (l : list A) :
  ∃ l', merge_sort R (f <$> l) = f <$> l' ∧ l' ≡ₚ l.
Proof.
  pose proof (merge_sort_Permutation R (f <$> l)) as Hp.
  apply (Permutation_map_inv _ _ (l1 := merge_sort R (f <$> l))) in Hp as (l' & Heq & Hp).
  by exists l'.
Qed.

Lemma prunable_keys_refines keep protected s a :
  represents s a →
  ∃ roots, prunable_keys keep protected s = Return (as_ssz_bytes <$> roots) ∧
    (roots = [] ∧ (size (vw_headers a) <= keep)%nat ∨
     beyond_window keep protected (vw_headers a) roots).
Proof.
  intros Hr. unfold prunable_keys.
  destruct (encoded_entries as_ssz_bytes as_ssz_bytes (vw_headers a) (s_backend s) BlockHeaders)
    as (l & Hrun & Hperm); [apply Hr|apply Hr|].
  rewrite Hrun. cbn [mbind partial_bind].
  rewrite (map_partial_fmap _ _ (λ kv : H256 * BlockHeader, (as_ssz_bytes kv.1, bh_slot kv.2))).
  2:{ intros kv _. by rewrite decode_encoded. }
  cbn [mbind partial_bind]. rewrite length_fmap.
  assert (Hsize : length l = size (vw_headers a)) by (by rewrite Hperm, length_map_to_list).
  destruct (Nat.leb_spec (length l) keep) as [Hle|Hgt].
  { exists []. split; [done|]. left. split; [done|]. lia. }
  destruct (merge_sort_fmap_inv slot_ge (λ kv : H256 * BlockHeader, (as_ssz_bytes kv.1, bh_slot kv.2)) l)
    as (l' & Hsort & Hperm').
  exists (filter (λ r, r ∉ protected) (drop keep l').*1). split.
  - rewrite Hsort. f_equal. rewrite <- fmap_drop, <- list_fmap_compose.
    generalize (drop keep l'). clear -CL. intros l. induction l as [|[r h] l IH]; [done|].
    rewrite !fmap_cons, !filter_cons. cbn [fst compose].
    assert (Hiff : bool_decide (as_ssz_bytes r ∈ (list_to_set (as_ssz_bytes <$> protected) : gset bytes)) = false ↔ r ∉ protected).
    { rewrite bool_decide_eq_false, elem_of_list_to_set, list_elem_of_fmap. split.
      - intros Hno Hin. apply Hno. by exists r.
      - intros Hno (r' & Heq & Hin). apply (inj as_ssz_bytes) in Heq as ->. done. }
    destruct (decide (r ∉ protected)) as [Hp|Hp].
    + rewrite decide_True by (by apply Hiff). rewrite fmap_cons. f_equal. apply IH.
    + rewrite decide_False by (by rewrite Hiff). apply IH.
  - right. apply sorted_window; [by rewrite Hperm'|].
    assert (Hs : StronglySorted slot_ge (merge_sort slot_ge
      ((λ kv : H256 * BlockHeader, (as_ssz_bytes kv.1, bh_slot kv.2)) <$> l))).
    { apply Sorted_StronglySorted; [intros x y z; unfold slot_ge; lia|].
      apply Sorted_merge_sort. intros x y. unfold slot_ge. lia. }
    rewrite Hsort in Hs. clear -Hs. induction l' as [|x l IH]; [constructor|]. rewrite fmap_cons in Hs.
    inversion Hs as [|? ? Hs' Hall]. subst. constructor; [by apply IH|].
    rewrite Forall_fmap in Hall. eapply Forall_impl; [exact Hall|]. intros y Hy. exact Hy.
Qed.

Lemma prune_old_states_refines protected s a :
  represents s a →
  ∃ roots, (roots = [] ∧ (size (vw_headers a) <= STATES_TO_KEEP)%nat ∨
      beyond_window STATES_TO_KEEP protected (vw_headers a) roots) ∧
    implements (prune_old_states protected : M (Store D) E u64) s (to_u64 (len roots))
      (vset_states (foldl (λ m r, delete r m) (vw_states a) roots) a).
Proof.
  intros Hr. destruct (prunable_keys_refines STATES_TO_KEEP protected s a Hr) as (roots & Hrun & Hb).
  exists roots. split; [exact Hb|]. clear Hb. unfold prune_old_states. eapply implements_bind; [by apply implements_reads|]. intros s1 Hr1.
  destruct roots as [|r roots]; [by apply implements_ret; destruct Hr1 as [? [] ? ? ? ? ? ? ? ? ? ?]|].
  rewrite fmap_cons, <- (fmap_cons as_ssz_bytes).
  replace (len (as_ssz_bytes <$> r :: roots)) with (len (r :: roots)) by (unfold len; by rewrite length_fmap).
  eapply implements_bind; [|intros s2 Hr2; by apply implements_ret].
  generalize (r :: roots). intros l. data_write Hr1. rewrite (rep_states _ _ Hr1).
  by apply delete_all_encoded, _.
Qed.

Definition view_delete_blocks (roots : list H256) (a : View) : View :=
  vset_signatures (foldl (λ m r, delete r m) (vw_signatures a) roots)
    (vset_bodies (foldl (λ m r, delete r m) (vw_bodies a) roots)
       (vset_headers (foldl (λ m r, delete r m) (vw_headers a) roots) a)).

Lemma prune_old_blocks_refines protected s a :
  represents s a →
  ∃ roots, (roots = [] ∧ (size (vw_headers a) <= BLOCKS_TO_KEEP)%nat ∨
      beyond_window BLOCKS_TO_KEEP protected (vw_headers a) roots) ∧
    implements (prune_old_blocks protected : M (Store D) E u64) s (to_u64 (len roots))
      (view_delete_blocks roots a).
Proof.
  intros Hr. destruct (prunable_keys_refines BLOCKS_TO_KEEP protected s a Hr) as (roots & Hrun & Hb).
  exists roots. split; [exact Hb|]. clear Hb. unfold prune_old_blocks. eapply implements_bind; [by apply implements_reads|]. intros s1 Hr1.
  destruct roots as [|r roots]; [by apply implements_ret; destruct Hr1 as [? [] ? ? ? ? ? ? ? ? ? ?]|].
  rewrite fmap_cons, <- (fmap_cons as_ssz_bytes).
  replace (len (as_ssz_bytes <$> r :: roots)) with (len (r :: roots)) by (unfold len; by rewrite length_fmap).
  eapply implements_bind; [|intros s2 Hr2; by apply implements_ret].
  generalize (r :: roots). intros l. unfold view_delete_blocks. data_write Hr1;
    rewrite ?(rep_headers _ _ Hr1), ?(rep_bodies _ _ Hr1), ?(rep_signatures _ _ Hr1);
    by apply delete_all_encoded, _.
Qed.

(** Both prunings in sequence. *)
Lemma prune_old_data_refines s a :
  let protected := [cp_root (vw_finalized a); cp_root (vw_justified a)] in
  represents s a →
  ∃ states blocks,
    (states = [] ∧ (size (vw_headers a) <= STATES_TO_KEEP)%nat ∨
      beyond_window STATES_TO_KEEP protected (vw_headers a) states) ∧
    (blocks = [] ∧ (size (vw_headers a) <= BLOCKS_TO_KEEP)%nat ∨
      beyond_window BLOCKS_TO_KEEP protected (vw_headers a) blocks) ∧
    implements (prune_old_data : M (Store D) E unit) s tt
      (view_delete_blocks blocks (vset_states (foldl (λ m r, delete r m) (vw_states a) states) a)).
Proof.
  intros protected Hr. destruct (prune_old_states_refines protected s a Hr) as (states & Hstates & s1 & Hrun1 & Hr1).
  destruct (prune_old_blocks_refines protected s1 _ Hr1) as (blocks & Hblocks & s2 & Hrun2 & Hr2).
  exists states, blocks. split_and!; [done..|]. exists s2. split; [|done]. unfold prune_old_data.
  rewrite run_bind, run_reads, (latest_finalized_refines s a Hr), run_bind, run_reads, (latest_justified_refines s a Hr).
  fold protected. by rewrite run_bind, Hrun1, run_bind, Hrun2.
Qed.

(** Within the retention window nothing is deleted. *)
Lemma window_keeps keep protected headers roots :
  (size headers <= keep)%nat → beyond_window keep protected headers roots → roots = [].
Proof.
  intros Hsize Hb. destruct roots as [|r roots]; [done|]. exfalso.
  destruct (bw_known _ _ _ _ Hb r (list_elem_of_here _ _)) as [h Hh].
  pose proof (bw_older _ _ _ _ Hb r h (list_elem_of_here _ _) Hh) as Hlt.
  pose proof (map_subseteq_size _ _ (map_filter_subseteq (λ kv : H256 * BlockHeader, (bh_slot h <= bh_slot kv.2)%N) headers)). lia.
Qed.

Lemma prune_old_data_idle s a :
  represents s a → (size (vw_headers a) <= STATES_TO_KEEP)%nat →
  implements (prune_old_data : M (Store D) E unit) s tt a.
Proof.
  intros Hr Hsize. destruct (prune_old_data_refines s a Hr) as (states & blocks & Hst & Hbl & Himp).
  assert (Hsize' : (size (vw_headers a) <= BLOCKS_TO_KEEP)%nat) by (unfold STATES_TO_KEEP, BLOCKS_TO_KEEP in *; lia).
  assert (states = []) as -> by (destruct Hst as [[? _]|Hb]; [done|apply (window_keeps _ _ _ _ Hsize Hb)]).
  assert (blocks = []) as -> by (destruct Hbl as [[? _]|Hb]; [done|apply (window_keeps _ _ _ _ Hsize' Hb)]).
  by destruct a.
Qed.

(** * Latest attestations *)

(** [d] is an attestation of validator [v] among the keys. *)
Definition attested (data : gmap H256 AttestationData) (keys : list SignatureKey) (v : u64)
    (d : AttestationData) : Prop :=
  ∃ r, (v, r) ∈ keys ∧ data !! r = Some d.

(** The latest attestation of each validator that has one. *)
Record latest_of (data : gmap H256 AttestationData) (keys : list SignatureKey)
    (result : gmap u64 AttestationData) : Prop := {
  lo_known v d : result !! v = Some d → attested data keys v d;
  lo_all v d : attested data keys v d → ∃ d', result !! v = Some d' ∧ ad_slot d <= ad_slot d';
}.

Lemma latest_of_step data keys result v r :
  latest_of data keys result →
  latest_of data (keys ++ [(v, r)])
    (match data !! r with
     | None => result
     | Some d =>
         if match result !! v with None => true | Some e => ad_slot e <? u64_val (ad_slot d) end
         then <[v := d]> result else result
     end).
Proof.
  intros [Hk Ha].
  assert (Hmono : ∀ v d, attested data keys v d → attested data (keys ++ [(v, r)]) v d)
    by (intros v' d' (r' & Hin & Hd); exists r'; split; [set_solver|done]).
  assert (Hcase : ∀ v' d', attested data (keys ++ [(v, r)]) v' d' →
    attested data keys v' d' ∨ v' = v ∧ data !! r = Some d').
  { intros v' d' (r' & [Hin|[= -> ->]%list_elem_of_singleton]%elem_of_app & Hd); [left; by exists r'|by right]. }
  assert (Hmono' : ∀ v' d, attested data keys v' d → attested data (keys ++ [(v, r)]) v' d)
    by (intros v' d' (r' & Hin & Hd); exists r'; split; [set_solver|done]).
  destruct (data !! r) as [d|] eqn:Hd.
  2:{ split; [by intros v' d' Hr'%Hk; apply Hmono'|].
      intros v' d' [Hr'|[_ ?]]%Hcase; [by apply Ha|done]. }
  assert (Hnew : attested data (keys ++ [(v, r)]) v d) by (exists r; split; [set_solver|done]).
  destruct (result !! v) as [e|] eqn:He; [destruct (N.ltb_spec (ad_slot e) (ad_slot d))|]; split; intros v' d' H'.
  - apply lookup_insert_Some in H' as [[<- <-]|[_ H']]; [done|by apply Hmono', Hk].
  - destruct (decide (v' = v)) as [->|Hne]; [rewrite lookup_insert_eq|rewrite lookup_insert_ne by done].
    + exists d. split; [done|]. apply Hcase in H' as [H'|[_ [= <-]]]; [|done].
      destruct (Ha _ _ H') as (e' & He' & Hle). rewrite He in He'. injection He' as <-. lia.
    + apply Hcase in H' as [H'|[-> _]]; [by apply Ha|done].
  - by apply Hmono', Hk.
  - apply Hcase in H' as [H'|[-> [= <-]]]; [by apply Ha|]. by exists e.
  - apply lookup_insert_Some in H' as [[<- <-]|[_ H']]; [done|by apply Hmono', Hk].
  - destruct (decide (v' = v)) as [->|Hne]; [rewrite lookup_insert_eq|rewrite lookup_insert_ne by done].
    + exists d. split; [done|]. apply Hcase in H' as [H'|[_ [= <-]]]; [|done].
      destruct (Ha _ _ H') as (e' & He' & _). congruence.
    + apply Hcase in H' as [H'|[-> _]]; [by apply Ha|done].
Qed.

(** The cache agrees with the store. *)
Definition cache_ok (a : View) (cache : gmap H256 (option AttestationData)) : Prop :=
  ∀ r o, cache !! r = Some o → o = vw_data a !! r.

Lemma extract_step_spec s a result cache v r :
  represents s a → cache_ok a cache →
  ∃ cache', cache_ok a cache' ∧
    extract_step s (result, cache) (v, r) =
      Return (match vw_data a !! r with
              | None => result
              | Some d =>
                  if match result !! v with None => true | Some e => ad_slot e <? u64_val (ad_slot d) end
                  then <[v := d]> result else result
              end, cache').
Proof.
  intros Hr Hc. exists (<[r := vw_data a !! r]> cache). split.
  { intros r' o [[<- <-]|[_ Hr']]%lookup_insert_Some; [done|by apply Hc]. }
  unfold extract_step.
  assert (Hget : match cache !! r with Some data => Return data | None => get_attestation_data_by_root r s end =
    Return (vw_data a !! r)).
  { destruct (cache !! r) as [o|] eqn:Ho; [by rewrite (Hc _ _ Ho)|by apply get_attestation_data_refines]. }
  rewrite Hget. cbn [mbind partial_bind]. destruct (vw_data a !! r) as [d|]; [|done].
  by destruct (match result !! v with None => true | Some e => _ end).
Qed.

Lemma extract_latest_refines s a keys :
  represents s a →
  ∃ result, extract_latest_attestations keys s = Return result ∧ latest_of (vw_data a) keys result.
Proof.
  intros Hr. unfold extract_latest_attestations.
  enough (∃ result cache, fold_partial (extract_step s) (∅, ∅) keys = Return (result, cache) ∧
    cache_ok a cache ∧ latest_of (vw_data a) keys result) as (result & cache & Hrun & _ & Hl).
  { exists result. by rewrite Hrun. }
  induction keys as [|[v r] keys IH] using rev_ind.
  - exists ∅, ∅. split_and!; [done|by intros r o|]. split; [by intros v d|].
    intros v d (r & Hin & _). by apply not_elem_of_nil in Hin.
  - destruct IH as (result & cache & Hrun & Hc & Hl).
    destruct (extract_step_spec s a result cache v r Hr Hc) as (cache' & Hc' & Hstep).
    do 2 eexists. rewrite fold_partial_app, Hrun. cbn [mbind partial_bind fold_partial].
    rewrite Hstep. cbn [mbind partial_bind]. split_and!; [done|done|by apply latest_of_step].
Qed.

End maintenance.

(** * Initialization *)

Section init.
Context `{SL : StorageLaws D B} `{CO : Codecs} {CL : CodecsLaws} `{HS : Hashing} `{SC : SignatureScheme}.

(** The anchor state with its header completed. *)
Definition anchor_root (state : State) : H256 :=
  tree_hash_root (set_latest_block_header (set_state_root H256_ZERO (st_latest_block_header state)) state).
Definition anchored_state (state : State) : State :=
  set_latest_block_header (set_state_root (anchor_root state) (st_latest_block_header state)) state.

(** The store of an anchor: one block, the head, safe, justified and finalized one. *)
Definition anchor_view (state : State) (body : option BlockBody) : View :=
  let anchor := anchored_state state in
  let header := st_latest_block_header anchor in
  let root := tree_hash_root header in
  let checkpoint := mk_checkpoint root (bh_slot header) in
  {| vw_time := to_u64 0; vw_config := st_config anchor; vw_head := root; vw_safe_target := root;
     vw_justified := checkpoint; vw_finalized := checkpoint;
     vw_headers := {[ root := header ]};
     vw_bodies := match body with Some b => {[ root := b ]} | None => ∅ end;
     vw_signatures := ∅; vw_states := {[ root := anchor ]}; vw_gossip := ∅; vw_data := ∅;
     vw_live := {[ (bh_slot header, root) := bh_parent_root header ]};
     vw_new := PayloadBuffer_new NEW_PAYLOAD_CAP;
     vw_known := PayloadBuffer_new AGGREGATED_PAYLOAD_CAP; vw_count := to_u64 0 |}.

Lemma encoded_empty `{Countable K} {V} (fk : K → bytes) (fv : V → bytes) :
  encoded fk fv (∅ : gmap K V) = ∅.
Proof. unfold encoded. by rewrite fmap_empty, kmap_empty. Qed.

Lemma encoded_singleton `{Countable K} {V} (fk : K → bytes) (fv : V → bytes) `{!Inj (=) (=) fk} k v :
  {[ fk k := fv v ]} = encoded fk fv ({[ k := v ]} : gmap K V).
Proof. unfold encoded. by rewrite map_fmap_singleton, kmap_singleton. Qed.

Lemma count_gossip_empty d :
  db_ok d → contents d GossipSignatures = ∅ → count_gossip_signatures d = Return (to_u64 0).
Proof.
  intros Hok Hc. unfold count_gossip_signatures.
  destruct (table_entries_spec d GossipSignatures Hok) as (l & Hrun & _ & Hl). rewrite Hrun.
  cbn [mbind partial_bind]. destruct l as [|[k v] l]; [done|].
  assert (Hin : contents d GossipSignatures !! k = Some v) by (apply Hl; set_solver).
  by rewrite Hc, lookup_empty in Hin.
Qed.

(** Initializing an empty database from an anchor whose header has no state root yet, or
    the right one, gives the store of the anchor. *)
Lemma init_store_refines d state body :
  db_ok d → (∀ t, contents d t = ∅) →
  bh_state_root (st_latest_block_header state) = H256_ZERO ∨
    bh_state_root (st_latest_block_header state) = anchor_root state →
  ∃ s, init_store d state body = Return s ∧ represents s (anchor_view state body).
Proof.
  intros Hok Hempty Hroot. unfold init_store. fold (anchor_root state).
  assert (Hassert : is_zero (bh_state_root (st_latest_block_header state))
    || bool_decide (bh_state_root (st_latest_block_header state) = anchor_root state) = true).
  { unfold is_zero. rewrite orb_true_iff, !bool_decide_eq_true. done. }
  rewrite Hassert. cbn [assert_that mbind partial_bind].
  change (set_latest_block_header _ (set_latest_block_header _ state)) with (anchored_state state).
  match goal with |- context [encode_live_chain_key ?slot ?root] =>
    change (encode_live_chain_key slot root) with (live_key_bytes (slot, root)) end.
  match goal with |- context [commit_writes ?ws d] => destruct (commit_writes_spec ws d Hok) as (d' & Hrun & Hok' & Hc) end.
  rewrite Hrun. cbn [mbind partial_bind].
  assert (Hgossip : contents d' GossipSignatures = ∅).
  { rewrite Hc, Hempty. destruct body; cbn; by on_tables. }
  rewrite count_gossip_empty by done. cbn [mbind partial_bind]. eexists. split; [done|].
  assert (Htable : ∀ t, contents d' t = foldl (write_table t) ∅ _) by (intros t; by rewrite Hc, Hempty).
  clear Hc Hrun Hassert Hgossip.
  split; cbn [s_backend s_new_payloads s_known_payloads s_gossip_signatures_count anchor_view vw_new vw_known
    vw_count vw_headers vw_bodies vw_signatures vw_states vw_gossip vw_data vw_live]; try reflexivity; [done|..];
    rewrite Htable; destruct body; cbn [app foldl write_table]; on_tables;
    cbn [put_all foldl]; rewrite ?insert_empty, ?encoded_empty.
  all: lazymatch goal with
       | |- metadata_is _ _ => split;
           repeat first [rewrite lookup_insert_eq|rewrite lookup_insert_ne by distinct_keys]; reflexivity
       | |- {[ _ := _ ]} = _ => apply encoded_singleton, _
       | |- _ => reflexivity
       end.
Qed.

(** The root of the anchor block. *)
Definition anchor_block_root (state : State) : H256 :=
  tree_hash_root (st_latest_block_header (anchored_state state)).

Lemma anchor_live_only state body slot r :
  is_Some (vw_live (anchor_view state body) !! (slot, r)) → r = anchor_block_root state.
Proof.
  intros [p Hp]. cbn in Hp. apply lookup_singleton_Some in Hp as [Hk _]. by injection Hk.
Qed.

Lemma anchor_live_functional state body : live_functional (anchor_view state body).
Proof.
  intros s1 s2 r [p1 Hp1] [p2 Hp2]. cbn in Hp1, Hp2.
  apply lookup_singleton_Some in Hp1 as [Hk1 _], Hp2 as [Hk2 _]. congruence.
Qed.

End init.
