(* ===== verification/StoreTheorems.v ===== *)
(** What the fork-choice store promises, for every backend that keeps the contract of
    [StorageLaws]. *)

From S2P Require Import Prelude Types Reference Backend InMemory Keys Signatures PayloadBuffer Store StoreSpec StoreOps StorePruning StoreMaintenance Codec.

Section theorems.
Context `{SL : StorageLaws D B} `{CO : Codecs} {CL : CodecsLaws} `{HS : Hashing} `{HOL : HashOrderLaws}
  `{SC : SignatureScheme}.
Context {E : Type}.
Implicit Types (s : Store D) (a : View).

(** Initializing an empty database from an anchor state makes the anchor block head, safe
    target, justified and finalized checkpoint; its state, with the state root filled in,
    is the head state, and it is the only live block. *)
Theorem init_store_correct d state body :
  db_ok d → (∀ t, contents d t = ∅) →
  bh_state_root (st_latest_block_header state) = H256_ZERO ∨
    bh_state_root (st_latest_block_header state) = anchor_root state →
  let anchor := anchored_state state in
  let header := st_latest_block_header anchor in
  let root := tree_hash_root header in
  ∃ s, init_store d state body = Return s ∧
    store_head s = Return root ∧ head_state s = Return anchor ∧
    latest_justified s = Return (mk_checkpoint root (bh_slot header)) ∧
    latest_finalized s = Return (mk_checkpoint root (bh_slot header)) ∧
    store_time s = Return (to_u64 0) ∧
    get_live_chain s = Return {[ root := (bh_slot header, bh_parent_root header) ]}.
Proof.
  intros Hok Hempty Hroot anchor header root.
  destruct (init_store_refines d state body Hok Hempty Hroot) as (s & Hrun & Hr).
  exists s. split_and!; [done|by rewrite (store_head_refines s _ Hr)| | | | |].
  - apply (head_state_refines s _ _ Hr). cbn. apply lookup_singleton_eq.
  - by rewrite (latest_justified_refines s _ Hr).
  - by rewrite (latest_finalized_refines s _ Hr).
  - by rewrite (store_time_refines s _ Hr).
  - destruct (get_live_chain_refines s _ Hr) as (m & Hlive & Hm); [apply anchor_live_functional|].
    rewrite Hlive. f_equal. apply map_eq. intros r. apply option_eq. intros [slot p].
    rewrite Hm. cbn. rewrite !lookup_singleton_Some. fold anchor header root. naive_solver.
Qed.

(** C33. A stored block is read back as it was written, although an empty body is not stored;
    and it becomes live: the live chain is extended by this block and nothing else. *)
Theorem insert_signed_block_roundtrip s a root sb m :
  represents s a → live_functional a →
  (∀ slot, is_Some (vw_live a !! (slot, root)) → slot = b_slot (bwa_block (sb_message sb))) →
  no_empty_collision (b_body (bwa_block (sb_message sb))) →
  get_live_chain s = Return m →
  ∃ s', insert_signed_block (E := E) root sb s = Done s' tt ∧
    get_signed_block root s' = Return (Some sb) ∧
    get_live_chain s' =
      Return (<[root := (b_slot (bwa_block (sb_message sb)), b_parent_root (bwa_block (sb_message sb)))]> m).
Proof.
  intros Hr Hfun Hslot Hbody Hm.
  destruct (insert_signed_block_refines (E := E) s a root sb Hr) as (s' & Hrun & Hr').
  exists s'. split_and!; [done| |].
  - rewrite (get_signed_block_refines s' _ root Hr'). f_equal. by apply (written_block a root sb).
  - destruct (get_live_chain_refines s a Hr Hfun) as (m0 & Hm0 & Hspec). rewrite Hm in Hm0. injection Hm0 as <-.
    destruct (get_live_chain_refines s' _ Hr') as (m' & Hm' & Hspec').
    { intros s1 s2 r. cbn. rewrite !lookup_insert_is_Some.
      intros [[= <- <-]|[Hn1 H1']] [[= <-]|[Hn2 H2']]; [done| | |by eapply Hfun].
      - symmetry. by apply Hslot.
      - subst r. by apply Hslot. }
    rewrite Hm'. f_equal. apply map_eq. intros r. apply option_eq. intros [slot p].
    rewrite Hspec'. cbn. rewrite !lookup_insert_Some, Hspec. split.
    + intros [[[= <- <-] <-]|[Hne Hl]]; [by left|]. right. split; [|done]. intros <-.
      apply Hne. f_equal. symmetry. apply Hslot. by rewrite Hl.
    + intros [[<- [= <- <-]]|[Hne Hl]]; [by left|]. right. split; [congruence|done].
Qed.

(** A pending block is stored in full but stays invisible to fork choice. *)
Theorem insert_pending_block_invisible s a root sb :
  represents s a → live_functional a →
  no_empty_collision (b_body (bwa_block (sb_message sb))) →
  ∃ s', insert_pending_block (E := E) root sb s = Done s' tt ∧
    get_signed_block root s' = Return (Some sb) ∧ get_live_chain s' = get_live_chain s.
Proof.
  intros Hr Hfun Hbody.
  destruct (insert_pending_block_refines (E := E) s a root sb Hr) as (s' & Hrun & Hr').
  exists s'. split_and!; [done| |].
  - rewrite (get_signed_block_refines s' _ root Hr'). f_equal. by apply written_block.
  - destruct (get_live_chain_refines s a Hr Hfun) as (m & Hm & Hspec).
    destruct (get_live_chain_refines s' _ Hr') as (m' & Hm' & Hspec'); [exact Hfun|].
    rewrite Hm, Hm'. f_equal. apply map_eq. intros r. apply option_eq. intros [slot p].
    by rewrite Hspec, Hspec'.
Qed.

(** C32. A checkpoint update records the new head and the checkpoints it is given. When it
    advances finalization it also prunes: no live block at or above the finalized slot is
    lost, on a sorted backend no block below it stays, and of the gossip signatures and
    attestation data exactly those above the finalized slot are kept. *)
Theorem update_checkpoints_correct s a c :
  represents s a →
  ∃ s' a', update_checkpoints (E := E) c s = Done s' tt ∧ represents s' a' ∧
    vw_head a' = fc_head c ∧
    vw_justified a' = default (vw_justified a) (fc_justified c) ∧
    vw_finalized a' = default (vw_finalized a) (fc_finalized c) ∧
    vw_headers a' = vw_headers a ∧ vw_states a' = vw_states a ∧
    match advances a c with
    | None => vw_live a' = vw_live a ∧ vw_gossip a' = vw_gossip a ∧ vw_data a' = vw_data a
    | Some f =>
        live_pruned (D := D) (B := B) f (vw_live a) (vw_live a') ∧
        vw_gossip a' = slot_above ss_slot f (vw_gossip a) ∧ vw_data a' = slot_above ad_slot f (vw_data a)
    end.
Proof.
  intros Hr. pose proof (update_checkpoints_refines (E := E) s a c Hr) as Hup.
  destruct (advances a c) as [f|].
  - destruct Hup as (live' & Hlive & s' & Hrun & Hr'). do 2 eexists. split; [exact Hrun|].
    split; [exact Hr'|]. by split_and!.
  - destruct Hup as (s' & Hrun & Hr'). do 2 eexists. split; [exact Hrun|].
    split; [exact Hr'|]. by split_and!.
Qed.

(** C34. Heavy pruning deletes only blocks and states beyond the retention windows: whatever is
    deleted is neither finalized nor justified and is older than 3,000 (states) or 21,600
    (blocks) stored blocks. *)
Theorem prune_old_data_retains s a :
  represents s a →
  ∃ s' states blocks, prune_old_data (E := E) s = Done s' tt ∧
    represents s' (view_delete_blocks blocks
      (vset_states (foldl (λ m r, delete r m) (vw_states a) states) a)) ∧
    (states = [] ∨ beyond_window STATES_TO_KEEP [cp_root (vw_finalized a); cp_root (vw_justified a)]
                     (vw_headers a) states) ∧
    (blocks = [] ∨ beyond_window BLOCKS_TO_KEEP [cp_root (vw_finalized a); cp_root (vw_justified a)]
                     (vw_headers a) blocks).
Proof.
  intros Hr. destruct (prune_old_data_refines (E := E) s a Hr) as (states & blocks & Hst & Hbl & s' & Hrun & Hr').
  exists s', states, blocks. split_and!; [done..| |]; [destruct Hst as [[-> _]|]|destruct Hbl as [[-> _]|]]; auto.
Qed.

(** The attestations extracted for fork choice are, for each validator with a known
    payload whose data is stored, one with the highest slot among them, in whatever order
    the keys are visited. *)
Theorem extract_latest_known_correct s a :
  represents s a →
  ∃ result, extract_latest_known_attestations s = Return result ∧
    (∀ v d, result !! v = Some d →
       ∃ r, is_Some (grouped (vw_known a) !! (v, r)) ∧ vw_data a !! r = Some d) ∧
    (∀ v r d, is_Some (grouped (vw_known a) !! (v, r)) → vw_data a !! r = Some d →
       ∃ d', result !! v = Some d' ∧ ad_slot d <= ad_slot d').
Proof.
  intros Hr. unfold extract_latest_known_attestations. rewrite (rep_known _ _ Hr).
  destruct (extract_latest_refines s a (hash_elems (unique_keys (vw_known a))) Hr) as (result & Hrun & [Hk Ha]).
  exists result. split; [done|].
  assert (Hkey : ∀ v r, (v, r) ∈ hash_elems (unique_keys (vw_known a)) ↔ is_Some (grouped (vw_known a) !! (v, r)))
    by (intros v r; rewrite elem_of_hash_elems; apply elem_of_unique_keys).
  split.
  - intros v d Hd. destruct (Hk v d Hd) as (r & Hin & Hdata). exists r. by rewrite <- Hkey.
  - intros v r d Hg Hdata. apply Ha. exists r. by rewrite Hkey.
Qed.

(** The counter of gossip signatures is exact. *)
Definition counted (a : View) : Prop := u64_val (vw_count a) = N.of_nat (size (vw_gossip a)).

Lemma size_split `{Countable K} {V} (slot_of : V → u64) (f : u64) (m : gmap K V) :
  (size (slot_at_most slot_of f m) + size (slot_above slot_of f m))%nat = size m.
Proof.
  unfold slot_at_most, slot_above. rewrite <- map_size_disj_union.
  - f_equal. apply map_eq. intros k. apply option_eq. intros v.
    rewrite lookup_union_Some_raw, !map_lookup_filter_Some, map_lookup_filter_None. cbn. split.
    + intros [[? _]|[_ [? _]]]; done.
    + intros Hk. destruct (N.lt_ge_cases f (slot_of v)); [right|by left].
      split_and!; [right|done|done]. intros v' Hv'. rewrite Hk in Hv'. injection Hv' as <-. lia.
  - apply map_disjoint_spec. intros k v1 v2 [Hk1 Hl1]%map_lookup_filter_Some [Hk2 Hl2]%map_lookup_filter_Some.
    cbn in *. rewrite Hk1 in Hk2. injection Hk2 as <-. lia.
Qed.

(** The in-memory counter of gossip signatures stays equal to the number of stored
    signatures, through insertion (also over an existing key) and pruning. *)
Theorem gossip_count_exact s a data_root slot validator_id signature f :
  represents s a → counted a → N.of_nat (size (vw_gossip a)) < 2 ^ 64 - 1 →
  (∃ s' a', insert_gossip_signature (E := E) data_root slot validator_id signature s = Done s' tt ∧
     represents s' a' ∧ counted a' ∧
     vw_gossip a' !! (validator_id, data_root) = Some (StoredSignature_new slot signature)) ∧
  (∃ s' a' n, prune_gossip_signatures (E := E) f s = Done s' n ∧ represents s' a' ∧ counted a').
Proof.
  intros Hr Hc Hsize. split.
  - destruct (insert_gossip_signature_refines (E := E) s a data_root slot validator_id signature Hr)
      as (s' & Hrun & Hr').
    do 2 eexists. split_and!; [exact Hrun|exact Hr'| |cbn; apply lookup_insert_eq].
    unfold counted, view_insert_gossip in *. cbn. rewrite map_size_insert.
    destruct (vw_gossip a !! (validator_id, data_root)) eqn:Hk; rewrite ?Hk; cbn; [done|].
    unfold wrapping_add. lia.
  - destruct (prune_gossip_refines (E := E) s a f Hr) as (s' & Hrun & Hr').
    do 3 eexists. split_and!; [exact Hrun|exact Hr'|].
    unfold counted, view_prune_gossip in *. cbn. rewrite saturating_sub_val, Hc.
    pose proof (size_split ss_slot f (vw_gossip a)). lia.
Qed.

End theorems.

(** A payload buffer is a sliding window: after any batch it holds the newest entries of its
    old content followed by the batch, up to its capacity, and draining returns them all. *)
Theorem push_batch_window b entries :
  0 < pb_capacity b → len (pb_entries b) <= pb_capacity b →
  pb_entries (push_batch b entries) = last_n (N.to_nat (pb_capacity b)) (pb_entries b ++ entries) ∧
  len (pb_entries (push_batch b entries)) <= pb_capacity b.
Proof.
  intros Hpos Hlen. pose proof (push_batch_wf entries b (conj Hpos Hlen)) as [_ Hwf].
  rewrite push_batch_last_n in Hwf |- * by done. done.
Qed.

(** Live-chain keys decode to what was encoded, and their bytewise order is the order of the
    slots, then of the roots. *)
Theorem live_chain_key_order s1 r1 s2 r2 :
  decode_live_chain_key (encode_live_chain_key s1 r1) = Return (s1, r1) ∧
  (bytes_le (encode_live_chain_key s1 r1) (encode_live_chain_key s2 r2) = true ↔
   s1 < u64_val s2 ∨ s1 = s2 ∧ h256_le r1 r2).
Proof.
  split; [apply live_chain_key_decodes|].
  rewrite live_chain_key_le, orb_true_iff, andb_true_iff, N.ltb_lt, N.eqb_eq, N.leb_le.
  unfold h256_le. split; [|by intros [|[-> ?]]; auto]. intros [|[Heq ?]]; [by left|].
  right. split; [by apply u64_eq|done].
Qed.

(** * The in-memory backend *)

Section in_memory.
Context `{HOL : HashOrderLaws}.

(** Committing a batch to the in-memory backend applies its writes in sequence, whatever
    the order in which the hash maps of the batch are iterated; other tables do not change. *)
Theorem in_memory_commit_sequential (ws : list table_write) (d : StorageData) :
  in_memory_ok d →
  ∃ d', commit_writes ws d = Return d' ∧ in_memory_ok d' ∧
    ∀ t, in_memory_contents d' t = foldl (write_table t) (in_memory_contents d t) ws.
Proof. apply (commit_writes_spec (SL := in_memory_laws)). Qed.

End in_memory.

(** * A concrete store *)

Module StoreSample.

#[local] Existing Instances reference_codecs reference_codecs_laws reference_hashing reference_scheme
  reference_scheme_laws reference_order canonical_order_laws in_memory_backend in_memory_laws.

Abbreviation store := (Store StorageData).

Definition after {A} (o : outcome store unit A) (s : store) : store :=
  match o with Done s' _ | Fail s' _ => s' | _ => s end.

Definition data (slot : N) : AttestationData :=
  mk_attestation_data (to_u64 slot) Checkpoint_default Checkpoint_default Checkpoint_default.
Definition block (slot : N) : SignedBlockWithAttestation :=
  mk_signed_block (mk_block_with_attestation
      (mk_block (to_u64 slot) (to_u64 0) (h256 slot) H256_ZERO (mk_block_body []))
      (mk_attestation (to_u64 0) (data slot)))
    (mk_block_signatures [] []).
Definition root (slot : N) : H256 := h256 (slot + 1).

Definition anchor : State := Sample.genesis.

Definition start : store :=
  match init_store InMemoryBackend_new anchor None with
  | Return s => s
  | _ => mk_store InMemoryBackend_new (PayloadBuffer_new NEW_PAYLOAD_CAP)
           (PayloadBuffer_new AGGREGATED_PAYLOAD_CAP) (to_u64 0)
  end.
Definition start_view : View := anchor_view anchor None.

Lemma start_represents : init_store InMemoryBackend_new anchor None = Return start ∧ represents start start_view.
Proof.
  destruct (init_store_refines InMemoryBackend_new anchor None) as (s & Hrun & Hr);
    [apply in_memory_new_ok|apply in_memory_new_empty|by left|].
  unfold start. rewrite Hrun. by split.
Qed.

Lemma init_store_correct_witness : ∃ s, init_store InMemoryBackend_new anchor None = Return s ∧
  store_time s = Return (to_u64 0).
Proof.
  destruct (init_store_correct (SL := in_memory_laws) InMemoryBackend_new anchor None in_memory_new_ok in_memory_new_empty
    (or_introl eq_refl)) as (s & Hrun & _ & _ & _ & _ & Ht & _).
  exists s. split; [exact Hrun|exact Ht].
Defined.

Lemma block_no_collision slot : no_empty_collision (b_body (bwa_block (sb_message (block slot)))).
Proof. by intros _. Qed.

Lemma root1_not_live (slot : u64) : is_Some (vw_live start_view !! (slot, root 1)) → slot = to_u64 1.
Proof.
  intros Hlive%anchor_live_only. apply (f_equal h256_val) in Hlive. vm_compute in Hlive. discriminate.
Qed.

Lemma insert_signed_block_roundtrip_witness : ∃ s' : store,
  insert_signed_block (E := unit) (root 1) (block 1) start = Done s' tt ∧
  get_signed_block (root 1) s' = Return (Some (block 1)).
Proof.
  destruct (get_live_chain_refines start start_view (proj2 start_represents) (anchor_live_functional _ _))
    as (m & Hm & _).
  destruct (insert_signed_block_roundtrip (E := unit) start start_view (root 1) (block 1) m (proj2 start_represents)
    (anchor_live_functional _ _) root1_not_live (block_no_collision 1) Hm) as (s' & Hrun & Hget & _).
  exists s'. split; [exact Hrun|exact Hget].
Defined.

Lemma insert_pending_block_invisible_witness : ∃ s' : store,
  insert_pending_block (E := unit) (root 1) (block 1) start = Done s' tt ∧
  get_live_chain s' = get_live_chain start.
Proof.
  destruct (insert_pending_block_invisible (E := unit) start start_view (root 1) (block 1)
    (proj2 start_represents) (anchor_live_functional _ _) (block_no_collision 1)) as (s' & Hrun & _ & Hlive).
  exists s'. split; [exact Hrun|exact Hlive].
Defined.

Definition new_checkpoints : ForkCheckpoints :=
  mk_fork_checkpoints (root 3) None (Some (mk_checkpoint (root 3) (to_u64 3))).

Lemma update_checkpoints_correct_witness : ∃ (s' : store) a',
  update_checkpoints (E := unit) new_checkpoints start = Done s' tt ∧ represents s' a' ∧ vw_head a' = root 3.
Proof.
  destruct (update_checkpoints_correct (E := unit) start start_view new_checkpoints (proj2 start_represents))
    as (s' & a' & Hrun & Hr & Hh & _).
  exists s', a'. split; [exact Hrun|split; [exact Hr|exact Hh]].
Defined.

Lemma prune_old_data_retains_witness : ∃ s' : store, prune_old_data (E := unit) start = Done s' tt.
Proof.
  destruct (prune_old_data_retains (E := unit) start start_view (proj2 start_represents))
    as (s' & states & blocks & Hrun & _).
  exists s'. exact Hrun.
Defined.

Lemma extract_latest_known_correct_witness : ∃ result,
  extract_latest_known_attestations start = Return result.
Proof.
  destruct (extract_latest_known_correct start start_view (proj2 start_represents)) as (result & Hrun & _).
  exists result. exact Hrun.
Defined.

Lemma gossip_count_exact_witness : ∃ (s' : store) a' n,
  prune_gossip_signatures (E := unit) (to_u64 3) start = Done s' n ∧ represents s' a' ∧ counted a'.
Proof.
  apply (gossip_count_exact (E := unit) start start_view (root 1) (to_u64 1) (to_u64 0)
    (@mk_validator_signature reference_scheme []) (to_u64 3) (proj2 start_represents)); [done|by vm_compute].
Defined.

Lemma in_memory_commit_sequential_witness : ∃ d',
  commit_writes [Put Metadata [(KEY_TIME, [])]; Delete Metadata [KEY_TIME]] InMemoryBackend_new = Return d' ∧
  in_memory_ok d'.
Proof.
  destruct (in_memory_commit_sequential [Put Metadata [(KEY_TIME, [])]; Delete Metadata [KEY_TIME]]
    InMemoryBackend_new in_memory_new_ok) as (d' & Hrun & Hok & _).
  exists d'. split; [exact Hrun|exact Hok].
Defined.

(** Three blocks on the anchor, then finalization of the third. *)
Definition script : M store unit unit :=
  insert_signed_block (root 1) (block 1);; insert_signed_block (root 2) (block 2);;
  insert_signed_block (root 3) (block 3);; update_checkpoints new_checkpoints.

(** The number of live blocks. *)
Definition live_count (o : outcome store unit unit) : option nat :=
  match o with
  | Done s _ => match get_live_chain s with Return m => Some (size m) | _ => None end
  | _ => None
  end.

(** The early stop of the live-chain pruning relies on the order of the keys: over the
    in-memory backend, whose iteration is unordered, finalizing slot 3 of a chain with
    blocks at slots 0 to 3 leaves blocks below the finalized slot alive. *)
Theorem in_memory_pruning_incomplete :
  ∃ n, live_count (script start) = Some n ∧ (1 < n)%nat.
Proof. exists 3%nat. split; [by vm_compute|lia]. Qed.

End StoreSample.

Lemma push_batch_window_witness :
  pb_entries (push_batch (PayloadBuffer_new NEW_PAYLOAD_CAP) []) = [].
Proof.
  destruct (push_batch_window (PayloadBuffer_new NEW_PAYLOAD_CAP) []) as [Heq _]; [by vm_compute..|].
  rewrite Heq. done.
Defined.
