(* ===== verification/ChainInvariant.v ===== *)
(** The invariant of the chain store: every processed block has a well-formed state, the
    live chain and the histories of the states point to processed blocks, and the head,
    the safe target and the checkpoints are processed blocks. *)

From S2P Require Import Prelude Types StateTransition Reference StateInvariant BlockProcessing Attestations Transitions.
From S2P Require Import ForkChoice Backend Keys Signatures PayloadBuffer Store StoreSpec StoreOps StorePruning StoreMaintenance.

(** * Checkpoints of a state have non-zero roots *)

Definition solid (s : State) : Prop :=
  0 < header_slot s → cp_root (st_latest_justified s) ≠ H256_ZERO ∧ cp_root (st_latest_finalized s) ≠ H256_ZERO.

Section solid.
Context `{STL : SszTypesLaws} `{HS : Hashing} `{HOL : HashOrderLaws}.

Lemma solid_step s J att s' J' :
  0 < header_slot s → solid s → attestation_step s J att s' J' → solid s'.
Proof.
  intros Hpos Hs Hstep. destruct (Hs Hpos) as [Hj Hf].
  destruct Hstep as [| | |s' Hval Hx1 Hx2 Hx3 Hjw|s' J' Hval Hx1 Hx2 Hx3 Hx4 Hjw Hx5]; [done|done|done| |];
    intros _; apply is_valid_vote_spec in Hval as (_ & _ & Hsz & Htz & _);
    by rewrite (jw_justified _ _ _ _ Hjw), (jw_finalized _ _ _ _ Hjw).
Qed.

Lemma solid_steps s J atts s' J' :
  core_wf s → votes_wf s J → 0 < header_slot s → solid s → attestation_steps s J atts s' J' → solid s'.
Proof.
  intros Hwf Hv Hpos Hs Hsteps. induction Hsteps as [|s J att s1 J1 atts s2 J2 Hstep _ IH]; [done|].
  destruct (attestation_step_invariant s J att s1 J1) as (Hwf1 & Hv1 & Hs1 & _); [done..|].
  apply IH; [done|done| |by apply (solid_step s J att s1 J1)].
  unfold header_slot. by rewrite (same_header _ _ Hs1).
Qed.

Lemma process_block_solid s block s' :
  state_wf s → solid s → b_parent_root block ≠ H256_ZERO → header_accepted s block →
  process_block block s = Done s' tt → solid s'.
Proof.
  intros Hwf Hs Hne Hacc Hrun. unfold process_block in Hrun. rewrite run_bind in Hrun.
  destruct (process_block_header_cases s block) as [(? & ? & _ & [])|(s1 & Hh & _ & Happ)];
    [apply Hwf|done|]. rewrite Hh in Hrun.
  assert (Hwf1 : state_wf s1) by (by eapply header_applied_wf).
  destruct (process_attestations_steps s1 (bb_attestations (b_body block)))
    as (s2 & J & Hsteps & Hrun2 & Hwf2 & _); [done|].
  rewrite Hrun2 in Hrun. injection Hrun as <-. change (solid s2).
  assert (Hpos : 0 < header_slot s1).
  { unfold header_slot. rewrite (hd_header _ _ _ Happ). cbn. pose proof (ha_newer _ _ Hacc). lia. }
  eapply solid_steps; [apply Hwf1|by apply load_votes_wf|done| |done].
  intros _. rewrite (hd_justified _ _ _ Happ), (hd_finalized _ _ _ Happ).
  destruct (N.eqb_spec (header_slot s) 0); [done|]. apply Hs. lia.
Qed.

(** The state of an imported block: the transition's result with the block's own header. *)
Definition imported_state (block : Block) (post : State) : State :=
  set_latest_block_header (set_state_root (b_state_root block) (st_latest_block_header post)) post.

Record imported (parent : State) (block : Block) (st : State) : Prop := {
  im_wf : state_wf st;
  im_anchored : anchored parent → anchored st;
  im_solid : solid parent → b_parent_root block ≠ H256_ZERO → solid st;
  im_header : st_latest_block_header st = block_header block;
  im_sealed : bh_state_root (st_latest_block_header st) = anchor_root st;
  im_newer : header_slot parent < b_slot block;
  im_history : st_historical_block_hashes st = st_historical_block_hashes parent ++ [b_parent_root block] ++
    replicate (N.to_nat (b_slot block - header_slot parent - 1)) H256_ZERO;
  im_validators : st_validators st = st_validators parent;
  im_finalized : fin_slot parent <= fin_slot st;
}.

Lemma imported_header_slot parent block st : imported parent block st → header_slot st = b_slot block.
Proof. intros Him. unfold header_slot. by rewrite (im_header _ _ _ Him). Qed.

Lemma transition_imported parent block post :
  state_wf parent → state_transition block parent = Done post tt →
  imported parent block (imported_state block post).
Proof.
  intros Hwf Hrun. destruct (state_transition_done _ _ _ Hwf Hrun) as (Hfits & Hpost & Hroot & Hpb).
  assert (Hlt : st_slot parent < b_slot block) by apply Hfits.
  pose proof (at_slot_wf (b_slot block) parent Hwf Hlt) as Hwf1.
  pose proof (proj2 (at_slot_accepted parent block (proj1 Hwf) Hlt) Hfits) as Hacc.
  assert (Hhead : header_slot (imported_state block post) = header_slot post) by done.
  destruct Hpost as [Hp1 Hp2 Hp3 Hp4 Hp5 Hp6 Hp7]. split.
  - destruct Hp1 as [Hc Ht]. split; [by destruct Hc; split|by destruct Ht; split].
  - exact Hp2.
  - intros Hs Hne. change (solid post).
    eapply (process_block_solid (at_slot (b_slot block) parent)); [done| |done|done|done].
    unfold solid in *. by rewrite at_slot_header_slot.
  - unfold imported_state. cbn. by rewrite Hp4.
  - change (b_state_root block = anchor_root (imported_state block post)). rewrite Hroot. unfold anchor_root, imported_state.
    f_equal. destruct post as [? ? hd]. cbn in Hp4 |- *. by rewrite Hp4.
  - pose proof (ha_newer _ _ Hacc) as Hn. by rewrite at_slot_header_slot in Hn.
  - exact Hp5.
  - exact Hp6.
  - exact Hp7.
Qed.

End solid.

(** * The invariant

    [seen] is the set of block headers that ever reach the store; the theorems hold for
    any set whose members have distinct, non-zero roots. [anchor] is the slot of the
    block the store was initialized from. *)

(** A payload buffer within its capacity, with payloads of possible validators only. *)
Definition entry_ok (e : PayloadEntry) : Prop := e.1.1 < VALIDATOR_REGISTRY_LIMIT.

Record buffer_ok (cap : u64) (b : PayloadBuffer) : Prop := {
  bo_wf : buffer_wf b;
  bo_capacity : pb_capacity b = cap;
  bo_entries : Forall entry_ok (pb_entries b);
}.

Lemma push_batch_ok cap b entries :
  buffer_ok cap b → Forall entry_ok entries → buffer_ok cap (push_batch b entries).
Proof.
  intros [Hwf Hcap Hb] He. split; [by apply push_batch_wf|by rewrite push_batch_last_n|].
  rewrite push_batch_last_n by done. cbn. by apply Forall_drop, Forall_app.
Qed.

Class HeadersSeen `{Hashing} (seen : BlockHeader → Prop) : Prop := {
  seen_inj h1 h2 : seen h1 → seen h2 → tree_hash_root h1 = tree_hash_root h2 → h1 = h2;
  seen_nonzero h : seen h → tree_hash_root h ≠ H256_ZERO;
}.

Section invariant.
Context `{STL : SszTypesLaws} `{HS : Hashing} (seen : BlockHeader → Prop) {HSeen : HeadersSeen seen}.
Context (anchor : N).
Implicit Types (a : View) (r : H256) (st : State).

(** The block [r] has been processed: its state is stored. *)
Definition processed a r st : Prop := vw_states a !! r = Some st.
Definition header_of st : BlockHeader := st_latest_block_header st.

(** A stored state belongs to the stored header of its root. *)
Record state_ok a r st : Prop := {
  so_wf : state_wf st;
  so_anchored : anchored st;
  so_solid : solid st;
  so_header : vw_headers a !! r = Some (header_of st);
  so_sealed : bh_state_root (header_of st) = anchor_root st;
  so_anchor : anchor <= header_slot st;
}.

(** A checkpoint of the store is a processed block at its slot. *)
Definition checkpoint_ok a (c : Checkpoint) : Prop :=
  ∃ st, processed a (cp_root c) st ∧ header_slot st = cp_slot c.

Record chain_core a : Prop := {
  cc_headers r h : vw_headers a !! r = Some h → seen h ∧ tree_hash_root h = r;
  cc_states r st : processed a r st → state_ok a r st;
  cc_parent r st : processed a r st → anchor < header_slot st →
    ∃ parent, processed a (bh_parent_root (header_of st)) parent;
  cc_order r st h : processed a r st → seen h → tree_hash_root h = bh_parent_root (header_of st) →
    bh_slot h < header_slot st;
  cc_live slot r p : vw_live a !! (slot, r) = Some p →
    ∃ st, processed a r st ∧ slot = header_slot st ∧ p = bh_parent_root (header_of st);
  cc_live_all r st : processed a r st → cp_slot (vw_finalized a) <= header_slot st →
    is_Some (vw_live a !! (header_slot st, r));
  cc_history r st i r' : processed a r st → get_at (st_historical_block_hashes st) i = Some r' →
    r' ≠ H256_ZERO → cp_slot (vw_finalized a) <= i → ∃ st', processed a r' st' ∧ u64_val (header_slot st') = i;
  cc_justified : checkpoint_ok a (vw_justified a);
  cc_finalized : checkpoint_ok a (vw_finalized a);
  cc_checkpoints : cp_slot (vw_finalized a) <= cp_slot (vw_justified a);
  cc_head : ∃ st, processed a (vw_head a) st;
  cc_safe : ∃ st, processed a (vw_safe_target a) st;
  cc_new : buffer_ok NEW_PAYLOAD_CAP (vw_new a);
  cc_known : buffer_ok AGGREGATED_PAYLOAD_CAP (vw_known a);
}.

(** Between two operations the head is not behind the justified checkpoint. *)
Record chain_inv a : Prop := {
  ci_core :> chain_core a;
  ci_head st : processed a (vw_head a) st → cp_slot (vw_justified a) <= header_slot st;
}.

(** ** Consequences *)

Lemma processed_root a r st : chain_core a → processed a r st → seen (header_of st) ∧ tree_hash_root (header_of st) = r.
Proof. intros Hc Hp. apply (cc_headers a Hc), (so_header a r st), (cc_states a Hc). exact Hp. Qed.

Lemma processed_nonzero a r st : chain_core a → processed a r st → r ≠ H256_ZERO.
Proof. intros Hc Hp. destruct (processed_root a r st Hc Hp) as [Hs <-]. by apply seen_nonzero. Qed.

Lemma processed_live a r st :
  chain_core a → processed a r st → cp_slot (vw_finalized a) <= header_slot st →
  vw_live a !! (header_slot st, r) = Some (bh_parent_root (header_of st)).
Proof.
  intros Hc Hp Hle. destruct (cc_live_all a Hc r st Hp Hle) as [p Hl]. rewrite Hl. f_equal.
  destruct (cc_live a Hc _ _ _ Hl) as (st' & Hp' & _ & ->). unfold processed in *. congruence.
Qed.

Lemma chain_live_functional a : chain_core a → live_functional a.
Proof.
  intros Hc s1 s2 r [p1 H1] [p2 H2].
  destruct (cc_live a Hc _ _ _ H1) as (st1 & Hp1 & -> & _), (cc_live a Hc _ _ _ H2) as (st2 & Hp2 & -> & _).
  unfold processed in *. congruence.
Qed.

(** A parent of a processed block that is itself processed has a lower slot. *)
Lemma parent_slot a r st parent :
  chain_core a → processed a r st → processed a (bh_parent_root (header_of st)) parent →
  header_slot parent < header_slot st.
Proof.
  intros Hc Hp Hpp. destruct (processed_root a _ parent Hc Hpp) as [Hs Hr].
  by apply (cc_order a Hc r st (header_of parent)).
Qed.

(** The live chain as a tree. *)
Definition live_tree a (m : BlockTree) : Prop :=
  ∀ r slot p, m !! r = Some (slot, p) ↔ vw_live a !! (slot, r) = Some p.

Lemma live_tree_increases a m : chain_core a → live_tree a m → slots_increase m.
Proof.
  intros Hc Hm r parent pparent slot pslot Hr Hp. apply Hm in Hr, Hp.
  destruct (cc_live a Hc _ _ _ Hr) as (st & Hst & -> & ->), (cc_live a Hc _ _ _ Hp) as (stp & Hstp & -> & _).
  by apply (parent_slot a r st).
Qed.

(** ** Preservation *)

(** Fields the invariant does not mention; the buffers may change within their bounds. *)
Record same_core a a' : Prop := {
  sc_headers : vw_headers a' = vw_headers a;
  sc_states : vw_states a' = vw_states a;
  sc_live : vw_live a' = vw_live a;
  sc_head : vw_head a' = vw_head a;
  sc_safe : vw_safe_target a' = vw_safe_target a;
  sc_justified : vw_justified a' = vw_justified a;
  sc_finalized : vw_finalized a' = vw_finalized a;
  sc_new : buffer_ok NEW_PAYLOAD_CAP (vw_new a');
  sc_known : buffer_ok AGGREGATED_PAYLOAD_CAP (vw_known a');
}.

Lemma chain_core_same a a' : same_core a a' → chain_core a → chain_core a'.
Proof.
  destruct a, a'. intros [] []. cbn in *. subst. split; try done. intros r st Hp.
  destruct (cc_states0 r st Hp). by split.
Qed.

Lemma chain_inv_same a a' : same_core a a' → chain_inv a → chain_inv a'.
Proof.
  intros Hs [Hc Hh]. split; [by eapply chain_core_same|]. unfold processed.
  rewrite (sc_states _ _ Hs), (sc_head _ _ Hs), (sc_justified _ _ Hs). apply Hh.
Qed.

(** A new head or safe target. *)
Lemma chain_core_head a r st : chain_core a → processed a r st → chain_core (vset_head r a).
Proof.
  intros [] Hp. destruct a. cbn in *. split; try done; [|by exists st].
  intros r' st' Hp'. by destruct (cc_states0 r' st' Hp').
Qed.

Lemma chain_inv_safe a r st : chain_inv a → processed a r st → chain_inv (vset_safe_target r a).
Proof.
  intros [[] Hh] Hp. destruct a. cbn in *. split; [|exact Hh]. split; try done; [|by exists st].
  intros r' st' Hp'. by destruct (cc_states0 r' st' Hp').
Qed.

(** New checkpoints, and a live chain pruned below the finalized slot. *)
Lemma chain_core_advance a a' :
  chain_core a →
  vw_headers a' = vw_headers a → vw_states a' = vw_states a → vw_head a' = vw_head a →
  vw_safe_target a' = vw_safe_target a → vw_new a' = vw_new a → vw_known a' = vw_known a →
  checkpoint_ok a (vw_justified a') → checkpoint_ok a (vw_finalized a') →
  cp_slot (vw_finalized a') <= cp_slot (vw_justified a') →
  cp_slot (vw_finalized a) <= cp_slot (vw_finalized a') →
  (∀ k v, vw_live a' !! k = Some v → vw_live a !! k = Some v) →
  (∀ k v, vw_live a !! k = Some v → cp_slot (vw_finalized a') <= u64_val k.1 → vw_live a' !! k = Some v) →
  chain_core a'.
Proof.
  intros [] Hh Hs Hhd Hsf Hnew Hknown Hj Hf Hfj Hff Hsub Hkeep.
  split; unfold processed, checkpoint_ok in *; rewrite ?Hh, ?Hs, ?Hhd, ?Hsf, ?Hnew, ?Hknown; try done.
  - intros r st Hp. destruct (cc_states0 r st Hp). split; rewrite ?Hh; done.
  - intros slot r p Hl. by apply cc_live0, Hsub.
  - intros r st Hp Hle. destruct (cc_live_all0 r st Hp ltac:(lia)) as [p Hl].
    exists p. by apply Hkeep.
  - intros r st i r' Hp Hi Hne Hle. apply (cc_history0 r st); [done..|lia].
  - destruct Hj as (st & Hp & Hs'). exists st. unfold processed in *. by rewrite Hs.
  - destruct Hf as (st & Hp & Hs'). exists st. unfold processed in *. by rewrite Hs.
Qed.

(** The entries of an imported block's history are processed blocks. *)
Lemma imported_history a parent block st i r' :
  chain_core a → processed a (b_parent_root block) parent → imported parent block st →
  get_at (st_historical_block_hashes st) i = Some r' → r' ≠ H256_ZERO → cp_slot (vw_finalized a) <= i →
  ∃ st', processed a r' st' ∧ u64_val (header_slot st') = i.
Proof.
  intros Hc Hp Him Hi Hne Hle. rewrite (im_history _ _ _ Him), get_at_lookup in Hi.
  pose proof (wf_hist_len parent (proj1 (so_wf _ _ _ (cc_states a Hc _ _ Hp)))) as Hlen. unfold len in Hlen.
  apply lookup_app_Some in Hi as [Hi|[Hge Hi]].
  { apply (cc_history a Hc (b_parent_root block) parent); [done|by rewrite get_at_lookup|done..]. }
  destruct (N.to_nat i - length (st_historical_block_hashes parent))%nat as [|n] eqn:Hn.
  - injection Hi as <-. exists parent. split; [done|]. lia.
  - apply lookup_replicate in Hi as [-> _]. done.
Qed.

(** A checkpoint of an imported block at or above the finalized slot is known. *)
Lemma imported_checkpoint a parent block st c :
  chain_core a → processed a (b_parent_root block) parent → imported parent block st →
  c = st_latest_justified st ∨ c = st_latest_finalized st →
  cp_slot (vw_finalized a) <= cp_slot c → checkpoint_ok a c.
Proof.
  intros Hc Hp Him Hcase Hle. destruct (cc_states a Hc _ _ Hp) as [_ Ha Hs _ _ _].
  assert (Hpos : 0 < header_slot st).
  { rewrite (imported_header_slot _ _ _ Him). pose proof (im_newer _ _ _ Him). lia. }
  destruct (im_anchored _ _ _ Him Ha Hpos) as [Hj Hf].
  destruct (im_solid _ _ _ Him Hs (processed_nonzero _ _ _ Hc Hp) Hpos) as [Hjz Hfz].
  rewrite checkpoint_exists_get in Hj, Hf.
  assert (Hget : get_at (st_historical_block_hashes st) (cp_slot c) = Some (cp_root c) ∧ cp_root c ≠ H256_ZERO)
    by (by destruct Hcase as [->| ->]).
  destruct Hget as [Hget Hnz].
  destruct (imported_history a parent block st _ _ Hc Hp Him Hget Hnz Hle) as (st' & Hp' & Hslot).
  exists st'. split; [done|]. by apply u64_eq.
Qed.

(** The store with a block and its state added. *)
Record block_added (root : H256) (block : Block) (st : State) a a' : Prop := {
  ba_headers : vw_headers a' = <[root := block_header block]> (vw_headers a);
  ba_states : vw_states a' = <[root := st]> (vw_states a);
  ba_live : vw_live a' = <[(b_slot block, root) := b_parent_root block]> (vw_live a);
  ba_head : vw_head a' = vw_head a;
  ba_safe : vw_safe_target a' = vw_safe_target a;
  ba_justified : vw_justified a' = vw_justified a;
  ba_finalized : vw_finalized a' = vw_finalized a;
  ba_new : vw_new a' = vw_new a;
  ba_known : vw_known a' = vw_known a;
}.

Lemma chain_core_insert a a' root parent block st :
  chain_core a → processed a (b_parent_root block) parent → imported parent block st →
  seen (block_header block) → root = tree_hash_root (block_header block) → vw_states a !! root = None →
  block_added root block st a a' → chain_core a'.
Proof.
  intros Hc Hp Him Hseen Hroot Hnew [].
  assert (Hold : ∀ r st', processed a r st' → processed a' r st').
  { intros r st' Hr. unfold processed. rewrite ba_states0, lookup_insert_ne; [done|].
    intros <-. unfold processed in Hr. congruence. }
  assert (Hcase : ∀ r st', processed a' r st' → (r = root ∧ st' = st) ∨ processed a r st').
  { intros r st'. unfold processed. rewrite ba_states0, lookup_insert_Some. naive_solver. }
  assert (Hck : ∀ c, checkpoint_ok a c → checkpoint_ok a' c)
    by (intros c (st' & Hr & Hs); exists st'; eauto).
  assert (Hslot : header_slot st = b_slot block) by (by eapply imported_header_slot).
  pose proof (im_newer _ _ _ Him) as Hnewer.
  assert (Hhead : header_of st = block_header block) by apply Him.
  split; rewrite ?ba_new0, ?ba_known0, ?ba_head0, ?ba_safe0, ?ba_justified0, ?ba_finalized0; try apply Hc.
  - intros r h. rewrite ba_headers0, lookup_insert_Some. intros [[<- <-]|[_ Hh]]; [done|by apply Hc].
  - intros r st' [[-> ->]|Hr]%Hcase.
    + destruct (cc_states a Hc _ _ Hp) as [_ Hpa Hps _ _ Hanc]. split; [apply Him|by apply Him| | |apply Him|].
      * apply Him; [done|by eapply processed_nonzero].
      * by rewrite ba_headers0, lookup_insert_eq, Hhead.
      * rewrite Hslot. lia.
    + destruct (cc_states a Hc _ _ Hr) as [? ? ? Hh ? ?]. split; [done..| |done|done]. rewrite ba_headers0.
      destruct (decide (r = root)) as [->|Hne]; [|by rewrite lookup_insert_ne].
      rewrite lookup_insert_eq. f_equal. destruct (cc_headers a Hc _ _ Hh) as [Hs Hr'].
      apply seen_inj; [done..|]. by rewrite Hr'.
  - intros r st' [[-> ->]|Hr]%Hcase Hgt.
    + exists parent. rewrite Hhead. by apply Hold.
    + destruct (cc_parent a Hc _ _ Hr Hgt) as [p Hpp]. exists p. by apply Hold.
  - intros r st' h [[-> ->]|Hr]%Hcase Hh Hroot'; [|by apply (cc_order a Hc r)].
    rewrite Hhead in Hroot'. cbn in Hroot'. destruct (processed_root a _ _ Hc Hp) as [Hs Hr].
    assert (h = header_of parent) as -> by (apply seen_inj; [done..|congruence]). rewrite Hslot. exact Hnewer.
  - intros slot r p. rewrite ba_live0, lookup_insert_Some. intros [[[= <- <-] <-]|[_ Hl]].
    + exists st. rewrite Hslot, Hhead. split; [|done]. unfold processed. by rewrite ba_states0, lookup_insert_eq.
    + destruct (cc_live a Hc _ _ _ Hl) as (st' & Hr & ?). exists st'. eauto.
  - intros r st' [[-> ->]|Hr]%Hcase Hle; rewrite ba_live0.
    + by rewrite Hslot, lookup_insert_eq.
    + apply lookup_insert_is_Some'. right. by apply Hc.
  - intros r st' i r' [[-> ->]|Hr]%Hcase Hi Hne Hle.
    + destruct (imported_history a parent block st i r') as (s1 & ? & ?); [done..|]. exists s1. eauto.
    + destruct (cc_history a Hc _ _ _ _ Hr Hi Hne Hle) as (s1 & ? & ?). exists s1. eauto.
  - apply Hck, Hc.
  - apply Hck, Hc.
  - destruct (cc_head a Hc) as [s1 Hs1]. exists s1. by apply Hold.
  - destruct (cc_safe a Hc) as [s1 Hs1]. exists s1. by apply Hold.
Qed.

(** ** Initialization *)

(** What the store assumes of the state it starts from. *)
Record anchor_ok (state : State) : Prop := {
  an_wf : state_wf state;
  an_anchored : anchored state;
  an_solid : solid state;
  an_seen : seen (header_of (anchored_state state));
  an_parent h : seen h → tree_hash_root h = bh_parent_root (header_of state) → bh_slot h < header_slot state;
}.

Lemma anchor_chain_inv state body :
  anchor_ok state → anchor = header_slot state → chain_inv (anchor_view state body).
Proof.
  intros [Hwf Hanch Hsolid Hseen Hparent] ->. set (st := anchored_state state).
  set (root := tree_hash_root (header_of st)).
  assert (Hone : ∀ r st', processed (anchor_view state body) r st' → r = root ∧ st' = st).
  { intros r st' Hp. unfold processed in Hp. cbn in Hp. by apply lookup_singleton_Some in Hp as [<- <-]. }
  assert (Hself : processed (anchor_view state body) root st) by apply lookup_singleton_eq.
  assert (Hwf' : state_wf st) by (destruct Hwf as [[] []]; by split; split).
  split; [|by intros st' [_ ->]%Hone]. split.
  - intros r h Hh. cbn in Hh. apply lookup_singleton_Some in Hh as [<- <-]. done.
  - intros r st' [-> ->]%Hone. split; [done|exact Hanch|exact Hsolid|apply lookup_singleton_eq|done|].
    change (header_slot st) with (header_slot state). lia.
  - intros r st' [-> ->]%Hone Hlt. change (header_slot st) with (header_slot state) in Hlt. lia.
  - intros r st' h [-> ->]%Hone Hh Hr. by apply Hparent.
  - intros slot r p Hl. cbn in Hl. apply lookup_singleton_Some in Hl as [[= <- <-] <-]. by exists st.
  - intros r st' [-> ->]%Hone _. cbn. eexists. apply lookup_singleton_eq.
  - intros r st' i r' [-> ->]%Hone Hi Hne Hle. apply get_at_Some in Hi.
    pose proof (wf_hist_len st (proj1 Hwf')) as Hlen. cbn in Hle.
    change (bh_slot (st_latest_block_header state)) with (header_slot state) in Hle.
    change (header_slot st) with (header_slot state) in Hlen. lia.
  - by exists st.
  - by exists st.
  - cbn. lia.
  - by exists st.
  - by exists st.
  - split; [split; cbn; [by vm_compute|by vm_compute]|done|constructor].
  - split; [split; cbn; [by vm_compute|by vm_compute]|done|constructor].
Qed.

End invariant.
