(* ===== verification/ChainStore.v ===== *)
(** The chain store (crates/blockchain/src/store.rs), first part: errors, head and safe
    target, the interval clock, gossip handlers, block import with signature
    verification. Metrics and logging are left out, but for the picture of the
    fork choice. *)

From S2P Require Import Prelude Types StateTransition ForkChoice ForkChoiceTree Backend Keys Signatures PayloadBuffer Store Crypto.

(** * Constants *)

Definition JUSTIFICATION_LOOKBACK_SLOTS : nat := 3.
Definition ATTESTATION_COMMITTEE_COUNT : u64 := to_u64 1.
Definition MILLISECONDS_PER_INTERVAL : u64 := to_u64 800.
Definition INTERVALS_PER_SLOT : u64 := to_u64 5.
Definition MILLISECONDS_PER_SLOT : u64 := wrapping_mul MILLISECONDS_PER_INTERVAL INTERVALS_PER_SLOT.
Definition MAX_REORG_DEPTH : nat := N.to_nat 128.

(** [a / b] and [a % b] on machine integers. *)
Definition u64_div (a b : u64) : u64 := to_u64 (a / b).
Definition u64_rem (a b : u64) : u64 := to_u64 (a mod b).

(** * Errors *)

Section error.
Context `{MS : MultisigScheme}.

Inductive StoreError : Type :=
| MissingParentState (parent_root : H256) (slot : u64)
| InvalidValidatorIndex
| PubkeyDecodingFailed (validator_id : u64)
| SignatureDecodingFailed
| SignatureVerificationFailed
| ProposerSignatureDecodingFailed
| ProposerSignatureVerificationFailed
| StateTransitionFailed (e : Error)
| UnknownSourceBlock (root : H256)
| UnknownTargetBlock (root : H256)
| UnknownHeadBlock (root : H256)
| SourceExceedsTarget
| HeadOlderThanTarget (head_slot target_slot : u64)
| SourceSlotMismatch (checkpoint_slot block_slot : u64)
| TargetSlotMismatch (checkpoint_slot block_slot : u64)
| HeadSlotMismatch (checkpoint_slot block_slot : u64)
| AttestationTooFarInFuture (attestation_slot current_slot : u64)
| AttestationSignatureMismatch (signatures attestations : N)
| ParticipantsMismatch
| AggregateVerificationFailed (e : VerificationError)
| SignatureAggregationFailed (e : AggregationError)
| MissingTargetState (root : H256)
| NotProposer (validator_index slot : u64)
| ProposerAttestationMismatch (attestation_id proposer_index : u64).

End error.

(** [compute_subnet_id] *)
Definition compute_subnet_id (validator_id : u64) : u64 := u64_rem validator_id ATTESTATION_COMMITTEE_COUNT.

(** [bits.set(vid, true).expect(..)] for each validator. *)
Definition set_bits `{SszTypes} (bits : AggregationBits) (vids : list u64) : partial AggregationBits :=
  fold_partial (λ bits vid, expect_some (bitlist_set bits (u64_val vid) true)) bits vids.

(** [vids.iter().copied().max()], 0 for none. *)
Definition max_id (vids : list u64) : u64 :=
  foldr (λ vid m : u64, if u64_val m <=? vid then vid else m) (to_u64 0) vids.

(** [aggregation_bits_from_validator_indices] *)
Definition aggregation_bits_from_validator_indices `{SszTypes} (bits : list u64) : partial AggregationBits :=
  match bits with
  | [] => expect_some (bitlist_with_capacity VALIDATOR_REGISTRY_LIMIT 0)
  | _ =>
      aggregation_bits ← expect_some (bitlist_with_capacity VALIDATOR_REGISTRY_LIMIT
        (wrapping_add (max_id bits) (to_u64 1)));
      set_bits aggregation_bits bits
  end.

Section chain_store.
Context `{ST : SszTypes} `{SB : StorageBackend D B} `{CO : Codecs} `{HS : Hashing} `{HO : HashOrder}.
Context `{MS : MultisigScheme}.

Abbreviation store := (Store D).

(** * Head and safe target *)

(** The loop of [reorg_depth]: [fuel] steps are left before the depth bound. *)
Fixpoint reorg_walk (fuel : nat) (target_slot : u64) (target_root : H256) (s : store) (depth : u64)
    (current_root : H256) : partial (option u64) :=
  match fuel with
  | O => Diverge
  | S fuel =>
      header ← get_block_header current_root s;
      match header with
      | None => Return None
      | Some current_header =>
          if bh_slot current_header <=? target_slot
          then Return (if bool_decide (current_root = target_root) then None else Some depth)
          else
            let depth := wrapping_add depth (to_u64 1) in
            if N.of_nat MAX_REORG_DEPTH <=? depth then Return (Some depth)
            else reorg_walk fuel target_slot target_root s depth (bh_parent_root current_header)
      end
  end.

(** [reorg_depth] *)
Definition reorg_depth (old_head new_head : H256) (s : store) : partial (option u64) :=
  if bool_decide (new_head = old_head) then Return None
  else
    old_head_header ← get_block_header old_head s;
    match old_head_header with
    | None => Return None
    | Some old_head_header =>
        new_head_header ← get_block_header new_head s;
        match new_head_header with
        | None => Return None
        | Some new_head_header =>
            let old_slot := bh_slot old_head_header in
            let new_slot := bh_slot new_head_header in
            let '(current_root, target_slot, target_root) :=
              if old_slot <=? new_slot then (new_head, old_slot, old_head)
              else (old_head, new_slot, new_head) in
            reorg_walk MAX_REORG_DEPTH target_slot target_root s (to_u64 0) current_root
        end
    end.

(** [update_head] *)
Definition update_head {E} (log_tree : bool) : M store E unit :=
  blocks ← reads get_live_chain;
  attestations ← reads extract_latest_known_attestations;
  old_head ← reads store_head;
  justified ← reads latest_justified;
  '(new_head, weights) ←
    lift_partial (compute_lmd_ghost_head (cp_root justified) blocks attestations (to_u64 0));
  reorg ← reads (reorg_depth old_head new_head);
  update_checkpoints (head_only new_head);;
  (if bool_decide (old_head = new_head) then mret tt
   else
     old_header ← reads (get_block_header old_head);
     new_header ← reads (get_block_header new_head);
     mret tt);;
  if log_tree then
    justified ← reads latest_justified;
    finalized ← reads latest_finalized;
    tree ← lift_partial (format_fork_choice_tree blocks weights new_head justified finalized);
    mret tt
  else mret tt.

(** [accept_new_attestations] *)
Definition accept_new_attestations {E} (log_tree : bool) : M store E unit :=
  promote_new_aggregated_payloads;;
  update_head log_tree.

(** [update_safe_target] *)
Definition update_safe_target {E} : M store E unit :=
  head ← reads store_head;
  head_state ← reads (get_state head);
  head_state ← lift_partial (expect_some head_state);
  let num_validators := to_u64 (len (st_validators head_state)) in
  let min_target_score := to_u64 (div_ceil (wrapping_mul num_validators (to_u64 2)) 3) in
  blocks ← reads get_live_chain;
  known_keys ← gets iter_known_aggregated_payload_keys;
  new_keys ← gets iter_new_aggregated_payload_keys;
  let all_keys : gset SignatureKey := list_to_set (known_keys ++ new_keys) in
  attestations ← reads (extract_latest_attestations (hash_elems all_keys));
  justified ← reads latest_justified;
  '(safe_target, _) ←
    lift_partial (compute_lmd_ghost_head (cp_root justified) blocks attestations min_target_score);
  set_safe_target safe_target.

(** * Committee aggregation *)

(** Gossip signatures that decode, by data root. *)
Definition group_gossip (gossip_sigs : list (SignatureKey * StoredSignature)) :
    gmap H256 (list (u64 * ValidatorSignature)) :=
  foldl (λ (groups : gmap H256 (list (u64 * ValidatorSignature))) '((validator_id, data_root), stored_sig),
    match to_validator_signature stored_sig with
    | Some sig => <[data_root := default [] (groups !! data_root) ++ [(validator_id, sig)]]> groups
    | None => groups
    end) ∅ gossip_sigs.

(** The signers of a group with a known, decodable key: id, key and signature. *)
Definition group_signers (validators : list Validator) (group : list (u64 * ValidatorSignature)) :
    list (u64 * ValidatorPublicKey * ValidatorSignature) :=
  omap (M := list) (λ '(vid, sig),
    validator ← get_at validators (u64_val vid);
    pubkey ← get_pubkey validator;
    Some (vid, pubkey, sig)) group.

(** One group of [aggregate_committee_signatures]; [None] is [continue]. *)
Definition aggregate_group (validators : list Validator) (data_root : H256)
    (group : list (u64 * ValidatorSignature)) (s : store) :
    partial (option (H256 * SignedAggregatedAttestation * list u64)) :=
  data ← get_attestation_data_by_root data_root s;
  match data with
  | None => Return None
  | Some data =>
      let signers := group_signers validators group in
      let ids := (λ '(vid, _, _), vid) <$> signers in
      let pubkeys := (λ '(_, pubkey, _), pubkey) <$> signers in
      let sigs := (λ '(_, _, sig), sig) <$> signers in
      match ids with
      | [] => Return None
      | _ =>
          match aggregate_signatures pubkeys sigs data_root (as_u32 (ad_slot data)) with
          | inl _ => Return None
          | inr proof_data =>
              participants ← aggregation_bits_from_validator_indices ids;
              let proof := AggregatedSignatureProof_new participants proof_data in
              Return (Some (data_root, mk_signed_aggregated data proof, ids))
          end
      end
  end.

(** The payload entries and the gossip keys of an aggregated group. *)
Definition group_payloads (group : H256 * SignedAggregatedAttestation * list u64) : list PayloadEntry :=
  let '(data_root, aggregate, ids) := group in
  let payload := mk_stored_payload (ad_slot (sga_data aggregate)) (sga_proof aggregate) in
  (λ vid, ((vid, data_root), payload)) <$> ids.
Definition group_keys (group : H256 * SignedAggregatedAttestation * list u64) : list SignatureKey :=
  let '(data_root, _, ids) := group in (λ vid, (vid, data_root)) <$> ids.

(** [aggregate_committee_signatures] *)
Definition aggregate_committee_signatures {E} : M store E (list SignedAggregatedAttestation) :=
  gossip_sigs ← reads iter_gossip_signatures;
  match gossip_sigs with
  | [] => mret []
  | _ =>
      head_state ← reads head_state;
      let groups := group_gossip gossip_sigs in
      results ← reads (λ s, map_partial
        (λ '(data_root, group), aggregate_group (st_validators head_state) data_root group s) (hash_iter groups));
      let aggregated := omap (M := list) id results in
      insert_new_aggregated_payloads_batch (aggregated ≫= group_payloads);;
      delete_gossip_signatures (aggregated ≫= group_keys);;
      mret ((λ group, group.1.2) <$> aggregated)
  end.

(** * Attestation validation *)

(** [validate_attestation_data] *)
Definition validate_attestation_data (data : AttestationData) : M store StoreError unit :=
  source_header ← reads (get_block_header (cp_root (ad_source data)));
  source_header ← ok_or source_header (UnknownSourceBlock (cp_root (ad_source data)));
  target_header ← reads (get_block_header (cp_root (ad_target data)));
  target_header ← ok_or target_header (UnknownTargetBlock (cp_root (ad_target data)));
  head_header ← reads (get_block_header (cp_root (ad_head data)));
  head_header ← ok_or head_header (UnknownHeadBlock (cp_root (ad_head data)));
  fail_if (cp_slot (ad_target data) <? cp_slot (ad_source data)) SourceExceedsTarget;;
  fail_if (cp_slot (ad_head data) <? cp_slot (ad_target data))
    (HeadOlderThanTarget (cp_slot (ad_head data)) (cp_slot (ad_target data)));;
  fail_if (negb (bool_decide (bh_slot source_header = cp_slot (ad_source data))))
    (SourceSlotMismatch (cp_slot (ad_source data)) (bh_slot source_header));;
  fail_if (negb (bool_decide (bh_slot target_header = cp_slot (ad_target data))))
    (TargetSlotMismatch (cp_slot (ad_target data)) (bh_slot target_header));;
  fail_if (negb (bool_decide (bh_slot head_header = cp_slot (ad_head data))))
    (HeadSlotMismatch (cp_slot (ad_head data)) (bh_slot head_header));;
  time ← reads store_time;
  let current_slot := u64_div time INTERVALS_PER_SLOT in
  fail_if (wrapping_add current_slot (to_u64 1) <? ad_slot data)
    (AttestationTooFarInFuture (ad_slot data) current_slot).

(** * The interval clock *)

(** The work of one interval, once [store.time] has been advanced to it. *)
Definition tick_interval {E} (interval : u64) (should_signal_proposal is_aggregator : bool) :
    M store E (list SignedAggregatedAttestation) :=
  match u64_val interval with
  | 0 => (if should_signal_proposal then accept_new_attestations false else mret tt);; mret []
  | 1 => mret []
  | 2 => if is_aggregator then aggregate_committee_signatures else mret []
  | 3 => update_safe_target;; mret []
  | 4 => accept_new_attestations true;; mret []
  | _ => lift_partial Panic
  end.

(** The [while] loop of [on_tick]. *)
Fixpoint tick_loop {E} (fuel : nat) (time : u64) (has_proposal is_aggregator : bool) :
    M store E (list SignedAggregatedAttestation) :=
  match fuel with
  | O => lift_partial Diverge
  | S fuel =>
      now ← reads store_time;
      if u64_val now <? time then
        set_time (wrapping_add now (to_u64 1));;
        now ← reads store_time;
        let interval := u64_rem now INTERVALS_PER_SLOT in
        let is_final_tick := bool_decide (now = time) in
        let should_signal_proposal := has_proposal && is_final_tick in
        new_aggregates ← tick_interval interval should_signal_proposal is_aggregator;
        rest ← tick_loop fuel time has_proposal is_aggregator;
        mret (new_aggregates ++ rest)
      else mret []
  end.

(** At most five intervals are ticked, and the loop condition is tested once more. *)
Definition tick_fuel : nat := 6.

(** The number of intervals from genesis to a UNIX time in milliseconds. *)
Definition intervals_since_genesis (config : ChainConfig) (timestamp_ms : u64) : u64 :=
  let genesis_time_ms := wrapping_mul (cc_genesis_time config) (to_u64 1000) in
  let time_delta_ms := saturating_sub timestamp_ms genesis_time_ms in
  u64_div time_delta_ms MILLISECONDS_PER_INTERVAL.

(** [on_tick] *)
Definition on_tick {E} (timestamp_ms : u64) (has_proposal is_aggregator : bool) :
    M store E (list SignedAggregatedAttestation) :=
  config ← reads store_config;
  let time := intervals_since_genesis config timestamp_ms in
  now ← reads store_time;
  (if INTERVALS_PER_SLOT <? saturating_sub time now
   then set_time (wrapping_sub time INTERVALS_PER_SLOT)
   else mret tt);;
  tick_loop tick_fuel time has_proposal is_aggregator.

(** * Gossip *)

(** [validators[vid].get_pubkey().map_err(..)?] *)
Definition pubkey_of {S : Type} (validators : list Validator) (vid : u64) : M S StoreError ValidatorPublicKey :=
  validator ← lift_partial (expect_some (get_at validators (u64_val vid)));
  ok_or (get_pubkey validator) (PubkeyDecodingFailed vid).

Definition in_our_subnet (local_validator_ids : list u64) (vid : u64) : bool :=
  existsb (λ v, bool_decide (compute_subnet_id v = compute_subnet_id vid)) local_validator_ids.

(** [on_gossip_attestation] *)
Definition on_gossip_attestation (signed_attestation : SignedAttestation) (local_validator_ids : list u64) :
    M store StoreError unit :=
  let validator_id := sa_validator_id signed_attestation in
  let data := sa_data signed_attestation in
  validate_attestation_data data;;
  let data_root := tree_hash_root data in
  let target := ad_target data in
  target_state ← reads (get_state (cp_root target));
  target_state ← ok_or target_state (MissingTargetState (cp_root target));
  fail_if (to_u64 (len (st_validators target_state)) <=? validator_id) InvalidValidatorIndex;;
  validator_pubkey ← pubkey_of (st_validators target_state) validator_id;
  slot ← lift_partial (expect_some (u32_try_from (ad_slot data)));
  signature ← ok_or (ValidatorSignature_from_bytes (sa_signature signed_attestation)) SignatureDecodingFailed;
  fail_if (negb (is_valid signature validator_pubkey slot data_root)) SignatureVerificationFailed;;
  insert_attestation_data_by_root data_root data;;
  if in_our_subnet local_validator_ids validator_id
  then insert_gossip_signature data_root (ad_slot data) validator_id signature
  else mret tt.

(** [on_gossip_aggregated_attestation] *)
Definition on_gossip_aggregated_attestation (aggregated : SignedAggregatedAttestation) :
    M store StoreError unit :=
  let data := sga_data aggregated in
  validate_attestation_data data;;
  target_state ← reads (get_state (cp_root (ad_target data)));
  target_state ← ok_or target_state (MissingTargetState (cp_root (ad_target data)));
  let validators := st_validators target_state in
  let num_validators := to_u64 (len validators) in
  let indices := participant_indices (sga_proof aggregated) in
  fail_if (existsb (λ vid : u64, num_validators <=? vid) indices) InvalidValidatorIndex;;
  pubkeys ← mapM (pubkey_of validators) indices;
  let data_root := tree_hash_root data in
  slot ← lift_partial (expect_some (u32_try_from (ad_slot data)));
  map_err AggregateVerificationFailed
    (verify_aggregated_signature (pf_proof_data (sga_proof aggregated)) pubkeys data_root slot);;
  insert_attestation_data_by_root data_root data;;
  let payload := mk_stored_payload (ad_slot data) (sga_proof aggregated) in
  insert_new_aggregated_payloads_batch ((λ validator_id, ((validator_id, data_root), payload)) <$> indices).

(** * Block signatures *)

(** One attestation of [verify_signatures] with its proof. *)
Definition verify_attestation {S : Type} (validators : list Validator)
    (entry : AggregatedAttestation * AggregatedSignatureProof) : M S StoreError unit :=
  let '(attestation, aggregated_proof) := entry in
  fail_if (negb (bool_decide (aa_aggregation_bits attestation = pf_participants aggregated_proof)))
    ParticipantsMismatch;;
  let validator_ids := validator_indices (aa_aggregation_bits attestation) in
  let num_validators := to_u64 (len validators) in
  fail_if (existsb (λ vid : u64, num_validators <=? vid) validator_ids) InvalidValidatorIndex;;
  slot ← lift_partial (expect_some (u32_try_from (ad_slot (aa_data attestation))));
  let message := tree_hash_root (aa_data attestation) in
  public_keys ← mapM (pubkey_of validators) validator_ids;
  map_err AggregateVerificationFailed
    (verify_aggregated_signature (pf_proof_data aggregated_proof) public_keys message slot).

(** The proposer's part of [verify_signatures]. *)
Definition verify_proposer {S : Type} (validators : list Validator) (signed_block : SignedBlockWithAttestation) :
    M S StoreError unit :=
  let block := bwa_block (sb_message signed_block) in
  let proposer_attestation := bwa_proposer_attestation (sb_message signed_block) in
  fail_if (negb (bool_decide (att_validator_id proposer_attestation = b_proposer_index block)))
    (ProposerAttestationMismatch (att_validator_id proposer_attestation) (b_proposer_index block));;
  proposer_signature ← ok_or (ValidatorSignature_from_bytes (bs_proposer_signature (sb_signature signed_block)))
    ProposerSignatureDecodingFailed;
  proposer ← ok_or (get_at validators (b_proposer_index block)) InvalidValidatorIndex;
  proposer_pubkey ← ok_or (get_pubkey proposer) (PubkeyDecodingFailed (v_index proposer));
  slot ← lift_partial (expect_some (u32_try_from (ad_slot (att_data proposer_attestation))));
  let message := tree_hash_root (att_data proposer_attestation) in
  fail_if (negb (is_valid proposer_signature proposer_pubkey slot message))
    ProposerSignatureVerificationFailed.

(** [verify_signatures] *)
Definition verify_signatures {S : Type} (state : State) (signed_block : SignedBlockWithAttestation) :
    M S StoreError unit :=
  let attestations := bb_attestations (b_body (bwa_block (sb_message signed_block))) in
  let attestation_signatures := bs_attestation_signatures (sb_signature signed_block) in
  fail_if (negb (len attestations =? len attestation_signatures))
    (AttestationSignatureMismatch (len attestation_signatures) (len attestations));;
  let validators := st_validators state in
  foldM (λ _ entry, verify_attestation validators entry) tt (combine attestations attestation_signatures);;
  verify_proposer validators signed_block.

(** * Block import *)

(** The payload entries of one body attestation. *)
Definition known_payloads_of (entry : AggregatedAttestation * AggregatedSignatureProof) : list PayloadEntry :=
  let '(att, proof) := entry in
  let data_root := tree_hash_root (aa_data att) in
  let payload := mk_stored_payload (ad_slot (aa_data att)) proof in
  (λ validator_id, ((validator_id, data_root), payload)) <$> validator_indices (aa_aggregation_bits att).

Definition data_entry_of (data : AttestationData) : H256 * AttestationData := (tree_hash_root data, data).

(** [then_some]: the checkpoint if it is above the stored one. *)
Definition newer (checkpoint stored : Checkpoint) : option Checkpoint :=
  if cp_slot stored <? u64_val (cp_slot checkpoint) then Some checkpoint else None.

(** The checkpoint update of [on_block_core]. *)
Definition import_checkpoints {E} (post_state : State) : M store E unit :=
  stored_justified ← reads latest_justified;
  let justified := newer (st_latest_justified post_state) stored_justified in
  stored_finalized ← reads latest_finalized;
  let finalized := newer (st_latest_finalized post_state) stored_finalized in
  match justified, finalized with
  | None, None => mret tt
  | _, _ => head ← reads store_head; update_checkpoints (mk_fork_checkpoints head justified finalized)
  end.

(** The proposer's attestation, the last part of [on_block_core]. *)
Definition import_proposer_attestation (signed_block : SignedBlockWithAttestation) (verify : bool)
    (local_validator_ids : list u64) : M store StoreError unit :=
  let proposer_attestation := bwa_proposer_attestation (sb_message signed_block) in
  let proposer_vid := att_validator_id proposer_attestation in
  let proposer_data_root := tree_hash_root (att_data proposer_attestation) in
  let slot := ad_slot (att_data proposer_attestation) in
  if negb verify then
    participants ← lift_partial (aggregation_bits_from_validator_indices [proposer_vid]);
    insert_new_aggregated_payload (proposer_vid, proposer_data_root)
      (mk_stored_payload slot (AggregatedSignatureProof_empty participants))
  else if in_our_subnet local_validator_ids proposer_vid then
    proposer_sig ← ok_or (ValidatorSignature_from_bytes (bs_proposer_signature (sb_signature signed_block)))
      SignatureDecodingFailed;
    insert_gossip_signature proposer_data_root slot proposer_vid proposer_sig
  else mret tt.

(** [on_block_core] after the state transition has succeeded. *)
Definition import_block (signed_block : SignedBlockWithAttestation) (post_state : State) (verify : bool)
    (local_validator_ids : list u64) : M store StoreError unit :=
  let block := bwa_block (sb_message signed_block) in
  let block_root := tree_hash_root block in
  let proposer_attestation := bwa_proposer_attestation (sb_message signed_block) in
  let entries := combine (bb_attestations (b_body block)) (bs_attestation_signatures (sb_signature signed_block)) in
  import_checkpoints post_state;;
  insert_signed_block block_root signed_block;;
  insert_state block_root post_state;;
  insert_attestation_data_by_root_batch
    (((λ '(att, _), data_entry_of (aa_data att)) <$> entries) ++ [data_entry_of (att_data proposer_attestation)]);;
  insert_known_aggregated_payloads_batch (entries ≫= known_payloads_of);;
  update_head false;;
  import_proposer_attestation signed_block verify local_validator_ids.

(** [on_block_core] *)
Definition on_block_core (signed_block : SignedBlockWithAttestation) (verify : bool)
    (local_validator_ids : list u64) : M store StoreError unit :=
  let block := bwa_block (sb_message signed_block) in
  let block_root := tree_hash_root block in
  duplicate ← reads (has_state block_root);
  if duplicate : bool then mret tt
  else
    parent_state ← reads (get_state (b_parent_root block));
    parent_state ← ok_or parent_state (MissingParentState (b_parent_root block) (b_slot block));
    (if verify then verify_signatures parent_state signed_block else mret tt);;
    '(post_state, _) ← on_local StateTransitionFailed (state_transition block) parent_state;
    let post_state := set_latest_block_header
      (set_state_root (b_state_root block) (st_latest_block_header post_state)) post_state in
    import_block signed_block post_state verify local_validator_ids.

(** [on_block], [on_block_without_verification] *)
Definition on_block (signed_block : SignedBlockWithAttestation) (local_validator_ids : list u64) :
    M store StoreError unit :=
  on_block_core signed_block true local_validator_ids.
Definition on_block_without_verification (signed_block : SignedBlockWithAttestation) :
    M store StoreError unit :=
  on_block_core signed_block false [].

End chain_store.
