(* ===== verification/Bits.v ===== *)
(** Aggregation bit fields: what [validator_indices] and
    [aggregation_bits_from_validator_indices] compute. *)

From S2P Require Import Prelude Types ChainStore.

Lemma imap_filter_indices (bits : AggregationBits) (k : nat) :
  N.of_nat (k + length bits) <= 2 ^ 64 →
  ∀ x : u64, x ∈ omap (M := list) (λ '(i, bit), if bit : bool then Some (to_u64 (N.of_nat i)) else None)
      (imap (λ i b, ((k + i)%nat, b)) bits) ↔
    N.of_nat k <= u64_val x ∧ bits !! (N.to_nat (u64_val x) - k)%nat = Some true.
Proof.
  revert k. induction bits as [|b bits IH]; intros k Hk x.
  { cbn. rewrite lookup_nil. split; [by intros ?%not_elem_of_nil|by intros []]. }
  assert (Hcons : imap (λ i b, ((k + i)%nat, b)) (b :: bits) =
    ((k + 0)%nat, b) :: imap (λ i b, ((S k + i)%nat, b)) bits).
  { rewrite imap_cons. f_equal. apply imap_ext. intros i b' _. cbn. f_equal. lia. }
  rewrite Hcons. cbn [length] in Hk.
  assert (Hx : x = to_u64 (N.of_nat (k + 0)) ↔ u64_val x = N.of_nat k).
  { split; [intros ->; rewrite to_u64_small by lia; lia|]. intros Hv. apply u64_eq.
    rewrite to_u64_small by lia. lia. }
  destruct b; cbn [omap list_omap]; rewrite ?elem_of_cons, ?IH, ?Hx by lia; split.
  - intros [Hv|[Hle Hl]].
    + split; [lia|]. replace (N.to_nat (u64_val x) - k)%nat with 0%nat by lia. done.
    + split; [lia|]. replace (N.to_nat (u64_val x) - k)%nat with (S (N.to_nat (u64_val x) - S k)) by lia. done.
  - intros [Hle Hl]. destruct (decide (u64_val x = N.of_nat k)) as [|Hne]; [by left|]. right.
    split; [lia|]. by replace (N.to_nat (u64_val x) - k)%nat with (S (N.to_nat (u64_val x) - S k)) in Hl by lia.
  - intros [Hle Hl]. split; [lia|].
    by replace (N.to_nat (u64_val x) - k)%nat with (S (N.to_nat (u64_val x) - S k)) by lia.
  - intros [Hle Hl]. destruct (decide (u64_val x = N.of_nat k)) as [Heq|Hne].
    { by replace (N.to_nat (u64_val x) - k)%nat with 0%nat in Hl by lia. }
    split; [lia|]. by replace (N.to_nat (u64_val x) - k)%nat with (S (N.to_nat (u64_val x) - S k)) in Hl by lia.
Qed.

(** The indices of a bit field are the positions of its set bits. *)
Lemma elem_of_validator_indices (bits : AggregationBits) (x : u64) :
  len bits <= 2 ^ 64 → x ∈ validator_indices bits ↔ get_at bits (u64_val x) = Some true.
Proof.
  intros Hl. unfold validator_indices. rewrite get_at_lookup. pose proof (imap_filter_indices bits 0) as Hi.
  unfold len in Hl. rewrite Hi by lia. rewrite Nat.sub_0_r. split; [by intros []|]. intros Hx. split; [lia|done].
Qed.

Section bits.
Context `{STL : SszTypesLaws}.

Lemma set_bits_spec (vids : list u64) : ∀ bits : AggregationBits,
  (∀ vid : u64, vid ∈ vids → u64_val vid < len bits) →
  ∃ bits', set_bits bits vids = Return bits' ∧ len bits' = len bits ∧
    ∀ i : u64, get_at bits' (u64_val i) = Some true ↔ get_at bits (u64_val i) = Some true ∨ i ∈ vids.
Proof.
  unfold set_bits. induction vids as [|vid vids IH]; intros bits Hall; cbn [fold_partial].
  { exists bits. split_and!; [done..|]. intros i. split; [by left|]. by intros [|?%not_elem_of_nil]. }
  pose proof (Hall vid (list_elem_of_here _ _)) as Hvid.
  rewrite bitlist_set_spec, (proj2 (N.ltb_lt _ _)) by done. cbn [expect_some mbind partial_bind].
  assert (Hlen : len (<[N.to_nat (u64_val vid) := true]> bits) = len bits) by (unfold len; by rewrite length_insert).
  destruct (IH (<[N.to_nat (u64_val vid) := true]> bits)) as (bits' & Hrun & Hl & Hbits).
  { intros v Hv. rewrite Hlen. apply Hall. by right. }
  exists bits'. split_and!; [done|by rewrite Hl|]. intros i. rewrite Hbits, elem_of_cons, !get_at_lookup.
  destruct (decide (i = vid)) as [->|Hne].
  - rewrite list_lookup_insert_eq by (unfold len in Hvid; lia). naive_solver.
  - rewrite list_lookup_insert_ne; [naive_solver|]. intros Heq%N2Nat.inj. by apply Hne, u64_eq.
Qed.

Lemma max_id_cons v (vids : list u64) :
  max_id (v :: vids) = if u64_val (max_id vids) <=? v then v else max_id vids.
Proof. done. Qed.

Lemma max_id_ge (vids : list u64) (vid : u64) : vid ∈ vids → u64_val vid <= max_id vids.
Proof.
  induction vids as [|v vids IH]; [by intros ?%not_elem_of_nil|]. rewrite max_id_cons.
  intros [->|Hin]%elem_of_cons; [|specialize (IH Hin)]; destruct (N.leb_spec (max_id vids) v); lia.
Qed.

Lemma max_id_in (vids : list u64) : vids ≠ [] → max_id vids ∈ vids.
Proof.
  induction vids as [|v vids IH]; [done|]. intros _. rewrite max_id_cons.
  destruct (N.leb_spec (max_id vids) v) as [|Hlt]; [by left|]. right. apply IH. intros ->.
  change (max_id []) with (to_u64 0) in Hlt. lia.
Qed.

(** The field of a list of validators below the registry limit. *)
Lemma capacity_bits_spec (vids : list u64) :
  vids ≠ [] → (∀ vid : u64, vid ∈ vids → u64_val vid < VALIDATOR_REGISTRY_LIMIT) →
  ∃ bits, (bits ← expect_some (bitlist_with_capacity VALIDATOR_REGISTRY_LIMIT
      (wrapping_add (max_id vids) (to_u64 1))); set_bits bits vids) = Return bits ∧
    len bits <= VALIDATOR_REGISTRY_LIMIT ∧ ∀ i : u64, get_at bits (u64_val i) = Some true ↔ i ∈ vids.
Proof.
  intros Hne Hall. pose proof (Hall _ (max_id_in vids Hne)) as Hmax. unfold VALIDATOR_REGISTRY_LIMIT in *.
  assert (Hcap : u64_val (wrapping_add (max_id vids) (to_u64 1)) = max_id vids + 1) by (unfold wrapping_add; lia).
  rewrite bitlist_with_capacity_spec, Hcap, (proj2 (N.leb_le _ _)) by lia.
  cbn [expect_some mbind partial_bind].
  destruct (set_bits_spec vids (replicate (N.to_nat (max_id vids + 1)) false)) as (bits & Hrun & Hlen & Hbits).
  { intros vid Hin%max_id_ge. rewrite len_replicate. lia. }
  exists bits. rewrite len_replicate in Hlen. split_and!; [done|lia|]. intros i. rewrite Hbits, get_at_lookup.
  split; [|by right]. intros [Hf|]; [|done]. by apply lookup_replicate in Hf as [? _].
Qed.

Lemma aggregation_bits_spec (vids : list u64) :
  vids ≠ [] → (∀ vid : u64, vid ∈ vids → u64_val vid < VALIDATOR_REGISTRY_LIMIT) →
  ∃ bits, aggregation_bits_from_validator_indices vids = Return bits ∧
    len bits <= VALIDATOR_REGISTRY_LIMIT ∧ ∀ i : u64, i ∈ validator_indices bits ↔ i ∈ vids.
Proof.
  intros Hne Hall. destruct (capacity_bits_spec vids Hne Hall) as (bits & Hrun & Hlen & Hbits).
  exists bits. split_and!; [by destruct vids|done|]. intros i.
  rewrite elem_of_validator_indices by (unfold VALIDATOR_REGISTRY_LIMIT in Hlen; lia). apply Hbits.
Qed.

End bits.
