(* ===== verification/ChainRefine.v ===== *)
(** The chain store's operations on the abstract store: head and safe-target updates, the
    interval clock and committee aggregation keep the chain invariant. *)

From S2P Require Import Prelude Types StateTransition Reference StateInvariant Transitions ForkChoice.
From S2P Require Import Backend Keys Signatures PayloadBuffer Store Crypto StoreSpec StoreOps StorePruning StoreMaintenance.
From S2P Require Import ForkChoiceTree TreeTheorems ChainInvariant ChainStore Bits.

(** * Reasoning about operations *)

Section ensures.
Context `{SL : StorageLaws D B} `{CO : Codecs} {CL : CodecsLaws} `{HS : Hashing} `{SC : SignatureScheme}.
Context {E : Type}.
Implicit Types (s : Store D) (a : View).

(** [m] returns [Ok], and [Q] holds of the result and the new abstract store. *)
Definition ensures {A} (m : M (Store D) E A) s (Q : A → View → Prop) : Prop :=
  ∃ s' x a', m s = Done s' x ∧ represents s' a' ∧ Q x a'.

Lemma ensures_bind {A A'} (m : M (Store D) E A) (k : A → M (Store D) E A') s P Q :
  ensures m s P → (∀ s' x a', represents s' a' → P x a' → ensures (k x) s' Q) → ensures (m ≫= k) s Q.
Proof.
  intros (s1 & x & a1 & Hm & Hr & HP) Hk. destruct (Hk s1 x a1 Hr HP) as (s2 & y & a2 & Hk2 & Hr2 & HQ).
  exists s2, y, a2. split_and!; [by rewrite run_bind, Hm|done..].
Qed.

Lemma ensures_ret {A} (x : A) s a (Q : A → View → Prop) : represents s a → Q x a → ensures (mret x) s Q.
Proof. intros Hr HQ. by exists s, x, a. Qed.

Lemma ensures_implements {A} (m : M (Store D) E A) s x a (Q : A → View → Prop) :
  implements m s x a → Q x a → ensures m s Q.
Proof. intros (s' & Hm & Hr) HQ. by exists s', x, a. Qed.

Lemma ensures_reads {A A'} (f : Store D → partial A) (k : A → M (Store D) E A') s x Q :
  f s = Return x → ensures (k x) s Q → ensures (reads f ≫= k) s Q.
Proof. intros Hf (s' & y & a' & Hk & HQ). exists s', y, a'. by rewrite run_bind, run_reads, Hf. Qed.

Lemma ensures_lift {A A'} (p : partial A) (k : A → M (Store D) E A') s x Q :
  p = Return x → ensures (k x) s Q → ensures (lift_partial p ≫= k) s Q.
Proof. intros Hp. by apply ensures_reads. Qed.

Lemma ensures_gets {A A'} (f : Store D → A) (k : A → M (Store D) E A') s Q :
  ensures (k (f s)) s Q → ensures (gets f ≫= k) s Q.
Proof. intros (s' & y & a' & Hk & HQ). by exists s', y, a'. Qed.

Lemma ensures_mono {A} (m : M (Store D) E A) s (P Q : A → View → Prop) :
  (∀ x a', P x a' → Q x a') → ensures m s P → ensures m s Q.
Proof. intros Himp (s' & x & a' & Hm & Hr & HP). exists s', x, a'. auto. Qed.

End ensures.

(** * What the clock and the fork choice leave alone *)

Record same_chain_view (a a' : View) : Prop := {
  sv_config : vw_config a' = vw_config a;
  sv_headers : vw_headers a' = vw_headers a;
  sv_bodies : vw_bodies a' = vw_bodies a;
  sv_signatures : vw_signatures a' = vw_signatures a;
  sv_states : vw_states a' = vw_states a;
  sv_live : vw_live a' = vw_live a;
  sv_justified : vw_justified a' = vw_justified a;
  sv_finalized : vw_finalized a' = vw_finalized a;
  sv_data : vw_data a' = vw_data a;
}.

#[global] Instance same_chain_view_refl : Reflexive same_chain_view.
Proof. by split. Qed.
#[global] Instance same_chain_view_trans : Transitive same_chain_view.
Proof. intros a1 a2 a3 [] []. split; congruence. Qed.

(** * The head *)

Section head.
Context `{STL : SszTypesLaws} `{SL : StorageLaws D B} `{CO : Codecs} {CL : CodecsLaws} `{HS : Hashing}.
Context `{HOL : HashOrderLaws} `{MS : MultisigScheme}.
Context (seen : BlockHeader → Prop) {HSeen : HeadersSeen seen} (anchor : N).
Implicit Types (s : Store D) (a : View).

Lemma reorg_walk_returns s a target_slot target_root fuel : represents s a → ∀ (depth : u64) root,
  (fuel + N.to_nat depth = MAX_REORG_DEPTH)%nat → (0 < fuel)%nat →
  ∃ o, reorg_walk fuel target_slot target_root s depth root = Return o.
Proof.
  intros Hr. induction fuel as [|fuel IH]; intros depth root Hsum Hpos; [lia|]. cbn.
  rewrite (get_block_header_refines s a root Hr). cbn [mbind partial_bind].
  destruct (vw_headers a !! root) as [h|]; [|by eexists].
  destruct (bh_slot h <=? target_slot); [by eexists|].
  destruct (N.leb_spec (N.of_nat MAX_REORG_DEPTH) (wrapping_add depth (to_u64 1))) as [|Hlt]; [by eexists|].
  unfold MAX_REORG_DEPTH in *. assert (Hd : u64_val (wrapping_add depth (to_u64 1)) = depth + 1)
    by (unfold wrapping_add; lia).
  apply IH; rewrite Hd in *; lia.
Qed.

Lemma reorg_depth_returns s a old new : represents s a → ∃ o, reorg_depth old new s = Return o.
Proof.
  intros Hr. unfold reorg_depth. case_bool_decide; [by eexists|].
  rewrite !(get_block_header_refines s a _ Hr). cbn [mbind partial_bind].
  destruct (vw_headers a !! old) as [h1|]; [|by eexists].
  destruct (vw_headers a !! new) as [h2|]; [|by eexists].
  destruct (bh_slot h1 <=? bh_slot h2);
    (eapply reorg_walk_returns; [exact Hr|unfold MAX_REORG_DEPTH; lia..]).
Qed.

(** The latest attestations of a list of keys are no more than the keys. *)
Lemma latest_of_size data keys result : latest_of data keys result → (size result <= length keys)%nat.
Proof.
  intros [Hk _]. rewrite <- (length_fmap fst keys), <- length_map_to_list, <- (length_fmap fst (map_to_list result)).
  apply submseteq_length, NoDup_submseteq; [apply NoDup_fst_map_to_list|].
  intros v ([v' d] & -> & Hd%elem_of_map_to_list)%list_elem_of_fmap.
  destruct (Hk v' d Hd) as (r & Hin & _). apply list_elem_of_fmap. by exists (v', r).
Qed.

Lemma hash_elems_length `{Countable K} (l : list K) : (length (hash_elems (list_to_set l : gset K)) <= length l)%nat.
Proof.
  rewrite hash_elems_perm. apply submseteq_length, NoDup_submseteq; [apply NoDup_elements|].
  intros x. by rewrite elem_of_elements, elem_of_list_to_set.
Qed.

(** A descent stays in the tree and climbs. *)
Lemma greedy_climbs (m : BlockTree) w min_score p h (slot : u64) (pp : H256) :
  slots_increase m → greedy m w min_score p h → m !! p = Some (slot, pp) →
  ∃ (hslot : u64) hp, m !! h = Some (hslot, hp) ∧ slot <= u64_val hslot.
Proof.
  intros Hinc Hg. revert slot pp. induction Hg as [p|p c h [(_ & [cslot Hc] & _) _] _ IH]; intros slot pp Hp.
  - exists slot, pp. by split.
  - destruct (IH _ _ Hc) as (hslot & hp & Hh & Hle). exists hslot, hp. split; [done|].
    pose proof (Hinc _ _ _ _ _ Hc Hp). lia.
Qed.

(** The choice of a head over the live chain from a set of attestations. *)
Definition chosen a keys (min_score : u64) (head : H256) : Prop :=
  ∃ m atts, live_tree a m ∧ latest_of (vw_data a) keys atts ∧
    greedy m (support (cp_slot (vw_justified a)) m atts) min_score (cp_root (vw_justified a)) head.

Lemma choose_head s a keys min_score :
  represents s a → chain_core seen anchor a → N.of_nat (length keys) < 2 ^ 64 →
  ∃ m atts head weights st, get_live_chain s = Return m ∧ extract_latest_attestations keys s = Return atts ∧
    compute_lmd_ghost_head (cp_root (vw_justified a)) m atts min_score = Return (head, weights) ∧
    chosen a keys min_score head ∧ processed a head st ∧ cp_slot (vw_justified a) <= header_slot st.
Proof.
  intros Hr Hc Hlen. destruct (cc_justified _ _ a Hc) as (stj & Hpj & Hslot).
  destruct (get_live_chain_refines s a Hr (chain_live_functional seen anchor a Hc)) as (m & Hm & Htree).
  destruct (extract_latest_refines s a keys Hr) as (atts & Hatts & Hlatest).
  pose proof (latest_of_size _ _ _ Hlatest) as Hsize.
  assert (Hj : m !! cp_root (vw_justified a) = Some (cp_slot (vw_justified a), bh_parent_root (header_of stj))).
  { apply Htree. rewrite <- Hslot. apply (processed_live seen anchor); [done..|]. rewrite Hslot. apply Hc. }
  assert (Hinc : slots_increase m) by (by apply (live_tree_increases seen anchor a)).
  destruct (compute_lmd_ghost_head_returns (cp_root (vw_justified a)) (cp_slot (vw_justified a))
    (bh_parent_root (header_of stj)) m atts min_score Hinc) as (head & weights & Hrun & _ & Hg);
    [by apply (processed_nonzero seen anchor a _ stj)|done|lia|].
  destruct (greedy_climbs m _ _ _ _ _ _ Hinc Hg Hj) as (hslot & hp & Hh & Hle).
  apply Htree, (cc_live _ _ a Hc) in Hh as (st & Hst & -> & _).
  exists m, atts, head, weights, st. split_and!; [done..| |done|done]. by exists m, atts.
Qed.

Lemma vset_head_checkpoints a head : view_checkpoints (head_only head) a = vset_head head a.
Proof. by destruct a. Qed.

(** The picture of the live chain can always be drawn. *)
Lemma live_chain_pictured s a m weights head justified finalized :
  represents s a → chain_core seen anchor a → get_live_chain s = Return m →
  ∃ text, format_fork_choice_tree m weights head justified finalized = Return text.
Proof.
  intros Hr Hc Hm. destruct (get_live_chain_refines s a Hr (chain_live_functional seen anchor a Hc)) as (m' & Hm' & Htree).
  rewrite Hm in Hm'. injection Hm' as <-. apply format_returns. by apply (live_tree_increases seen anchor a).
Qed.

Lemma update_head_ensures {E} s a log_tree :
  represents s a → chain_core seen anchor a →
  ensures (update_head log_tree : M (Store D) E unit) s (λ _ a',
    chain_inv seen anchor a' ∧ same_chain_view a a' ∧ vw_time a' = vw_time a ∧
    chosen a (hash_elems (unique_keys (vw_known a))) (to_u64 0) (vw_head a')).
Proof.
  intros Hr Hc. destruct (cc_known _ _ a Hc) as [[_ Hcap] _ _].
  destruct (choose_head s a (hash_elems (unique_keys (vw_known a))) (to_u64 0) Hr Hc)
    as (m & atts & head & weights & st & Hm & Hatts & Hrun & Hchosen & Hst & Hle).
  { unfold unique_keys. pose proof (hash_elems_length (pb_entries (vw_known a)).*1) as Hl.
    rewrite length_fmap in Hl. pose proof (u64_lt (pb_capacity (vw_known a))). unfold len in Hcap. lia. }
  unfold update_head. eapply ensures_reads; [exact Hm|].
  eapply ensures_reads.
  { unfold extract_latest_known_attestations. rewrite (rep_known _ _ Hr). exact Hatts. }
  eapply ensures_reads; [by apply store_head_refines|].
  eapply ensures_reads; [by apply latest_justified_refines|].
  eapply ensures_lift; [exact Hrun|]. cbn beta iota.
  destruct (reorg_depth_returns s a (vw_head a) head Hr) as [o Ho]. eapply ensures_reads; [exact Ho|].
  pose proof (update_checkpoints_refines (E := E) s a (head_only head) Hr) as Hup. cbn in Hup.
  rewrite vset_head_checkpoints in Hup.
  eapply ensures_bind; [by eapply (ensures_implements _ _ _ _ (λ _ a', a' = vset_head head a)); [exact Hup|]|].
  intros s1 _ a1 Hr1 ->.
  eapply ensures_bind with (P := λ _ a', a' = vset_head head a).
  { case_bool_decide; [by eapply ensures_ret|].
    do 2 (eapply ensures_reads; [by apply get_block_header_refines|]). by eapply ensures_ret. }
  intros s2 _ a2 Hr2 ->.
  eapply ensures_mono with (P := λ _ a', a' = vset_head head a).
  2: { destruct log_tree; [|by eapply ensures_ret].
    eapply ensures_reads; [by apply latest_justified_refines|]. eapply ensures_reads; [by apply latest_finalized_refines|].
    destruct (live_chain_pictured s a m weights head (vw_justified (vset_head head a)) (vw_finalized (vset_head head a)) Hr Hc Hm)
      as [text Htext].
    eapply ensures_lift; [exact Htext|]. by eapply ensures_ret. }
  intros _ a' ->. split_and!; [|by split|done|done]. split; [by apply (chain_core_head seen anchor a head st)|].
  intros st' Hst'. unfold processed in *. cbn in Hst'.
  assert (st' = st) as -> by congruence. exact Hle.
Qed.

Lemma promote_same_core a : chain_core seen anchor a → same_core a (view_promote a).
Proof.
  intros Hc. destruct (cc_new _ _ a Hc) as [[Hpos Hcap] Hn He]. split; cbn; try done.
  - split; [|done|constructor]. split; cbn; [done|]. unfold len. cbn. lia.
  - apply push_batch_ok; [apply Hc|done].
Qed.

Lemma accept_new_ensures {E} s a log_tree :
  represents s a → chain_core seen anchor a →
  ensures (accept_new_attestations log_tree : M (Store D) E unit) s (λ _ a',
    chain_inv seen anchor a' ∧ same_chain_view a a' ∧ vw_time a' = vw_time a ∧
    chosen a (hash_elems (unique_keys (vw_known (view_promote a)))) (to_u64 0) (vw_head a')).
Proof.
  intros Hr Hc. unfold accept_new_attestations.
  eapply ensures_bind; [by eapply (ensures_implements _ _ _ _ (λ _ a', a' = view_promote a)); [apply promote_refines|]|].
  intros s1 _ a1 Hr1 ->. eapply ensures_mono; [|apply update_head_ensures; [exact Hr1|]].
  - intros _ a' (Hi & Hs & Ht & Hch). split_and!; [done| |done|done]. etrans; [|exact Hs]. by split.
  - eapply chain_core_same; [by apply promote_same_core|done].
Qed.

Lemma unique_keys_length b cap :
  buffer_ok cap b → (length (hash_elems (unique_keys b)) <= N.to_nat cap)%nat.
Proof.
  intros [[_ Hcap] Hc _]. unfold unique_keys. pose proof (hash_elems_length (pb_entries b).*1) as Hl.
  rewrite length_fmap in Hl. rewrite Hc in Hcap. unfold len in Hcap. lia.
Qed.

(** The two thirds of the validators that must support the safe target. *)
Definition safe_score (st : State) : N := div_ceil (len (st_validators st) * 2) 3.

Lemma update_safe_target_ensures {E} s a :
  represents s a → chain_inv seen anchor a →
  ensures (update_safe_target : M (Store D) E unit) s (λ _ a',
    chain_inv seen anchor a' ∧ same_chain_view a a' ∧ vw_time a' = vw_time a ∧
    ∃ st keys score, processed a (vw_head a) st ∧ u64_val score = safe_score st ∧
      (∀ k, k ∈ keys ↔ k ∈ unique_keys (vw_known a) ∨ k ∈ unique_keys (vw_new a)) ∧
      chosen a keys score (vw_safe_target a')).
Proof.
  intros Hr Hi. pose proof (ci_core _ _ a Hi) as Hc. destruct (cc_head _ _ a Hc) as [sth Hsth].
  unfold update_safe_target. eapply ensures_reads; [by apply store_head_refines|].
  eapply ensures_reads; [by apply get_state_refines|]. eapply ensures_lift; [by rewrite Hsth|].
  set (keys := hash_elems (list_to_set (hash_elems (unique_keys (vw_known a)) ++ hash_elems (unique_keys (vw_new a))) : gset SignatureKey)).
  set (score := to_u64 (div_ceil (wrapping_mul (to_u64 (len (st_validators sth))) (to_u64 2)) 3)).
  assert (Hlen : N.of_nat (length keys) < 2 ^ 64).
  { unfold keys. match goal with |- context [list_to_set ?l] => pose proof (hash_elems_length l) as Hl end.
    rewrite length_app in Hl.
    pose proof (unique_keys_length _ _ (cc_known _ _ a Hc)) as H1'.
    pose proof (unique_keys_length _ _ (cc_new _ _ a Hc)) as H2'.
    unfold AGGREGATED_PAYLOAD_CAP, NEW_PAYLOAD_CAP in *. rewrite !to_u64_small in H1', H2' by done. lia. }
  destruct (choose_head s a keys score Hr Hc Hlen)
    as (m & atts & root & weights & st & Hm & Hatts & Hrun & Hchosen & Hst & Hle).
  eapply ensures_reads; [exact Hm|]. do 2 apply ensures_gets.
  unfold iter_known_aggregated_payload_keys, iter_new_aggregated_payload_keys.
  rewrite (rep_known _ _ Hr), (rep_new _ _ Hr). eapply ensures_reads; [exact Hatts|].
  eapply ensures_reads; [by apply latest_justified_refines|]. eapply ensures_lift; [exact Hrun|].
  cbn beta iota. eapply ensures_implements; [by apply set_safe_target_refines|].
  split_and!; [by apply (chain_inv_safe seen anchor a root st)|by split|done|].
  exists sth, keys, score. split_and!; [done| | |done].
  - pose proof (wf_validators sth (proj1 (so_wf _ _ _ _ (cc_states _ _ a Hc _ _ Hsth)))) as Hv.
    unfold score, safe_score, div_ceil, VALIDATOR_REGISTRY_LIMIT, wrapping_mul in *. lia.
  - intros k. unfold keys. by rewrite elem_of_hash_elems, elem_of_list_to_set, elem_of_app, !elem_of_hash_elems.
Qed.

End head.
