(* ===== verification/ChainClock.v ===== *)
(** Committee aggregation and the interval clock of the chain store, on the abstract
    store. *)

From S2P Require Import Prelude Types StateTransition Reference StateInvariant Transitions ForkChoice.
From S2P Require Import Backend Keys Signatures PayloadBuffer Store Crypto StoreSpec StoreOps StorePruning StoreMaintenance.
From S2P Require Import ChainInvariant ChainStore Bits ChainRefine.

Section aggregation.
Context `{STL : SszTypesLaws} `{SL : StorageLaws D B} `{CO : Codecs} {CL : CodecsLaws} `{HS : Hashing}.
Context `{HOL : HashOrderLaws} `{MS : MultisigScheme}.
Context (seen : BlockHeader → Prop) {HSeen : HeadersSeen seen} (anchor : N).
Implicit Types (s : Store D) (a : View).

Lemma iter_gossip_refines s a :
  represents s a → ∃ l, iter_gossip_signatures s = Return l ∧ l ≡ₚ map_to_list (vw_gossip a).
Proof.
  intros Hr. unfold iter_gossip_signatures.
  destruct (encoded_entries sig_key_bytes as_ssz_bytes (vw_gossip a) (s_backend s) GossipSignatures)
    as (l & Hrun & Hperm); [apply Hr|apply Hr|]. exists l. split; [|done].
  rewrite Hrun. cbn [mbind partial_bind].
  rewrite (map_partial_fmap _ _ (λ kv : SignatureKey * StoredSignature, Some kv)).
  - cbn [mbind partial_bind]. f_equal. clear. induction l as [|kv l IH]; [done|]. rewrite fmap_cons.
    cbn [omap list_omap id]. f_equal. exact IH.
  - intros [k v] _. cbn [fst snd]. unfold sig_key_bytes. rewrite signature_key_decodes by apply ssz_u64_width.
    cbn [mbind partial_bind]. by rewrite ssz_roundtrip.
Qed.

(** A group holds the decoded signatures for its root, in the order of the entries. *)
Definition root_signatures (root : H256) (sigs : list (SignatureKey * StoredSignature)) : list (u64 * ValidatorSignature) :=
  omap (M := list) (λ '((v, r), stored),
    if decide (r = root) then (λ sig, (v, sig)) <$> to_validator_signature stored else None) sigs.

Lemma group_gossip_lookup sigs root :
  group_gossip sigs !! root = match root_signatures root sigs with [] => None | group => Some group end.
Proof.
  induction sigs as [|[[v r] stored] sigs IH] using rev_ind; [apply lookup_empty|].
  unfold group_gossip, root_signatures. rewrite foldl_app, omap_app. cbn [foldl omap list_omap].
  fold (group_gossip sigs) (root_signatures root sigs).
  destruct (to_validator_signature stored) as [sig|]; cbn [fmap option_fmap option_map].
  2:{ destruct (decide (r = root)); by rewrite app_nil_r. }
  destruct (decide (r = root)) as [->|Hne]; [|by rewrite lookup_insert_ne, app_nil_r].
  rewrite lookup_insert_eq, IH. by destruct (root_signatures root sigs).
Qed.

Lemma elem_of_root_signatures root sigs v sig :
  (v, sig) ∈ root_signatures root sigs ↔ ∃ stored, ((v, root), stored) ∈ sigs ∧ to_validator_signature stored = Some sig.
Proof.
  unfold root_signatures. rewrite list_elem_of_omap. split.
  - intros ([[v' r] stored] & Hin & Hs). destruct (decide (r = root)) as [->|]; [|done].
    destruct (to_validator_signature stored) eqn:Hdec; [|done]. injection Hs as -> ->. eauto.
  - intros (stored & Hin & Hdec). exists ((v, root), stored). split; [done|]. by rewrite decide_True, Hdec.
Qed.

Lemma root_signatures_once root sigs : NoDup sigs.*1 → NoDup (root_signatures root sigs).*1.
Proof.
  induction sigs as [|[[v r] stored] sigs IH]; [by constructor|]. cbn. rewrite NoDup_cons. intros [Hnot Hnd].
  unfold root_signatures in *. cbn [omap list_omap]. destruct (decide (r = root)) as [->|]; [|by apply IH].
  destruct (to_validator_signature stored) as [sig|]; cbn; [|by apply IH]. constructor; [|by apply IH].
  intros ([v' sig'] & -> & Hin)%list_elem_of_fmap. apply Hnot. fold (root_signatures root sigs) in Hin.
  apply elem_of_root_signatures in Hin as (stored' & Hin & _). apply list_elem_of_fmap. by exists ((v', root), stored').
Qed.

(** The signers for [root]: each validator once, with its registered key and its stored gossip
    signature, both decodable. *)
Definition signer_ids (signers : list (u64 * ValidatorPublicKey * ValidatorSignature)) : list u64 :=
  (λ '(vid, _, _), vid) <$> signers.
Record signers_of a (validators : list Validator) (root : H256)
    (signers : list (u64 * ValidatorPublicKey * ValidatorSignature)) : Prop := {
  sn_once : NoDup (signer_ids signers);
  sn_signer v pubkey sig : (v, pubkey, sig) ∈ signers ↔
    (∃ stored, vw_gossip a !! (v, root) = Some stored ∧ to_validator_signature stored = Some sig) ∧
    ∃ validator, get_at validators (u64_val v) = Some validator ∧ get_pubkey validator = Some pubkey;
}.

(** The aggregate of their signatures on data with [root]. *)
Definition aggregate_of (root : H256) (data : AttestationData)
    (signers : list (u64 * ValidatorPublicKey * ValidatorSignature)) : AggregationError + bytes :=
  aggregate_signatures ((λ '(_, pubkey, _), pubkey) <$> signers) ((λ '(_, _, sig), sig) <$> signers) root
    (as_u32 (ad_slot data)).

(** A group is the aggregate of the signatures of exactly its signers, for known data. *)
Record group_ok a (validators : list Validator) (g : H256 * SignedAggregatedAttestation * list u64) : Prop := {
  go_data : vw_data a !! g.1.1 = Some (sga_data g.1.2);
  go_signers : ∃ signers, signers_of a validators g.1.1 signers ∧ signers ≠ [] ∧ g.2 = signer_ids signers ∧
    aggregate_of g.1.1 (sga_data g.1.2) signers = inr (pf_proof_data (sga_proof g.1.2));
  go_bits v : v ∈ validator_indices (pf_participants (sga_proof g.1.2)) ↔ v ∈ g.2;
}.

(** A root without a group: its data is unknown, nobody has signed it, or the library
    refuses to aggregate the signatures. *)
Definition ungrouped a (validators : list Validator) (root : H256) : Prop :=
  vw_data a !! root = None ∨
  ∃ data signers, vw_data a !! root = Some data ∧ signers_of a validators root signers ∧
    (signers = [] ∨ ∃ e, aggregate_of root data signers = inl e).

Lemma elem_of_group_signers (validators : list Validator) (group : list (u64 * ValidatorSignature)) v pubkey sig :
  (v, pubkey, sig) ∈ group_signers validators group ↔
  (v, sig) ∈ group ∧ ∃ validator, get_at validators (u64_val v) = Some validator ∧ get_pubkey validator = Some pubkey.
Proof.
  unfold group_signers. rewrite list_elem_of_omap. split.
  - intros ([v' sig'] & Hin & Hs). destruct (get_at validators v') as [validator|] eqn:Hv; cbn in Hs; [|done].
    destruct (get_pubkey validator) as [pk|] eqn:Hpk; cbn in Hs; [|done]. injection Hs as -> -> ->. eauto.
  - intros (Hin & validator & Hv & Hpk). exists (v, sig). split; [done|]. cbn. rewrite Hv. cbn. by rewrite Hpk.
Qed.

Lemma group_signers_once (validators : list Validator) (group : list (u64 * ValidatorSignature)) :
  NoDup group.*1 → NoDup (signer_ids (group_signers validators group)).
Proof.
  induction group as [|[v sig] group IH]; [by constructor|]. cbn [fmap list_fmap fst]. rewrite NoDup_cons. intros [Hnot Hnd].
  unfold group_signers in *. cbn [omap list_omap]. destruct (get_at validators v) as [validator|]; cbn; [|by apply IH].
  destruct (get_pubkey validator) as [pk|]; cbn; [|by apply IH]. constructor; [|by apply IH].
  intros ([[v' pk'] sig'] & -> & Hin)%list_elem_of_fmap. apply Hnot. fold (group_signers validators group) in Hin.
  apply elem_of_group_signers in Hin as [Hin _]. apply list_elem_of_fmap. by exists (v', sig').
Qed.

(** The signers of the group of [root]. *)
Lemma root_signers a validators sigs root :
  sigs ≡ₚ map_to_list (vw_gossip a) → signers_of a validators root (group_signers validators (root_signatures root sigs)).
Proof.
  intros Hperm. split.
  - apply group_signers_once, root_signatures_once. rewrite Hperm. apply NoDup_fst_map_to_list.
  - intros v pubkey sig. rewrite elem_of_group_signers, elem_of_root_signatures. f_equiv. f_equiv. intros stored.
    by rewrite Hperm, elem_of_map_to_list.
Qed.

Lemma aggregate_group_spec s a validators sigs root :
  represents s a → sigs ≡ₚ map_to_list (vw_gossip a) → len validators <= VALIDATOR_REGISTRY_LIMIT →
  ∃ o, aggregate_group validators root (root_signatures root sigs) s = Return o ∧
    match o with
    | Some g => g.1.1 = root ∧ group_ok a validators g
    | None => ungrouped a validators root
    end.
Proof.
  intros Hr Hperm Hlim. unfold aggregate_group. rewrite (get_attestation_data_refines s a root Hr).
  cbn [mbind partial_bind]. destruct (vw_data a !! root) as [data|] eqn:Hdata; [|exists None; split; [done|by left]].
  set (signers := group_signers validators (root_signatures root sigs)).
  assert (Hsigners : signers_of a validators root signers) by (by apply root_signers).
  cbn zeta. change (fmap _ signers) with (signer_ids signers) at 1 4 5.
  destruct (signer_ids signers) as [|v0 ids0] eqn:Hids.
  { exists None. split; [done|]. right. exists data, signers. split_and!; [done..|]. left. by destruct signers. }
  rewrite <- Hids. fold (aggregate_of root data signers).
  destruct (aggregate_of root data signers) as [e|proof] eqn:Hagg.
  { exists None. split; [done|]. right. exists data, signers. split_and!; [done..|]. right. by exists e. }
  destruct (aggregation_bits_spec (signer_ids signers)) as (bits & Hbits & _ & Hiff).
  { by rewrite Hids. }
  { intros v ([[v' pk] sig] & -> & Hin)%list_elem_of_fmap. apply (sn_signer _ _ _ _ Hsigners) in Hin as (_ & validator & Hv & _).
    apply get_at_Some in Hv. lia. }
  rewrite Hbits. cbn [mbind partial_bind]. eexists. split; [done|]. split; [done|]. split; [done| |done].
  exists signers. split_and!; [done| |done|done]. intros ->. done.
Qed.

(** The signers of an aggregated group are validators. *)
Lemma group_member a validators g (v : u64) : group_ok a validators g → v ∈ g.2 → v < len validators.
Proof.
  intros [_ (signers & Hs & _ & Hids & _) _]. rewrite Hids.
  intros ([[v' pk] sig] & -> & Hin)%list_elem_of_fmap. apply (sn_signer _ _ _ _ Hs) in Hin as (_ & validator & Hv & _).
  apply get_at_Some in Hv. lia.
Qed.

(** What committee aggregation does to the store. *)
Record aggregated a (validators : list Validator) (groups : list (H256 * SignedAggregatedAttestation * list u64))
    a' : Prop := {
  ag_groups : Forall (group_ok a validators) groups;
  ag_once : NoDup ((λ g, g.1.1) <$> groups);
  ag_complete root : (∃ g, g ∈ groups ∧ g.1.1 = root) ∨ ungrouped a validators root;
  ag_new : vw_new a' = push_batch (vw_new a) (groups ≫= group_payloads);
  ag_gossip : vw_gossip a' = foldl (λ m k, delete k m) (vw_gossip a) (groups ≫= group_keys);
  ag_known : vw_known a' = vw_known a;
}.

Lemma group_payloads_ok a validators groups :
  len validators <= VALIDATOR_REGISTRY_LIMIT → Forall (group_ok a validators) groups →
  Forall entry_ok (groups ≫= group_payloads).
Proof.
  intros Hlim Hok. apply Forall_forall. intros e ([[root agg] ids] & He & Hg)%list_elem_of_bind.
  apply list_elem_of_fmap in He as (v & -> & Hv). unfold entry_ok. cbn.
  rewrite Forall_forall in Hok. pose proof (group_member _ _ _ v (Hok _ Hg) Hv). lia.
Qed.

Lemma delete_gossip_ensures {E} s a keys :
  represents s a → ensures (delete_gossip_signatures keys : M (Store D) E unit) s (λ _ a',
    ∃ n, a' = vset_count n (vset_gossip (foldl (λ m k, delete k m) (vw_gossip a) keys) a)).
Proof.
  intros Hr. destruct keys as [|k keys].
  - eapply ensures_ret; [exact Hr|]. exists (vw_count a). by destruct a.
  - eapply ensures_implements; [by apply (delete_gossip_signatures_refines s a)|]. by eexists.
Qed.

Lemma omap_id_Forall {A} (P : A → Prop) (l : list (option A)) :
  (∀ x, Some x ∈ l → P x) → Forall P (omap (M := list) id l).
Proof.
  intros Hl. apply Forall_forall. intros x (o & Ho & Hx)%list_elem_of_omap. cbn in Hx. subst o. by apply Hl.
Qed.

Lemma ungrouped_unsigned a validators sigs root :
  sigs ≡ₚ map_to_list (vw_gossip a) → root_signatures root sigs = [] → ungrouped a validators root.
Proof.
  intros Hperm Hnil. pose proof (root_signers a validators sigs root Hperm) as Hs. rewrite Hnil in Hs.
  destruct (vw_data a !! root) as [data|] eqn:Hdata; [right|by left]. exists data, []. split_and!; [done|exact Hs|by left].
Qed.

(** The groups that the loop keeps, one at most for a root. *)
Lemma kept_once {A C} (f : C → A) (l : list A) (results : list (option C)) :
  Forall2 (λ x o, ∀ g, o = Some g → f g = x) l results → NoDup l → NoDup (f <$> omap (M := list) id results).
Proof.
  intros Hall Hnd. assert (Hsub : f <$> omap (M := list) id results `sublist_of` l); [|by eapply sublist_NoDup].
  clear Hnd. induction Hall as [|x o l results Hx _ IH]; [done|]. destruct o as [g|]; cbn.
  - rewrite (Hx g eq_refl). by apply sublist_skip.
  - by apply sublist_cons.
Qed.

(** Aggregating the groups of all stored signatures. *)
Lemma aggregate_groups_spec s a validators sigs :
  represents s a → sigs ≡ₚ map_to_list (vw_gossip a) → len validators <= VALIDATOR_REGISTRY_LIMIT →
  ∃ results, map_partial (λ '(root, group), aggregate_group validators root group s) (hash_iter (group_gossip sigs)) = Return results ∧
    let groups := omap (M := list) id results in
    Forall (group_ok a validators) groups ∧ NoDup ((λ g, g.1.1) <$> groups) ∧
    ∀ root, (∃ g, g ∈ groups ∧ g.1.1 = root) ∨ ungrouped a validators root.
Proof.
  intros Hr Hperm Hlim.
  destruct (map_partial_forall (λ '(root, group), aggregate_group validators root group s)
    (λ x o, match o with Some g => g.1.1 = x.1 ∧ group_ok a validators g | None => ungrouped a validators x.1 end)
    (hash_iter (group_gossip sigs))) as (results & Hres & Hall).
  { intros [root group] Hin%elem_of_hash_iter. rewrite group_gossip_lookup in Hin.
    assert (root_signatures root sigs = group) as <- by (destruct (root_signatures root sigs); congruence).
    by apply aggregate_group_spec. }
  exists results. split; [done|]. cbn zeta. split_and!.
  - apply omap_id_Forall. intros g [i Hg]%list_elem_of_lookup.
    by destruct (Forall2_lookup_r _ _ _ _ _ Hall Hg) as (x & _ & _ & Hx).
  - apply (kept_once _ (hash_iter (group_gossip sigs)).*1); [|apply NoDup_hash_keys].
    apply Forall2_fmap_l. eapply Forall2_impl; [exact Hall|]. intros x o Ho g ->. apply Ho.
  - intros root. destruct (root_signatures root sigs) as [|sg group] eqn:Hsigs; [right; by eapply ungrouped_unsigned|].
    assert (Hin : (root, sg :: group) ∈ hash_iter (group_gossip sigs)) by (apply elem_of_hash_iter; by rewrite group_gossip_lookup, Hsigs).
    apply list_elem_of_lookup in Hin as [i Hi]. destruct (Forall2_lookup_l _ _ _ _ _ Hall Hi) as ([g|] & Ho & Hx); [left|by right].
    destruct Hx as [Hroot _]. exists g. split; [|done]. apply list_elem_of_omap. exists (Some g). split; [|done].
    by apply list_elem_of_lookup_2 in Ho.
Qed.

Lemma aggregate_committee_ensures {E} s a :
  represents s a → chain_inv seen anchor a →
  ensures (aggregate_committee_signatures : M (Store D) E (list SignedAggregatedAttestation)) s (λ result a',
    chain_inv seen anchor a' ∧ same_chain_view a a' ∧ vw_time a' = vw_time a ∧
    ∃ st groups, processed a (vw_head a) st ∧ result = (λ g, g.1.2) <$> groups ∧
      aggregated a (st_validators st) groups a').
Proof.
  intros Hr Hi. pose proof (ci_core _ _ a Hi) as Hc. destruct (cc_head _ _ a Hc) as [st Hst].
  unfold aggregate_committee_signatures. destruct (iter_gossip_refines s a Hr) as (sigs & Hsigs & Hperm).
  eapply ensures_reads; [exact Hsigs|]. destruct sigs as [|sg sigs'].
  { eapply ensures_ret; [exact Hr|]. split_and!; [done..|]. exists st, []. split_and!; [done..|].
    split; [done|constructor| |done..]. intros root. right. by apply (ungrouped_unsigned a (st_validators st) []). }
  eapply ensures_reads; [by apply (head_state_refines s a st)|].
  set (sigs := sg :: sigs') in *.
  pose proof (wf_validators st (proj1 (so_wf _ _ _ _ (cc_states _ _ a Hc _ _ Hst)))) as [_ Hlim].
  destruct (aggregate_groups_spec s a (st_validators st) sigs Hr Hperm Hlim) as (results & Hres & Hok & Honce & Hcomplete).
  eapply ensures_reads; [exact Hres|]. set (groups := omap (M := list) id results) in *.
  set (a1 := vset_new (push_batch (vw_new a) (groups ≫= group_payloads)) a).
  eapply ensures_bind.
  { eapply (ensures_implements _ _ _ _ (λ _ a', a' = a1)); [by apply insert_new_payloads_refines|done]. }
  intros s1 _ ? Hr1 ->. eapply ensures_bind; [by apply (delete_gossip_ensures s1 a1)|].
  intros s2 _ ? Hr2 [n ->]. eapply ensures_ret; [exact Hr2|].
  split_and!; [|by split|done|].
  - eapply chain_inv_same; [|exact Hi]. split; cbn; try done; [|apply Hc].
    apply push_batch_ok; [apply Hc|by apply (group_payloads_ok a (st_validators st))].
  - exists st, groups. split_and!; [done..|]. by split.
Qed.

(** * The clock *)

(** What an interval may change. *)
Definition interval_done a a' : Prop :=
  chain_inv seen anchor a' ∧ same_chain_view a a' ∧ vw_time a' = vw_time a.

Lemma interval_done_refl a : chain_inv seen anchor a → interval_done a a.
Proof. intros Hi. unfold interval_done. by split_and!. Qed.

Lemma tick_interval_ensures {E} s a (interval : u64) proposal aggregator :
  represents s a → chain_inv seen anchor a → interval < 5 →
  ensures (tick_interval interval proposal aggregator : M (Store D) E _) s (λ _ a', interval_done a a').
Proof.
  intros Hr Hi Hlt. pose proof (interval_done_refl a Hi) as Hrefl. unfold tick_interval.
  assert (Haccept : ∀ log_tree, ensures (accept_new_attestations log_tree : M (Store D) E unit) s (λ _ a', interval_done a a')).
  { intros log_tree. eapply ensures_mono; [|apply (accept_new_ensures seen anchor s a log_tree Hr Hi)]. by intros ? ? (? & ? & ? & _). }
  assert (Hcases : u64_val interval = 0 ∨ u64_val interval = 1 ∨ u64_val interval = 2 ∨
    u64_val interval = 3 ∨ u64_val interval = 4) by lia.
  destruct Hcases as [->|[->|[->|[->| ->]]]].
  - eapply ensures_bind with (P := λ _ a', interval_done a a').
    + destruct proposal; [apply Haccept|]. by eapply ensures_ret.
    + intros s' ? a' Hr' Hd. by eapply ensures_ret.
  - by eapply ensures_ret.
  - destruct aggregator; [|by eapply ensures_ret].
    eapply ensures_mono; [|by apply aggregate_committee_ensures]. by intros ? ? (? & ? & ? & _).
  - eapply ensures_bind with (P := λ _ a', interval_done a a').
    + eapply ensures_mono; [|apply (update_safe_target_ensures seen anchor s a Hr Hi)]. by intros ? ? (? & ? & ? & _).
    + intros s' ? a' Hr' Hd. by eapply ensures_ret.
  - eapply ensures_bind; [apply Haccept|]. intros s' ? a' Hr' Hd. by eapply ensures_ret.
Qed.

Lemma set_time_inv a t : chain_inv seen anchor a → chain_inv seen anchor (vset_time t a).
Proof. intros Hi. eapply chain_inv_same; [|exact Hi]. by split; try apply Hi. Qed.

(** The loop ends at [time], after one interval for each unit of time that was missing. *)
Lemma tick_loop_ensures {E} fuel (time : u64) proposal aggregator : ∀ s a,
  represents s a → chain_inv seen anchor a → time - vw_time a < N.of_nat fuel →
  ensures (tick_loop fuel time proposal aggregator : M (Store D) E _) s (λ _ a',
    chain_inv seen anchor a' ∧ same_chain_view a a' ∧ u64_val (vw_time a') = N.max (vw_time a) time).
Proof.
  induction fuel as [|fuel IH]; intros s a Hr Hi Hfuel; [lia|]. cbn [tick_loop].
  eapply ensures_reads; [by apply store_time_refines|].
  destruct (N.ltb_spec (vw_time a) time) as [Hlt|Hge].
  2:{ eapply ensures_ret; [exact Hr|]. split_and!; [done..|]. lia. }
  set (now := wrapping_add (vw_time a) (to_u64 1)).
  assert (Hnow : u64_val now = vw_time a + 1) by (unfold now, wrapping_add; lia).
  eapply ensures_bind.
  { eapply (ensures_implements _ _ _ _ (λ _ a', a' = vset_time now a)); [by apply set_time_refines|done]. }
  intros s1 _ ? Hr1 ->. eapply ensures_reads; [by apply store_time_refines|]. cbn [vset_time vw_time].
  eapply ensures_bind.
  { apply (tick_interval_ensures s1 (vset_time now a)); [done|by apply set_time_inv|].
    unfold u64_rem, INTERVALS_PER_SLOT. lia. }
  intros s2 aggs a2 Hr2 (Hi2 & Hs2 & Ht2). cbn in Ht2.
  eapply ensures_bind; [apply (IH s2 a2); [done|done|rewrite Ht2; lia]|].
  intros s3 rest a3 Hr3 (Hi3 & Hs3 & Ht3). eapply ensures_ret; [exact Hr3|]. split_and!; [done| |].
  - etrans; [|exact Hs3]. by destruct Hs2; split.
  - rewrite Ht3, Ht2. lia.
Qed.

Lemma on_tick_ensures {E} s a timestamp proposal aggregator :
  represents s a → chain_inv seen anchor a →
  ensures (on_tick timestamp proposal aggregator : M (Store D) E _) s (λ _ a',
    chain_inv seen anchor a' ∧ same_chain_view a a' ∧
    u64_val (vw_time a') = N.max (vw_time a) (intervals_since_genesis (vw_config a) timestamp)).
Proof.
  intros Hr Hi. unfold on_tick. eapply ensures_reads; [by apply store_config_refines|]. cbn zeta.
  set (time := intervals_since_genesis (vw_config a) timestamp).
  eapply ensures_reads; [by apply store_time_refines|].
  eapply ensures_bind with (P := λ _ a', ∃ t : u64, a' = vset_time t a ∧ time - t <= 5 ∧
    N.max t time = N.max (vw_time a) time).
  - destruct (N.ltb_spec INTERVALS_PER_SLOT (saturating_sub time (vw_time a))) as [Hlt|Hge];
      rewrite saturating_sub_val in *; unfold INTERVALS_PER_SLOT in *.
    + eapply ensures_implements; [by apply set_time_refines|].
      exists (wrapping_sub time (to_u64 5)). split; [done|]. unfold wrapping_sub, u64_modulus. lia.
    + eapply ensures_ret; [exact Hr|]. exists (vw_time a). split; [by destruct a|]. lia.
  - intros s1 _ ? Hr1 (t & -> & Ht & Hmax).
    eapply ensures_mono; [|apply (tick_loop_ensures tick_fuel time proposal aggregator s1 (vset_time t a))].
    + intros _ a' (Hi' & Hs' & Ht'). cbn in Ht'. split_and!; [done| |by rewrite Ht', Hmax].
      by destruct Hs'; split.
    + done.
    + by apply set_time_inv.
    + cbn. unfold tick_fuel. lia.
Qed.

End aggregation.
