(* ===== verification/ChainImport.v ===== *)
(** Validation, signature verification, gossip and block import of the chain store, on the
    abstract store. *)

From S2P Require Import Prelude Types StateTransition Reference StateInvariant Transitions ForkChoice.
From S2P Require Import Backend Keys Signatures PayloadBuffer Store Crypto StoreSpec StoreOps StorePruning StoreMaintenance.
From S2P Require Import ChainInvariant ChainStore Bits ChainRefine.

(** * Checks: fallible functions that leave the state alone *)

Section check.
Context {S E : Type}.

(** [m] accepts exactly when [P] holds, and otherwise returns an error; the state is
    untouched either way. *)
Definition checks (m : M S E unit) (s : S) (P : Prop) : Prop :=
  (m s = Done s tt ∧ P) ∨ (∃ e, m s = Fail s e ∧ ¬ P).

Lemma checks_fail_if b e s : checks (fail_if b e) s (b = false).
Proof. destruct b; [right|left]; cbn; eauto. Qed.

Lemma checks_iff m s P Q : (P ↔ Q) → checks m s P → checks m s Q.
Proof. unfold checks. naive_solver. Qed.

Lemma checks_ext m m' s P : m s = m' s → checks m' s P → checks m s P.
Proof. unfold checks. by intros ->. Qed.

Lemma checks_bind (m k : M S E unit) s P Q :
  checks m s P → (P → checks k s Q) → checks (m;; k) s (P ∧ Q).
Proof.
  intros [[Hm HP]|(e & Hm & HP)] Hk.
  - destruct (Hk HP) as [[Hk' HQ]|(e & Hk' & HQ)]; [left|right]; rewrite run_bind, Hm; [auto|].
    exists e. split; [done|]. by intros [_ ?].
  - right. exists e. rewrite run_bind, Hm. split; [done|]. by intros [? _].
Qed.

(** Reading and requiring a value. *)
Lemma checks_reads {A} (f : S → partial A) (k : A → M S E unit) s x P :
  f s = Return x → checks (k x) s P → checks (reads f ≫= k) s P.
Proof. intros Hf Hk. unfold checks in *. by rewrite run_bind, run_reads, Hf. Qed.

Lemma checks_lift {A} (p : partial A) (k : A → M S E unit) s x P :
  p = Return x → checks (k x) s P → checks (lift_partial p ≫= k) s P.
Proof. intros Hp. by apply checks_reads. Qed.

Lemma checks_ok_or {A} (o : option A) e (k : A → M S E unit) s (P : A → Prop) :
  (∀ x, o = Some x → checks (k x) s (P x)) → checks (ok_or o e ≫= k) s (∃ x, o = Some x ∧ P x).
Proof.
  intros Hk. unfold checks. rewrite run_bind, run_ok_or. destruct o as [x|].
  - eapply checks_iff; [|by apply Hk]. naive_solver.
  - right. exists e. split; [done|]. by intros (? & ? & _).
Qed.

Lemma checks_map_err {E' : Type} (wrap : E' → E) (r : E' + unit) s : checks (map_err wrap r) s (r = inr tt).
Proof. destruct r as [e|[]]; [right|left]; cbn; eauto. Qed.

Lemma checks_foldM {A} (f : A → M S E unit) (l : list A) s (P : A → Prop) :
  (∀ x, x ∈ l → checks (f x) s (P x)) → checks (foldM (λ _ x, f x) tt l) s (Forall P l).
Proof.
  induction l as [|x l IH]; intros Hf; [by left|]. cbn [foldM].
  eapply checks_iff; [by rewrite Forall_cons|].
  destruct (Hf x (list_elem_of_here _ _)) as [[Hm HP]|(e & Hm & HP)]; unfold checks; rewrite run_bind, Hm.
  - destruct IH as [[Hk HQ]|(e & Hk & HQ)]; [intros y Hy; apply Hf; by right|by left|].
    right. exists e. split; [done|]. by intros [_ ?].
  - right. exists e. split; [done|]. by intros [? _].
Qed.

Lemma checks_mapM {A B} (f : A → M S E B) (k : list B → M S E unit) (l : list A) s (R : A → B → Prop) P :
  (∀ x, x ∈ l → (∃ y, f x s = Done s y ∧ R x y) ∨ (∃ e, f x s = Fail s e ∧ ∀ y, ¬ R x y)) →
  (∀ x y y', R x y → R x y' → y = y') →
  (∀ ys, Forall2 R l ys → checks (k ys) s (P ys)) →
  checks (mapM f l ≫= k) s (∃ ys, Forall2 R l ys ∧ P ys).
Proof.
  intros Hf Hfun Hk.
  assert (Hmap : (∃ ys, mapM f l s = Done s ys ∧ Forall2 R l ys) ∨ (∃ e, mapM f l s = Fail s e ∧ ∀ ys, ¬ Forall2 R l ys)).
  { clear Hk. induction l as [|x l IH]; [left; by exists []|]. cbn [mapM].
    destruct (Hf x (list_elem_of_here _ _)) as [(y & Hy & HR)|(e & He & HR)].
    - destruct IH as [(ys & Hys & HRs)|(e & He & HRs)]; [intros z Hz; apply Hf; by right|left|right].
      + exists (y :: ys). rewrite run_bind, Hy, run_bind, Hys. by split; [|constructor].
      + exists e. rewrite run_bind, Hy, run_bind, He. split; [done|]. intros ys Hys. inversion Hys. naive_solver.
    - right. exists e. rewrite run_bind, He. split; [done|]. intros ys Hys. inversion Hys. naive_solver. }
  unfold checks. rewrite run_bind. destruct Hmap as [(ys & -> & HRs)|(e & -> & HRs)].
  - eapply checks_iff; [|by apply Hk]. split; [by exists ys|]. intros (ys' & HRs' & HP).
    assert (ys' = ys) as ->; [|done]. clear -Hfun HRs HRs'. revert ys' HRs'.
    induction HRs as [|x y l ys HR _ IH]; intros ys' Hys'; inversion Hys'; [done|]. subst. f_equal; [by eapply Hfun|by apply IH].
  - right. exists e. split; [done|]. intros (ys & Hys & _). by apply (HRs ys).
Qed.

End check.

(** * Attestation data *)

(** A block of the store at the slot the checkpoint gives. *)
Definition known_checkpoint (a : View) (c : Checkpoint) : Prop :=
  ∃ h, vw_headers a !! cp_root c = Some h ∧ bh_slot h = cp_slot c.

(** The votes the store accepts: source, target and head are known blocks in order, and the
    slot is at most one ahead of the clock. *)
Record vote_valid (a : View) (d : AttestationData) : Prop := {
  vv_source : known_checkpoint a (ad_source d);
  vv_target : known_checkpoint a (ad_target d);
  vv_head : known_checkpoint a (ad_head d);
  vv_source_target : cp_slot (ad_source d) <= cp_slot (ad_target d);
  vv_target_head : cp_slot (ad_target d) <= cp_slot (ad_head d);
  vv_time : ad_slot d <= vw_time a / 5 + 1;
}.

(** * Signatures *)

Section signatures.
Context `{HS : Hashing} `{MS : MultisigScheme}.

(** The public key of a registered validator. *)
Definition registered (validators : list Validator) (vid : u64) (pk : ValidatorPublicKey) : Prop :=
  ∃ v, get_at validators (u64_val vid) = Some v ∧ get_pubkey v = Some pk.

(** The aggregated proof covers exactly the claimed validators, all registered, and
    verifies against their keys. *)
Record proof_valid (validators : list Validator)
    (entry : AggregatedAttestation * AggregatedSignatureProof) : Prop := {
  pv_participants : aa_aggregation_bits entry.1 = pf_participants entry.2;
  pv_verifies : ∃ pks, Forall2 (registered validators) (validator_indices (aa_aggregation_bits entry.1)) pks ∧
    verify_aggregated_signature (pf_proof_data entry.2) pks (tree_hash_root (aa_data entry.1))
      (u64_val (ad_slot (aa_data entry.1))) = inr tt;
}.

(** The proposer attests with its own key. *)
Definition proposer_valid (validators : list Validator) (sb : SignedBlockWithAttestation) : Prop :=
  let att := bwa_proposer_attestation (sb_message sb) in
  att_validator_id att = b_proposer_index (bwa_block (sb_message sb)) ∧
  ∃ sig pk, ValidatorSignature_from_bytes (bs_proposer_signature (sb_signature sb)) = Some sig ∧
    registered validators (b_proposer_index (bwa_block (sb_message sb))) pk ∧
    is_valid sig pk (u64_val (ad_slot (att_data att))) (tree_hash_root (att_data att)) = true.

Definition signatures_valid (validators : list Validator) (sb : SignedBlockWithAttestation) : Prop :=
  let attestations := bb_attestations (b_body (bwa_block (sb_message sb))) in
  let proofs := bs_attestation_signatures (sb_signature sb) in
  len attestations = len proofs ∧ Forall (proof_valid validators) (combine attestations proofs) ∧
  proposer_valid validators sb.

(** Every attestation of the block has a slot that fits in 32 bits. *)
Definition slots_fit (sb : SignedBlockWithAttestation) : Prop :=
  Forall (λ att, ad_slot (aa_data att) < 2 ^ 32) (bb_attestations (b_body (bwa_block (sb_message sb)))) ∧
  ad_slot (att_data (bwa_proposer_attestation (sb_message sb))) < 2 ^ 32.

Lemma u32_fits (n : N) : n < 2 ^ 32 → expect_some (u32_try_from n) = Return n.
Proof. intros Hn. unfold u32_try_from. by rewrite (proj2 (N.ltb_lt _ _)). Qed.

Lemma pubkey_of_cases {S : Type} validators vid (s : S) :
  is_Some (get_at validators (u64_val vid)) →
  (∃ pk, pubkey_of validators vid s = Done s pk ∧ registered validators vid pk) ∨
  (∃ e, pubkey_of validators vid s = Fail s e ∧ ∀ pk, ¬ registered validators vid pk).
Proof.
  intros [v Hv]. unfold pubkey_of, registered. rewrite run_bind, run_lift_partial, Hv. cbn [expect_some].
  rewrite run_ok_or. destruct (get_pubkey v) as [pk|] eqn:Hpk; [left; eauto|right].
  eexists. split; [done|]. intros pk (v' & Hv' & Hpk'). congruence.
Qed.

Lemma registered_fun validators vid pk pk' :
  registered validators vid pk → registered validators vid pk' → pk = pk'.
Proof. intros (v & ? & ?) (v' & ? & ?). congruence. Qed.

Lemma registered_bound validators ids pks (vid : u64) :
  Forall2 (registered validators) ids pks → vid ∈ ids → vid < len validators.
Proof.
  intros Hall [i Hi]%list_elem_of_lookup. destruct (Forall2_lookup_l _ _ _ _ _ Hall Hi) as (pk & _ & v & Hv & _).
  by apply get_at_Some in Hv.
Qed.

(** The range check and the collection of the keys. *)
Lemma checks_pubkeys {S : Type} validators ids (k : list ValidatorPublicKey → M S StoreError unit) s P :
  len validators < 2 ^ 64 →
  (∀ pks, checks (k pks) s (P pks)) →
  checks (fail_if (existsb (λ vid : u64, to_u64 (len validators) <=? vid) ids) InvalidValidatorIndex;;
          (mapM (pubkey_of validators) ids ≫= k)) s
    (∃ pks, Forall2 (registered validators) ids pks ∧ P pks).
Proof.
  intros Hlen Hk. eapply checks_iff; [|eapply checks_bind; [apply checks_fail_if|]].
  2:{ intros Hb. apply (checks_mapM _ _ _ _ (registered validators)); [|by apply registered_fun|by intros].
    intros vid Hin. apply pubkey_of_cases, get_at_lt.
    destruct (N.lt_ge_cases vid (len validators)) as [|Hge]; [done|].
    assert (Hex : existsb (λ vid : u64, to_u64 (len validators) <=? vid) ids = true); [|congruence].
    apply existsb_exists. exists vid. split; [by apply list_elem_of_In|]. apply N.leb_le. lia. }
  split; [by intros [_ ?]|]. intros (pks & Hreg & HP). split; [|eauto].
  apply not_true_iff_false. intros (vid & Hin%list_elem_of_In & Hle)%existsb_exists.
  pose proof (registered_bound _ _ _ _ Hreg Hin). lia.
Qed.

Lemma verify_attestation_checks {S : Type} validators entry (s : S) :
  len validators < 2 ^ 64 → ad_slot (aa_data entry.1) < 2 ^ 32 →
  checks (verify_attestation validators entry) s (proof_valid validators entry).
Proof.
  intros Hlen Hslot. destruct entry as [att proof]. cbn [fst snd] in *. unfold verify_attestation. cbn zeta.
  eapply checks_iff; [|eapply checks_bind; [apply checks_fail_if|intros _]].
  2:{ eapply checks_ext; [|apply (checks_pubkeys validators (validator_indices (aa_aggregation_bits att)) (λ pks,
        map_err AggregateVerificationFailed (verify_aggregated_signature (pf_proof_data proof) pks
          (tree_hash_root (aa_data att)) (u64_val (ad_slot (aa_data att))))));
        [done|intros pks; apply checks_map_err]].
      rewrite !run_bind. destruct (fail_if _ _ s); [|done..]. by rewrite run_bind, run_lift_partial, u32_fits. }
  rewrite negb_false_iff, bool_decide_eq_true. split; [|by intros []]. intros [Hp Hv]. by split.
Qed.

Lemma verify_proposer_checks {S : Type} validators sb (s : S) :
  ad_slot (att_data (bwa_proposer_attestation (sb_message sb))) < 2 ^ 32 →
  checks (verify_proposer validators sb) s (proposer_valid validators sb).
Proof.
  intros Hslot. unfold verify_proposer. cbn zeta.
  eapply checks_iff; [|eapply checks_bind; [apply checks_fail_if|intros _]].
  2:{ apply checks_ok_or. intros sig _. apply checks_ok_or. intros v _. apply checks_ok_or. intros pk _.
      eapply checks_lift; [by apply u32_fits|]. apply checks_fail_if. }
  rewrite negb_false_iff, bool_decide_eq_true. unfold proposer_valid, registered.
  setoid_rewrite negb_false_iff. naive_solver.
Qed.

Lemma verify_signatures_checks {S : Type} state sb (s : S) :
  len (st_validators state) < 2 ^ 64 → slots_fit sb →
  checks (verify_signatures state sb) s (signatures_valid (st_validators state) sb).
Proof.
  intros Hlen [Hatts Hprop]. unfold verify_signatures. cbn zeta.
  eapply checks_iff; [|eapply checks_bind; [apply checks_fail_if|intros _; eapply checks_bind;
    [apply checks_foldM|intros _; by apply verify_proposer_checks]]].
  - by rewrite negb_false_iff, N.eqb_eq.
  - intros [att proof] Hin. apply list_elem_of_In, in_combine_l, list_elem_of_In in Hin. apply verify_attestation_checks; [done|].
    rewrite Forall_forall in Hatts. by apply Hatts.
Qed.

End signatures.

(** * Gossip *)

Section gossip.
Context `{STL : SszTypesLaws} `{SL : StorageLaws D B} `{CO : Codecs} {CL : CodecsLaws} `{HS : Hashing}.
Context `{HOL : HashOrderLaws} `{MS : MultisigScheme}.
Implicit Types (s : Store D) (a : View).

Lemma checks_header s a r e (k : BlockHeader → M (Store D) StoreError unit) (P : BlockHeader → Prop) :
  represents s a → (∀ h, vw_headers a !! r = Some h → checks (k h) s (P h)) →
  checks (reads (get_block_header r) ≫= (λ h, ok_or h e ≫= k)) s (∃ h, vw_headers a !! r = Some h ∧ P h).
Proof.
  intros Hr Hk. eapply checks_reads; [by apply (get_block_header_refines s a)|]. by apply checks_ok_or.
Qed.

Lemma validate_checks s a data :
  represents s a → checks (validate_attestation_data data) s (vote_valid a data).
Proof.
  intros Hr. unfold validate_attestation_data. eapply checks_iff.
  2:{ apply (checks_header s a); [done|]. intros sh _. apply (checks_header s a); [done|]. intros th _.
      apply (checks_header s a); [done|]. intros hh _.
      do 5 (eapply checks_bind; [apply checks_fail_if|intros _]).
      eapply checks_reads; [by apply store_time_refines|]. apply checks_fail_if. }
  assert (Htime : (wrapping_add (u64_div (vw_time a) INTERVALS_PER_SLOT) (to_u64 1) <? ad_slot data) = false ↔
    ad_slot data <= vw_time a / 5 + 1).
  { rewrite N.ltb_ge. unfold wrapping_add, u64_div, INTERVALS_PER_SLOT. rewrite (to_u64_small 5) by done. lia. }
  setoid_rewrite Htime. setoid_rewrite negb_false_iff. setoid_rewrite bool_decide_eq_true.
  setoid_rewrite N.ltb_ge. split.
  - intros (sh & Hs & th & Ht & hh & Hh & ? & ? & ? & ? & ? & ?).
    split; [by exists sh|by exists th|by exists hh|done..].
  - intros [(sh & Hs & ?) (th & Ht & ?) (hh & Hh & ?) ? ? ?]. exists sh. split; [done|]. exists th. split; [done|].
    by exists hh.
Qed.

(** The outcome of a handler: accepted with a new abstract store, or an error that leaves
    the store as it was. *)
Definition atomic {A} (m : M (Store D) StoreError A) s (Q : A → View → Prop) (P : Prop) : Prop :=
  (P ∧ ensures m s Q) ∨ (¬ P ∧ ∃ e, m s = Fail s e).

Lemma checks_atomic {A} (m : M (Store D) StoreError unit) (k : M (Store D) StoreError A) s (P P' : Prop) Q :
  checks m s P → (P → atomic k s Q P') → atomic (m;; k) s Q (P ∧ P').
Proof.
  intros [[Hm HP]|(e & Hm & HP)] Hk.
  - destruct (Hk HP) as [[HP' (s' & x & a' & Hk' & HQ)]|(HP' & e & Hk')].
    + left. split; [done|]. exists s', x, a'. by rewrite run_bind, Hm.
    + right. split; [naive_solver|]. exists e. by rewrite run_bind, Hm.
  - right. split; [naive_solver|]. exists e. by rewrite run_bind, Hm.
Qed.

Lemma atomic_ensures {A} (m : M (Store D) StoreError A) s Q : ensures m s Q → atomic m s Q True.
Proof. by left. Qed.

Lemma atomic_iff {A} (m : M (Store D) StoreError A) s Q P P' : (P ↔ P') → atomic m s Q P → atomic m s Q P'.
Proof. unfold atomic. naive_solver. Qed.

Lemma atomic_ok_or {A A'} (o : option A) e (k : A → M (Store D) StoreError A') s (P : A → Prop) Q :
  (∀ x, o = Some x → atomic (k x) s Q (P x)) → atomic (ok_or o e ≫= k) s Q (∃ x, o = Some x ∧ P x).
Proof.
  intros Hk. unfold atomic, ensures. rewrite run_bind, run_ok_or. destruct o as [x|].
  - destruct (Hk x eq_refl) as [[HP Hm]|[HP Hm]]; [left|right]; (split; [naive_solver|exact Hm]).
  - right. split; [naive_solver|by eexists].
Qed.

Lemma atomic_reads {A A'} (f : Store D → partial A) (k : A → M (Store D) StoreError A') s x P Q :
  f s = Return x → atomic (k x) s Q P → atomic (reads f ≫= k) s Q P.
Proof. intros Hf Hk. unfold atomic, ensures in *. by rewrite run_bind, run_reads, Hf. Qed.

Lemma atomic_bind_eq {A} (m m' : M (Store D) StoreError A) s P Q : m s = m' s → atomic m' s Q P → atomic m s Q P.
Proof. unfold atomic, ensures. by intros ->. Qed.

(** The gossip attestations the store accepts. *)
Definition gossip_valid a (sa : SignedAttestation) : Prop :=
  vote_valid a (sa_data sa) ∧
  ∃ st, vw_states a !! cp_root (ad_target (sa_data sa)) = Some st ∧
  ∃ pk sig, registered (st_validators st) (sa_validator_id sa) pk ∧
    ValidatorSignature_from_bytes (sa_signature sa) = Some sig ∧
    is_valid sig pk (u64_val (ad_slot (sa_data sa))) (tree_hash_root (sa_data sa)) = true.

(** The data is stored; the signature too, for a validator of our subnets. *)
Definition gossip_stored a (sa : SignedAttestation) (local : list u64) a' : Prop :=
  ∃ sig, ValidatorSignature_from_bytes (sa_signature sa) = Some sig ∧
  let a1 := vset_data (<[tree_hash_root (sa_data sa) := sa_data sa]> (vw_data a)) a in
  a' = if in_our_subnet local (sa_validator_id sa)
       then view_insert_gossip (sa_validator_id sa, tree_hash_root (sa_data sa))
              (StoredSignature_new (ad_slot (sa_data sa)) sig) a1
       else a1.

Lemma atomic_registered validators vid (k : ValidatorPublicKey → M (Store D) StoreError unit) s Q
    (P : ValidatorPublicKey → Prop) :
  len validators < 2 ^ 64 → (∀ pk, atomic (k pk) s Q (P pk)) →
  atomic (fail_if (to_u64 (len validators) <=? vid) InvalidValidatorIndex;; (pubkey_of validators vid ≫= k)) s Q
    (∃ pk, registered validators vid pk ∧ P pk).
Proof.
  intros Hlen Hk. destruct (N.leb_spec (to_u64 (len validators)) vid) as [Hge|Hlt].
  - right. split; [|by eexists]. intros (pk & (v & Hv & _) & _). apply get_at_Some in Hv. lia.
  - unfold atomic, ensures. rewrite run_bind, run_fail_if, run_bind.
    destruct (pubkey_of_cases validators vid s) as [(pk & -> & Hreg)|(e & -> & Hno)]; [apply get_at_lt; lia| |].
    + eapply (atomic_iff (k pk)); [|apply Hk]. split; [by exists pk|]. intros (pk' & Hreg' & HP).
      by rewrite (registered_fun _ _ _ _ Hreg Hreg').
    + right. split; [naive_solver|by exists e].
Qed.

Lemma on_gossip_attestation_atomic s a sa local :
  represents s a → (∀ r st, vw_states a !! r = Some st → state_wf st) → ad_slot (sa_data sa) < 2 ^ 32 →
  atomic (on_gossip_attestation sa local) s (λ _ a', gossip_stored a sa local a') (gossip_valid a sa).
Proof.
  intros Hr Hwf Hslot. unfold on_gossip_attestation. cbn zeta.
  eapply checks_atomic; [by apply validate_checks|intros _].
  eapply atomic_reads; [by apply (get_state_refines s a)|]. apply atomic_ok_or. intros st Hst.
  assert (Hlen : len (st_validators st) < 2 ^ 64).
  { pose proof (wf_validators st (proj1 (Hwf _ _ Hst))). unfold VALIDATOR_REGISTRY_LIMIT in *. lia. }
  eapply atomic_iff; [|apply (atomic_registered _ _ _ _ _ (λ pk, ∃ sig,
    ValidatorSignature_from_bytes (sa_signature sa) = Some sig ∧
    (is_valid sig pk (u64_val (ad_slot (sa_data sa))) (tree_hash_root (sa_data sa)) = true ∧ True))); [done|]].
  { naive_solver. }
  intros pk. eapply atomic_reads; [by apply u32_fits|]. apply atomic_ok_or. intros sig Hsig.
  eapply atomic_iff; [|eapply checks_atomic; [apply checks_fail_if|intros _; apply atomic_ensures]].
  { by rewrite negb_false_iff. }
  set (a1 := vset_data (<[tree_hash_root (sa_data sa) := sa_data sa]> (vw_data a)) a).
  eapply ensures_bind; [by eapply (ensures_implements _ _ _ _ (λ _ a', a' = a1)); [apply insert_attestation_data_refines|]|].
  intros s1 _ ? Hr1 ->. unfold gossip_stored. fold a1.
  destruct (in_our_subnet local (sa_validator_id sa)).
  - eapply ensures_implements; [by apply insert_gossip_signature_refines|]. by exists sig.
  - eapply ensures_ret; [exact Hr1|]. by exists sig.
Qed.

(** The aggregated attestations the store accepts. *)
Definition aggregate_valid a (sga : SignedAggregatedAttestation) : Prop :=
  vote_valid a (sga_data sga) ∧
  ∃ st, vw_states a !! cp_root (ad_target (sga_data sga)) = Some st ∧
  ∃ pks, Forall2 (registered (st_validators st)) (participant_indices (sga_proof sga)) pks ∧
    verify_aggregated_signature (pf_proof_data (sga_proof sga)) pks (tree_hash_root (sga_data sga))
      (u64_val (ad_slot (sga_data sga))) = inr tt.

(** The data is stored, and one payload per participant. *)
Definition view_store_aggregate a (sga : SignedAggregatedAttestation) : View :=
  let root := tree_hash_root (sga_data sga) in
  let payload := mk_stored_payload (ad_slot (sga_data sga)) (sga_proof sga) in
  let a1 := vset_data (<[root := sga_data sga]> (vw_data a)) a in
  vset_new (push_batch (vw_new a1) ((λ v, ((v, root), payload)) <$> participant_indices (sga_proof sga))) a1.

Lemma on_gossip_aggregated_atomic s a sga :
  represents s a → (∀ r st, vw_states a !! r = Some st → state_wf st) → ad_slot (sga_data sga) < 2 ^ 32 →
  atomic (on_gossip_aggregated_attestation sga) s (λ _ a', a' = view_store_aggregate a sga) (aggregate_valid a sga).
Proof.
  intros Hr Hwf Hslot. unfold on_gossip_aggregated_attestation. cbn zeta.
  eapply checks_atomic; [by apply validate_checks|intros _].
  eapply atomic_reads; [by apply (get_state_refines s a)|]. apply atomic_ok_or. intros st Hst.
  assert (Hlen : len (st_validators st) < 2 ^ 64).
  { pose proof (wf_validators st (proj1 (Hwf _ _ Hst))). unfold VALIDATOR_REGISTRY_LIMIT in *. lia. }
  set (ids := participant_indices (sga_proof sga)).
  set (root := tree_hash_root (sga_data sga)).
  set (insertion := (insert_attestation_data_by_root root (sga_data sga);;
    insert_new_aggregated_payloads_batch ((λ v, ((v, root), mk_stored_payload (ad_slot (sga_data sga)) (sga_proof sga))) <$> ids))
    : M (Store D) StoreError unit).
  eapply (atomic_bind_eq _ ((fail_if (existsb (λ vid : u64, to_u64 (len (st_validators st)) <=? vid) ids) InvalidValidatorIndex;;
    (mapM (pubkey_of (st_validators st)) ids ≫= λ pks, map_err AggregateVerificationFailed
      (verify_aggregated_signature (pf_proof_data (sga_proof sga)) pks root (u64_val (ad_slot (sga_data sga))))));; insertion)).
  { rewrite !run_bind. destruct (fail_if _ _ s); [|done..]. rewrite !run_bind.
    destruct (mapM _ _ _) as [s1 pks| | |]; [|done..]. by rewrite run_bind, run_lift_partial, u32_fits. }
  eapply atomic_iff; [|eapply checks_atomic; [apply checks_pubkeys; [done|intros pks; apply checks_map_err]|intros _; apply atomic_ensures]].
  { by rewrite (right_id True and). }
  unfold insertion. set (a1 := vset_data (<[root := sga_data sga]> (vw_data a)) a).
  eapply ensures_bind; [by eapply (ensures_implements _ _ _ _ (λ _ a', a' = a1)); [apply insert_attestation_data_refines|]|].
  intros s1 _ ? Hr1 ->. by eapply ensures_implements; [apply insert_new_payloads_refines|].
Qed.

End gossip.
