(* ===== verification/ChainBlocks.v ===== *)
(** Block import on the abstract store: an accepted block leaves the chain invariant
    intact, any other block leaves the store as it was. *)

From S2P Require Import Prelude Types StateTransition Reference StateInvariant Transitions ForkChoice.
From S2P Require Import Backend Keys Signatures PayloadBuffer Store Crypto StoreSpec StoreOps StorePruning StoreMaintenance.
From S2P Require Import ChainInvariant ChainStore Bits ChainRefine ChainImport.

Section blocks.
Context `{STL : SszTypesLaws} `{SL : StorageLaws D B} `{CO : Codecs} {CL : CodecsLaws} `{HS : Hashing} {HL : HashingLaws}.
Context `{HOL : HashOrderLaws} `{MS : MultisigScheme}.
Context (seen : BlockHeader → Prop) {HSeen : HeadersSeen seen} (anchor : N).
Implicit Types (s : Store D) (a : View).

(** * Checkpoints *)

(** [a'] is [a] with the newer of each pair of checkpoints. *)
Record checkpointed a (st : State) a' : Prop := {
  ck_justified : vw_justified a' = default (vw_justified a) (newer (st_latest_justified st) (vw_justified a));
  ck_finalized : vw_finalized a' = default (vw_finalized a) (newer (st_latest_finalized st) (vw_finalized a));
  ck_time : vw_time a' = vw_time a;
  ck_config : vw_config a' = vw_config a;
  ck_headers : vw_headers a' = vw_headers a;
  ck_bodies : vw_bodies a' = vw_bodies a;
  ck_signatures : vw_signatures a' = vw_signatures a;
  ck_data k d : vw_data a' !! k = Some d → vw_data a !! k = Some d;
  ck_states : vw_states a' = vw_states a;
  ck_head : vw_head a' = vw_head a;
  ck_safe : vw_safe_target a' = vw_safe_target a;
  ck_new : vw_new a' = vw_new a;
  ck_known : vw_known a' = vw_known a;
  ck_live_sub k v : vw_live a' !! k = Some v → vw_live a !! k = Some v;
  ck_live_keep k v : vw_live a !! k = Some v → cp_slot (vw_finalized a') <= u64_val k.1 → vw_live a' !! k = Some v;
}.

Lemma newer_max c c0 : u64_val (cp_slot (default c0 (newer c c0))) = N.max (cp_slot c) (cp_slot c0).
Proof. unfold newer. destruct (N.ltb_spec (cp_slot c0) (cp_slot c)); cbn; lia. Qed.

Lemma newer_cases c c0 : default c0 (newer c c0) = c0 ∨ default c0 (newer c c0) = c ∧ cp_slot c0 < cp_slot c.
Proof. unfold newer. destruct (N.ltb_spec (cp_slot c0) (cp_slot c)); [by right|by left]. Qed.

Lemma import_checkpoints_ensures {E} s a st :
  represents s a → ensures (import_checkpoints st : M (Store D) E unit) s (λ _ a', checkpointed a st a').
Proof.
  intros Hr. unfold import_checkpoints. eapply ensures_reads; [by apply latest_justified_refines|].
  eapply ensures_reads; [by apply latest_finalized_refines|].
  set (j := newer (st_latest_justified st) (vw_justified a)).
  set (f := newer (st_latest_finalized st) (vw_finalized a)).
  set (c := mk_fork_checkpoints (vw_head a) j f).
  assert (Hsome : ensures (head ← reads store_head; update_checkpoints (mk_fork_checkpoints head j f) : M (Store D) E unit)
    s (λ _ a', checkpointed a st a')).
  { eapply ensures_reads; [by apply store_head_refines|]. fold c.
    pose proof (update_checkpoints_refines (E := E) s a c Hr) as Hup. unfold advances in Hup. cbn [fc_finalized c] in Hup.
    destruct f as [fin|] eqn:Hf; cbn [mbind option_bind] in Hup.
    2:{ eapply ensures_implements; [exact Hup|]. split; fold j f; rewrite ?Hf; by try done; cbn. }
    assert (Hadv : (cp_slot (vw_finalized a) <? u64_val (cp_slot fin)) = true).
    { unfold f, newer in Hf. destruct (_ <? _) eqn:Hlt; [|done]. by injection Hf as <-. }
    rewrite Hadv in Hup. destruct Hup as (live' & (Hsub & Hkeep & _) & Himp).
    eapply ensures_implements; [exact Himp|]. split; fold j f; rewrite ?Hf; try done; cbn.
    intros k d Hk. by apply map_lookup_filter_Some in Hk as [Hk _]. }
  destruct j as [jc|] eqn:Hj; [exact Hsome|]. destruct f as [fc|] eqn:Hf; [exact Hsome|].
  eapply ensures_ret; [exact Hr|]. split; fold j f; rewrite ?Hj, ?Hf; done.
Qed.

Lemma checkpointed_core a parent block st a' :
  chain_core seen anchor a → processed a (b_parent_root block) parent → imported parent block st →
  checkpointed a st a' → chain_core seen anchor a'.
Proof.
  intros Hc Hp Him [Hj Hf]. pose proof (wf_finalized_justified st (proj1 (im_wf _ _ _ Him))) as Hfj.
  unfold fin_slot, just_slot in Hfj. pose proof (cc_checkpoints _ _ a Hc) as Hle.
  pose proof (newer_max (st_latest_justified st) (vw_justified a)) as Hjm.
  pose proof (newer_max (st_latest_finalized st) (vw_finalized a)) as Hfm.
  rewrite <- Hj in Hjm. rewrite <- Hf in Hfm.
  apply (chain_core_advance seen anchor a a'); try done; [| |lia|lia].
  - rewrite Hj. destruct (newer_cases (st_latest_justified st) (vw_justified a)) as [->|[-> Hlt]]; [apply Hc|].
    apply (imported_checkpoint seen anchor a parent block st); auto. lia.
  - rewrite Hf. destruct (newer_cases (st_latest_finalized st) (vw_finalized a)) as [->|[-> Hlt]]; [apply Hc|].
    apply (imported_checkpoint seen anchor a parent block st); auto. lia.
Qed.

(** * Import *)

(** The attestation data a block carries. *)
Definition block_data (sb : SignedBlockWithAttestation) : list AttestationData :=
  (aa_data <$> bb_attestations (b_body (bwa_block (sb_message sb)))) ++
  [att_data (bwa_proposer_attestation (sb_message sb))].

(** The same headers, bodies and signatures. *)
Record same_blocks a a' : Prop := {
  sb_headers : vw_headers a = vw_headers a';
  sb_bodies : vw_bodies a = vw_bodies a';
  sb_signatures : vw_signatures a = vw_signatures a';
}.

(** What an imported block leaves behind. *)
Record block_imported a (sb : SignedBlockWithAttestation) (st : State) a' : Prop := {
  bi_inv : chain_inv seen anchor a';
  bi_written : same_blocks a' (view_write_block (tree_hash_root (bwa_block (sb_message sb))) sb a);
  bi_data k d : vw_data a' !! k = Some d → vw_data a !! k = Some d ∨ d ∈ block_data sb;
  bi_state : vw_states a' = <[tree_hash_root (bwa_block (sb_message sb)) := st]> (vw_states a);
  bi_live : vw_live a' !! (b_slot (bwa_block (sb_message sb)), tree_hash_root (bwa_block (sb_message sb))) =
    Some (b_parent_root (bwa_block (sb_message sb)));
  bi_justified : vw_justified a' = default (vw_justified a) (newer (st_latest_justified st) (vw_justified a));
  bi_finalized : vw_finalized a' = default (vw_finalized a) (newer (st_latest_finalized st) (vw_finalized a));
  bi_time : vw_time a' = vw_time a;
  bi_config : vw_config a' = vw_config a;
}.

(** Attestation data, payloads, gossip and blocks besides headers are not part of the
    invariant. *)
Lemma known_payloads_core a entries :
  Forall entry_ok entries → chain_core seen anchor a → chain_core seen anchor (vset_known (push_batch (vw_known a) entries) a).
Proof.
  intros He Hc. eapply chain_core_same; [|exact Hc].
  split; cbn; try done; [apply Hc|]. apply push_batch_ok; [apply Hc|done].
Qed.

(** The payloads of a block with valid signatures belong to registered validators. *)
Lemma known_payloads_ok validators sb :
  len validators <= VALIDATOR_REGISTRY_LIMIT → signatures_valid validators sb →
  Forall entry_ok (combine (bb_attestations (b_body (bwa_block (sb_message sb))))
    (bs_attestation_signatures (sb_signature sb)) ≫= known_payloads_of).
Proof.
  intros Hlim (_ & Hproofs & _). apply Forall_forall. intros e ([att proof] & He & Hin)%list_elem_of_bind.
  rewrite Forall_forall in Hproofs. destruct (Hproofs _ Hin) as [_ (pks & Hreg & _)].
  apply list_elem_of_fmap in He as (v & -> & Hv). unfold entry_ok. cbn.
  pose proof (registered_bound _ _ _ _ Hreg Hv). lia.
Qed.

Lemma import_proposer_ensures s a sb local sig :
  represents s a → chain_inv seen anchor a →
  ValidatorSignature_from_bytes (bs_proposer_signature (sb_signature sb)) = Some sig →
  ensures (import_proposer_attestation sb true local) s (λ _ a',
    chain_inv seen anchor a' ∧ same_chain_view a a' ∧ vw_time a' = vw_time a).
Proof.
  intros Hr Hi Hsig. unfold import_proposer_attestation. cbn [negb].
  destruct (in_our_subnet _ _); [|by eapply ensures_ret]. rewrite Hsig. cbn [ok_or].
  change (mret sig ≫= ?k) with (k sig).
  eapply ensures_implements; [by apply insert_gossip_signature_refines|].
  split_and!; [|by split|done]. eapply chain_inv_same; [|exact Hi]. by split; try apply Hi.
Qed.

Lemma data_batch_lookup (entries : list (H256 * AttestationData)) (m : gmap H256 AttestationData) k d :
  foldl (λ m kv, <[kv.1 := kv.2]> m) m entries !! k = Some d → (k, d) ∈ entries ∨ m !! k = Some d.
Proof.
  revert m. induction entries as [|[k' d'] entries IH]; intros m; cbn; [by right|].
  intros [Hin|Hm]%IH; [by left; right|]. destruct (decide (k' = k)) as [->|Hne].
  - rewrite lookup_insert_eq in Hm. injection Hm as ->. left. left.
  - rewrite lookup_insert_ne in Hm by done. by right.
Qed.

Lemma block_data_entries sb k d :
  (k, d) ∈ ((λ '(att, _), data_entry_of (aa_data att)) <$>
    combine (bb_attestations (b_body (bwa_block (sb_message sb)))) (bs_attestation_signatures (sb_signature sb))) ++
    [data_entry_of (att_data (bwa_proposer_attestation (sb_message sb)))] → d ∈ block_data sb.
Proof.
  unfold block_data. rewrite !elem_of_app. intros [([att proof] & Heq & Hin)%list_elem_of_fmap|Hin%list_elem_of_singleton].
  - left. injection Heq as -> ->. apply list_elem_of_fmap. exists att. split; [done|].
    apply list_elem_of_In. apply list_elem_of_In in Hin. by eapply in_combine_l.
  - right. injection Hin as -> ->. by left.
Qed.

Lemma import_block_ensures s a sb parent st local sig :
  let block := bwa_block (sb_message sb) in
  represents s a → chain_inv seen anchor a → seen (block_header block) →
  vw_states a !! tree_hash_root block = None → processed a (b_parent_root block) parent →
  imported parent block st → ValidatorSignature_from_bytes (bs_proposer_signature (sb_signature sb)) = Some sig →
  signatures_valid (st_validators parent) sb →
  ensures (import_block sb st true local) s (λ _ a', block_imported a sb st a').
Proof.
  intros block Hr Hi Hseen Hnew Hp Him Hsig Hvalid. pose proof (ci_core _ _ a Hi) as Hc.
  unfold import_block. fold block. cbn zeta. set (root := tree_hash_root block).
  eapply ensures_bind; [by apply (import_checkpoints_ensures s a st)|]. intros s1 ? a1 Hr1 Hck.
  pose proof (checkpointed_core a parent block st a1 Hc Hp Him Hck) as Hc1.
  set (a2 := view_insert_block root sb a1). set (a3 := vset_states (<[root := st]> (vw_states a2)) a2).
  eapply ensures_bind; [by eapply (ensures_implements _ _ _ _ (λ _ a', a' = a2)); [apply insert_signed_block_refines|]|].
  intros s2 _ ? Hr2 ->.
  eapply ensures_bind; [by eapply (ensures_implements _ _ _ _ (λ _ a', a' = a3)); [apply insert_state_refines|]|].
  intros s3 _ ? Hr3 ->.
  assert (Hc3 : chain_core seen anchor a3).
  { eapply (chain_core_insert seen anchor a1 a3 root parent block st); [done| |done|done| | |by split].
    - unfold processed. by rewrite (ck_states _ _ _ Hck).
    - unfold root. apply hash_block_as_header.
    - by rewrite (ck_states _ _ _ Hck). }
  set (data := _ ++ [_]). set (a4 := vset_data (foldl (λ m kv, <[kv.1 := kv.2]> m) (vw_data a3) data) a3).
  eapply ensures_bind; [by eapply (ensures_implements _ _ _ _ (λ _ a', a' = a4)); [apply insert_attestation_data_batch_refines|]|].
  intros s4 _ ? Hr4 ->. set (payloads := _ ≫= known_payloads_of).
  set (a5 := vset_known (push_batch (vw_known a4) payloads) a4).
  eapply ensures_bind; [by eapply (ensures_implements _ _ _ _ (λ _ a', a' = a5)); [apply insert_known_payloads_refines|]|].
  intros s5 _ ? Hr5 ->.
  assert (Hc5 : chain_core seen anchor a5).
  { apply known_payloads_core.
    - apply (known_payloads_ok (st_validators parent)); [|done].
      apply (wf_validators parent (proj1 (so_wf _ _ _ _ (cc_states _ _ a Hc _ _ Hp)))).
    - eapply chain_core_same; [|exact Hc3]. by split; try apply Hc3. }
  eapply ensures_bind; [by apply (update_head_ensures seen anchor s5 a5 false)|].
  intros s6 ? a6 Hr6 (Hi6 & Hs6 & Ht6 & _).
  eapply ensures_mono; [|by apply (import_proposer_ensures s6 a6 sb local sig)].
  intros ? a' (Hi' & Hs' & Ht'). assert (Hs : same_chain_view a5 a') by (by etrans). split; [done|..].
  - pose proof Hck as [? ? ? ? Hkh Hkb Hks ? ? ? ? ? ? ? ?]. split; [rewrite (sv_headers _ _ Hs)|rewrite (sv_bodies _ _ Hs)|rewrite (sv_signatures _ _ Hs)];
      cbn; by rewrite ?Hkh, ?Hkb, ?Hks.
  - intros k d. rewrite (sv_data _ _ Hs). cbn. intros [Hin|Hd]%data_batch_lookup; [right|left; by apply (ck_data _ _ _ Hck)].
    by eapply block_data_entries.
  - rewrite (sv_states _ _ Hs). cbn. by rewrite (ck_states _ _ _ Hck).
  - rewrite (sv_live _ _ Hs). cbn. by rewrite lookup_insert_eq.
  - rewrite (sv_justified _ _ Hs). apply Hck.
  - rewrite (sv_finalized _ _ Hs). apply Hck.
  - rewrite Ht', Ht6. apply Hck.
  - rewrite (sv_config _ _ Hs). apply Hck.
Qed.

(** The blocks the store accepts: the parent is processed, all signatures verify, and the
    transition function accepts the block. *)
Definition block_valid a (sb : SignedBlockWithAttestation) (st : State) : Prop :=
  let block := bwa_block (sb_message sb) in
  ∃ parent post, vw_states a !! b_parent_root block = Some parent ∧
    signatures_valid (st_validators parent) sb ∧
    state_transition block parent = Done post tt ∧ st = imported_state block post.

Lemma on_block_cases s a sb local :
  let block := bwa_block (sb_message sb) in
  represents s a → chain_inv seen anchor a → seen (block_header block) → slots_fit sb →
  (is_Some (vw_states a !! tree_hash_root block) ∧ on_block sb local s = Done s tt) ∨
  (vw_states a !! tree_hash_root block = None ∧
   ((∃ st, block_valid a sb st ∧ ensures (on_block sb local) s (λ _ a', block_imported a sb st a')) ∨
    (¬ (∃ st, block_valid a sb st) ∧ ∃ e, on_block sb local s = Fail s e))).
Proof.
  intros block Hr Hi Hseen Hslots. pose proof (ci_core _ _ a Hi) as Hc.
  unfold on_block, on_block_core, ensures. fold block. cbn zeta.
  rewrite run_bind, run_reads, (has_state_refines s a _ Hr).
  destruct (vw_states a !! tree_hash_root block) as [old|] eqn:Hold.
  { left. split; [done|]. by rewrite bool_decide_eq_true_2. }
  right. split; [done|]. rewrite bool_decide_eq_false_2 by (by intros []).
  rewrite run_bind, run_reads, (get_state_refines s a _ Hr), run_bind, run_ok_or.
  destruct (vw_states a !! b_parent_root block) as [parent|] eqn:Hparent.
  2:{ right. split; [|by eexists]. intros (st & p & post & Hp & _). fold block in Hp. congruence. }
  pose proof (so_wf _ _ _ _ (cc_states _ _ a Hc _ _ Hparent)) as Hwf.
  assert (Hlen : len (st_validators parent) < 2 ^ 64).
  { pose proof (wf_validators parent (proj1 Hwf)). unfold VALIDATOR_REGISTRY_LIMIT in *. lia. }
  rewrite run_bind.
  destruct (verify_signatures_checks parent sb s Hlen Hslots) as [[-> Hsigs]|(e & -> & Hsigs)].
  2:{ right. split; [|by eexists]. intros (st & p & post & Hp & Hs & _). fold block in Hp. congruence. }
  rewrite run_bind. unfold on_local.
  destruct (state_transition block parent) as [post []|s' e| |] eqn:Hst.
  - left. exists (imported_state block post). split; [by exists parent, post|].
    pose proof Hsigs as (_ & _ & _ & sig & _ & Hsig & _).
    apply (import_block_ensures s a sb parent _ local sig); try done.
    by apply transition_imported.
  - right. split; [|by eexists]. intros (st & p & post & Hp & _ & Hpost & _). fold block in Hp, Hpost. congruence.
  - destruct (state_transition_cases parent block Hwf) as [(? & ? & ? & _)|(? & _ & _ & _ & Hcase)]; [congruence|].
    rewrite Hst in Hcase. by case_bool_decide.
  - destruct (state_transition_cases parent block Hwf) as [(? & ? & ? & _)|(? & _ & _ & _ & Hcase)]; [congruence|].
    rewrite Hst in Hcase. by case_bool_decide.
Qed.

(** * Gossip keeps the invariant *)

Lemma chain_states_wf a : chain_inv seen anchor a → ∀ r st, vw_states a !! r = Some st → state_wf st.
Proof. intros Hi r st Hst. apply (so_wf anchor a r st). by apply (cc_states seen anchor a (ci_core _ _ a Hi)). Qed.

Lemma gossip_stored_inv a sa local a' :
  chain_inv seen anchor a → gossip_stored a sa local a' → chain_inv seen anchor a'.
Proof.
  intros Hi (sig & _ & ->). eapply chain_inv_same; [|exact Hi].
  destruct (in_our_subnet _ _); by split; try apply Hi.
Qed.

Lemma aggregate_stored_inv a sga :
  chain_inv seen anchor a → aggregate_valid a sga → chain_inv seen anchor (view_store_aggregate a sga).
Proof.
  intros Hi (_ & st & Hst & pks & Hreg & _). eapply chain_inv_same; [|exact Hi]. split; cbn; try done; [|apply Hi].
  apply push_batch_ok; [apply Hi|]. apply Forall_fmap, Forall_forall. intros v Hv. unfold entry_ok. cbn.
  pose proof (registered_bound _ _ _ _ Hreg Hv).
  pose proof (wf_validators st (proj1 (chain_states_wf a Hi _ _ Hst))). lia.
Qed.

End blocks.
