(* ===== verification/BlockBuilding.v ===== *)
(** The chain store (crates/blockchain/src/store.rs), second part: the attestation target,
    attestation data, and block production with the fixed-point collection of attestations
    and the selection of aggregated proofs. *)

From S2P Require Import Prelude Types StateTransition ForkChoice Backend Keys Signatures PayloadBuffer Store Crypto ChainStore.

(** * Attestation target *)

Section target.
Context `{ST : SszTypes} `{SB : StorageBackend D B} `{CO : Codecs} `{HS : Hashing} `{HO : HashOrder}.
Context `{MS : MultisigScheme}.

Abbreviation store := (Store D).

(** [store.get_block_header(root).expect(..)] *)
Definition expect_header (root : H256) (s : store) : partial BlockHeader :=
  header ← get_block_header root s;
  expect_some header.

(** The walk towards the safe target, [fuel] steps at most. *)
Fixpoint walk_to_safe_target (fuel : nat) (safe_slot : u64) (s : store) (root : H256) (header : BlockHeader) :
    partial (H256 * BlockHeader) :=
  match fuel with
  | O => Return (root, header)
  | S fuel =>
      if safe_slot <? bh_slot header then
        let root := bh_parent_root header in
        header ← expect_header root s;
        walk_to_safe_target fuel safe_slot s root header
      else Return (root, header)
  end.

(** The walk to a justifiable slot. *)
Fixpoint walk_to_justifiable (fuel : nat) (finalized_slot : u64) (s : store) (root : H256) (header : BlockHeader) :
    partial (H256 * BlockHeader) :=
  match fuel with
  | O => Diverge
  | S fuel =>
      if (finalized_slot <? bh_slot header) && negb (slot_is_justifiable_after (bh_slot header) finalized_slot) then
        let root := bh_parent_root header in
        header ← expect_header root s;
        walk_to_justifiable fuel finalized_slot s root header
      else Return (root, header)
  end.

(** Slots decrease along parents, so the walk to the finalized slot is no longer than the
    number of slots above it. *)
Definition justifiable_fuel (finalized_slot : u64) (header : BlockHeader) : nat :=
  S (N.to_nat (bh_slot header - finalized_slot)).

(** [get_attestation_target] *)
Definition get_attestation_target (s : store) : partial Checkpoint :=
  target_block_root ← store_head s;
  target_header ← expect_header target_block_root s;
  safe_root ← safe_target s;
  safe_header ← expect_header safe_root s;
  '(target_block_root, target_header) ←
    walk_to_safe_target JUSTIFICATION_LOOKBACK_SLOTS (bh_slot safe_header) s target_block_root target_header;
  finalized ← latest_finalized s;
  let finalized_slot := cp_slot finalized in
  '(target_block_root, target_header) ←
    walk_to_justifiable (justifiable_fuel finalized_slot target_header) finalized_slot s
      target_block_root target_header;
  latest_justified ← latest_justified s;
  if bh_slot target_header <? cp_slot latest_justified then Return latest_justified
  else Return (mk_checkpoint target_block_root (bh_slot target_header)).

(** [produce_attestation_data] *)
Definition produce_attestation_data (slot : u64) (s : store) : partial AttestationData :=
  head ← store_head s;
  head_header ← expect_header head s;
  let head_checkpoint := mk_checkpoint head (bh_slot head_header) in
  target_checkpoint ← get_attestation_target s;
  source ← latest_justified s;
  Return (mk_attestation_data slot head_checkpoint target_checkpoint source).

(** [get_proposal_head] *)
Definition get_proposal_head {E} (slot : u64) : M store E H256 :=
  config ← reads store_config;
  let slot_time_ms := wrapping_add (wrapping_mul (cc_genesis_time config) (to_u64 1000))
                        (wrapping_mul slot MILLISECONDS_PER_SLOT) in
  on_tick slot_time_ms true false;;
  accept_new_attestations false;;
  reads store_head.

End target.

(** * Building a block *)

Section build.
Context `{ST : SszTypes} `{HS : Hashing} `{HO : HashOrder} `{MS : MultisigScheme}.

(** Validators by attestation data, keyed by the data root. *)
Definition group_attestation (groups : gmap H256 (AttestationData * list u64)) (attestation : Attestation) :
    gmap H256 (AttestationData * list u64) :=
  let data_root := tree_hash_root (att_data attestation) in
  let '(data, ids) := default (att_data attestation, []) (groups !! data_root) in
  <[data_root := (data, ids ++ [att_validator_id attestation])]> groups.

(** One group as an aggregated attestation. *)
Definition aggregate_attestation (group : AttestationData * list u64) : partial AggregatedAttestation :=
  let '(data, validator_ids) := group in
  bits ← expect_some (bitlist_with_capacity VALIDATOR_REGISTRY_LIMIT
    (wrapping_add (max_id validator_ids) (to_u64 1)));
  bits ← set_bits bits validator_ids;
  Return (mk_aggregated_attestation bits data).

(** [aggregate_attestations_by_data] *)
Definition aggregate_attestations_by_data (attestations : list Attestation) :
    partial (list AggregatedAttestation) :=
  map_partial aggregate_attestation (hash_iter (foldl group_attestation ∅ attestations)).*2.

Abbreviation Payloads := (gmap SignatureKey (list AggregatedSignatureProof)).

(** The participants of a proof that remain to be covered. *)
Definition covered_by (remaining : gset u64) (p : AggregatedSignatureProof) : list u64 :=
  filter (λ vid, vid ∈ remaining) (validator_indices (pf_participants p)).

(** [max_by_key(|(_, covered)| covered.len())]: the last of the greatest. *)
Definition best_proof (remaining : gset u64) (candidates : list AggregatedSignatureProof) :
    option (AggregatedSignatureProof * list u64) :=
  foldl (λ best p,
    let covered := covered_by remaining p in
    match best with
    | None => Some (p, covered)
    | Some (_, c) => if (length c <=? length covered)%nat then Some (p, covered) else best
    end) None candidates.

(** The [while] loop of [select_aggregated_proofs] for one attestation. *)
Fixpoint select_proofs (fuel : nat) (aggregated_payloads : Payloads) (data : AttestationData)
    (remaining : gset u64) : partial (list (AggregatedAttestation * AggregatedSignatureProof)) :=
  match fuel with
  | O => Diverge
  | S fuel =>
      match hash_elems remaining with
      | [] => Return []
      | target_id :: _ =>
          match aggregated_payloads !! (target_id, tree_hash_root data) with
          | Some ((_ :: _) as candidates) =>
              '(proof, covered) ← expect_some (best_proof remaining candidates);
              match covered with
              | [] => Return []
              | _ =>
                  let aggregate := mk_aggregated_attestation (pf_participants proof) data in
                  rest ← select_proofs fuel aggregated_payloads data (remaining ∖ list_to_set covered);
                  Return ((aggregate, proof) :: rest)
              end
          | _ => Return []
          end
      end
  end.

(** Every round covers another validator. *)
Definition select_fuel (remaining : gset u64) : nat := S (size remaining).

Definition select_for (aggregated_payloads : Payloads) (aggregated : AggregatedAttestation) :
    partial (list (AggregatedAttestation * AggregatedSignatureProof)) :=
  let remaining : gset u64 := list_to_set (validator_indices (aa_aggregation_bits aggregated)) in
  select_proofs (select_fuel remaining) aggregated_payloads (aa_data aggregated) remaining.

(** [select_aggregated_proofs] *)
Definition select_aggregated_proofs (attestations : list Attestation) (aggregated_payloads : Payloads) :
    partial (list AggregatedAttestation * list AggregatedSignatureProof) :=
  aggregates ← aggregate_attestations_by_data attestations;
  results ← map_partial (select_for aggregated_payloads) aggregates;
  Return ((concat results).*1, (concat results).*2).

(** [aggregated.try_into().expect(..)] *)
Definition block_attestations (l : list AggregatedAttestation) : partial (list AggregatedAttestation) :=
  expect_some (variable_list_new VALIDATOR_REGISTRY_LIMIT l).

Definition candidate_block (slot proposer_index : u64) (parent_root : H256)
    (attestations : list AggregatedAttestation) : Block :=
  mk_block slot proposer_index parent_root H256_ZERO (mk_block_body attestations).

(** [process_slots] and [process_block] on a copy of the head state. *)
Definition candidate_post_state {S : Type} (head_state : State) (block : Block) : M S StoreError State :=
  '(post_state, _) ← on_local StateTransitionFailed (process_slots (b_slot block)) head_state;
  '(post_state, _) ← on_local StateTransitionFailed (process_block block) post_state;
  mret post_state.

Definition signature_key (attestation : Attestation) : SignatureKey :=
  (att_validator_id attestation, tree_hash_root (att_data attestation)).

(** One pass over the available attestations: the new ones and all included keys. *)
Definition collect_new (justified : Checkpoint) (available : list Attestation) (known_block_roots : gset H256)
    (aggregated_payloads : Payloads) (included_keys : gset SignatureKey) :
    list Attestation * gset SignatureKey :=
  foldl (λ '(new_attestations, included_keys) attestation,
    let sig_key := signature_key attestation in
    if negb (bool_decide (cp_root (ad_head (att_data attestation)) ∈ known_block_roots))
    then (new_attestations, included_keys)
    else if negb (bool_decide (ad_source (att_data attestation) = justified))
    then (new_attestations, included_keys)
    else if bool_decide (sig_key ∈ included_keys) then (new_attestations, included_keys)
    else if bool_decide (is_Some (aggregated_payloads !! sig_key))
    then (new_attestations ++ [attestation], {[ sig_key ]} ∪ included_keys)
    else (new_attestations, included_keys)) ([], included_keys) available.

(** The fixed-point [loop] of [build_block]. *)
Fixpoint collect_loop {S : Type} (fuel : nat) (head_state : State) (slot proposer_index : u64) (parent_root : H256)
    (available : list Attestation) (known_block_roots : gset H256) (aggregated_payloads : Payloads)
    (included : list Attestation) (included_keys : gset SignatureKey) : M S StoreError (list Attestation) :=
  match fuel with
  | O => lift_partial Diverge
  | Datatypes.S fuel =>
      aggregated ← lift_partial (aggregate_attestations_by_data included);
      attestations ← lift_partial (block_attestations aggregated);
      let candidate := candidate_block slot proposer_index parent_root attestations in
      post_state ← candidate_post_state head_state candidate;
      if bool_decide (available = []) || bool_decide (known_block_roots = ∅) then mret included
      else
        match collect_new (st_latest_justified post_state) available known_block_roots aggregated_payloads
                included_keys with
        | ([], _) => mret included
        | (new_attestations, included_keys) =>
            collect_loop fuel head_state slot proposer_index parent_root available known_block_roots
              aggregated_payloads (included ++ new_attestations) included_keys
        end
  end.

(** Every round but the last includes another available attestation. *)
Definition collect_fuel (available : list Attestation) : nat := S (length available).

Definition set_block_state_root (root : H256) (b : Block) : Block :=
  mk_block (b_slot b) (b_proposer_index b) (b_parent_root b) root (b_body b).

(** [build_block] *)
Definition build_block {S : Type} (head_state : State) (slot proposer_index : u64) (parent_root : H256)
    (available : list Attestation) (known_block_roots : gset H256) (aggregated_payloads : Payloads) :
    M S StoreError (Block * State * list AggregatedSignatureProof) :=
  included ← collect_loop (collect_fuel available) head_state slot proposer_index parent_root available
    known_block_roots aggregated_payloads [] ∅;
  '(aggregated_attestations, aggregated_signatures) ←
    lift_partial (select_aggregated_proofs included aggregated_payloads);
  attestations ← lift_partial (block_attestations aggregated_attestations);
  let final_block := candidate_block slot proposer_index parent_root attestations in
  post_state ← candidate_post_state head_state final_block;
  let final_block := set_block_state_root (tree_hash_root post_state) final_block in
  mret (final_block, post_state, aggregated_signatures).

End build.

Section produce.
Context `{ST : SszTypes} `{SB : StorageBackend D B} `{CO : Codecs} `{HS : Hashing} `{HO : HashOrder}.
Context `{MS : MultisigScheme}.

(** [produce_block_with_signatures] *)
Definition produce_block_with_signatures (slot validator_index : u64) :
    M (Store D) StoreError (Block * list AggregatedSignatureProof) :=
  head_root ← get_proposal_head slot;
  head_state ← reads (get_state head_root);
  head_state ← ok_or head_state (MissingParentState head_root slot);
  let num_validators := to_u64 (len (st_validators head_state)) in
  fail_if (negb (is_proposer validator_index slot num_validators)) (NotProposer validator_index slot);;
  known_payloads ← gets iter_known_aggregated_payloads;
  known_attestations ← reads (extract_latest_attestations (fst <$> (known_payloads : list _)));
  let available_attestations := (λ '(validator_id, data), mk_attestation validator_id data) <$>
    hash_iter known_attestations in
  known_block_roots ← reads get_block_roots;
  let aggregated_payloads : gmap SignatureKey (list AggregatedSignatureProof) :=
    list_to_map ((λ '(key, stored_payloads), (key, sap_proof <$> (stored_payloads : list _))) <$> known_payloads) in
  '(block, _, signatures) ← build_block head_state slot validator_index head_root available_attestations
    known_block_roots aggregated_payloads;
  mret (block, signatures).

End produce.
