(* ===== verification/ChainVotes.v ===== *)
(** Attestation targets and attestation data on the abstract store. *)

From S2P Require Import Prelude Types StateTransition Reference StateInvariant Transitions ForkChoice.
From S2P Require Import Backend Keys Signatures PayloadBuffer Store Crypto StoreSpec StoreOps StorePruning StoreMaintenance.
From S2P Require Import ChainInvariant ChainStore Bits ChainRefine ChainImport BlockBuilding.

(** [r'] is [r] or one of its processed ancestors. *)
Inductive reaches (a : View) : H256 → H256 → Prop :=
| reaches_refl r : reaches a r r
| reaches_parent r st r' : processed a r st → reaches a (bh_parent_root (header_of st)) r' → reaches a r r'.

Section votes.
Context `{STL : SszTypesLaws} `{SL : StorageLaws D B} `{CO : Codecs} {CL : CodecsLaws} `{HS : Hashing}.
Context `{HOL : HashOrderLaws} `{MS : MultisigScheme}.
Context (seen : BlockHeader → Prop) {HSeen : HeadersSeen seen} (anchor : N).
Context (s : Store D) (a : View) (Hr : represents s a) (Hc : chain_core seen anchor a).

Lemma expect_header_refines r st : processed a r st → expect_header r s = Return (header_of st).
Proof.
  intros Hp. unfold expect_header. rewrite (get_block_header_refines s a r Hr). cbn [mbind partial_bind].
  by rewrite (so_header _ _ _ _ (cc_states _ _ a Hc _ _ Hp)).
Qed.

(** One step of a walk: above the anchor the parent is processed, at a lower slot. *)
Lemma parent_step r st :
  processed a r st → anchor < header_slot st →
  ∃ parent, processed a (bh_parent_root (header_of st)) parent ∧ header_slot parent < header_slot st.
Proof.
  intros Hp Hgt. destruct (cc_parent _ _ a Hc r st Hp Hgt) as [parent Hpp]. exists parent.
  split; [done|]. by apply (parent_slot seen anchor a r st parent).
Qed.

Lemma reaches_slot r r' st st' :
  reaches a r r' → processed a r st → processed a r' st' → header_slot st' <= header_slot st.
Proof.
  intros Hreach. revert st. induction Hreach as [r|r st0 r' Hp0 Hreach IH]; intros st Hp Hp'.
  { unfold processed in *. assert (st' = st) as -> by congruence. lia. }
  unfold processed in Hp, Hp0. assert (st0 = st) as -> by congruence.
  inversion Hreach as [r1 Hr1|r1 st1 r1' Hp1 Hreach1 Hr1]; subst.
  - pose proof (parent_slot seen anchor a r st st' Hc Hp Hp'). lia.
  - specialize (IH _ Hp1 Hp'). pose proof (parent_slot seen anchor a r st st1 Hc Hp Hp1). lia.
Qed.

Lemma reaches_trans r1 r2 r3 : reaches a r1 r2 → reaches a r2 r3 → reaches a r1 r3.
Proof. induction 1 as [|r st r' Hp _ IH]; [done|]. intros Hr3. by eapply reaches_parent; [|apply IH]. Qed.

Lemma walk_to_safe_target_spec (safe_slot : u64) fuel : anchor <= safe_slot → ∀ r st,
  processed a r st →
  ∃ r' st', walk_to_safe_target fuel safe_slot s r (header_of st) = Return (r', header_of st') ∧
    processed a r' st' ∧ reaches a r r'.
Proof.
  intros Hsafe. induction fuel as [|fuel IH]; intros r st Hp; cbn [walk_to_safe_target].
  { exists r, st. split_and!; [done|done|constructor]. }
  destruct (N.ltb_spec safe_slot (bh_slot (header_of st))) as [Hlt|_].
  2:{ exists r, st. split_and!; [done|done|constructor]. }
  destruct (parent_step r st Hp) as (parent & Hpp & _); [unfold header_slot, header_of in *; lia|].
  rewrite (expect_header_refines _ _ Hpp). cbn [mbind partial_bind].
  destruct (IH _ _ Hpp) as (r' & st' & Hrun & Hp' & Hreach).
  exists r', st'. split_and!; [done|done|by eapply reaches_parent].
Qed.

Lemma walk_to_justifiable_spec (finalized : u64) fuel : anchor <= finalized → ∀ r st,
  processed a r st → header_slot st - finalized < N.of_nat fuel →
  ∃ r' st', walk_to_justifiable fuel finalized s r (header_of st) = Return (r', header_of st') ∧
    processed a r' st' ∧ reaches a r r' ∧
    (header_slot st' <= finalized ∨ slot_is_justifiable_after (header_slot st') finalized = true).
Proof.
  intros Hfin. induction fuel as [|fuel IH]; intros r st Hp Hfuel; [lia|]. cbn [walk_to_justifiable].
  change (bh_slot (header_of st)) with (header_slot st).
  destruct (N.ltb_spec finalized (header_slot st)) as [Hlt|Hge]; cbn [andb].
  2:{ exists r, st. split_and!; [done|done|constructor|by left]. }
  destruct (slot_is_justifiable_after (header_slot st) finalized) eqn:Hj; cbn [negb].
  { exists r, st. split_and!; [done|done|constructor|by right]. }
  destruct (parent_step r st Hp) as (parent & Hpp & Hslot); [lia|].
  rewrite (expect_header_refines _ _ Hpp). cbn [mbind partial_bind].
  destruct (IH _ _ Hpp) as (r' & st' & Hrun & Hp' & Hreach & Hend); [lia|].
  exists r', st'. split_and!; [done|done|by eapply reaches_parent|done].
Qed.

(** The target: the justified checkpoint, or a justifiable block of the head's chain at or
    above it. *)
Record target_ok (c : Checkpoint) : Prop := {
  tg_justified : cp_slot (vw_justified a) <= cp_slot c;
  tg_known : checkpoint_ok a c;
  tg_chain : c = vw_justified a ∨
    reaches a (vw_head a) (cp_root c) ∧ slot_is_justifiable_after (cp_slot c) (cp_slot (vw_finalized a)) = true;
}.

Lemma get_attestation_target_spec : ∃ c, get_attestation_target s = Return c ∧ target_ok c.
Proof.
  destruct (cc_head _ _ a Hc) as [sth Hsth], (cc_safe _ _ a Hc) as [sts Hsts].
  assert (Hanchor : anchor <= cp_slot (vw_finalized a)).
  { destruct (cc_finalized _ _ a Hc) as (stf & Hstf & <-). apply (cc_states _ _ a Hc _ _ Hstf). }
  unfold get_attestation_target. rewrite (store_head_refines s a Hr). cbn [mbind partial_bind].
  rewrite (expect_header_refines _ _ Hsth). cbn [mbind partial_bind].
  rewrite (safe_target_refines s a Hr). cbn [mbind partial_bind].
  rewrite (expect_header_refines _ _ Hsts). cbn [mbind partial_bind].
  destruct (walk_to_safe_target_spec (bh_slot (header_of sts)) JUSTIFICATION_LOOKBACK_SLOTS) with (2 := Hsth)
    as (r1 & st1 & -> & Hp1 & Hreach1); [apply (cc_states _ _ a Hc _ _ Hsts)|].
  cbn [mbind partial_bind]. rewrite (latest_finalized_refines s a Hr). cbn [mbind partial_bind].
  destruct (walk_to_justifiable_spec (cp_slot (vw_finalized a))
    (justifiable_fuel (cp_slot (vw_finalized a)) (header_of st1)) Hanchor r1 st1 Hp1)
    as (r2 & st2 & -> & Hp2 & Hreach2 & Hend); [unfold justifiable_fuel, header_slot, header_of; lia|].
  cbn [mbind partial_bind]. rewrite (latest_justified_refines s a Hr). cbn [mbind partial_bind].
  change (bh_slot (header_of st2)) with (header_slot st2).
  destruct (N.ltb_spec (header_slot st2) (cp_slot (vw_justified a))) as [Hlt|Hge].
  - exists (vw_justified a). split; [done|]. split; [lia|apply Hc|by left].
  - exists (mk_checkpoint r2 (header_slot st2)). split; [done|]. split; cbn; [done|by exists st2|right].
    split; [by eapply reaches_trans|]. destruct Hend as [Hle|]; [|done].
    pose proof (cc_checkpoints _ _ a Hc) as Hfj.
    assert (header_slot st2 = cp_slot (vw_finalized a)) as -> by (apply u64_eq; lia).
    apply slot_is_justifiable_after_self.
Qed.

(** The vote of the node for a slot. *)
Lemma produce_attestation_data_spec slot :
  chain_inv seen anchor a →
  ∃ d sth, produce_attestation_data slot s = Return d ∧ processed a (vw_head a) sth ∧
    ad_slot d = slot ∧ ad_head d = mk_checkpoint (vw_head a) (header_slot sth) ∧
    ad_source d = vw_justified a ∧ target_ok (ad_target d) ∧ cp_slot (ad_target d) <= header_slot sth.
Proof.
  intros Hi. destruct (cc_head _ _ a Hc) as [sth Hsth]. destruct get_attestation_target_spec as (c & Htarget & Hok).
  unfold produce_attestation_data. rewrite (store_head_refines s a Hr). cbn [mbind partial_bind].
  rewrite (expect_header_refines _ _ Hsth). cbn [mbind partial_bind]. rewrite Htarget. cbn [mbind partial_bind].
  rewrite (latest_justified_refines s a Hr). cbn [mbind partial_bind].
  eexists _, sth. split_and!; [done..| |]; cbn; [done|].
  pose proof Hok as [_ (st & Hst & <-) [->|[Hreach _]]].
  - destruct (cc_justified _ _ a Hc) as (stj & Hstj & Hslot). unfold processed in *.
    assert (stj = st) as -> by congruence. rewrite Hslot. by apply Hi.
  - by apply (reaches_slot (vw_head a) (cp_root c)).
Qed.

Lemma checkpoint_known c : checkpoint_ok a c → known_checkpoint a c.
Proof.
  intros (st & Hst & Hslot). exists (header_of st). split; [apply (cc_states _ _ a Hc _ _ Hst)|done].
Qed.

(** For a slot at most one ahead of the clock it is valid. *)
Lemma produced_vote_cases slot :
  chain_inv seen anchor a → u64_val slot <= vw_time a / 5 + 1 →
  ∃ d, produce_attestation_data slot s = Return d ∧ vote_valid a d ∧ ad_slot d = slot ∧
    cp_root (ad_head d) = vw_head a ∧ ad_source d = vw_justified a ∧ target_ok (ad_target d).
Proof.
  intros Hi Hslot. destruct (produce_attestation_data_spec slot Hi)
    as (d & sth & Hrun & Hsth & Hs & Hh & Hsrc & Htg & Hle).
  exists d. rewrite Hh, Hsrc. split_and!; try done. split; rewrite ?Hh, ?Hsrc, ?Hs; cbn; try done.
  - apply (checkpoint_known), Hc.
  - apply (checkpoint_known), Htg.
  - apply (checkpoint_known). by exists sth.
  - apply Htg.
Qed.

End votes.
