(* ===== verification/BuildSpec.v ===== *)
(** Block building: grouping attestations, selecting proofs and collecting attestations
    terminate and produce a block the transition function accepts. *)

From S2P Require Import Prelude Types StateTransition Reference StateInvariant BlockProcessing Transitions.
From S2P Require Import Keys Signatures PayloadBuffer Store Crypto ChainStore Bits BlockBuilding.

(** * Sums over lists *)

Lemma sum_list_with_perm {A} (f : A → nat) (l k : list A) : l ≡ₚ k → sum_list_with f l = sum_list_with f k.
Proof. induction 1; cbn; lia. Qed.

Lemma sum_list_with_fmap {A A'} (f : A' → nat) (g : A → A') (l : list A) :
  sum_list_with f (g <$> l) = sum_list_with (f ∘ g) l.
Proof. induction l as [|x l IH]; [done|]. cbn. by rewrite IH. Qed.

Lemma sum_list_with_const {A} (l : list A) : sum_list_with (λ _, 1%nat) l = length l.
Proof. induction l as [|x l IH]; [done|]. cbn. by rewrite IH. Qed.

Lemma sum_list_with_Forall2 {A A'} (f : A' → nat) (g : A → nat) (l : list A) (k : list A') :
  Forall2 (λ x y, f y <= g x)%nat l k → (sum_list_with f k <= sum_list_with g l)%nat.
Proof. induction 1; cbn; lia. Qed.

(** * Grouping by attestation data *)

Section group.
Context `{STL : SszTypesLaws} `{HS : Hashing} `{HOL : HashOrderLaws}.
Implicit Types (atts : list Attestation).

Abbreviation Groups := (gmap H256 (AttestationData * list u64)).

(** The validators that attest to data with the root [r]. *)
Definition attesters atts (r : H256) : list u64 :=
  att_validator_id <$> filter (λ att, tree_hash_root (att_data att) = r) atts.

Lemma group_attestation_eq (m : Groups) att :
  let r := tree_hash_root (att_data att) in
  let g := default (att_data att, []) (m !! r) in
  group_attestation m att = <[r := (g.1, g.2 ++ [att_validator_id att])]> m.
Proof. cbn zeta. unfold group_attestation. by destruct (default _ _). Qed.

Lemma attesters_snoc atts att r :
  attesters (atts ++ [att]) r =
    if decide (tree_hash_root (att_data att) = r) then attesters atts r ++ [att_validator_id att] else attesters atts r.
Proof.
  unfold attesters. rewrite filter_app, fmap_app, filter_cons, filter_nil.
  destruct (decide _); [done|]. by rewrite fmap_nil, app_nil_r.
Qed.

Lemma groups_spec atts r :
  match (foldl group_attestation ∅ atts : Groups) !! r with
  | Some (data, ids) => ids = attesters atts r ∧ tree_hash_root data = r ∧ ids ≠ [] ∧ ∃ att, att ∈ atts ∧ att_data att = data
  | None => attesters atts r = []
  end.
Proof.
  induction atts as [|att atts IH] using rev_ind; [done|].
  rewrite foldl_app, attesters_snoc. cbn [foldl]. rewrite group_attestation_eq. cbn zeta.
  destruct (decide (tree_hash_root (att_data att) = r)) as [Heq|Hne].
  - rewrite Heq, lookup_insert_eq. destruct ((foldl group_attestation ∅ atts : Groups) !! r) as [[data ids]|];
      cbn [default from_option id fst snd].
    + destruct IH as (-> & Hroot & _ & att' & Hin & Hd). split_and!; [done|done|by intros [_ ?]%app_nil|].
      exists att'. split; [apply elem_of_app; by left|done].
    + rewrite IH. split_and!; [done..|]. exists att. split; [apply elem_of_app; right; by apply list_elem_of_singleton|done].
  - rewrite lookup_insert_ne by done. destruct ((foldl group_attestation ∅ atts : Groups) !! r) as [[data ids]|]; [|done].
    destruct IH as (-> & Hroot & Hnil & att' & Hin & Hd). split_and!; [done..|]. exists att'.
    split; [apply elem_of_app; by left|done].
Qed.

(** Every attestation is in exactly one group. *)
Definition group_total (m : Groups) : nat := sum_list_with (λ kv : H256 * (AttestationData * list u64), length kv.2.2) (map_to_list m).

Lemma group_total_insert (m : Groups) r data ids v :
  (match m !! r with Some g => ids = g.2 | None => ids = [] end) →
  group_total (<[r := (data, ids ++ [v])]> m) = S (group_total m).
Proof.
  intros Hm. unfold group_total. destruct (m !! r) as [[d ids']|] eqn:Hr.
  - cbn in Hm. subst ids'. rewrite <- insert_delete_eq, map_to_list_insert by apply lookup_delete_eq.
    cbn. rewrite length_app. cbn [length].
    rewrite <- (map_to_list_delete m r (d, ids) Hr). cbn. lia.
  - subst ids. rewrite map_to_list_insert by done. done.
Qed.

Lemma groups_total atts : group_total (foldl group_attestation ∅ atts) = length atts.
Proof.
  induction atts as [|att atts IH] using rev_ind; [done|].
  rewrite foldl_app, length_app. cbn [foldl length]. rewrite group_attestation_eq. cbn zeta.
  set (m := foldl group_attestation ∅ atts) in *. rewrite group_total_insert; [lia|].
  by destruct (m !! tree_hash_root (att_data att)).
Qed.

(** An aggregated attestation of a list: data of the list with the bits of its attesters. *)
Record aggregate_ok atts (agg : AggregatedAttestation) : Prop := {
  ao_data : ∃ att, att ∈ atts ∧ att_data att = aa_data agg;
  ao_bits v : v ∈ validator_indices (aa_aggregation_bits agg) ↔ v ∈ attesters atts (tree_hash_root (aa_data agg));
}.

Definition indices_set (agg : AggregatedAttestation) : gset u64 := list_to_set (validator_indices (aa_aggregation_bits agg)).

Lemma list_to_set_size `{Countable K} (l : list K) : (size (list_to_set l : gset K) <= length l)%nat.
Proof.
  unfold size, set_size. cbn. apply submseteq_length, NoDup_submseteq; [apply NoDup_elements|].
  intros x. by rewrite elem_of_elements, elem_of_list_to_set.
Qed.

Definition small_ids atts : Prop := ∀ att, att ∈ atts → att_validator_id att < VALIDATOR_REGISTRY_LIMIT.

Lemma aggregate_by_data_spec atts :
  small_ids atts →
  ∃ aggs, aggregate_attestations_by_data atts = Return aggs ∧ Forall (aggregate_ok atts) aggs ∧
    (length aggs <= length atts)%nat ∧ (sum_list_with (size ∘ indices_set) aggs <= length atts)%nat ∧
    ∀ att, att ∈ atts → ∃ agg, agg ∈ aggs ∧ tree_hash_root (aa_data agg) = tree_hash_root (att_data att).
Proof.
  intros Hids. set (m := foldl group_attestation ∅ atts : Groups).
  destruct (map_partial_forall aggregate_attestation (λ g agg,
    aa_data agg = g.1 ∧ g.2 ≠ [] ∧ ∀ v, v ∈ validator_indices (aa_aggregation_bits agg) ↔ v ∈ g.2) (hash_iter m).*2)
    as (aggs & Hrun & Hall).
  { intros g ([r g'] & -> & Hin%elem_of_hash_iter)%list_elem_of_fmap. pose proof (groups_spec atts r) as Hg.
    fold m in Hg. rewrite Hin in Hg. destruct g' as [data ids], Hg as (-> & _ & Hne & _).
    destruct (capacity_bits_spec (attesters atts r) Hne) as (bits & Hb & Hlen & Hbits).
    { intros v (att & -> & [_ Hatt]%list_elem_of_filter)%list_elem_of_fmap. by apply Hids. }
    exists (mk_aggregated_attestation bits data). split; [|split_and!; [done..|]; intros v].
    { change ((r, (data, attesters atts r)).2) with (data, attesters atts r). unfold aggregate_attestation.
      destruct (expect_some _) as [bits0| |]; [|done..]. unfold mbind, partial_bind in Hb |- *. by rewrite Hb. }
    cbn [aa_aggregation_bits snd]. rewrite elem_of_validator_indices by (unfold VALIDATOR_REGISTRY_LIMIT in Hlen; lia). apply Hbits. }
  exists aggs. split; [exact Hrun|].
  assert (Htotal : sum_list_with (λ g : AttestationData * list u64, length g.2) (hash_iter m).*2 = length atts).
  { rewrite <- (groups_total atts). fold m. unfold group_total. rewrite sum_list_with_fmap.
    apply sum_list_with_perm, hash_iter_perm. }
  assert (Hlookup : ∀ g, g ∈ (hash_iter m).*2 → ∃ r, m !! r = Some g).
  { intros g ([r g'] & -> & Hin%elem_of_hash_iter)%list_elem_of_fmap. by exists r. }
  split_and!.
  - apply Forall_forall. intros agg [i Hi]%list_elem_of_lookup.
    destruct (Forall2_lookup_r _ _ _ _ _ Hall Hi) as (g & Hg & Hdata & _ & Hbits).
    destruct (Hlookup g) as [r Hr]; [by eapply list_elem_of_lookup_2|]. pose proof (groups_spec atts r) as Hs.
    fold m in Hs. rewrite Hr in Hs. destruct g as [data ids], Hs as (-> & Hroot & _ & att & Hin & Hd). cbn in *.
    split; [exists att; by rewrite Hdata|]. rewrite Hdata, Hroot. exact Hbits.
  - rewrite <- Htotal. rewrite <- (sum_list_with_const aggs).
    apply sum_list_with_Forall2. eapply Forall2_impl; [exact Hall|]. intros g agg (_ & Hne & _).
    destruct g.2; [done|cbn; lia].
  - rewrite <- Htotal. apply sum_list_with_Forall2. eapply Forall2_impl; [exact Hall|].
    intros g agg (_ & _ & Hbits). cbn. etrans; [|apply (list_to_set_size g.2)]. apply Nat.eq_le_incl. f_equal.
    apply set_eq. intros v. unfold indices_set. by rewrite !elem_of_list_to_set.
  - intros att Hatt. pose proof (groups_spec atts (tree_hash_root (att_data att))) as Hs. fold m in Hs.
    destruct (m !! tree_hash_root (att_data att)) as [[data ids]|] eqn:Hm.
    + destruct Hs as (_ & Hroot & _). assert (Hin : (data, ids) ∈ (hash_iter m).*2).
      { apply list_elem_of_fmap. exists (tree_hash_root (att_data att), (data, ids)). by rewrite elem_of_hash_iter. }
      apply list_elem_of_lookup in Hin as [i Hi]. destruct (Forall2_lookup_l _ _ _ _ _ Hall Hi) as (agg & Hagg & Hd & _).
      exists agg. split; [by eapply list_elem_of_lookup_2|]. by rewrite Hd.
    + exfalso. assert (Hin : att_validator_id att ∈ attesters atts (tree_hash_root (att_data att))).
      { apply list_elem_of_fmap. exists att. split; [done|]. by apply list_elem_of_filter. }
      rewrite Hs in Hin. by apply not_elem_of_nil in Hin.
Qed.

End group.

(** * Selecting proofs *)

Section select.
Context `{STL : SszTypesLaws} `{HS : Hashing} `{HOL : HashOrderLaws}.
Context (payloads : gmap SignatureKey (list AggregatedSignatureProof)).

Lemma elem_of_covered_by (remaining : gset u64) p v :
  v ∈ covered_by remaining p ↔ v ∈ remaining ∧ v ∈ validator_indices (pf_participants p).
Proof. unfold covered_by. by rewrite list_elem_of_filter. Qed.

(** The chosen candidate covers the most. *)
Lemma best_proof_spec (remaining : gset u64) candidates :
  candidates ≠ [] →
  ∃ p, best_proof remaining candidates = Some (p, covered_by remaining p) ∧ p ∈ candidates ∧
    ∀ p', p' ∈ candidates → (length (covered_by remaining p') <= length (covered_by remaining p))%nat.
Proof.
  unfold best_proof. induction candidates as [|q l IH] using rev_ind; [done|]. intros _.
  rewrite foldl_app. cbn [foldl]. destruct l as [|q0 l].
  { exists q. split_and!; [done|by apply list_elem_of_singleton|]. by intros p' ->%list_elem_of_singleton. }
  destruct IH as (p & -> & Hp & Hmax); [done|]. cbn beta iota zeta.
  destruct (Nat.leb_spec (length (covered_by remaining p)) (length (covered_by remaining q))) as [Hle|Hgt].
  - exists q. split_and!; [done|set_solver|]. intros p' [Hp'| ->%list_elem_of_singleton]%elem_of_app; [|done].
    specialize (Hmax p' Hp'). lia.
  - exists p. split_and!; [done|set_solver|]. intros p' [Hp'| ->%list_elem_of_singleton]%elem_of_app; [by apply Hmax|lia].
Qed.

(** A selected pair: the attestation carries the participants of its proof, which is a
    stored proof for that data. *)
Record pair_ok (data : AttestationData) (e : AggregatedAttestation * AggregatedSignatureProof) : Prop := {
  pk_bits : aa_aggregation_bits e.1 = pf_participants e.2;
  pk_data : aa_data e.1 = data;
  pk_stored : ∃ v proofs, payloads !! (v, tree_hash_root data) = Some proofs ∧ e.2 ∈ proofs;
}.

(** Every validator of the set has a stored proof that covers it. *)
Definition all_covered (data : AttestationData) (remaining : gset u64) : Prop :=
  ∀ v, v ∈ remaining → ∃ proofs p, payloads !! (v, tree_hash_root data) = Some proofs ∧ p ∈ proofs ∧
    v ∈ validator_indices (pf_participants p).

Lemma select_proofs_spec data fuel : ∀ remaining : gset u64,
  (size remaining < fuel)%nat →
  ∃ res, select_proofs fuel payloads data remaining = Return res ∧ (length res <= size remaining)%nat ∧
    Forall (pair_ok data) res ∧
    (all_covered data remaining → ∀ v, v ∈ remaining → ∃ e, e ∈ res ∧ v ∈ validator_indices (pf_participants e.2)).
Proof.
  induction fuel as [|fuel IH]; intros remaining Hfuel; [lia|]. cbn [select_proofs].
  destruct (hash_elems remaining) as [|target rest] eqn:Helems.
  { exists []. split_and!; [done|cbn; lia|done|]. intros _ v Hv%elem_of_hash_elems. rewrite Helems in Hv.
    by apply not_elem_of_nil in Hv. }
  assert (Htarget : target ∈ remaining) by (apply elem_of_hash_elems; rewrite Helems; by left).
  assert (Hstop : ∃ res, Return [] = Return res ∧ (length res <= size remaining)%nat ∧ Forall (pair_ok data) res)
    by (exists []; split_and!; [done|cbn; lia|done]).
  destruct (payloads !! (target, tree_hash_root data)) as [[|q l]|] eqn:Hpay.
  { destruct Hstop as (res & Hres & ? & ?). exists res. split_and!; [done..|]. intros Hall.
    destruct (Hall target Htarget) as (proofs & p & Hproofs & Hp & _). rewrite Hpay in Hproofs. injection Hproofs as <-.
    by apply not_elem_of_nil in Hp. }
  2:{ destruct Hstop as (res & Hres & ? & ?). exists res. split_and!; [done..|]. intros Hall.
    destruct (Hall target Htarget) as (proofs & p & Hproofs & _). congruence. }
  destruct (best_proof_spec remaining (q :: l)) as (p & -> & Hp & Hmax); [done|]. cbn [expect_some mbind partial_bind].
  destruct (covered_by remaining p) as [|v0 covered] eqn:Hcov.
  { destruct Hstop as (res & Hres & ? & ?). exists res. split_and!; [done..|]. intros Hall.
    destruct (Hall target Htarget) as (proofs & p' & Hproofs & Hp' & Hv). rewrite Hpay in Hproofs. injection Hproofs as <-.
    specialize (Hmax p' Hp'). assert (Hin : target ∈ covered_by remaining p') by (by apply elem_of_covered_by).
    destruct (covered_by remaining p'); [by apply not_elem_of_nil in Hin|cbn in Hmax; lia]. }
  rewrite <- Hcov. set (remaining' := remaining ∖ list_to_set (covered_by remaining p)).
  assert (Hv0 : v0 ∈ covered_by remaining p) by (rewrite Hcov; by left).
  assert (Hsize : (size remaining' < size remaining)%nat).
  { apply subset_size. unfold remaining'. apply elem_of_covered_by in Hv0 as Hv0'. split; [set_solver|].
    intros Hsub. assert (v0 ∉ remaining ∖ list_to_set (covered_by remaining p)) by set_solver. set_solver. }
  destruct (IH remaining') as (res & -> & Hlen & Hok & Hcomplete); [lia|]. cbn [mbind partial_bind].
  eexists. split; [done|]. split_and!; [cbn; lia| |].
  - constructor; [|done]. split; cbn; [done..|]. exists target, (q :: l). done.
  - intros Hall v Hv. destruct (decide (v ∈ covered_by remaining p)) as [Hc|Hc].
    + eexists. split; [by left|]. cbn. by apply elem_of_covered_by in Hc as [_ ?].
    + destruct (Hcomplete ltac:(intros w Hw; apply Hall; set_solver) v) as (e & He & Hin);
        [unfold remaining'; rewrite elem_of_difference, elem_of_list_to_set; done|].
      exists e. split; [by right|done].
Qed.

End select.

Section select_all.
Context `{STL : SszTypesLaws} `{HS : Hashing} `{HOL : HashOrderLaws}.
Context (payloads : gmap SignatureKey (list AggregatedSignatureProof)).
Implicit Types (atts : list Attestation).

Lemma sum_list_with_length {A A'} (f : A → nat) (l : list A) (ls : list (list A')) :
  Forall2 (λ x r, length r <= f x)%nat l ls → (length (concat ls) <= sum_list_with f l)%nat.
Proof. induction 1; cbn; [lia|]. rewrite length_app. lia. Qed.

Lemma elem_of_concat {A} (ls : list (list A)) x : x ∈ concat ls ↔ ∃ l, l ∈ ls ∧ x ∈ l.
Proof. rewrite list_elem_of_In, in_concat. setoid_rewrite list_elem_of_In. done. Qed.

(** The attester of [att] has a stored proof that covers it. *)
Definition proof_stored (att : Attestation) : Prop :=
  ∃ proofs p, payloads !! signature_key att = Some proofs ∧ p ∈ proofs ∧
    att_validator_id att ∈ validator_indices (pf_participants p).

(** The payloads of every key have a proof that covers its validator. *)
Definition proofs_cover : Prop := ∀ v root proofs, payloads !! (v, root) = Some proofs →
  ∃ p, p ∈ proofs ∧ v ∈ validator_indices (pf_participants p).

Lemma proofs_cover_stored att : proofs_cover → is_Some (payloads !! signature_key att) → proof_stored att.
Proof. intros Hcover [proofs Hp]. destruct (Hcover _ _ _ Hp) as (p & Hin & Hv). by exists proofs, p. Qed.

Lemma select_aggregated_proofs_spec atts :
  small_ids atts →
  ∃ res, select_aggregated_proofs atts payloads = Return (res.*1, res.*2) ∧ (length res <= length atts)%nat ∧
    Forall (λ e, pair_ok payloads (aa_data e.1) e ∧ ∃ att, att ∈ atts ∧ att_data att = aa_data e.1) res ∧
    ((∀ att, att ∈ atts → proof_stored att) → ∀ att, att ∈ atts →
       ∃ e, e ∈ res ∧ tree_hash_root (aa_data e.1) = tree_hash_root (att_data att) ∧
         att_validator_id att ∈ validator_indices (pf_participants e.2)).
Proof.
  intros Hids. destruct (aggregate_by_data_spec atts Hids) as (aggs & Hrun & Hok & _ & Hsum & Hall).
  rewrite Forall_forall in Hok.
  destruct (map_partial_forall (select_for payloads) (λ agg res, (length res <= (size ∘ indices_set) agg)%nat ∧ Forall (pair_ok payloads (aa_data agg)) res ∧
      (all_covered payloads (aa_data agg) (indices_set agg) → ∀ v, v ∈ indices_set agg →
         ∃ e, e ∈ res ∧ v ∈ validator_indices (pf_participants e.2))) aggs) as (results & Hmap & Hres).
  { intros agg _. apply (select_proofs_spec payloads (aa_data agg) (select_fuel (indices_set agg)) (indices_set agg)).
    unfold select_fuel. lia. }
  exists (concat results). unfold select_aggregated_proofs. rewrite Hrun. cbn [mbind partial_bind]. rewrite Hmap.
  split_and!; [done| | |].
  - etrans; [|exact Hsum]. apply sum_list_with_length. eapply Forall2_impl; [exact Hres|]. by intros ? ? [].
  - apply Forall_forall. intros e (res & Hin & Hine)%elem_of_concat.
    apply list_elem_of_lookup in Hin as [i Hi]. destruct (Forall2_lookup_r _ _ _ _ _ Hres Hi) as (agg & Hagg & _ & Hpairs & _).
    rewrite Forall_forall in Hpairs. pose proof (Hpairs e Hine) as Hpair. rewrite (pk_data _ _ _ Hpair).
    split; [done|]. apply list_elem_of_lookup_2 in Hagg. apply (ao_data _ _ (Hok _ Hagg)).
  - intros Hstored att Hatt. destruct (Hall att Hatt) as (agg & Hagg & Hroot).
    apply list_elem_of_lookup in Hagg as [i Hi]. destruct (Forall2_lookup_l _ _ _ _ _ Hres Hi) as (res & Hr & _ & Hpairs & Hcov).
    apply list_elem_of_lookup_2 in Hi, Hr.
    assert (Hmem : ∀ v, v ∈ indices_set agg ↔ v ∈ attesters atts (tree_hash_root (aa_data agg))).
    { intros v. unfold indices_set. rewrite elem_of_list_to_set. apply (ao_bits _ _ (Hok _ Hi)). }
    destruct (Hcov) with (v := att_validator_id att) as (e & He & Hv).
    + intros v Hv%Hmem. apply list_elem_of_fmap in Hv as (att' & -> & [Heq Hatt']%list_elem_of_filter).
      destruct (Hstored att' Hatt') as (proofs & p & Hp & ? & ?). exists proofs, p. by rewrite <- Heq.
    + apply Hmem, list_elem_of_fmap. exists att. split; [done|]. by apply list_elem_of_filter.
    + exists e. rewrite Forall_forall in Hpairs. rewrite (pk_data _ _ _ (Hpairs e He)). split_and!; [|done|done].
      apply elem_of_concat. by exists res.
Qed.

End select_all.

(** * Collecting attestations *)

Section collect.
Context `{STL : SszTypesLaws} `{HS : Hashing} `{HOL : HashOrderLaws} `{MS : MultisigScheme}.
Context (available : list Attestation) (roots : gset H256)
  (payloads : gmap SignatureKey (list AggregatedSignatureProof)).

(** What an attestation needs to be included next. *)
Record eligible (justified : Checkpoint) (att : Attestation) : Prop := {
  el_head : cp_root (ad_head (att_data att)) ∈ roots;
  el_source : ad_source (att_data att) = justified;
  el_proof : is_Some (payloads !! signature_key att);
}.

Lemma collect_new_spec justified keys new keys' :
  collect_new justified available roots payloads keys = (new, keys') →
  keys' = list_to_set (signature_key <$> new) ∪ keys ∧ NoDup (signature_key <$> new) ∧
  (∀ att, att ∈ new → att ∈ available ∧ eligible justified att ∧ signature_key att ∉ keys) ∧
  (∀ att, att ∈ available → eligible justified att → signature_key att ∈ keys').
Proof.
  unfold collect_new. revert new keys'. induction available as [|att l IH] using rev_ind; intros new keys' Hrun.
  { injection Hrun as <- <-. split_and!; [set_solver|constructor|by intros ? ?%not_elem_of_nil..]. }
  rewrite foldl_app in Hrun. cbn [foldl] in Hrun.
  destruct (foldl _ ([], keys) l) as [new0 keys0] eqn:Hl. destruct (IH new0 keys0 eq_refl) as (Hk & Hnd & Hin & Hall).
  assert (Hskip : (¬ eligible justified att ∨ signature_key att ∈ keys0) → (new0, keys0) = (new, keys') →
    keys' = list_to_set (signature_key <$> new) ∪ keys ∧ NoDup (signature_key <$> new) ∧
    (∀ x, x ∈ new → x ∈ l ++ [att] ∧ eligible justified x ∧ signature_key x ∉ keys) ∧
    (∀ x, x ∈ l ++ [att] → eligible justified x → signature_key x ∈ keys')).
  { intros Hno [= <- <-]. split_and!; [done|done| |].
    - intros x Hx. destruct (Hin x Hx) as (? & ? & ?). split_and!; [apply elem_of_app; by left|done..].
    - intros x [Hx|Hx]%elem_of_app He; [by apply Hall|]. apply list_elem_of_singleton in Hx as ->. by destruct Hno. }
  case_bool_decide as Hhead; cbn [negb] in Hrun; [|apply Hskip; [left; by intros []|done]].
  case_bool_decide as Hsrc; cbn [negb] in Hrun; [|apply Hskip; [left; by intros []|done]].
  case_bool_decide as Hkey; [apply Hskip; [by right|done]|].
  case_bool_decide as Hpay; [|apply Hskip; [left; by intros []|done]]. clear Hskip. injection Hrun as <- <-.
  rewrite fmap_app. cbn [fmap list_fmap]. split_and!.
  - rewrite Hk, list_to_set_app_L. clear. set_solver.
  - apply NoDup_app. split_and!; [done| |apply NoDup_singleton]. intros k Hk0 ->%list_elem_of_singleton.
    apply Hkey. rewrite Hk. apply elem_of_union. left. by apply elem_of_list_to_set.
  - intros x [Hx|Hx]%elem_of_app.
    + destruct (Hin x Hx) as (? & ? & ?). split_and!; [apply elem_of_app; by left|done..].
    + apply list_elem_of_singleton in Hx as ->. split_and!; [apply elem_of_app; right; by apply list_elem_of_singleton|by split|].
      intros Hc. apply Hkey. rewrite Hk. apply elem_of_union. by right.
  - intros x [Hx|Hx]%elem_of_app He; apply elem_of_union; [right; by apply Hall|left].
    apply list_elem_of_singleton in Hx as ->. by apply elem_of_singleton.
Qed.

Context (head_state : State) (slot proposer_index : u64) (parent_root : H256).
Context (Hwf : state_wf head_state).

Lemma candidate_accepted block :
  block_fits head_state block →
  ∃ post, process_block block (at_slot (b_slot block) head_state) = Done post tt ∧ state_wf post ∧
    ∀ (S : Type) (s : S), candidate_post_state head_state block s = Done s post.
Proof.
  intros Hfits. destruct (state_transition_cases head_state block Hwf) as [(? & ? & _ & [])|(post & Hpb & _ & Hpost & _)]; [done|].
  exists post. split_and!; [done|apply Hpost|]. intros S s. unfold candidate_post_state.
  rewrite run_bind. unfold on_local at 1. rewrite run_process_slots.
  rewrite (proj2 (N.leb_gt _ _)) by apply Hfits. rewrite run_bind. unfold on_local. by rewrite Hpb.
Qed.

Lemma candidate_rejected block :
  ¬ block_fits head_state block → ∃ e, ∀ (S : Type) (s : S), candidate_post_state head_state block s = Fail s e.
Proof.
  intros Hno. destruct (N.leb_spec (b_slot block) (st_slot head_state)) as [Hle|Hlt].
  { eexists. intros S s. unfold candidate_post_state. rewrite run_bind. unfold on_local at 1.
    by rewrite run_process_slots, (proj2 (N.leb_le _ _)). }
  pose proof (at_slot_wf (b_slot block) head_state Hwf Hlt) as Hwf1.
  destruct (process_block_header_cases (at_slot (b_slot block) head_state) block)
    as [(s' & e & Hrun & _)|(s' & _ & Hacc & _)]; [apply Hwf1| |].
  - exists (StateTransitionFailed e). intros S s. unfold candidate_post_state. rewrite run_bind. unfold on_local at 1.
    rewrite run_process_slots, (proj2 (N.leb_gt _ _)) by done. rewrite run_bind. unfold on_local, process_block.
    by rewrite run_bind, Hrun.
  - destruct Hno. by apply at_slot_accepted; [apply Hwf| |].
Qed.

(** The attestations collected so far: distinct, available, with a stored proof. *)
Record included_ok (included : list Attestation) : Prop := {
  io_distinct : NoDup (signature_key <$> included);
  io_available att : att ∈ included → att ∈ available ∧ cp_root (ad_head (att_data att)) ∈ roots ∧
    is_Some (payloads !! signature_key att);
}.

(** The validators that attest are distinct and registered. *)
Context (Hdistinct : NoDup (att_validator_id <$> available)) (Hsmall : small_ids available).

Lemma included_length included : included_ok included → (length included <= length available)%nat.
Proof.
  intros [Hnd Hin]. apply submseteq_length, NoDup_submseteq; [by eapply NoDup_fmap_1|].
  intros att Hatt. by apply Hin.
Qed.

Lemma available_length : len available <= VALIDATOR_REGISTRY_LIMIT.
Proof.
  unfold len. rewrite <- (length_fmap att_validator_id available).
  assert (Hsub : att_validator_id <$> available ⊆+ u64_range 0 VALIDATOR_REGISTRY_LIMIT).
  { apply NoDup_submseteq; [done|]. intros v (att & -> & Hatt)%list_elem_of_fmap.
    apply elem_of_u64_range; [done|]. specialize (Hsmall att Hatt). lia. }
  apply submseteq_length in Hsub. unfold u64_range in Hsub. rewrite (length_fmap _ (seq _ _)), length_seq in Hsub.
  unfold VALIDATOR_REGISTRY_LIMIT in *. lia.
Qed.

Lemma included_small included : included_ok included → small_ids included.
Proof. intros Hok att Hatt. by apply Hsmall, (io_available _ Hok). Qed.

Lemma block_attestations_fit included (aggs : list AggregatedAttestation) :
  included_ok included → (length aggs <= length included)%nat → block_attestations aggs = Return aggs.
Proof.
  intros Hok Hlen. unfold block_attestations. rewrite variable_list_new_spec, (proj2 (N.leb_le _ _)); [done|].
  pose proof (included_length _ Hok). pose proof available_length. unfold len in *. lia.
Qed.

Definition candidate (aggs : list AggregatedAttestation) : Block :=
  candidate_block slot proposer_index parent_root aggs.

(** The collection is complete: nothing that the last candidate's post-state would admit is
    left out. *)
Definition fixed_point (included : list Attestation) : Prop :=
  ∃ aggs post, aggregate_attestations_by_data included = Return aggs ∧
    process_block (candidate aggs) (at_slot slot head_state) = Done post tt ∧
    (roots ≠ ∅ → ∀ att, att ∈ available → eligible (st_latest_justified post) att →
       signature_key att ∈ signature_key <$> included).

(** All candidates share the header, so they all fit or all fail. *)
Lemma candidate_fits aggs aggs' : block_fits head_state (candidate aggs) → block_fits head_state (candidate aggs').
Proof. intros []; by split. Qed.

Lemma included_step included new justified keys :
  included_ok included → keys = list_to_set (signature_key <$> included) →
  NoDup (signature_key <$> new) →
  (∀ att, att ∈ new → att ∈ available ∧ eligible justified att ∧ signature_key att ∉ (keys : gset SignatureKey)) →
  included_ok (included ++ new).
Proof.
  intros [Hnd Hin] -> Hnew Hall. split.
  - rewrite fmap_app. apply NoDup_app. split_and!; [done| |done].
    intros k Hk (att & -> & Hatt)%list_elem_of_fmap. destruct (Hall att Hatt) as (_ & _ & Hno).
    by apply Hno, elem_of_list_to_set.
  - intros att [Hatt|Hatt]%elem_of_app; [by apply Hin|]. destruct (Hall att Hatt) as (? & [] & _). done.
Qed.

Lemma collect_loop_spec {S : Type} (s : S) fuel : ∀ included (keys : gset SignatureKey),
  block_fits head_state (candidate []) → included_ok included →
  keys = list_to_set (signature_key <$> included) → (length available < fuel + length included)%nat →
  ∃ included', collect_loop fuel head_state slot proposer_index parent_root available roots payloads included keys s =
      Done s included' ∧ included_ok included' ∧ fixed_point included'.
Proof.
  induction fuel as [|fuel IH]; intros included keys Hfits Hok Hkeys Hfuel.
  { pose proof (included_length _ Hok). lia. }
  cbn [collect_loop]. destruct (aggregate_by_data_spec included (included_small _ Hok)) as (aggs & Hagg & _ & Hlen & _).
  rewrite run_bind, run_lift_partial, Hagg, run_bind, run_lift_partial.
  rewrite (block_attestations_fit included aggs Hok Hlen).
  destruct (candidate_accepted (candidate aggs)) as (post & Hpb & _ & Hpost); [by eapply candidate_fits|].
  rewrite run_bind. fold (candidate aggs). rewrite Hpost.
  destruct (bool_decide (available = [])) eqn:Hav; cbn [orb].
  { apply bool_decide_eq_true in Hav. exists included. split_and!; [done|done|]. exists aggs, post. split_and!; [done..|].
    intros _ att Hatt. rewrite Hav in Hatt. by apply not_elem_of_nil in Hatt. }
  destruct (bool_decide (roots = ∅)) eqn:Hro.
  { apply bool_decide_eq_true in Hro. exists included. split_and!; [done|done|]. by exists aggs, post. }
  destruct (collect_new _ _ _ _ _) as [new keys'] eqn:Hnew.
  destruct (collect_new_spec _ _ _ _ Hnew) as (Hkeys' & Hnd & Hin & Hall).
  destruct new as [|att new].
  - exists included. split_and!; [done|done|]. exists aggs, post. split_and!; [done..|]. intros _ att Hatt Hel.
    specialize (Hall att Hatt Hel). rewrite Hkeys', Hkeys in Hall. set_solver.
  - apply IH; [done| | |].
    + by apply (included_step included (att :: new) (st_latest_justified post) keys).
    + rewrite Hkeys', Hkeys, fmap_app, list_to_set_app_L. apply (comm_L (∪)).
    + rewrite length_app. cbn [length]. lia.
Qed.

(** [build_block] on a head state the candidates fit. *)
Lemma build_block_done {S : Type} (s : S) :
  block_fits head_state (candidate []) →
  ∃ included res block post,
    build_block head_state slot proposer_index parent_root available roots payloads s =
      Done s (block, post, res.*2) ∧
    included_ok included ∧ fixed_point included ∧
    select_aggregated_proofs included payloads = Return (res.*1, res.*2) ∧ len res <= VALIDATOR_REGISTRY_LIMIT ∧
    block = set_block_state_root (tree_hash_root post) (candidate res.*1) ∧
    state_transition block head_state = Done post tt.
Proof.
  intros Hfits. unfold build_block.
  destruct (collect_loop_spec s (collect_fuel available) [] ∅ Hfits) as (included & Hloop & Hok & Hfix);
    [by split; [constructor|intros ? ?%not_elem_of_nil]|done|unfold collect_fuel; cbn; lia|].
  rewrite run_bind, Hloop. destruct (select_aggregated_proofs_spec payloads included (included_small _ Hok))
    as (res & Hsel & Hlen & _). rewrite run_bind, run_lift_partial, Hsel, run_bind, run_lift_partial.
  rewrite (block_attestations_fit included res.*1 Hok) by (by rewrite length_fmap).
  pose proof (candidate_fits [] res.*1 Hfits) as Hfits'.
  destruct (candidate_accepted (candidate res.*1) Hfits') as (post & Hpb & _ & Hpost).
  rewrite run_bind. fold (candidate res.*1). rewrite Hpost.
  exists included, res, (set_block_state_root (tree_hash_root post) (candidate res.*1)), post.
  split_and!; [done..| | |].
  - pose proof (included_length _ Hok). pose proof available_length. unfold len in *. lia.
  - done.
  - set (block := set_block_state_root _ _).
    assert (Hfitsb : block_fits head_state block) by (destruct Hfits'; by split).
    destruct (state_transition_cases head_state block Hwf) as [(? & ? & _ & [])|(post' & Hpb' & _ & _ & ->)]; [done|].
    assert (Hsame : process_block block (at_slot (b_slot block) head_state) =
      process_block (candidate res.*1) (at_slot (b_slot (candidate res.*1)) head_state)) by done.
    rewrite Hsame, Hpb in Hpb'. injection Hpb' as <-. by rewrite bool_decide_eq_true_2.
Qed.

(** ... and otherwise it returns the transition's error. *)
Lemma build_block_rejected {S : Type} (s : S) :
  ¬ block_fits head_state (candidate []) →
  ∃ e, build_block head_state slot proposer_index parent_root available roots payloads s = Fail s e.
Proof.
  intros Hno. destruct (candidate_rejected (candidate []) Hno) as [e He]. exists e.
  unfold build_block, collect_fuel. rewrite run_bind. cbn [collect_loop].
  assert (Hnil : aggregate_attestations_by_data [] = Return []).
  { destruct (aggregate_by_data_spec []) as (aggs & -> & _ & Hlen & _); [by intros ? ?%not_elem_of_nil|].
    by destruct aggs; [|cbn in Hlen; lia]. }
  rewrite run_bind, run_lift_partial, Hnil, run_bind, run_lift_partial.
  unfold block_attestations. rewrite variable_list_new_spec. cbn [len length]. rewrite (proj2 (N.leb_le _ _)) by done.
  cbn [expect_some]. rewrite run_bind. fold (candidate []). by rewrite He.
Qed.

End collect.
