(* ===== verification/ChainProduce.v ===== *)
(** Producing a block: the built block is accepted by the transition function, its
    attestations come from the store, and the clock and the head are brought up to date
    before. *)

From S2P Require Import Prelude Types StateTransition Reference StateInvariant Justifiability BlockProcessing Transitions ForkChoice.
From S2P Require Import Backend InMemory Keys Signatures PayloadBuffer Store Crypto StoreSpec StoreOps StorePruning StoreMaintenance Codec.
From S2P Require Import ChainInvariant ChainStore Bits ChainRefine ChainClock ChainImport ChainBlocks BlockBuilding ChainVotes BuildSpec.

Section produce.
Context `{STL : SszTypesLaws} `{SL : StorageLaws D B} `{CO : Codecs} {CL : CodecsLaws} `{HS : Hashing} {HL : HashingLaws}.
Context `{HOL : HashOrderLaws} `{MS : MultisigScheme}.
Context (seen : BlockHeader → Prop) {HSeen : HeadersSeen seen} (anchor : N).
Implicit Types (s : Store D) (a : View).

#[local] Instance block_fits_dec st block : Decision (block_fits st block).
Proof.
  destruct (decide (st_slot st < b_slot block ∧ u64_val (b_proposer_index block) = b_slot block mod len (st_validators st) ∧
    b_parent_root block = tree_hash_root (completed_header st) ∧ b_slot block <= HISTORICAL_ROOTS_LIMIT)) as [Hd|Hd];
    [left|right].
  - destruct Hd as (? & ? & ? & ?). by split.
  - intros []. by apply Hd.
Qed.

Lemma build_block_cases {S : Type} (s : S) head_state slot proposer_index parent_root available roots payloads :
  state_wf head_state → NoDup (att_validator_id <$> available) → small_ids available →
  (block_fits head_state (candidate_block slot proposer_index parent_root []) ∧
   ∃ included block post proofs,
     build_block head_state slot proposer_index parent_root available roots payloads s = Done s (block, post, proofs) ∧
     state_transition block head_state = Done post tt ∧
     b_slot block = slot ∧ b_proposer_index block = proposer_index ∧ b_parent_root block = parent_root ∧
     Forall2 (λ att proof, pair_ok payloads (aa_data att) (att, proof)) (bb_attestations (b_body block)) proofs ∧
     len proofs <= VALIDATOR_REGISTRY_LIMIT ∧
     (∀ agg, agg ∈ bb_attestations (b_body block) → ∃ att, att ∈ available ∧ att_data att = aa_data agg) ∧
     included_ok available roots payloads included ∧
     fixed_point available roots payloads head_state slot proposer_index parent_root included ∧
     (proofs_cover payloads → ∀ att, att ∈ included →
        ∃ agg, agg ∈ bb_attestations (b_body block) ∧ tree_hash_root (aa_data agg) = tree_hash_root (att_data att) ∧
          att_validator_id att ∈ validator_indices (aa_aggregation_bits agg))) ∨
  (¬ block_fits head_state (candidate_block slot proposer_index parent_root []) ∧
   ∃ e, build_block head_state slot proposer_index parent_root available roots payloads s = Fail s e).
Proof.
  intros Hwf Hnd Hsmall.
  destruct (decide (block_fits head_state (candidate_block slot proposer_index parent_root []))) as [Hfits|Hno]; [left|right].
  2:{ split; [done|]. by apply build_block_rejected. }
  split; [done|].
  destruct (build_block_done available roots payloads head_state slot proposer_index parent_root Hwf Hnd Hsmall s Hfits)
    as (included & res & block & post & Hrun & Hok & Hfix & Hsel & Hlen & -> & Hst).
  exists included, (set_block_state_root (tree_hash_root post) (candidate slot proposer_index parent_root res.*1)), post, res.*2.
  destruct (select_aggregated_proofs_spec payloads included) as (res' & Hsel' & _ & Hpairs & Hcovered);
    [by eapply included_small|].
  assert (res' = res) as ->.
  { rewrite Hsel in Hsel'. injection Hsel' as H1' H2'. clear -H1' H2'. revert res' H1' H2'.
    induction res as [|[x y] res IH]; intros [|[x' y'] res'] H1 H2; [done..|]. cbn in H1, H2. simplify_eq. f_equal. by apply IH. }
  rewrite Forall_forall in Hpairs. split_and!; try done.
  - apply Forall2_fmap, Forall_Forall2_diag, Forall_forall. intros [att proof] Hin. by apply (Hpairs _ Hin).
  - unfold len in *. by rewrite length_fmap.
  - intros agg ([att proof] & -> & Hin)%list_elem_of_fmap. destruct (Hpairs _ Hin) as (_ & att' & Hatt & Hdata).
    exists att'. split; [by apply (io_available _ _ _ _ Hok)|done].
  - intros Hcover att Hatt. destruct (Hcovered (λ att Hatt, proofs_cover_stored payloads att Hcover
      (proj2 (proj2 (io_available _ _ _ _ Hok att Hatt)))) att Hatt) as ([agg proof] & Hin & Hroot & Hbit).
    exists agg. split; [apply list_elem_of_fmap; by exists (agg, proof)|]. split; [done|].
    destruct (Hpairs _ Hin) as [[Hbits _ _] _]. cbn in Hbits. by rewrite Hbits.
Qed.

(** The proposal head: the clock advanced to the slot and the pending attestations accepted. *)
Lemma proposal_head_ensures {E} s a slot :
  represents s a → chain_inv seen anchor a →
  ensures (get_proposal_head slot : M (Store D) E H256) s (λ root a',
    root = vw_head a' ∧ chain_inv seen anchor a' ∧ same_chain_view a a' ∧ vw_time a <= vw_time a').
Proof.
  intros Hr Hi. unfold get_proposal_head. eapply ensures_reads; [by apply store_config_refines|]. cbn zeta.
  eapply ensures_bind; [by apply (on_tick_ensures seen anchor s a)|]. intros s1 ? a1 Hr1 (Hi1 & Hs1 & Ht1).
  eapply ensures_bind; [by apply (accept_new_ensures seen anchor s1 a1 false Hr1 Hi1)|].
  intros s2 ? a2 Hr2 (Hi2 & Hs2 & Ht2 & _). exists s2, (vw_head a2), a2.
  split_and!; [by rewrite run_reads, (store_head_refines s2 a2 Hr2)|done..|by etrans|]. rewrite Ht2, Ht1. lia.
Qed.

(** The attestations a proposer may include: one per validator, of registered validators. *)
Lemma known_attestations_ok a m :
  chain_core seen anchor a → latest_of (vw_data a) (hash_iter (grouped (vw_known a))).*1 m →
  let available := (λ '(validator_id, data), mk_attestation validator_id data) <$> hash_iter m in
  NoDup (att_validator_id <$> available) ∧ small_ids available ∧
    ∀ att, att ∈ available → ∃ r, vw_data a !! r = Some (att_data att).
Proof.
  intros Hc Hl available. split_and!.
  - assert (Heq : att_validator_id <$> available = (hash_iter m).*1); [|rewrite Heq; apply NoDup_hash_keys].
    unfold available. clear. induction (hash_iter m) as [|[v d] l IH]; [done|]. rewrite !fmap_cons. by f_equal.
  - intros att ([v d] & -> & Hin%elem_of_hash_iter)%list_elem_of_fmap. cbn.
    destruct (lo_known _ _ _ Hl v d Hin) as (r & Hkey & _). apply elem_of_hash_keys in Hkey.
    apply elem_of_unique_keys in Hkey. unfold unique_keys in Hkey.
    apply elem_of_list_to_set, list_elem_of_fmap in Hkey as ([k p] & Heq & He). cbn in Heq. subst k.
    pose proof (bo_entries _ _ (cc_known _ _ a Hc)) as Hall. rewrite Forall_forall in Hall. by apply (Hall _ He).
  - intros att ([v d] & -> & Hin%elem_of_hash_iter)%list_elem_of_fmap. cbn.
    destruct (lo_known _ _ _ Hl v d Hin) as (r & _ & Hd). by exists r.
Qed.

Lemma produce_block_cases s a slot validator_index :
  represents s a → chain_inv seen anchor a →
  ∃ s1 a1 st, represents s1 a1 ∧ chain_inv seen anchor a1 ∧ same_chain_view a a1 ∧ vw_time a <= vw_time a1 ∧
    vw_states a1 !! vw_head a1 = Some st ∧
    ((block_fits st (candidate_block slot validator_index (vw_head a1) []) ∧
      ∃ block post proofs, produce_block_with_signatures slot validator_index s = Done s1 (block, proofs) ∧
        state_transition block st = Done post tt ∧ b_slot block = slot ∧
        b_proposer_index block = validator_index ∧ b_parent_root block = vw_head a1 ∧
        length (bb_attestations (b_body block)) = length proofs ∧ len proofs <= VALIDATOR_REGISTRY_LIMIT ∧
        ∀ agg, agg ∈ bb_attestations (b_body block) → ∃ r, vw_data a !! r = Some (aa_data agg)) ∨
     (¬ block_fits st (candidate_block slot validator_index (vw_head a1) []) ∧
      ∃ e, produce_block_with_signatures slot validator_index s = Fail s1 e)).
Proof.
  intros Hr Hi. destruct (proposal_head_ensures (E := StoreError) s a slot Hr Hi)
    as (s1 & root & a1 & Hrun & Hr1 & -> & Hi1 & Hs1 & Ht1). pose proof (ci_core _ _ a1 Hi1) as Hc1.
  destruct (cc_head _ _ a1 Hc1) as [st Hst]. exists s1, a1, st. split_and!; [done..|].
  pose proof (so_wf _ _ _ _ (cc_states _ _ a1 Hc1 _ _ Hst)) as Hwf.
  unfold produce_block_with_signatures. rewrite run_bind, Hrun, run_bind, run_reads, (get_state_refines s1 a1 _ Hr1).
  unfold processed in Hst. rewrite Hst, run_bind, run_ok_or, run_bind, run_fail_if.
  destruct (is_proposer validator_index slot _) eqn:Hprop; cbn [negb].
  2:{ right. split; [|by eexists]. intros [_ Hp _ _]. cbn in Hp. unfold is_proposer in Hprop.
      rewrite (current_proposer_wf st slot (proj1 Hwf)) in Hprop. apply bool_decide_eq_false in Hprop. apply Hprop.
      f_equal. apply u64_eq. rewrite Hp. pose proof (wf_validators st (proj1 Hwf)). unfold VALIDATOR_REGISTRY_LIMIT in *.
      apply to_u64_small. pose proof (u64_lt slot). lia. }
  rewrite run_bind, run_gets. unfold iter_known_aggregated_payloads. rewrite (rep_known _ _ Hr1).
  destruct (extract_latest_refines s1 a1 (hash_iter (grouped (vw_known a1))).*1 Hr1) as (m & Hm & Hlatest).
  rewrite run_bind, run_reads, Hm. destruct (known_attestations_ok a1 m Hc1 Hlatest) as (Hnd & Hsmall & Hdata).
  destruct (get_block_roots_refines s1 a1 Hr1) as (roots & Hroots & _). rewrite run_bind, run_reads, Hroots.
  cbn zeta. set (available := _ <$> hash_iter m) in *. set (payloads := list_to_map _).
  destruct (build_block_cases s1 st slot validator_index (vw_head a1) available roots payloads Hwf Hnd Hsmall)
    as [(Hfits & _ & block & post & proofs & Hbuild & Hstep & Hslot & Hidx & Hpr & Hal & Hlen & Hfrom & _)|(Hno & e & Hbuild)].
  - left. split; [done|]. exists block, post, proofs. rewrite run_bind, Hbuild.
    split_and!; [done..|by eapply Forall2_length|done|].
    intros agg (att & Hatt & <-)%Hfrom. destruct (Hdata att Hatt) as [r Hr']. exists r. by rewrite <- (sv_data _ _ Hs1).
  - right. split; [done|]. exists e. by rewrite run_bind, Hbuild.
Qed.

End produce.
