(* ===== verification/ChainTheorems.v ===== *)
(** The theorems about the chain store: its invariant, block import, the clock, votes,
    gossip and block production; with witnesses over a concrete chain. *)

From Stdlib Require Import Strings.Byte.
From S2P Require Import Prelude Types StateTransition Reference StateInvariant Justifiability BlockProcessing Transitions ForkChoice.
From S2P Require Import Backend InMemory Keys Signatures PayloadBuffer Store Crypto StoreSpec StoreOps StorePruning StoreMaintenance Codec.
From S2P Require Import ChainInvariant ChainStore Bits ChainRefine ChainClock ChainImport ChainBlocks BlockBuilding ChainVotes BuildSpec ChainProduce.

Section theorems.
Context `{STL : SszTypesLaws} `{SL : StorageLaws D B} `{CO : Codecs} {CL : CodecsLaws} `{HS : Hashing} {HL : HashingLaws}.
Context `{HOL : HashOrderLaws} `{MS : MultisigScheme}.
Context (seen : BlockHeader → Prop) {HSeen : HeadersSeen seen} (anchor : N).
Implicit Types (s : Store D) (a : View).

(** * Theorems *)

(** Initializing an empty database from a well-formed anchor state establishes the
    invariant of the chain store. *)
Theorem init_establishes_invariant d state body :
  db_ok d → (∀ t, contents d t = ∅) →
  bh_state_root (st_latest_block_header state) = H256_ZERO ∨
    bh_state_root (st_latest_block_header state) = anchor_root state →
  anchor_ok seen state → anchor = header_slot state →
  ∃ s a, init_store d state body = Return s ∧ represents s a ∧ chain_inv seen anchor a.
Proof.
  intros Hok Hempty Hroot Hanchor Hslot. destruct (init_store_refines d state body Hok Hempty Hroot) as (s & Hrun & Hr).
  exists s, (anchor_view state body). split_and!; [done..|]. by apply anchor_chain_inv.
Qed.

(** C1. Importing a block never panics (for attestation slots of 32 bits) and keeps the
    invariant: a block that is known already changes nothing; a block whose parent is
    processed, whose signatures verify and which the transition function accepts is
    stored with its post-state, made live, and advances the checkpoints; any other block is
    answered with an error and leaves the store exactly as it was. *)
Theorem on_block_correct s a sb local :
  let block := bwa_block (sb_message sb) in
  represents s a → chain_inv seen anchor a → seen (block_header block) → slots_fit sb →
  (is_Some (vw_states a !! tree_hash_root block) ∧ on_block sb local s = Done s tt) ∨
  (vw_states a !! tree_hash_root block = None ∧
   ((∃ st, block_valid a sb st ∧
      ensures (on_block sb local) s (λ _ a', block_imported seen anchor a sb st a')) ∨
    (¬ (∃ st, block_valid a sb st) ∧ ∃ e, on_block sb local s = Fail s e))).
Proof. intros block Hr Hi Hseen Hslots. by apply on_block_cases. Qed.

(** C19. A block is accepted by the signature check exactly when there is one proof per
    attestation, every proof names the claimed, registered validators and verifies against
    their keys, and the proposer signed its own attestation. *)
Theorem verify_signatures_correct {S : Type} state sb (s : S) :
  len (st_validators state) < 2 ^ 64 → slots_fit sb →
  (verify_signatures state sb s = Done s tt ↔ signatures_valid (st_validators state) sb) ∧
  (¬ signatures_valid (st_validators state) sb → ∃ e, verify_signatures state sb s = Fail s e).
Proof.
  intros Hlen Hslots. destruct (verify_signatures_checks state sb s Hlen Hslots) as [[-> Hv]|(e & -> & Hv)].
  - by split.
  - split; [by split|]. intros _. by exists e.
Qed.

(** The bound on the slots is needed: a block with an attestation for a slot of 2^32 or
    more, for participants in range, makes the node panic before any signature is
    verified. *)
Theorem on_block_slot_overflow_panics s a sb local parent att proof atts proofs :
  let block := bwa_block (sb_message sb) in
  represents s a → vw_states a !! tree_hash_root block = None →
  vw_states a !! b_parent_root block = Some parent →
  bb_attestations (b_body block) = att :: atts →
  bs_attestation_signatures (sb_signature sb) = proof :: proofs → len atts = len proofs →
  aa_aggregation_bits att = pf_participants proof →
  Forall (λ vid : u64, vid < len (st_validators parent)) (validator_indices (aa_aggregation_bits att)) →
  len (st_validators parent) < 2 ^ 64 → 2 ^ 32 <= ad_slot (aa_data att) →
  on_block sb local s = Panicked.
Proof.
  intros block Hr Hnew Hparent Hatts Hproofs Hlen Hbits Hids Hsmall Hslot.
  unfold on_block, on_block_core. fold block. cbn zeta.
  rewrite run_bind, run_reads, (has_state_refines s a _ Hr), Hnew, bool_decide_eq_false_2 by (by intros []).
  rewrite run_bind, run_reads, (get_state_refines s a _ Hr), Hparent, run_bind, run_ok_or, run_bind.
  unfold verify_signatures. fold block. rewrite Hatts, Hproofs, !len_cons, Hlen, N.eqb_refl. cbn [negb].
  rewrite run_bind, run_fail_if. cbn zeta. rewrite run_bind. cbn [combine foldM]. rewrite run_bind.
  unfold verify_attestation at 1. rewrite Hbits, bool_decide_eq_true_2 by done. cbn [negb].
  rewrite run_bind, run_fail_if. cbn zeta.
  assert (Hex : existsb (λ vid : u64, to_u64 (len (st_validators parent)) <=? vid)
    (validator_indices (pf_participants proof)) = false).
  { rewrite <- Hbits. apply not_true_iff_false. intros (vid & Hin%list_elem_of_In & Hle)%existsb_exists.
    rewrite Forall_forall in Hids. specialize (Hids vid Hin). lia. }
  rewrite Hex, run_bind, run_fail_if, run_bind, run_lift_partial. unfold u32_try_from.
  by rewrite (proj2 (N.ltb_ge _ _)).
Qed.


(** C25. Updating the head takes the LMD-GHOST choice over the live chain, from the justified
    root, for the latest known attestation of each validator; the new head is a processed
    block not behind the justified slot. Drawing the fork choice for the log cannot fail. *)
Theorem accept_new_attestations_correct {E} s a log_tree :
  represents s a → chain_inv seen anchor a →
  ∃ s' a', (accept_new_attestations log_tree : M (Store D) E unit) s = Done s' tt ∧ represents s' a' ∧
    chain_inv seen anchor a' ∧ same_chain_view a a' ∧
    chosen a (hash_elems (unique_keys (vw_known (view_promote a)))) (to_u64 0) (vw_head a').
Proof.
  intros Hr Hi. destruct (accept_new_ensures (E := E) seen anchor s a log_tree Hr Hi)
    as (s' & [] & a' & Hrun & Hr' & Hi' & Hs & _ & Hch). by exists s', a'.
Qed.

(** The safe target is the LMD-GHOST choice with the threshold of two thirds of the
    validators of the head state, over the known and the new attestations. *)
Theorem update_safe_target_correct {E} s a :
  represents s a → chain_inv seen anchor a →
  ∃ s' a' st keys score, (update_safe_target : M (Store D) E unit) s = Done s' tt ∧ represents s' a' ∧
    chain_inv seen anchor a' ∧ same_chain_view a a' ∧
    vw_states a !! vw_head a = Some st ∧ u64_val score = safe_score st ∧
    (∀ k, k ∈ keys ↔ k ∈ unique_keys (vw_known a) ∨ k ∈ unique_keys (vw_new a)) ∧
    chosen a keys score (vw_safe_target a').
Proof.
  intros Hr Hi. destruct (update_safe_target_ensures (E := E) seen anchor s a Hr Hi)
    as (s' & [] & a' & Hrun & Hr' & Hi' & Hs & _ & st & keys & score & ? & ? & ? & ?).
  by exists s', a', st, keys, score.
Qed.

(** C26. Committee aggregation groups the stored gossip signatures by attestation data: a root
    with known data gets exactly one aggregate, of the signatures of exactly the validators
    whose stored signature and registered key decode, with their bits; only when there is no
    such validator, or the library refuses to aggregate, there is none. Its payload enters the
    pool of new payloads once per signer, and the aggregated signatures leave the gossip
    table. *)
Theorem aggregate_committee_correct {E} s a :
  represents s a → chain_inv seen anchor a →
  ∃ s' a' st groups, (aggregate_committee_signatures : M (Store D) E _) s = Done s' ((λ g, g.1.2) <$> groups) ∧
    represents s' a' ∧ chain_inv seen anchor a' ∧ same_chain_view a a' ∧
    vw_states a !! vw_head a = Some st ∧ aggregated a (st_validators st) groups a'.
Proof.
  intros Hr Hi. destruct (aggregate_committee_ensures (E := E) seen anchor s a Hr Hi)
    as (s' & x & a' & Hrun & Hr' & Hi' & Hs & _ & st & groups & ? & -> & ?).
  by exists s', a', st, groups.
Qed.

(** C27. The vote the node produces for a slot, at most one ahead of its clock, passes the
    node's own validation: its source is the justified checkpoint, its head the head of
    the store, and its target lies on the head's chain at a justifiable slot, or is the
    justified checkpoint. *)
Theorem produced_vote_valid s a slot :
  represents s a → chain_inv seen anchor a → u64_val slot <= vw_time a / 5 + 1 →
  ∃ d, produce_attestation_data slot s = Return d ∧ vote_valid a d ∧ ad_source d = vw_justified a ∧
    cp_root (ad_head d) = vw_head a ∧ target_ok a (ad_target d) ∧
    validate_attestation_data d s = Done s tt.
Proof.
  intros Hr Hi Hslot. destruct (produced_vote_cases seen anchor s a Hr (ci_core _ _ a Hi) slot Hi Hslot)
    as (d & Hrun & Hv & _ & Hh & Hsrc & Htg).
  exists d. split_and!; try done. by destruct (validate_checks s a d Hr) as [[? _]|(? & _ & [])].
Qed.

(** C28. A gossiped attestation is accepted exactly when its vote is valid and the signature
    verifies under the key of a registered validator of the target state; then its data
    is stored, and its signature for validators of our subnets. Otherwise nothing changes. *)
Theorem on_gossip_attestation_correct s a sa local :
  represents s a → chain_inv seen anchor a → ad_slot (sa_data sa) < 2 ^ 32 →
  (gossip_valid a sa ∧ ∃ s' a', on_gossip_attestation sa local s = Done s' tt ∧ represents s' a' ∧
     gossip_stored a sa local a' ∧ chain_inv seen anchor a') ∨
  (¬ gossip_valid a sa ∧ ∃ e, on_gossip_attestation sa local s = Fail s e).
Proof.
  intros Hr Hi Hslot. destruct (on_gossip_attestation_atomic s a sa local Hr (chain_states_wf seen anchor a Hi) Hslot)
    as [[Hv (s' & [] & a' & Hrun & Hr' & Hst)]|[Hv He]]; [left|right; by split].
  split; [done|]. exists s', a'. split_and!; [done..|]. by eapply gossip_stored_inv.
Qed.

(** A gossiped aggregate is accepted exactly when its vote is valid and its proof verifies
    against the keys of its participants, all registered in the target state; then its data
    and one payload per participant are stored. Otherwise nothing changes. *)
Theorem on_gossip_aggregated_correct s a sga :
  represents s a → chain_inv seen anchor a → ad_slot (sga_data sga) < 2 ^ 32 →
  (aggregate_valid a sga ∧ ∃ s', on_gossip_aggregated_attestation sga s = Done s' tt ∧
     represents s' (view_store_aggregate a sga) ∧ chain_inv seen anchor (view_store_aggregate a sga)) ∨
  (¬ aggregate_valid a sga ∧ ∃ e, on_gossip_aggregated_attestation sga s = Fail s e).
Proof.
  intros Hr Hi Hslot. destruct (on_gossip_aggregated_atomic s a sga Hr (chain_states_wf seen anchor a Hi) Hslot)
    as [[Hv (s' & [] & a' & Hrun & Hr' & ->)]|[Hv He]]; [left|right; by split].
  split; [done|]. exists s'. split_and!; [done..|]. by apply aggregate_stored_inv.
Qed.

(** * Block production *)

(** C14. Building a block terminates without panicking for distinct registered attesters. If a
    block with this header fits the head state, the built block is one the transition
    function accepts, with the post-state returned; its attestations have available data and
    are aligned with the proofs, each the stored proof of its bits. The attestations that
    were collected are a fixed point: none that the post-state of their block would admit is
    left out; and when every stored proof list covers its validator, each of them is in the
    block, as a bit of an attestation with its data. Otherwise the transition's error is
    returned. *)
Theorem build_block_accepted {S : Type} (s : S) head_state slot proposer_index parent_root available roots payloads :
  state_wf head_state → NoDup (att_validator_id <$> available) → small_ids available →
  (block_fits head_state (candidate_block slot proposer_index parent_root []) ∧
   ∃ included block post proofs,
     build_block head_state slot proposer_index parent_root available roots payloads s = Done s (block, post, proofs) ∧
     state_transition block head_state = Done post tt ∧
     b_slot block = slot ∧ b_proposer_index block = proposer_index ∧ b_parent_root block = parent_root ∧
     Forall2 (λ att proof, pair_ok payloads (aa_data att) (att, proof)) (bb_attestations (b_body block)) proofs ∧
     len proofs <= VALIDATOR_REGISTRY_LIMIT ∧
     (∀ agg, agg ∈ bb_attestations (b_body block) → ∃ att, att ∈ available ∧ att_data att = aa_data agg) ∧
     included_ok available roots payloads included ∧
     fixed_point available roots payloads head_state slot proposer_index parent_root included ∧
     (proofs_cover payloads → ∀ att, att ∈ included →
        ∃ agg, agg ∈ bb_attestations (b_body block) ∧ tree_hash_root (aa_data agg) = tree_hash_root (att_data att) ∧
          att_validator_id att ∈ validator_indices (aa_aggregation_bits agg))) ∨
  (¬ block_fits head_state (candidate_block slot proposer_index parent_root []) ∧
   ∃ e, build_block head_state slot proposer_index parent_root available roots payloads s = Fail s e).
Proof. apply build_block_cases. Qed.

(** Selecting proofs terminates, selects at most one proof per attestation, and only
    stored proofs, each with the bits of its participants; when every attestation has a
    stored proof that covers its attester, every attester is covered by a selected proof
    for its data. *)
Theorem select_aggregated_proofs_correct payloads atts :
  small_ids atts →
  ∃ res, select_aggregated_proofs atts payloads = Return (res.*1, res.*2) ∧ (length res <= length atts)%nat ∧
    Forall (λ e, pair_ok payloads (aa_data e.1) e) res ∧
    ((∀ att, att ∈ atts → proof_stored payloads att) → ∀ att, att ∈ atts →
       ∃ e, e ∈ res ∧ tree_hash_root (aa_data e.1) = tree_hash_root (att_data att) ∧
         att_validator_id att ∈ validator_indices (pf_participants e.2)).
Proof.
  intros Hids. destruct (select_aggregated_proofs_spec payloads atts Hids) as (res & Hrun & Hlen & Hok & Hcov).
  exists res. split_and!; [done..| |done]. eapply Forall_impl; [exact Hok|]. by intros e [].
Qed.

(** Proposing: the clock and the head are brought up to date first, which keeps the
    invariant. If a block of this proposer and slot fits the head's state, a block on that
    head is produced that the transition function accepts, with one proof per
    attestation; otherwise an error is returned. It never panics. *)
Theorem produce_block_correct s a slot validator_index :
  represents s a → chain_inv seen anchor a →
  ∃ s1 a1 st, represents s1 a1 ∧ chain_inv seen anchor a1 ∧ same_chain_view a a1 ∧ vw_time a <= vw_time a1 ∧
    vw_states a1 !! vw_head a1 = Some st ∧
    ((block_fits st (candidate_block slot validator_index (vw_head a1) []) ∧
      ∃ block post proofs, produce_block_with_signatures slot validator_index s = Done s1 (block, proofs) ∧
        state_transition block st = Done post tt ∧ b_slot block = slot ∧
        b_proposer_index block = validator_index ∧ b_parent_root block = vw_head a1 ∧
        length (bb_attestations (b_body block)) = length proofs) ∨
     (¬ block_fits st (candidate_block slot validator_index (vw_head a1) []) ∧
      ∃ e, produce_block_with_signatures slot validator_index s = Fail s1 e)).
Proof.
  intros Hr Hi. destruct (produce_block_cases seen anchor s a slot validator_index Hr Hi)
    as (s1 & a1 & st & Hr1 & Hi1 & Hs1 & Ht1 & Hst & [(Hf & block & post & proofs & Hrun & Hres)|Hno]).
  - exists s1, a1, st. split_and!; [done..|]. left. split; [done|]. exists block, post, proofs. split; [done|]. naive_solver.
  - exists s1, a1, st. split_and!; [done..|]. by right.
Qed.

End theorems.

(** * A concrete chain *)

Module ChainSample.

#[local] Existing Instances reference_ssz_types reference_ssz_types_laws reference_codecs reference_codecs_laws
  reference_hashing reference_hashing_laws reference_scheme reference_scheme_laws reference_multisig
  reference_multisig_laws reference_order canonical_order_laws in_memory_backend in_memory_laws.

Abbreviation store := (Store StorageData).

(** The store of the genesis state, and the first block on it. *)
Definition genesis : State := Sample.genesis.
Definition start_view : View := anchor_view genesis None.
Definition start : store :=
  match init_store InMemoryBackend_new genesis None with
  | Return s => s
  | _ => mk_store InMemoryBackend_new (PayloadBuffer_new NEW_PAYLOAD_CAP)
           (PayloadBuffer_new AGGREGATED_PAYLOAD_CAP) (to_u64 0)
  end.

Definition header0 : BlockHeader := header_of (anchored_state genesis).
Definition root0 : H256 := tree_hash_root header0.
Definition checkpoint0 : Checkpoint := mk_checkpoint root0 (to_u64 0).
Definition block1 : Block := Scenario.block1.
Definition root1 : H256 := tree_hash_root block1.

(** Data for the head [head] with the genesis checkpoint as source and target. *)
Definition vote (slot : N) (head : Checkpoint) : AttestationData :=
  mk_attestation_data (to_u64 slot) head checkpoint0 checkpoint0.
Definition signature (d : AttestationData) : bytes :=
  be_bytes 4 (ad_slot d) ++ H256_bytes (tree_hash_root d) ++ signature_padding.

(** Block 1, signed, with the proposer attestation [d]. *)
Definition signed1 (d : AttestationData) : SignedBlockWithAttestation :=
  mk_signed_block (mk_block_with_attestation block1 (mk_attestation (to_u64 1) d))
    (mk_block_signatures [] (signature d)).
Definition vote1 : AttestationData := vote 1 (mk_checkpoint root1 (to_u64 1)).

Definition seen (h : BlockHeader) : Prop := h = header0 ∨ h = block_header block1.

Lemma roots_differ : tree_hash_root header0 ≠ tree_hash_root (block_header block1).
Proof. intros Heq. apply (f_equal h256_val) in Heq. vm_compute in Heq. discriminate. Qed.

#[local] Instance seen_ok : HeadersSeen seen.
Proof.
  split.
  - intros h1 h2 [->| ->] [->| ->] Heq; [done|by destruct (roots_differ Heq)| |done].
    symmetry in Heq. by destruct (roots_differ Heq).
  - intros h [->| ->] Heq; apply (f_equal h256_val) in Heq; vm_compute in Heq; discriminate.
Qed.

Lemma genesis_ok : anchor_ok seen genesis.
Proof.
  destruct (chain_state_wf _ Scenario.genesis_chain) as [Hwf Ha]. split; [exact Hwf|exact Ha| |by left|].
  - intros Hpos. vm_compute in Hpos. discriminate.
  - intros h Hh Heq. destruct (seen_nonzero h Hh). exact Heq.
Qed.

Lemma start_init : init_store InMemoryBackend_new genesis None = Return start ∧ represents start start_view.
Proof.
  destruct (init_store_refines InMemoryBackend_new genesis None) as (s & Hrun & Hr);
    [apply in_memory_new_ok|apply in_memory_new_empty|by left|].
  unfold start. rewrite Hrun. by split.
Qed.

Lemma start_inv : chain_inv seen 0 start_view.
Proof. apply anchor_chain_inv; [apply genesis_ok|done]. Qed.

Lemma init_establishes_invariant_witness :
  ∃ s a, init_store InMemoryBackend_new genesis None = Return s ∧ represents s a ∧ chain_inv seen 0 a.
Proof.
  apply (init_establishes_invariant (SL := in_memory_laws) seen 0 InMemoryBackend_new genesis None);
    [apply in_memory_new_ok|apply in_memory_new_empty|by left|apply genesis_ok|done].
Defined.

(** ** Block import *)

Definition post1 : State := Scenario.run_state (state_transition block1 (anchored_state genesis)).

Lemma run_block1 : state_transition block1 (anchored_state genesis) = Done post1 tt.
Proof. by vm_compute. Qed.

Lemma block1_parent : b_parent_root block1 = root0.
Proof. apply h256_eq. by vm_compute. Qed.

Lemma parent_state : vw_states start_view !! b_parent_root block1 = Some (anchored_state genesis).
Proof. rewrite block1_parent. apply lookup_singleton_eq. Qed.

Lemma block1_new : vw_states start_view !! root1 = None.
Proof.
  apply lookup_singleton_ne. intros Heq. apply roots_differ. exact Heq.
Qed.

Lemma vote1_fits : slots_fit (signed1 vote1).
Proof. split; [exact (List.Forall_nil _)|by vm_compute]. Qed.

Lemma signed1_valid : signatures_valid (st_validators (anchored_state genesis)) (signed1 vote1).
Proof.
  split; [done|split; [exact (List.Forall_nil _)|split; [done|]]].
  exists (mk_validator_signature (H := reference_scheme) (signature vote1)),
    (mk_validator_public_key (H := reference_scheme) []). split_and!; [done| |by vm_compute].
  exists (Sample.validator 1). by split.
Qed.

Lemma block1_valid : block_valid start_view (signed1 vote1) (imported_state block1 post1).
Proof.
  exists (anchored_state genesis), post1. split_and!; [exact parent_state|exact signed1_valid|exact run_block1|done].
Qed.

Lemma on_block_correct_witness : ∃ st (s' : store) a',
  on_block (signed1 vote1) [to_u64 0] start = Done s' tt ∧ represents s' a' ∧
  vw_states a' = <[root1 := st]> (vw_states start_view) ∧ chain_inv seen 0 a'.
Proof.
  destruct (on_block_correct (SL := in_memory_laws) seen 0 start start_view (signed1 vote1) [to_u64 0] (proj2 start_init) start_inv
    (or_intror eq_refl) vote1_fits)
    as [[Hknown _]|[_ [(st & _ & s' & [] & a' & Hrun & Hr & Him)|[Hno _]]]].
  - exfalso. change (is_Some (vw_states start_view !! root1)) in Hknown. rewrite block1_new in Hknown. by destruct Hknown.
  - exists st, s', a'. split_and!; [exact Hrun|exact Hr|apply Him|apply Him].
  - exfalso. apply Hno. eexists. exact block1_valid.
Defined.

Lemma verify_signatures_correct_witness :
  verify_signatures (anchored_state genesis) (signed1 vote1) start = Done start tt.
Proof.
  apply (verify_signatures_correct (anchored_state genesis) (signed1 vote1) start); [by vm_compute|exact vote1_fits|].
  exact signed1_valid.
Defined.

(** The same block with an attestation for a slot of 2^32. *)
Definition huge_vote : AttestationData := vote (2 ^ 32) (mk_checkpoint root1 (to_u64 1)).
Definition overflowing : SignedBlockWithAttestation :=
  mk_signed_block (mk_block_with_attestation
      (mk_block (to_u64 1) (to_u64 1) root0 H256_ZERO (mk_block_body [mk_aggregated_attestation [] huge_vote]))
      (mk_attestation (to_u64 1) vote1))
    (mk_block_signatures [mk_proof [] []] []).

Lemma on_block_slot_overflow_panics_witness : on_block overflowing [] start = Panicked.
Proof.
  apply (on_block_slot_overflow_panics (SL := in_memory_laws) start start_view overflowing [] (anchored_state genesis)
    (mk_aggregated_attestation [] huge_vote) (mk_proof [] []) [] []);
    [apply start_init| |apply lookup_singleton_eq|done..|exact (List.Forall_nil _)|by vm_compute|by vm_compute].
  apply lookup_singleton_ne. intros Heq. apply (f_equal h256_val) in Heq. vm_compute in Heq. discriminate.
Defined.

(** ** The clock and the fork choice *)


Lemma accept_new_attestations_correct_witness : ∃ (s' : store) a',
  accept_new_attestations (E := unit) true start = Done s' tt ∧ represents s' a' ∧ chain_inv seen 0 a'.
Proof.
  destruct (accept_new_attestations_correct (E := unit) (SL := in_memory_laws) seen 0 start start_view true
    (proj2 start_init) start_inv) as (s' & a' & Hrun & Hr & Hi & _).
  exists s', a'. split; [exact Hrun|split; [exact Hr|exact Hi]].
Defined.

Lemma update_safe_target_correct_witness : ∃ (s' : store) a',
  update_safe_target (E := unit) start = Done s' tt ∧ represents s' a' ∧ chain_inv seen 0 a'.
Proof.
  destruct (update_safe_target_correct (E := unit) (SL := in_memory_laws) seen 0 start start_view
    (proj2 start_init) start_inv) as (s' & a' & st & keys & score & Hrun & Hr & Hi & _).
  exists s', a'. split; [exact Hrun|split; [exact Hr|exact Hi]].
Defined.

(** ** Votes *)

Lemma produced_vote_valid_witness : ∃ d, produce_attestation_data (to_u64 1) start = Return d ∧
  validate_attestation_data d start = Done start tt.
Proof.
  destruct (produced_vote_valid (SL := in_memory_laws) seen 0 start start_view (to_u64 1) (proj2 start_init) start_inv)
    as (d & Hrun & _ & _ & _ & _ & Hv); [by vm_compute|].
  exists d. split; [exact Hrun|exact Hv].
Defined.

Definition vote0 : AttestationData := vote 1 checkpoint0.
Definition gossiped : SignedAttestation := mk_signed_attestation (to_u64 2) vote0 (signature vote0).

Lemma root0_known slot : slot = to_u64 0 → known_checkpoint start_view (mk_checkpoint root0 slot).
Proof. intros ->. exists header0. split; [apply lookup_singleton_eq|done]. Qed.

Lemma vote0_valid : vote_valid start_view vote0.
Proof. split; try by apply root0_known. all: by vm_compute. Qed.

Lemma gossiped_valid : gossip_valid start_view gossiped.
Proof.
  split; [exact vote0_valid|]. exists (anchored_state genesis). split; [apply lookup_singleton_eq|].
  exists (mk_validator_public_key (H := reference_scheme) []),
    (mk_validator_signature (H := reference_scheme) (signature vote0)).
  split; [exists (Sample.validator 2); by split|]. split; [done|by vm_compute].
Qed.

Lemma on_gossip_attestation_correct_witness : ∃ (s' : store) a',
  on_gossip_attestation gossiped [to_u64 0] start = Done s' tt ∧ represents s' a' ∧ chain_inv seen 0 a'.
Proof.
  destruct (on_gossip_attestation_correct (SL := in_memory_laws) seen 0 start start_view gossiped [to_u64 0]
    (proj2 start_init) start_inv) as [(_ & s' & a' & Hrun & Hr & _ & Hi)|[Hno _]].
  - by vm_compute.
  - exists s', a'. split; [exact Hrun|split; [exact Hr|exact Hi]].
  - exfalso. apply Hno, gossiped_valid.
Defined.

(** ** Committee aggregation: the gossiped signature of validator 2 *)

Definition single_aggregate (data : AttestationData) (bits : list bool) (aggregates : list SignedAggregatedAttestation) : bool :=
  match aggregates with
  | [agg] => bool_decide (sga_data agg = data) && bool_decide (pf_participants (sga_proof agg) = bits)
  | _ => false
  end.

Lemma single_result data bits aggregates : single_aggregate data bits aggregates = true →
  ∃ agg, aggregates = [agg] ∧ sga_data agg = data ∧ pf_participants (sga_proof agg) = bits.
Proof.
  destruct aggregates as [|agg [|]]; [done| |done].
  intros [Hdata%bool_decide_eq_true_1 Hbits%bool_decide_eq_true_1]%andb_true_iff. by exists agg.
Qed.

Lemma gossip_then_aggregate : match on_gossip_attestation gossiped [to_u64 0] start with
  | Done s _ => match aggregate_committee_signatures (E := unit) s with
                | Done _ aggregates => single_aggregate vote0 [false; false; true] aggregates
                | _ => false
                end
  | _ => false
  end = true.
Proof. by vm_compute. Qed.

Lemma gossip_stored_same a sa local a' : gossip_stored a sa local a' → vw_states a' = vw_states a ∧ vw_head a' = vw_head a.
Proof. intros (sig & _ & ->). by destruct (in_our_subnet _ _). Qed.

Lemma gossiped_store : ∃ s a, on_gossip_attestation gossiped [to_u64 0] start = Done s tt ∧ represents s a ∧
  chain_inv seen 0 a ∧ vw_states a = vw_states start_view ∧ vw_head a = vw_head start_view.
Proof.
  destruct (on_gossip_attestation_atomic start start_view gossiped [to_u64 0] (proj2 start_init)
    (chain_states_wf seen 0 start_view start_inv)) as [(Hv & s & [] & a & Hrun & Hr & Hst)|[Hno _]].
  - by vm_compute.
  - exists s, a. split; [exact Hrun|]. split; [exact Hr|].
    split; [exact (gossip_stored_inv seen 0 start_view gossiped [to_u64 0] a start_inv Hst)|].
    exact (gossip_stored_same start_view gossiped [to_u64 0] a Hst).
  - exfalso. apply Hno, gossiped_valid.
Qed.

Lemma aggregate_committee_correct_witness : ∃ (s s' : store) a a' groups agg,
  aggregate_committee_signatures (E := unit) s = Done s' ((λ g, g.1.2) <$> groups) ∧ represents s' a' ∧
  aggregated a (st_validators (anchored_state genesis)) groups a' ∧
  (λ g, g.1.2) <$> groups = [agg] ∧ sga_data agg = vote0 ∧ pf_participants (sga_proof agg) = [false; false; true].
Proof.
  destruct gossiped_store as (s & a & Hgossip & Hr & Hi & Hstates & Hheads).
  destruct (aggregate_committee_correct (E := unit) (SL := in_memory_laws) seen 0 s a Hr Hi)
    as (s' & a' & st & groups & Hrun & Hr' & _ & _ & Hst & Hag).
  assert (Hhead : vw_states start_view !! vw_head start_view = Some (anchored_state genesis)) by apply lookup_singleton_eq.
  rewrite Hstates, Hheads, Hhead in Hst. injection Hst as <-.
  pose proof gossip_then_aggregate as Hagg. rewrite Hgossip, Hrun in Hagg.
  destruct (single_result vote0 [false; false; true] _ Hagg) as (agg & Hgroups & Hdata & Hbits).
  exists s, s', a, a', groups, agg. split; [exact Hrun|]. split; [exact Hr'|]. split; [exact Hag|].
  split; [exact Hgroups|]. split; [exact Hdata|exact Hbits].
Defined.

Definition proof0 : AggregatedSignatureProof :=
  mk_proof [false; true; true] (as_ssz_bytes (A := XmssAggregateSignature) [signature vote0; signature vote0]).
Definition aggregate0 : SignedAggregatedAttestation := mk_signed_aggregated vote0 proof0.

Lemma proof0_verifies (pk : ValidatorPublicKey) : vpk_inner pk = [] →
  verify_aggregated_signature (pf_proof_data proof0) [pk; pk] (tree_hash_root vote0) (ad_slot vote0) = inr tt.
Proof.
  intros Hpk. unfold verify_aggregated_signature, proof0. cbn [pf_proof_data].
  rewrite ssz_roundtrip. cbn [fmap list_fmap]. rewrite Hpk.
  change (xmss_verify_aggregated_signatures _ _ _ _) with
    (if verify_all (ad_slot vote0) (tree_hash_root vote0) [[]; []] [signature vote0; signature vote0]
     then @inr unit unit tt else inl tt).
  assert (verify_all (ad_slot vote0) (tree_hash_root vote0) [[]; []] [signature vote0; signature vote0] = true)
    as -> by (by vm_compute).
  reflexivity.
Qed.

Lemma aggregate0_valid : aggregate_valid start_view aggregate0.
Proof.
  split; [exact vote0_valid|]. exists (anchored_state genesis). split; [apply lookup_singleton_eq|].
  exists [mk_validator_public_key (H := reference_scheme) []; mk_validator_public_key (H := reference_scheme) []].
  assert (Hids : participant_indices (sga_proof aggregate0) = [to_u64 1; to_u64 2]) by (by vm_compute).
  rewrite Hids. split; [|by apply proof0_verifies]. constructor; [|constructor; [|constructor]].
  - exists (Sample.validator 1). by split.
  - exists (Sample.validator 2). by split.
Qed.

Lemma on_gossip_aggregated_correct_witness : ∃ s' : store,
  on_gossip_aggregated_attestation aggregate0 start = Done s' tt ∧
  represents s' (view_store_aggregate start_view aggregate0).
Proof.
  destruct (on_gossip_aggregated_correct (SL := in_memory_laws) seen 0 start start_view aggregate0
    (proj2 start_init) start_inv) as [(_ & s' & Hrun & Hr & _)|[Hno _]].
  - by vm_compute.
  - exists s'. split; [exact Hrun|exact Hr].
  - exfalso. apply Hno, aggregate0_valid.
Defined.

(** ** Block production *)

Definition available0 : list Attestation := [mk_attestation (to_u64 2) vote0].
Definition payloads0 : gmap SignatureKey (list AggregatedSignatureProof) :=
  {[ (to_u64 2, tree_hash_root vote0) := [proof0] ]}.

Lemma available0_small : small_ids available0.
Proof. intros att ->%list_elem_of_singleton. by vm_compute. Qed.

Lemma single_proof_covers v root p :
  v ∈ validator_indices (pf_participants p) → proofs_cover {[ (v, root) := [p] ]}.
Proof. intros Hv v' root' proofs [[= -> ->] <-]%lookup_singleton_Some. exists p. split; [by left|done]. Qed.

Lemma payloads0_cover : proofs_cover payloads0.
Proof. apply single_proof_covers, (bool_decide_eq_true_1 _). vm_compute. reflexivity. Qed.

Lemma built_with_vote : match build_block (anchored_state genesis) (to_u64 1) (to_u64 1) root0 available0 {[ root0 ]} payloads0 tt with
  | Done _ (block, _, _) => bool_decide (bb_attestations (b_body block) = [mk_aggregated_attestation [false; true; true] vote0])
  | _ => false
  end = true.
Proof. by vm_compute. Qed.

Lemma build_block_accepted_witness : ∃ block post proofs (included : list Attestation),
  build_block (anchored_state genesis) (to_u64 1) (to_u64 1) root0 available0 {[ root0 ]} payloads0 tt =
    Done tt (block, post, proofs) ∧
  state_transition block (anchored_state genesis) = Done post tt ∧
  bb_attestations (b_body block) = [mk_aggregated_attestation [false; true; true] vote0] ∧
  ∀ att, att ∈ included → ∃ agg, agg ∈ bb_attestations (b_body block) ∧
    tree_hash_root (aa_data agg) = tree_hash_root (att_data att) ∧ att_validator_id att ∈ validator_indices (aa_aggregation_bits agg).
Proof.
  destruct (build_block_accepted tt (anchored_state genesis) (to_u64 1) (to_u64 1) root0 available0 {[ root0 ]}
    payloads0) as [(_ & included & block & post & proofs & Hrun & Hst & _ & _ & _ & _ & _ & _ & _ & _ & Hall)|[Hno _]].
  - destruct (chain_state_wf _ Scenario.genesis_chain) as [[[] []] _]. split; by split.
  - apply NoDup_singleton.
  - exact available0_small.
  - pose proof built_with_vote as Hvote. rewrite Hrun in Hvote. exists block, post, proofs, included.
    split; [exact Hrun|]. split; [exact Hst|]. split; [exact (bool_decide_eq_true_1 _ Hvote)|exact (Hall payloads0_cover)].
  - exfalso. apply Hno. split; [by vm_compute|by vm_compute| |by vm_compute].
    cbn [candidate_block b_parent_root]. apply h256_eq. by vm_compute.
Defined.

Lemma select_aggregated_proofs_correct_witness : ∃ res,
  select_aggregated_proofs available0 payloads0 = Return (res.*1, res.*2) ∧ (length res <= 1)%nat.
Proof.
  destruct (select_aggregated_proofs_correct payloads0 available0 available0_small) as (res & Hrun & Hlen & _).
  exists res. split; [exact Hrun|exact Hlen].
Defined.

Lemma produce_block_correct_witness : ∃ (s1 : store) a1, represents s1 a1 ∧ chain_inv seen 0 a1 ∧
  ((∃ r, produce_block_with_signatures (to_u64 1) (to_u64 1) start = Done s1 r) ∨
   (∃ e, produce_block_with_signatures (to_u64 1) (to_u64 1) start = Fail s1 e)).
Proof.
  destruct (produce_block_correct (SL := in_memory_laws) seen 0 start start_view (to_u64 1) (to_u64 1)
    (proj2 start_init) start_inv)
    as (s1 & a1 & st & Hr & Hi & _ & _ & _ & [(_ & block & post & proofs & Hrun & _)|(_ & e & Hrun)]).
  - exists s1, a1. split; [exact Hr|split; [exact Hi|]]. left. exists (block, proofs). exact Hrun.
  - exists s1, a1. split; [exact Hr|split; [exact Hi|]]. right. exists e. exact Hrun.
Defined.

End ChainSample.
