(* ===== verification/ChainServer.v ===== *)
(** The blockchain actor (crates/blockchain/src/lib.rs) and its key manager
    (crates/blockchain/src/key_manager.rs): the tick, block proposal, attestation
    production, the queue of blocks waiting for their parents, and the gossip handlers.
    Messages to the network actor are recorded in the state in the order they are sent. The
    metrics that the handlers update are in Metrics.v. *)

From S2P Require Import Prelude Types StateTransition Backend Keys Signatures PayloadBuffer Store Crypto ChainStore BlockBuilding.

(** * key_manager.rs *)

Definition SIGNATURE_SIZE : N := 3600 - 488.

Inductive KeyManagerError : Type :=
| ValidatorKeyNotFound (validator_id : u64)
| SigningError
| SignatureConversionError.

Section key_manager.
Context `{ST : SszTypes} `{HS : Hashing} `{HO : HashOrder} `{SC : SignatureScheme}.

Record KeyManager := mk_key_manager { km_keys : gmap u64 ValidatorSecretKey }.

Definition validator_ids (km : KeyManager) : list u64 := (hash_iter (km_keys km)).*1.

(** [sign_message] *)
Definition sign_message (km : KeyManager) (validator_id : u64) (slot : N) (message : H256) :
    KeyManagerError + XmssSignature :=
  match km_keys km !! validator_id with
  | None => inl (ValidatorKeyNotFound validator_id)
  | Some secret_key =>
      match sign secret_key slot message with
      | None => inl SigningError
      | Some signature =>
          match fixed_vector_new SIGNATURE_SIZE (ValidatorSignature_to_bytes signature) with
          | None => inl SignatureConversionError
          | Some xmss_sig => inr xmss_sig
          end
      end
  end.

(** [sign_attestation] *)
Definition sign_attestation (km : KeyManager) (validator_id : u64) (data : AttestationData) :
    KeyManagerError + XmssSignature :=
  sign_message km validator_id (as_u32 (ad_slot data)) (tree_hash_root data).

End key_manager.

(** * lib.rs *)

(** The requests to the network actor. *)
Inductive P2PMessage : Type :=
| PublishBlock (block : SignedBlockWithAttestation)
| PublishAttestation (attestation : SignedAttestation)
| PublishAggregatedAttestation (attestation : SignedAggregatedAttestation)
| FetchBlock (root : H256).

(** Milliseconds from a UNIX time to the next tick. *)
Definition ms_to_next_interval (ms_since_epoch : u64) : u64 :=
  wrapping_sub MILLISECONDS_PER_INTERVAL (u64_rem ms_since_epoch MILLISECONDS_PER_INTERVAL).

Section server.
Context `{ST : SszTypes} `{SB : StorageBackend D B} `{CO : Codecs} `{HS : Hashing} `{HO : HashOrder}.
Context `{MS : MultisigScheme}.

(** [bc_p2p] tells whether the network actor is connected; [bc_sent] is what it was sent. *)
Record BlockChainServer := mk_server {
  bc_store : Store D;
  bc_p2p : bool;
  bc_sent : list P2PMessage;
  bc_key_manager : KeyManager;
  bc_pending_blocks : gmap H256 (gset H256);
  bc_pending_block_parents : gmap H256 H256;
  bc_is_aggregator : bool;
}.

Definition set_store (s : Store D) (b : BlockChainServer) : BlockChainServer :=
  mk_server s (bc_p2p b) (bc_sent b) (bc_key_manager b) (bc_pending_blocks b)
    (bc_pending_block_parents b) (bc_is_aggregator b).
Definition set_p2p (x : bool) (b : BlockChainServer) : BlockChainServer :=
  mk_server (bc_store b) x (bc_sent b) (bc_key_manager b) (bc_pending_blocks b)
    (bc_pending_block_parents b) (bc_is_aggregator b).
Definition set_sent (x : list P2PMessage) (b : BlockChainServer) : BlockChainServer :=
  mk_server (bc_store b) (bc_p2p b) x (bc_key_manager b) (bc_pending_blocks b)
    (bc_pending_block_parents b) (bc_is_aggregator b).
Definition set_pending_blocks (x : gmap H256 (gset H256)) (b : BlockChainServer) : BlockChainServer :=
  mk_server (bc_store b) (bc_p2p b) (bc_sent b) (bc_key_manager b) x
    (bc_pending_block_parents b) (bc_is_aggregator b).
Definition set_pending_block_parents (x : gmap H256 H256) (b : BlockChainServer) : BlockChainServer :=
  mk_server (bc_store b) (bc_p2p b) (bc_sent b) (bc_key_manager b) (bc_pending_blocks b)
    x (bc_is_aggregator b).

Abbreviation server := BlockChainServer.

(** Run a method of the store. *)
Definition on_store {E A} (m : M (Store D) E A) : M server E A := λ b,
  match m (bc_store b) with
  | Done s a => Done (set_store s b) a
  | Fail s e => Fail (set_store s b) e
  | Panicked => Panicked
  | Diverged => Diverged
  end.
Definition read_store {E A} (f : Store D → partial A) : M server E A := reads (λ b, f (bc_store b)).

(** [if let Some(p2p) = self.p2p { .. }]; a failure to send is logged. *)
Definition send {E} (msg : P2PMessage) : M server E unit :=
  modify (λ b, if bc_p2p b then set_sent (bc_sent b ++ [msg]) b else b).

Definition for_each {S E A : Type} (f : A → M S E unit) (l : list A) : M S E unit :=
  foldM (λ _ a, f a) tt l.

(** ** Blocks *)

Definition request_missing_block {E} (block_root : H256) : M server E unit := send (FetchBlock block_root).

(** [process_block] *)
Definition server_process_block (signed_block : SignedBlockWithAttestation) : M server StoreError unit :=
  ids ← gets (λ b, validator_ids (bc_key_manager b));
  on_store (on_block signed_block ids);;
  read_store head_slot;;
  read_store latest_justified;;
  read_store latest_finalized;;
  mret tt.

(** [pending.entry(parent).or_default().insert(root)] *)
Definition add_pending (parent root : H256) (pending : gmap H256 (gset H256)) : gmap H256 (gset H256) :=
  <[parent := {[ root ]} ∪ default ∅ (pending !! parent)]> pending.

(** The first walk of [process_or_pend_block]: follow the cached ancestors. *)
Fixpoint resolve_ancestor (fuel : nat) (parents : gmap H256 H256) (root : H256) : partial H256 :=
  match fuel with
  | O => Diverge
  | S fuel =>
      match parents !! root with
      | Some ancestor => resolve_ancestor fuel parents ancestor
      | None => Return root
      end
  end.

(** A walk that follows more entries than there are is in a cycle. *)
Definition resolve_fuel (parents : gmap H256 H256) : nat := S (size parents).

(** The second walk: up the stored headers. Returns the stored block to process, if its
    parent's state is available, and otherwise requests the missing one. *)
Fixpoint walk_stored {E} (fuel : nat) (missing_root : H256) :
    M server E (option SignedBlockWithAttestation) :=
  match fuel with
  | O => lift_partial Diverge
  | S fuel =>
      header ← read_store (get_block_header missing_root);
      match header with
      | None => request_missing_block missing_root;; mret None
      | Some header =>
          available ← read_store (has_state (bh_parent_root header));
          if available : bool then
            block ← read_store (get_signed_block missing_root);
            block ← lift_partial (expect_some block);
            mret (Some block)
          else
            modify (λ b, set_pending_blocks
              (add_pending (bh_parent_root header) missing_root (bc_pending_blocks b)) b);;
            modify (λ b, set_pending_block_parents
              (<[missing_root := bh_parent_root header]> (bc_pending_block_parents b)) b);;
            walk_stored fuel (bh_parent_root header)
      end
  end.

(** More steps than stored headers. *)
Definition stored_fuel (s : Store D) : nat :=
  match table_entries (s_backend s) BlockHeaders with
  | Return l => S (length l)
  | _ => 1
  end.

(** [collect_pending_children]; returns the queue. *)
Definition collect_child {E} (queue : list SignedBlockWithAttestation) (block_root : H256) :
    M server E (list SignedBlockWithAttestation) :=
  modify (λ b, set_pending_block_parents (delete block_root (bc_pending_block_parents b)) b);;
  child_block ← read_store (get_signed_block block_root);
  mret (match child_block with Some child => queue ++ [child] | None => queue end).

Definition collect_pending_children {E} (parent_root : H256) (queue : list SignedBlockWithAttestation) :
    M server E (list SignedBlockWithAttestation) :=
  pending ← gets bc_pending_blocks;
  match pending !! parent_root with
  | None => mret queue
  | Some child_roots =>
      modify (set_pending_blocks (delete parent_root pending));;
      foldM collect_child queue (hash_elems child_roots)
  end.

(** [process_or_pend_block]; returns the queue. *)
Definition process_or_pend_block {E} (signed_block : SignedBlockWithAttestation)
    (queue : list SignedBlockWithAttestation) : M server E (list SignedBlockWithAttestation) :=
  let block := bwa_block (sb_message signed_block) in
  let block_root := tree_hash_root block in
  let parent_root := b_parent_root block in
  available ← read_store (has_state parent_root);
  if negb available then
    parents ← gets bc_pending_block_parents;
    missing_root ← lift_partial (resolve_ancestor (resolve_fuel parents) parents parent_root);
    modify (λ b, set_pending_block_parents (<[block_root := missing_root]> (bc_pending_block_parents b)) b);;
    on_store (insert_pending_block block_root signed_block);;
    modify (λ b, set_pending_blocks (add_pending parent_root block_root (bc_pending_blocks b)) b);;
    fuel ← gets (λ b, stored_fuel (bc_store b));
    found ← walk_stored fuel missing_root;
    mret (match found with Some block => queue ++ [block] | None => queue end)
  else
    imported ← swallow (server_process_block signed_block);
    match imported with
    | Some _ => collect_pending_children block_root queue
    | None => mret queue
    end.

(** The [while] loop of [on_block]. *)
Fixpoint cascade {E} (fuel : nat) (queue : list SignedBlockWithAttestation) : M server E unit :=
  match queue with
  | [] => mret tt
  | block :: queue =>
      match fuel with
      | O => lift_partial Diverge
      | S fuel => queue ← process_or_pend_block block queue; cascade fuel queue
      end
  end.

(** Every pending child is processed once, besides the block itself and the stored ancestor
    it may turn out to wait for; that ancestor's chain adds a pending child per header. *)
Definition pending_count (b : server) : nat :=
  map_fold (λ (_ : H256) (roots : gset H256) n, (size roots + n)%nat) 0%nat (bc_pending_blocks b).
Definition cascade_fuel (b : server) : nat := (3 + pending_count b + stored_fuel (bc_store b))%nat.

(** [on_block] *)
Definition server_on_block {E} (signed_block : SignedBlockWithAttestation) : M server E unit :=
  fuel ← gets cascade_fuel;
  cascade fuel [signed_block];;
  on_store prune_old_data.

(** ** Ticks *)

(** [get_our_proposer] *)
Definition get_our_proposer (slot : u64) (b : server) : partial (option u64) :=
  head_state ← head_state (bc_store b);
  let num_validators := to_u64 (len (st_validators head_state)) in
  Return (List.find (λ vid, is_proposer vid slot num_validators) (validator_ids (bc_key_manager b))).

(** [produce_attestations] *)
Definition produce_attestations {E} (slot : u64) : M server E unit :=
  head_state ← read_store head_state;
  let num_validators := to_u64 (len (st_validators head_state)) in
  attestation_data ← read_store (produce_attestation_data slot);
  km ← gets bc_key_manager;
  for_each (λ validator_id,
    if is_proposer validator_id slot num_validators then mret tt
    else
      match sign_attestation km validator_id attestation_data with
      | inl _ => mret tt
      | inr signature =>
          send (PublishAttestation (mk_signed_attestation validator_id attestation_data signature))
      end) (validator_ids km).

(** [propose_block] *)
Definition propose_block {E} (slot validator_id : u64) : M server E unit :=
  produced ← swallow (on_store (produce_block_with_signatures slot validator_id));
  match produced with
  | None => mret tt
  | Some (block, attestation_signatures) =>
      target ← read_store get_attestation_target;
      source ← read_store latest_justified;
      let data := mk_attestation_data slot (mk_checkpoint (tree_hash_root block) (b_slot block)) target source in
      km ← gets bc_key_manager;
      match sign_attestation km validator_id data with
      | inl _ => mret tt
      | inr proposer_signature =>
          attestation_signatures ←
            lift_partial (expect_some (variable_list_new VALIDATOR_REGISTRY_LIMIT attestation_signatures));
          let signed_block := mk_signed_block
            (mk_block_with_attestation block (mk_attestation validator_id data))
            (mk_block_signatures attestation_signatures proposer_signature) in
          processed ← swallow (server_process_block signed_block);
          match processed with
          | None => mret tt
          | Some _ => send (PublishBlock signed_block)
          end
      end
  end.

(** [on_tick] *)
Definition server_on_tick {E} (timestamp_ms : u64) : M server E unit :=
  config ← read_store store_config;
  let genesis_time_ms := wrapping_mul (cc_genesis_time config) (to_u64 1000) in
  let time_since_genesis_ms := saturating_sub timestamp_ms genesis_time_ms in
  let slot := u64_div time_since_genesis_ms MILLISECONDS_PER_SLOT in
  let interval := u64_div (u64_rem time_since_genesis_ms MILLISECONDS_PER_SLOT) MILLISECONDS_PER_INTERVAL in
  head_state ← read_store head_state;
  match st_validators head_state with
  | [] => mret tt
  | _ =>
      proposer_validator_id ←
        (if (u64_val interval =? 0) && (0 <? u64_val slot) then reads (get_our_proposer slot) else mret None);
      is_aggregator ← gets bc_is_aggregator;
      new_aggregates ←
        on_store (on_tick timestamp_ms (bool_decide (is_Some proposer_validator_id)) is_aggregator);
      for_each (λ aggregate, send (PublishAggregatedAttestation aggregate)) new_aggregates;;
      match proposer_validator_id with
      | Some validator_id => propose_block slot validator_id
      | None => mret tt
      end;;
      (if u64_val interval =? 1 then produce_attestations slot else mret tt);;
      read_store safe_target_slot;;
      read_store head_slot;;
      mret tt
  end.

(** ** Handlers *)

(** [on_gossip_attestation], [on_gossip_aggregated_attestation] *)
Definition server_on_gossip_attestation {E} (attestation : SignedAttestation) : M server E unit :=
  is_aggregator ← gets bc_is_aggregator;
  if negb is_aggregator then mret tt
  else
    ids ← gets (λ b, validator_ids (bc_key_manager b));
    swallow (on_store (on_gossip_attestation attestation ids));;
    mret tt.

Definition server_on_gossip_aggregated_attestation {E} (attestation : SignedAggregatedAttestation) :
    M server E unit :=
  swallow (on_store (on_gossip_aggregated_attestation attestation));;
  mret tt.

(** The messages the actor handles; [HandleTick] carries the clock it reads. *)
Inductive Message : Type :=
| HandleTick (timestamp_ms : u64)
| InitP2P
| NewBlock (block : SignedBlockWithAttestation)
| NewAttestation (attestation : SignedAttestation)
| NewAggregatedAttestation (attestation : SignedAggregatedAttestation).

Definition handle {E} (msg : Message) : M server E unit :=
  match msg with
  | HandleTick timestamp_ms => server_on_tick timestamp_ms
  | InitP2P => modify (set_p2p true)
  | NewBlock block => server_on_block block
  | NewAttestation attestation => server_on_gossip_attestation attestation
  | NewAggregatedAttestation attestation => server_on_gossip_aggregated_attestation attestation
  end.

(** [BlockChain::spawn]: the state of the actor when it starts. *)
Definition spawn (store : Store D) (validator_keys : gmap u64 ValidatorSecretKey) (is_aggregator : bool) : server :=
  mk_server store false [] (mk_key_manager validator_keys) ∅ ∅ is_aggregator.

End server.
