(* ===== verification/ServerSpec.v ===== *)
(** Reasoning about the blockchain actor: walks along parents terminate because parents
    have a lower rank; the invariant of the queue of pending blocks; and what one step of
    the cascade of blocks does to it. *)

From S2P Require Import Prelude Types StateTransition Reference StateInvariant Transitions ForkChoice.
From S2P Require Import Backend Keys Signatures PayloadBuffer Store Crypto StoreSpec StoreOps StorePruning StoreMaintenance.
From S2P Require Import ChainInvariant ChainStore Bits ChainRefine ChainClock ChainImport ChainBlocks ChainServer.

(** * Walks along decreasing ranks *)

Section below.
Context {V : Type} (rank : H256 → nat).
Implicit Types (m : gmap H256 V).

(** The number of keys that a walk from [r] may still visit. *)
Definition below m (r : H256) : nat := size (filter (λ kv : H256 * V, (rank kv.1 <= rank r)%nat) m).

Lemma below_size m r : (below m r <= size m)%nat.
Proof. apply map_subseteq_size, map_filter_subseteq. Qed.

Lemma below_step m r r' : is_Some (m !! r) → (rank r' < rank r)%nat → (below m r' < below m r)%nat.
Proof.
  intros [v Hv] Hlt. apply map_subset_size. split.
  - apply map_subseteq_spec. intros k w. rewrite !map_lookup_filter_Some. cbn. intros [? ?]. split; [done|lia].
  - intros Hsub. rewrite map_subseteq_spec in Hsub. specialize (Hsub r v). rewrite !map_lookup_filter_Some in Hsub.
    cbn in Hsub. destruct Hsub as [_ ?]; [by split|lia].
Qed.

End below.

(** The number of entries of the sets of a map. *)
Section entries.
Context `{Countable K} `{Countable A}.
Implicit Types (m : gmap K (gset A)).

Definition count_entries m : nat := map_fold (λ (_ : K) (x : gset A) n, (size x + n)%nat) 0%nat m.

Lemma count_entries_insert m k x : m !! k = None → count_entries (<[k := x]> m) = (size x + count_entries m)%nat.
Proof. intros Hk. unfold count_entries. rewrite map_fold_insert_L; [done| |done]. intros; lia. Qed.

Lemma count_entries_delete m k x : m !! k = Some x → count_entries m = (size x + count_entries (delete k m))%nat.
Proof. intros Hk. rewrite <- (insert_delete_id m k x Hk) at 1. by rewrite count_entries_insert by apply lookup_delete_eq. Qed.

End entries.

Lemma add_pending_lookup p r pending p' :
  default ∅ (add_pending p r pending !! p') = if decide (p = p') then {[ r ]} ∪ default ∅ (pending !! p') else default ∅ (pending !! p').
Proof.
  unfold add_pending. destruct (decide (p = p')) as [->|Hne]; [by rewrite lookup_insert_eq|by rewrite lookup_insert_ne].
Qed.

Lemma add_pending_count p r pending : (count_entries (add_pending p r pending) <= S (count_entries pending))%nat.
Proof.
  unfold add_pending. rewrite <- insert_delete_eq, count_entries_insert by apply lookup_delete_eq.
  destruct (pending !! p) as [x|] eqn:Hp; cbn [from_option id].
  - rewrite (count_entries_delete pending p x Hp). pose proof (size_union_alt {[ r ]} x) as Hsize.
    assert (size ({[ r ]} : gset H256) = 1%nat) by apply size_singleton.
    pose proof (subseteq_size (x ∖ {[ r ]}) x ltac:(set_solver)). lia.
  - rewrite delete_id by done. assert (size ({[ r ]} ∪ ∅ : gset H256) = 1%nat) by (rewrite (right_id_L ∅ (∪)); apply size_singleton).
    lia.
Qed.

(** * Runs of the actor *)

Section achieves.
Context {S E : Type}.

(** [m] returns [Ok], and [Q] holds of the result and the new state. *)
Definition achieves {A} (m : M S E A) (s : S) (Q : A → S → Prop) : Prop := ∃ s' x, m s = Done s' x ∧ Q x s'.

Lemma achieves_bind {A A'} (m : M S E A) (k : A → M S E A') s P Q :
  achieves m s P → (∀ x s', P x s' → achieves (k x) s' Q) → achieves (m ≫= k) s Q.
Proof.
  intros (s1 & x & Hm & HP) Hk. destruct (Hk x s1 HP) as (s2 & y & Hk2 & HQ). exists s2, y. by rewrite run_bind, Hm.
Qed.

Lemma achieves_ret {A} (x : A) s (Q : A → S → Prop) : Q x s → achieves (mret x) s Q.
Proof. intros HQ. by exists s, x. Qed.

Lemma achieves_reads {A A'} (f : S → partial A) (k : A → M S E A') s x Q :
  f s = Return x → achieves (k x) s Q → achieves (reads f ≫= k) s Q.
Proof. intros Hf (s' & y & Hk & HQ). exists s', y. by rewrite run_bind, run_reads, Hf. Qed.

Lemma achieves_gets {A A'} (f : S → A) (k : A → M S E A') s Q : achieves (k (f s)) s Q → achieves (gets f ≫= k) s Q.
Proof. intros (s' & y & Hk & HQ). by exists s', y. Qed.

Lemma achieves_modify {A'} f (k : unit → M S E A') s Q : achieves (k tt) (f s) Q → achieves (modify f ≫= k) s Q.
Proof. intros (s' & y & Hk & HQ). by exists s', y. Qed.

Lemma achieves_mono {A} (m : M S E A) s (P Q : A → S → Prop) :
  (∀ x s', P x s' → Q x s') → achieves m s P → achieves m s Q.
Proof. intros Himp (s' & x & Hm & HP). exists s', x. auto. Qed.

End achieves.

(** * The invariant *)

(** Headers refer to their parents by hash, so there is no cycle of parents among them
    without a hash collision; the rank of a root witnesses this. *)
Class RankedHeaders `{Hashing} (seen : BlockHeader → Prop) := {
  rank : H256 → nat;
  rank_parent h : seen h → (rank (bh_parent_root h) < rank (tree_hash_root h))%nat;
}.

Definition block_of (sb : SignedBlockWithAttestation) : Block := bwa_block (sb_message sb).

Section invariant.
Context `{STL : SszTypesLaws} `{SL : StorageLaws D B} `{CO : Codecs} {CL : CodecsLaws} `{HS : Hashing} {HL : HashingLaws}.
Context `{HOL : HashOrderLaws} `{MS : MultisigScheme}.
Context (seen : BlockHeader → Prop) {HSeen : HeadersSeen seen} {HR : RankedHeaders seen} (anchor : N).
Implicit Types (s : Store D) (a : View) (b : BlockChainServer (D := D)).

Definition root_of (sb : SignedBlockWithAttestation) : H256 := tree_hash_root (block_of sb).

(** A block that may reach the node: its header is one of those seen, its body does not
    collide with the empty body, and its slots fit 32 bits. *)
Record seen_block (sb : SignedBlockWithAttestation) : Prop := {
  sn_header : seen (block_header (block_of sb));
  sn_body : no_empty_collision (b_body (block_of sb));
  sn_slots : slots_fit sb;
}.

(** A stored header comes with its signed block, except the anchor's. *)
Record blocks_ok a : Prop := {
  bk_block r h sb : vw_headers a !! r = Some h → view_signed_block a r = Some sb →
    block_header (block_of sb) = h ∧ seen_block sb;
  bk_stored r h : vw_headers a !! r = Some h →
    is_Some (view_signed_block a r) ∨ ∃ st, processed a r st ∧ u64_val (header_slot st) = anchor;
}.

(** [r] waits for [p]. *)
Definition waits b (p r : H256) : Prop := r ∈ default ∅ (bc_pending_blocks b !! p).

Record server_core b a : Prop := {
  si_store : represents (bc_store b) a;
  si_chain : chain_inv seen anchor a;
  si_blocks : blocks_ok a;
  si_pending p r : waits b p r → ∃ h, vw_headers a !! r = Some h ∧ bh_parent_root h = p;
  si_parents r m : bc_pending_block_parents b !! r = Some m → (rank m < rank r)%nat;
  si_data r d : vw_data a !! r = Some d → ad_slot d < 2 ^ 32;
}.

(** No block waits for a processed parent. *)
Definition queue_settled b a : Prop := ∀ p, is_Some (bc_pending_blocks b !! p) → vw_states a !! p = None.

(** [b'] over [a'] keeps the invariant, and a settled queue. *)
Definition keeps b a b' a' : Prop := server_core b' a' ∧ (queue_settled b a → queue_settled b' a').

Lemma keeps_refl b a : server_core b a → keeps b a b a.
Proof. by split. Qed.

Lemma keeps_trans b1 a1 b2 a2 b3 a3 : keeps b1 a1 b2 a2 → keeps b2 a2 b3 a3 → keeps b1 a1 b3 a3.
Proof. intros [_ H12] [? H23]. split; [done|auto]. Qed.

Record same_actor b b' : Prop := {
  ac_p2p : bc_p2p b' = bc_p2p b;
  ac_keys : bc_key_manager b' = bc_key_manager b;
  ac_aggregator : bc_is_aggregator b' = bc_is_aggregator b;
}.

#[global] Instance same_actor_refl : Reflexive same_actor.
Proof. by split. Qed.
#[global] Instance same_actor_trans : Transitive same_actor.
Proof. intros b1 b2 b3 [] []. split; congruence. Qed.

(** ** Writing a block *)

Lemma seen_root sb : tree_hash_root (block_header (block_of sb)) = root_of sb.
Proof. symmetry. apply hash_block_as_header. Qed.

Lemma written_header a sb r h :
  chain_core seen anchor a → seen_block sb → vw_headers a !! r = Some h →
  vw_headers (view_write_block (root_of sb) sb a) !! r = Some h.
Proof.
  intros Hc Hs Hh. cbn. destruct (decide (root_of sb = r)) as [<-|Hne]; [|by rewrite lookup_insert_ne].
  rewrite lookup_insert_eq. f_equal. destruct (cc_headers _ _ a Hc _ _ Hh) as [Hseen Hr].
  apply seen_inj; [apply Hs|done|]. exact (eq_trans (seen_root sb) (eq_sym Hr)).
Qed.

Lemma write_chain_inv a sb :
  chain_inv seen anchor a → seen_block sb → chain_inv seen anchor (view_write_block (root_of sb) sb a).
Proof.
  intros [Hc Hh] Hs. split; [|exact Hh].
  pose proof (λ r h, written_header a sb r h Hc Hs) as Hkeep. destruct Hc. split; try done.
  - intros r h. cbn. rewrite lookup_insert_Some. intros [[<- <-]|[_ Hr]]; [|by apply cc_headers].
    split; [apply Hs|apply seen_root].
  - intros r st Hp. destruct (cc_states r st Hp). split; try done. by apply Hkeep.
Qed.

Lemma blocks_ok_write a sb : blocks_ok a → seen_block sb → blocks_ok (view_write_block (root_of sb) sb a).
Proof.
  intros [Hblock Hstored] Hs. split.
  - intros r h sb'. destruct (decide (r = root_of sb)) as [->|Hne].
    + rewrite written_block by apply Hs. cbn. rewrite lookup_insert_eq. by intros [= <-] [= <-].
    + rewrite written_other by done. cbn. rewrite lookup_insert_ne by done. apply Hblock.
  - intros r h. destruct (decide (r = root_of sb)) as [->|Hne].
    + rewrite written_block by apply Hs. by left.
    + rewrite written_other by done. cbn. rewrite lookup_insert_ne by done. apply Hstored.
Qed.

Lemma same_signed_block a a' r : same_blocks a' a → view_signed_block a' r = view_signed_block a r.
Proof. intros [Hh Hb Hs]. unfold view_signed_block. by rewrite Hh, Hb, Hs. Qed.

Lemma blocks_ok_same a a' : same_blocks a' a → vw_states a ⊆ vw_states a' → blocks_ok a → blocks_ok a'.
Proof.
  intros Hs Hsub [Hblock Hstored]. split.
  - intros r h sb. rewrite (same_signed_block a a') by done. rewrite (sb_headers _ _ Hs). apply Hblock.
  - intros r h. rewrite (same_signed_block a a') by done. rewrite (sb_headers _ _ Hs). intros Hh.
    destruct (Hstored r h Hh) as [|(st & Hp & Hst)]; [by left|right]. exists st. split; [|done].
    by eapply lookup_weaken.
Qed.

(** ** How the store grows *)

(** [a'] comes from [a] by importing valid blocks: states and checkpoints change in no
    other way. *)
Inductive grown : View → View → Prop :=
| grown_same a a' :
    vw_states a' = vw_states a → vw_justified a' = vw_justified a → vw_finalized a' = vw_finalized a → grown a a'
| grown_block a sb st a' :
    seen_block sb → block_valid a sb st → block_imported seen anchor a sb st a' → grown a a'
| grown_trans a1 a2 a3 : grown a1 a2 → grown a2 a3 → grown a1 a3.

#[global] Instance grown_refl : Reflexive grown.
Proof. intros a. by apply grown_same. Qed.
#[global] Instance grown_transitive : Transitive grown.
Proof. intros a1 a2 a3. apply grown_trans. Qed.

Lemma grown_view a a' : same_chain_view a a' → grown a a'.
Proof. intros []. by apply grown_same. Qed.

End invariant.
