(* ===== verification/ServerSteps.v ===== *)
(** The steps of the cascade of blocks: the walks to a missing ancestor end, pending a
    block and collecting children keep the invariant of the actor, and a processed block
    is imported exactly when it is valid. *)

From S2P Require Import Prelude Types StateTransition Reference StateInvariant Transitions ForkChoice.
From S2P Require Import Backend Keys Signatures PayloadBuffer Store Crypto StoreSpec StoreOps StorePruning StoreMaintenance.
From S2P Require Import ChainInvariant ChainStore Bits ChainRefine ChainClock ChainImport ChainBlocks ChainServer ServerSpec.

Section steps.
Context `{STL : SszTypesLaws} `{SL : StorageLaws D B} `{CO : Codecs} {CL : CodecsLaws} `{HS : Hashing} {HL : HashingLaws}.
Context `{HOL : HashOrderLaws} `{MS : MultisigScheme}.
Context (seen : BlockHeader → Prop) {HSeen : HeadersSeen seen} {HR : RankedHeaders seen} (anchor : N).
Context {E : Type}.
Implicit Types (s : Store D) (a : View) (b : BlockChainServer (D := D)).

Abbreviation core := (server_core seen anchor).
Abbreviation keeps := (keeps seen anchor).

(** A block whose parent is processed. *)
Definition ready a (sb : SignedBlockWithAttestation) : Prop :=
  seen_block seen sb ∧ is_Some (vw_states a !! b_parent_root (block_of sb)).

(** * The walks *)

Lemma resolve_ancestor_spec (parents : gmap H256 H256) fuel :
  (∀ r m, parents !! r = Some m → (rank m < rank r)%nat) → ∀ root, (below rank parents root < fuel)%nat →
  ∃ m, resolve_ancestor fuel parents root = Return m ∧ (rank m <= rank root)%nat.
Proof.
  intros Hp. induction fuel as [|fuel IH]; intros root Hlt; [lia|]. cbn.
  destruct (parents !! root) as [m|] eqn:Hm; [|by exists root].
  pose proof (Hp _ _ Hm) as Hrank. destruct (IH m) as (m' & Hrun & Hle).
  - pose proof (below_step rank parents root m (mk_is_Some _ _ Hm) Hrank). lia.
  - exists m'. split; [done|lia].
Qed.

(** Only the queue of [b'] differs from that of [b]. *)
Definition same_store b b' : Prop := bc_store b' = bc_store b ∧ same_actor b b'.

Lemma core_same b b' a :
  bc_store b' = bc_store b → core b a →
  (∀ p r, waits b' p r → ∃ h, vw_headers a !! r = Some h ∧ bh_parent_root h = p) →
  (∀ r m, bc_pending_block_parents b' !! r = Some m → (rank m < rank r)%nat) → core b' a.
Proof. intros Hs [] ??. split; [by rewrite Hs|done..]. Qed.

Lemma waits_add p r b p' r' :
  waits (set_pending_blocks (add_pending p r (bc_pending_blocks b)) b) p' r' ↔ (p' = p ∧ r' = r) ∨ waits b p' r'.
Proof.
  unfold waits. cbn. rewrite add_pending_lookup. destruct (decide (p = p')) as [->|Hne]; [|naive_solver].
  rewrite elem_of_union, elem_of_singleton. naive_solver.
Qed.

(** Register a stored block as waiting for its unprocessed parent. *)
Lemma add_pending_keeps b a p r m h :
  core b a → vw_headers a !! r = Some h → bh_parent_root h = p → vw_states a !! p = None → (rank m < rank r)%nat →
  keeps b a (set_pending_block_parents (<[r := m]> (bc_pending_block_parents b))
    (set_pending_blocks (add_pending p r (bc_pending_blocks b)) b)) a.
Proof.
  intros Hc Hh Hp Hno Hrank. split.
  - eapply core_same; [|exact Hc| |]; [done| |].
    + intros p' r' Hw. apply waits_add in Hw as [[-> ->]|Hw]; [by exists h|by apply (si_pending _ _ _ _ Hc)].
    + intros r' m'. cbn. rewrite lookup_insert_Some. intros [[<- <-]|[_ Hm]]; [done|by apply (si_parents _ _ _ _ Hc)].
  - intros Hs p' Hw. cbn in Hw. unfold add_pending in Hw. destruct (decide (p = p')) as [->|Hne]; [done|].
    rewrite lookup_insert_ne in Hw by done. by apply Hs.
Qed.

(** The anchor's parent is not processed. *)
Lemma stored_block_available b a r h :
  core b a → vw_headers a !! r = Some h → is_Some (vw_states a !! bh_parent_root h) →
  ∃ sb, view_signed_block a r = Some sb ∧ ready a sb ∧ root_of sb = r.
Proof.
  intros Hc Hh [pst Hp]. pose proof (ci_core _ _ a (si_chain _ _ _ _ Hc)) as Hch.
  destruct (si_blocks _ _ _ _ Hc) as [Hblock Hstored].
  destruct (Hstored r h Hh) as [[sb Hsb]|(st & Hst & Hslot)].
  - exists sb. split; [done|]. destruct (Hblock r h sb Hh Hsb) as [<- Hs]. split.
    + split; [done|]. exists pst. exact Hp.
    + rewrite <- seen_root. by apply (cc_headers _ _ a Hch).
  - exfalso. destruct (cc_states _ _ a Hch r st Hst) as [_ _ _ Hhead _ _].
    assert (h = header_of st) as -> by congruence.
    destruct (processed_root seen anchor a _ pst Hch Hp) as [Hseen Hroot].
    pose proof (cc_order _ _ a Hch r st (header_of pst) Hst Hseen Hroot) as Hlt.
    pose proof (so_anchor _ _ _ _ (cc_states _ _ a Hch _ pst Hp)) as Hle.
    unfold header_slot in *. change (header_of ?x) with (st_latest_block_header x) in *. lia.
Qed.

(** What [walk_stored] leaves behind, from [missing]. *)
Record walked a b (found : option SignedBlockWithAttestation) b' : Prop := {
  wk_inv : keeps b a b' a;
  wk_same : same_store b b';
  wk_waits p r : waits b p r → waits b' p r;
  wk_found : match found with
             | Some sb => ready a sb ∧ is_Some (vw_headers a !! root_of sb) ∧ bc_sent b' = bc_sent b
             | None => ∃ m, vw_headers a !! m = None ∧
                 bc_sent b' = if bc_p2p b then bc_sent b ++ [FetchBlock m] else bc_sent b
             end;
}.

Lemma walk_stored_spec fuel a : ∀ b missing,
  core b a → (below rank (vw_headers a) missing < fuel)%nat →
  achieves (walk_stored fuel missing : M _ E _) b (λ found b',
    walked a b found b' ∧ (pending_count b' <= pending_count b + below rank (vw_headers a) missing)%nat).
Proof.
  induction fuel as [|fuel IH]; intros b missing Hi Hfuel; [lia|]. cbn [walk_stored].
  pose proof (si_store _ _ _ _ Hi) as Hr.
  eapply achieves_reads; [by apply get_block_header_refines|].
  destruct (vw_headers a !! missing) as [h|] eqn:Hh.
  2:{ unfold request_missing_block, send. apply achieves_modify, achieves_ret.
      destruct (bc_p2p b) eqn:Hp2p.
      - split; [split|apply Nat.le_add_r].
        + destruct Hi. by split; [split|].
        + by split.
        + done.
        + exists missing. by rewrite Hp2p.
      - split; [split|apply Nat.le_add_r]; [by apply keeps_refl|by split|done|]. exists missing. by rewrite Hp2p. }
  eapply achieves_reads; [by apply has_state_refines|]. case_bool_decide as Hst.
  - destruct (stored_block_available b a missing h) as (sb & Hsb & Hready & Hroot); [done..|].
    eapply achieves_reads; [by apply get_signed_block_refines|]. rewrite Hsb.
    eapply (achieves_reads (λ _, _)); [done|]. apply achieves_ret.
    split; [split; [by apply keeps_refl|by split|done|by rewrite Hroot, Hh]|lia].
  - apply eq_None_not_Some in Hst. apply achieves_modify, achieves_modify.
    destruct (cc_headers _ _ a (ci_core _ _ a (si_chain _ _ _ _ Hi)) _ _ Hh) as [Hseen <-].
    pose proof (rank_parent h Hseen) as Hrank.
    pose proof (below_step rank (vw_headers a) _ _ (mk_is_Some _ _ Hh) Hrank) as Hdec.
    set (b1 := set_pending_block_parents _ _).
    assert (Hi1 : keeps b a b1 a) by (by apply (add_pending_keeps b a _ _ _ h)).
    eapply achieves_mono; [|apply (IH b1 (bh_parent_root h) (proj1 Hi1)); lia].
    intros found b' [[Hi' [Hs' Ha'] Hw' Hf'] Hcount]. split; [split; [by eapply keeps_trans|by split; [|etrans; [|exact Ha']]| |exact Hf']|].
    + intros p r Hw. apply Hw', waits_add. by right.
    + pose proof (add_pending_count (bh_parent_root h) (tree_hash_root h) (bc_pending_blocks b)) as Hadd.
      change (pending_count b1) with (count_entries (add_pending (bh_parent_root h) (tree_hash_root h) (bc_pending_blocks b))) in Hcount.
      change (pending_count b) with (count_entries (bc_pending_blocks b)). lia.
Qed.

(** * Collecting children *)

Record collected a b (root : H256) (children : list SignedBlockWithAttestation) b' : Prop := {
  co_core : core b' a;
  co_same : same_store b b';
  co_sent : bc_sent b' = bc_sent b;
  co_pending : bc_pending_blocks b' = delete root (bc_pending_blocks b);
  co_children : Forall (λ sb, seen_block seen sb ∧ b_parent_root (block_of sb) = root ∧
    is_Some (vw_headers a !! root_of sb)) children;
  co_count : (length children + pending_count b' <= pending_count b)%nat;
  co_all r sb : waits b root r → view_signed_block a r = Some sb → sb ∈ children;
}.

Lemma collect_children_run a (l : list H256) : ∀ b queue, represents (bc_store b) a →
  (foldM collect_child queue l : M _ E _) b =
    Done (set_pending_block_parents (foldl (λ m r, delete r m) (bc_pending_block_parents b) l) b)
      (queue ++ omap (M := list) (view_signed_block a) l).
Proof.
  induction l as [|r l IH]; intros b queue Hr; [by rewrite app_nil_r; destruct b|].
  cbn [foldM]. rewrite run_bind. unfold collect_child at 1. rewrite run_bind, run_modify, run_bind.
  unfold read_store. rewrite run_reads. cbn [bc_store set_pending_block_parents].
  rewrite (get_signed_block_refines _ a r Hr), run_ret, IH by done. cbn [omap list_omap].
  destruct (view_signed_block a r); [by rewrite <- (assoc_L (++))|done].
Qed.

Lemma length_omap {A A'} (f : A → option A') (l : list A) : (length (omap f l) <= length l)%nat.
Proof. induction l as [|x l IH]; [done|]. cbn. destruct (f x); cbn; lia. Qed.

Lemma collect_spec b a root queue :
  core b a →
  achieves (collect_pending_children root queue : M _ E _) b (λ queue' b',
    ∃ children, queue' = queue ++ children ∧ collected a b root children b').
Proof.
  intros Hc. pose proof (si_store _ _ _ _ Hc) as Hr. unfold collect_pending_children. apply achieves_gets.
  destruct (bc_pending_blocks b !! root) as [roots|] eqn:Hroots.
  2:{ apply achieves_ret. exists []. split; [by rewrite app_nil_r|]. split; [done|by split|done| |constructor|cbn; lia|].
      - by rewrite delete_id.
      - intros r sb Hw. unfold waits in Hw. rewrite Hroots in Hw. by apply elem_of_empty in Hw. }
  apply achieves_modify. set (b1 := set_pending_blocks _ b).
  exists (set_pending_block_parents (foldl (λ m r, delete r m) (bc_pending_block_parents b1) (hash_elems roots)) b1).
  eexists. split; [by apply collect_children_run|].
  exists (omap (M := list) (view_signed_block a) (hash_elems roots)). split; [done|].
  assert (Hwait : ∀ r, r ∈ roots ↔ waits b root r) by (intros r; unfold waits; by rewrite Hroots).
  split; [|by split|done|done| | |].
  - eapply core_same; [|exact Hc| |]; [done| |].
    + intros p r Hw. apply (si_pending _ _ _ _ Hc). unfold waits in *. cbn in Hw.
      destruct (decide (p = root)) as [->|Hne]; [by rewrite lookup_delete_eq in Hw; apply elem_of_empty in Hw|].
      by rewrite lookup_delete_ne in Hw.
    + intros r m. cbn. rewrite foldl_delete_lookup. intros [Hm _]. by apply (si_parents _ _ _ _ Hc).
  - apply Forall_forall. intros sb (r & Hin & Hsb)%list_elem_of_omap.
    apply elem_of_hash_elems, Hwait, (si_pending _ _ _ _ Hc) in Hin as (h & Hh & Hp).
    destruct (bk_block _ _ _ (si_blocks _ _ _ _ Hc) r h sb Hh Hsb) as [<- Hs]. split_and!; [done|exact Hp|].
    rewrite <- seen_root, (proj2 (cc_headers _ _ a (ci_core _ _ a (si_chain _ _ _ _ Hc)) _ _ Hh)). by eexists.
  - change (pending_count b) with (count_entries (bc_pending_blocks b)).
    rewrite (count_entries_delete _ _ _ Hroots). pose proof (length_omap (view_signed_block a) (hash_elems roots)) as Hle.
    assert (Hlen : length (hash_elems roots) = size roots).
    { rewrite hash_elems_perm. done. }
    change (pending_count _) with (count_entries (delete root (bc_pending_blocks b))). lia.
  - intros r sb Hw Hsb. apply list_elem_of_omap. exists r. split; [|done]. by apply elem_of_hash_elems, Hwait.
Qed.

(** * Processing a block *)

Lemma is_Some_weaken `{Countable K} {V} (m m' : gmap K V) k : is_Some (m !! k) → m ⊆ m' → is_Some (m' !! k).
Proof. intros [v Hv] Hsub. exists v. by eapply lookup_weaken. Qed.


Lemma set_store_id b : set_store (bc_store b) b = b.
Proof. by destruct b. Qed.

Lemma reported_slots b a (k : M (BlockChainServer (D := D)) StoreError unit) :
  core b a → (read_store head_slot;; read_store latest_justified;; read_store latest_finalized;; k) b = k b.
Proof.
  intros Hc. pose proof (si_store _ _ _ _ Hc) as Hr. pose proof (ci_core _ _ a (si_chain _ _ _ _ Hc)) as Hch.
  destruct (cc_head _ _ a Hch) as [st Hst]. pose proof (so_header _ _ _ _ (cc_states _ _ a Hch _ _ Hst)) as Hh.
  unfold read_store. rewrite run_bind, run_reads, (head_slot_refines _ a _ Hr Hh).
  by rewrite run_bind, run_reads, (latest_justified_refines _ a Hr), run_bind, run_reads, (latest_finalized_refines _ a Hr).
Qed.

Lemma imported_core b a sb st s' a' :
  core b a → seen_block seen sb → vw_states a !! root_of sb = None →
  represents s' a' → block_imported seen anchor a sb st a' → core (set_store s' b) a' ∧ vw_states a ⊆ vw_states a'.
Proof.
  intros Hc Hs Hnew Hr Him. pose proof (ci_core _ _ a (si_chain _ _ _ _ Hc)) as Hch.
  pose proof (bi_written _ _ _ _ _ _ Him) as Hwritten. change (tree_hash_root _) with (root_of sb) in Hwritten.
  assert (Hsub : vw_states a ⊆ vw_states a').
  { rewrite (bi_state _ _ _ _ _ _ Him). by apply insert_subseteq. }
  split; [|exact Hsub]. destruct Hc as [_ Hi Hb Hp Hps Hd]. split; [done|apply Him| | |exact Hps|].
  - eapply blocks_ok_same; [exact Hwritten|exact Hsub|]. by apply blocks_ok_write.
  - intros p r Hw. destruct (Hp p r Hw) as (h & Hh & Hpar). exists h. split; [|done].
    rewrite (sb_headers _ _ Hwritten). by apply (written_header seen anchor).
  - intros r d Hr'. destruct (bi_data _ _ _ _ _ _ Him r d Hr') as [Hold|Hnewd]; [by apply (Hd r)|].
    destruct (sn_slots _ _ Hs) as [Hatts Hprop]. unfold block_data in Hnewd.
    apply elem_of_app in Hnewd as [(att & -> & Hatt)%list_elem_of_fmap| ->%list_elem_of_singleton]; [|exact Hprop].
    rewrite Forall_forall in Hatts. by apply Hatts.
Qed.

Lemma server_process_cases b a sb :
  core b a → seen_block seen sb →
  (is_Some (vw_states a !! root_of sb) ∧ server_process_block sb b = Done b tt) ∨
  (vw_states a !! root_of sb = None ∧
    ((∃ st s' a', block_valid a sb st ∧ server_process_block sb b = Done (set_store s' b) tt ∧
        represents s' a' ∧ block_imported seen anchor a sb st a') ∨
     ((¬ ∃ st, block_valid a sb st) ∧ ∃ e, server_process_block sb b = Fail b e))).
Proof.
  intros Hc Hs. unfold server_process_block. rewrite run_bind, run_gets. cbn beta.
  set (ids := validator_ids _).
  destruct (on_block_cases seen anchor (bc_store b) a sb ids (si_store _ _ _ _ Hc) (si_chain _ _ _ _ Hc)
    (sn_header _ _ Hs) (sn_slots _ _ Hs)) as [[Hknown Hrun]|[Hnew [(st & Hv & s' & [] & a' & Hrun & Hr & Him)|(Hno & e & Hrun)]]].
  - left. split; [done|]. rewrite run_bind. unfold on_store at 1. rewrite Hrun, set_store_id. by apply (reported_slots b a).
  - right. split; [done|]. left. exists st, s', a'. split; [done|]. split; [|done].
    rewrite run_bind. unfold on_store at 1. rewrite Hrun.
    apply (reported_slots (set_store s' b) a'). by apply (imported_core b a sb st).
  - right. split; [done|]. right. split; [done|]. exists e.
    rewrite run_bind. unfold on_store at 1. by rewrite Hrun, set_store_id.
Qed.

(** What processing the ready block [sb] leaves behind, with [children] to be processed. *)
Record processed_block a b sb (children : list SignedBlockWithAttestation) a' b' : Prop := {
  pb_inv : keeps b a b' a';
  pb_actor : same_actor b b';
  pb_sent : bc_sent b' = bc_sent b;
  pb_clock : vw_time a' = vw_time a;
  pb_states : vw_states a ⊆ vw_states a';
  pb_blocks r : view_signed_block a' r = view_signed_block a r ∨ is_Some (vw_states a' !! r);
  pb_children : Forall (λ sb, ready a' sb ∧ is_Some (vw_headers a' !! root_of sb)) children;
  pb_headers r : is_Some (vw_headers a' !! r) → is_Some (vw_headers a !! r) ∨ r = root_of sb;
  pb_count : (length children + pending_count b' <= pending_count b)%nat;
  pb_valid : (∃ st, block_valid a sb st) → is_Some (vw_states a' !! root_of sb);
  pb_invalid : vw_states a !! root_of sb = None → (¬ ∃ st, block_valid a sb st) → b' = b;
  pb_waits p r : waits b p r → waits b' p r ∨
    p = root_of sb ∧ is_Some (vw_states a' !! p) ∧ ∀ child, view_signed_block a' r = Some child → child ∈ children;
  pb_grown : grown seen anchor a a';
}.

Lemma processed_unchanged a b sb :
  core b a → vw_states a !! root_of sb = None → (¬ ∃ st, block_valid a sb st) → processed_block a b sb [] a b.
Proof.
  intros Hi Hnew Hno. split; try done.
  - by left.
  - intros r. by left.
  - intros p r Hw. by left.
Qed.

Lemma collected_processed b a sb children b1 a1 b' :
  core b a → vw_states a ⊆ vw_states a1 → is_Some (vw_states a1 !! root_of sb) →
  (∀ r, r ≠ root_of sb → view_signed_block a1 r = view_signed_block a r) →
  vw_states a1 = vw_states a ∨ (∃ st, vw_states a1 = <[root_of sb := st]> (vw_states a)) →
  (vw_states a !! root_of sb = None → ∃ st, block_valid a sb st) →
  (∀ r, is_Some (vw_headers a1 !! r) → is_Some (vw_headers a !! r) ∨ r = root_of sb) →
  grown seen anchor a a1 → same_actor b b1 → bc_sent b1 = bc_sent b → vw_time a1 = vw_time a → bc_pending_blocks b1 = bc_pending_blocks b →
  collected a1 b1 (root_of sb) children b' → processed_block a b sb children a1 b'.
Proof.
  intros Hc Hsub Hroot Hblocks Hstates Hvalid Hheaders Hgrown Hact Hsent Htime Hpb [Hcore [Hst Hact'] Hsent' Hpend Hch Hcount Hall].
  split; try done.
  - split; [done|]. intros Hset p. rewrite Hpend, lookup_delete_is_Some, Hpb. cbn. intros [Hne Hw].
    pose proof (Hset p Hw) as Hno. destruct Hstates as [->|[st ->]]; [done|]. by rewrite lookup_insert_ne.
  - by etrans.
  - by rewrite Hsent', Hsent.
  - intros r. destruct (decide (r = root_of sb)) as [->|Hne]; [by right|left; by apply Hblocks].
  - eapply Forall_impl; [exact Hch|]. intros sb' (? & Hp & ?). split; [|done]. split; [done|]. by rewrite Hp.
  - unfold pending_count in *. by rewrite Hpb in Hcount.
  - intros Hnew Hno. destruct Hno. by apply Hvalid.
  - intros p r Hw. destruct (decide (p = root_of sb)) as [->|Hne].
    + right. split; [done|]. split; [done|]. intros child. apply Hall. unfold waits in *. by rewrite Hpb.
    + left. unfold waits in *. by rewrite Hpend, lookup_delete_ne, Hpb.
Qed.

Lemma process_ready b a sb queue :
  core b a → ready a sb →
  achieves (process_or_pend_block sb queue : M _ E _) b (λ queue' b', ∃ children a',
    queue' = queue ++ children ∧ processed_block a b sb children a' b').
Proof.
  intros Hc [Hs Hparent]. unfold process_or_pend_block. fold (block_of sb). cbn zeta. fold (root_of sb).
  eapply achieves_reads; [by apply has_state_refines, Hc|]. rewrite bool_decide_eq_true_2 by done. cbn [negb].
  assert (Hsame : ∀ o, server_process_block sb b = o → achieves (imported ← swallow (server_process_block sb);
    match imported with Some _ => collect_pending_children (root_of sb) queue | None => mret queue end : M _ E _) b
      (λ queue' b', ∃ children a', queue' = queue ++ children ∧ processed_block a b sb children a' b')); [|by eapply Hsame].
  intros o Ho. unfold achieves. setoid_rewrite run_bind. unfold swallow. rewrite Ho. subst o.
  destruct (server_process_cases b a sb Hc Hs) as [[Hknown ->]|[Hnew [(st & s' & a' & Hv & -> & Hr & Him)|(Hno & e & ->)]]].
  - destruct (collect_spec b a (root_of sb) queue Hc) as (b' & queue' & Hrun & children & -> & Hcol).
    exists b', (queue ++ children). split; [exact Hrun|]. exists children, a. split; [done|].
    eapply (collected_processed b a sb children b a); try done; [by left| |by left].
    intros Hno. rewrite Hno in Hknown. by destruct Hknown.
  - destruct (imported_core b a sb st s' a' Hc Hs Hnew Hr Him) as [Hc' Hsub].
    destruct (collect_spec (set_store s' b) a' (root_of sb) queue Hc') as (b' & queue' & Hrun & children & -> & Hcol).
    exists b', (queue ++ children). split; [exact Hrun|]. exists children, a'. split; [done|].
    pose proof (bi_state _ _ _ _ _ _ Him) as Hstates. change (tree_hash_root _) with (root_of sb) in Hstates.
    eapply (collected_processed b a sb children (set_store s' b) a'); try done.
    + rewrite Hstates, lookup_insert_eq. by eexists.
    + intros r Hne. rewrite (same_signed_block _ _ _ (bi_written _ _ _ _ _ _ Him)). by apply written_other.
    + right. by exists st.
    + intros _. by exists st.
    + intros r. rewrite (sb_headers _ _ (bi_written _ _ _ _ _ _ Him)). cbn. rewrite lookup_insert_is_Some'.
      intros [Heq|]; [right; by rewrite <- Heq|by left].
    + by apply (grown_block seen anchor a sb st).
    + apply (bi_time _ _ _ _ _ _ Him).
  - exists b, queue. split; [done|]. exists [], a. rewrite app_nil_r. split; [done|]. by apply processed_unchanged.
Qed.

(** * The cascade *)

Lemma valid_parent a a' sb :
  vw_states a ⊆ vw_states a' → is_Some (vw_states a !! b_parent_root (block_of sb)) →
  (∃ st, block_valid a' sb st) → ∃ st, block_valid a sb st.
Proof.
  intros Hsub [pst Hp] (st & parent & post & Hp' & Hv). exists st, parent, post. split; [|done].
  pose proof (lookup_weaken _ _ _ _ Hp Hsub) as Hp2. unfold block_of in *. congruence.
Qed.

(** The blocks of the queue, and those that wait for a block that is processed in the end,
    have been processed if they are valid. *)
Record cascaded a b (queue : list SignedBlockWithAttestation) a' b' : Prop := {
  cd_inv : keeps b a b' a';
  cd_actor : same_actor b b';
  cd_sent : bc_sent b' = bc_sent b;
  cd_clock : vw_time a' = vw_time a;
  cd_states : vw_states a ⊆ vw_states a';
  cd_headers r : is_Some (vw_headers a' !! r) → is_Some (vw_headers a !! r) ∨ ∃ sb, sb ∈ queue ∧ r = root_of sb;
  cd_queue sb : sb ∈ queue → (∃ st, block_valid a' sb st) → is_Some (vw_states a' !! root_of sb);
  cd_kept p r : waits b p r → waits b' p r ∨ is_Some (vw_states a' !! p);
  cd_waiting p r child : queue_settled b a → waits b p r → view_signed_block a r = Some child → is_Some (vw_states a' !! p) →
    (∃ st, block_valid a' child st) → is_Some (vw_states a' !! r);
  cd_grown : grown seen anchor a a';
}.

Lemma waiting_root b a p r child : core b a → waits b p r → view_signed_block a r = Some child → root_of child = r.
Proof.
  intros Hc Hw Hch. destruct (si_pending _ _ _ _ Hc p r Hw) as (h & Hh & _).
  destruct (bk_block _ _ _ (si_blocks _ _ _ _ Hc) r h child Hh Hch) as [Heq _].
  rewrite <- seen_root, Heq. by apply (cc_headers _ _ a (ci_core _ _ a (si_chain _ _ _ _ Hc))).
Qed.

Lemma cascaded_step a b sb queue children a1 b1 a' b' :
  core b a → ready a sb → processed_block a b sb children a1 b1 →
  cascaded a1 b1 (queue ++ children) a' b' → cascaded a b (sb :: queue) a' b'.
Proof.
  intros Hc Hready Hp Hcd. pose proof (cd_states _ _ _ _ _ Hcd) as Hsub1.
  assert (Hsub : vw_states a ⊆ vw_states a') by (etrans; [apply Hp|done]).
  split; try done; [| |by rewrite (cd_sent _ _ _ _ _ Hcd), (pb_sent _ _ _ _ _ _ Hp)| | | | | |].
  - eapply keeps_trans; [apply Hp|apply Hcd].
  - etrans; [apply Hp|apply Hcd].
  - by rewrite (cd_clock _ _ _ _ _ Hcd), (pb_clock _ _ _ _ _ _ Hp).
  - intros r [Hold|(sb' & [Hin|Hin]%elem_of_app & ->)]%(cd_headers _ _ _ _ _ Hcd).
    + apply (pb_headers _ _ _ _ _ _ Hp) in Hold as [| ->]; [by left|right]. exists sb. split; [by left|done].
    + right. exists sb'. split; [by right|done].
    + pose proof (pb_children _ _ _ _ _ _ Hp) as Hch. rewrite Forall_forall in Hch. destruct (Hch _ Hin) as [_ Hst].
      apply (pb_headers _ _ _ _ _ _ Hp) in Hst as [|Heq]; [by left|right]. exists sb. split; [by left|done].
  - intros sb' [->|Hin]%elem_of_cons Hv.
    + apply (is_Some_weaken _ _ _ (pb_valid _ _ _ _ _ _ Hp (valid_parent a a' sb Hsub (proj2 Hready) Hv)) Hsub1).
    + apply (cd_queue _ _ _ _ _ Hcd sb'); [|done]. rewrite elem_of_app. by left.
  - intros p r Hw. destruct (pb_waits _ _ _ _ _ _ Hp p r Hw) as [Hw'|(-> & Hdone & _)].
    + by apply (cd_kept _ _ _ _ _ Hcd).
    + right. by apply (is_Some_weaken _ _ _ Hdone).
  - intros p r child Hset Hw Hch Hproc Hv.
    destruct (pb_blocks _ _ _ _ _ _ Hp r) as [Hsame|Hdone]; [|by apply (is_Some_weaken _ _ _ Hdone)].
    rewrite <- Hsame in Hch. destruct (pb_waits _ _ _ _ _ _ Hp p r Hw) as [Hw'|(-> & _ & Hall)].
    + by apply (cd_waiting _ _ _ _ _ Hcd p r child); [apply (pb_inv _ _ _ _ _ _ Hp)|..].
    + rewrite <- (waiting_root b a _ r child Hc Hw) by congruence.
      apply (cd_queue _ _ _ _ _ Hcd child); [|done]. rewrite elem_of_app. right. by apply Hall.
  - etrans; [apply Hp|apply Hcd].
Qed.

Lemma cascade_ready fuel : ∀ queue b a,
  core b a → Forall (ready a) queue → (length queue + pending_count b <= fuel)%nat →
  achieves (cascade fuel queue : M _ E unit) b (λ _ b', ∃ a', cascaded a b queue a' b').
Proof.
  induction fuel as [|fuel IH]; intros [|sb queue] b a Hi Hq Hfuel; cbn [cascade length] in *.
  1, 3: apply achieves_ret; exists a; split; try done; [by left|by intros sb' ?%not_elem_of_nil|by left|];
    intros p r child Hset Hw _ [st Hst]; exfalso; unfold waits in Hw;
    destruct (bc_pending_blocks b !! p) as [x|] eqn:Hx; [|by apply elem_of_empty in Hw];
    pose proof (Hset p (mk_is_Some _ _ Hx)); congruence.
  - lia.
  - apply Forall_cons in Hq as [Hready Hq]. eapply achieves_bind; [by apply (process_ready b a sb queue Hi Hready)|].
    intros queue' b1 (children & a1 & -> & Hp). pose proof (pb_count _ _ _ _ _ _ Hp) as Hcount.
    eapply achieves_mono; [|apply (IH (queue ++ children) b1 a1)].
    + intros _ b' (a' & Hcd). exists a'. eapply cascaded_step; [done|done|exact Hp|exact Hcd].
    + apply Hp.
    + apply Forall_app. split; [|eapply Forall_impl; [apply Hp|by intros ? []]]. eapply Forall_impl; [exact Hq|]. intros sb' [? Hsome]. split; [done|].
      by apply (is_Some_weaken _ _ _ Hsome), Hp.
    + rewrite length_app. lia.
Qed.

(** * Pending a block *)

Lemma stored_fuel_refines s a : represents s a → stored_fuel s = S (size (vw_headers a)).
Proof.
  intros Hr. unfold stored_fuel.
  destruct (encoded_entries as_ssz_bytes as_ssz_bytes (vw_headers a) (s_backend s) BlockHeaders)
    as (l & Hrun & Hperm); [apply Hr|apply Hr|].
  by rewrite Hrun, length_fmap, Hperm, length_map_to_list.
Qed.

(** The store with the block written, before the walk over stored headers. *)
Lemma pended_keeps b a sb s1 missing :
  core b a → seen_block seen sb → vw_states a !! b_parent_root (block_of sb) = None →
  represents s1 (view_write_block (root_of sb) sb a) → (rank missing < rank (root_of sb))%nat →
  keeps b a (set_pending_blocks (add_pending (b_parent_root (block_of sb)) (root_of sb) (bc_pending_blocks b))
        (set_store s1 (set_pending_block_parents (<[root_of sb := missing]> (bc_pending_block_parents b)) b)))
    (view_write_block (root_of sb) sb a).
Proof.
  intros Hc Hs Hno Hr1 Hrank. pose proof (ci_core _ _ a (si_chain _ _ _ _ Hc)) as Hch. split; [split|].
  - exact Hr1.
  - apply write_chain_inv; [done| |done]. apply Hc.
  - apply blocks_ok_write; [|done]. apply Hc.
  - intros p r Hw. apply (waits_add _ _ (set_store s1 b)) in Hw as [[-> ->]|Hw].
    + exists (block_header (block_of sb)). split; [apply lookup_insert_eq|done].
    + destruct (si_pending _ _ _ _ Hc p r Hw) as (h & Hh & Hp). exists h. split; [|done].
      by apply (written_header seen anchor).
  - intros r m. cbn. rewrite lookup_insert_Some. intros [[<- <-]|[_ Hm]]; [done|by apply (si_parents _ _ _ _ Hc)].
  - intros r d. cbn. apply (si_data _ _ _ _ Hc).
  - intros Hset p Hw. cbn in *. unfold add_pending in Hw. destruct (decide (p = b_parent_root (block_of sb))) as [->|Hne]; [done|].
    rewrite lookup_insert_ne in Hw by done. by apply Hset.
Qed.

(** What pending [sb] leaves behind; [found] is a stored ancestor to be processed. *)
Record pended a b sb (found : option SignedBlockWithAttestation) b' : Prop := {
  pn_inv : keeps b a b' (view_write_block (root_of sb) sb a);
  pn_actor : same_actor b b';
  pn_waits p r : waits b p r ∨ p = b_parent_root (block_of sb) ∧ r = root_of sb → waits b' p r;
  pn_count : (pending_count b' <= pending_count b + 2 + size (vw_headers a))%nat;
  pn_found : match found with
             | Some sb' => ready (view_write_block (root_of sb) sb a) sb' ∧
                 is_Some (vw_headers (view_write_block (root_of sb) sb a) !! root_of sb') ∧ bc_sent b' = bc_sent b
             | None => ∃ m, vw_headers (view_write_block (root_of sb) sb a) !! m = None ∧
                 bc_sent b' = if bc_p2p b then bc_sent b ++ [FetchBlock m] else bc_sent b
             end;
}.

Lemma size_write a sb : (size (vw_headers (view_write_block (root_of sb) sb a)) <= S (size (vw_headers a)))%nat.
Proof. cbn. rewrite map_size_insert. destruct (_ !! _); cbn; lia. Qed.

Lemma pend_block b a sb queue :
  core b a → seen_block seen sb → vw_states a !! b_parent_root (block_of sb) = None →
  achieves (process_or_pend_block sb queue : M _ E _) b (λ queue' b', ∃ found,
    queue' = queue ++ option_list found ∧ pended a b sb found b').
Proof.
  intros Hc Hs Hno.
  unfold process_or_pend_block. fold (block_of sb). cbn zeta. fold (root_of sb).
  eapply achieves_reads; [by apply has_state_refines, Hc|]. rewrite Hno, bool_decide_eq_false_2 by (by intros []).
  cbn [negb]. apply achieves_gets. set (a1 := view_write_block (root_of sb) sb a).
  destruct (resolve_ancestor_spec (bc_pending_block_parents b) (resolve_fuel (bc_pending_block_parents b))
    (si_parents _ _ _ _ Hc) (b_parent_root (block_of sb))) as (missing & Hrun & Hle).
  { unfold resolve_fuel. pose proof (below_size rank (bc_pending_block_parents b) (b_parent_root (block_of sb))). lia. }
  eapply (achieves_reads (λ _, _)); [exact Hrun|]. apply achieves_modify.
  pose proof (rank_parent _ (sn_header _ _ Hs)) as Hrank. rewrite seen_root in Hrank. cbn [block_header bh_parent_root] in Hrank.
  destruct (insert_pending_block_refines (E := E) (bc_store b) a (root_of sb) sb (si_store _ _ _ _ Hc)) as (s1 & Hins & Hr1).
  set (b0 := set_pending_block_parents _ b).
  eapply (achieves_bind _ _ _ (λ _ b', b' = set_store s1 b0)).
  { exists (set_store s1 b0), tt. unfold on_store. cbn [bc_store b0 set_pending_block_parents]. by rewrite Hins. }
  intros _ ? ->. apply achieves_modify, achieves_gets.
  set (b1 := set_pending_blocks _ _).
  assert (Hi1 : keeps b a b1 a1) by (apply (pended_keeps b a sb s1 missing); try done; lia).
  rewrite (stored_fuel_refines _ a1 (si_store _ _ _ _ (proj1 Hi1))).
  eapply achieves_bind.
  { apply (walk_stored_spec _ a1 b1 missing (proj1 Hi1)). pose proof (below_size rank (vw_headers a1) missing). lia. }
  intros found b' [[Hi' [_ Ha'] Hw' Hf'] Hcount]. apply achieves_ret. exists found.
  split; [by destruct found; cbn; rewrite ?app_nil_r|].
  split; [by eapply keeps_trans|by etrans; [|exact Ha']| | |exact Hf'].
  - intros p r Hw. apply Hw', (waits_add _ _ (set_store s1 b0)). naive_solver.
  - pose proof (add_pending_count (b_parent_root (block_of sb)) (root_of sb) (bc_pending_blocks b)) as Hadd.
    change (pending_count b1) with (count_entries (add_pending (b_parent_root (block_of sb)) (root_of sb) (bc_pending_blocks b))) in Hcount.
    change (pending_count b) with (count_entries (bc_pending_blocks b)).
    pose proof (below_size rank (vw_headers a1) missing). pose proof (size_write a sb) as Hsize. fold a1 in Hsize. lia.
Qed.

End steps.
