(* ===== verification/ServerMessages.v ===== *)
(** The handlers of the blockchain actor: what a tick, a gossip message and a block do to
    the invariant of the actor. *)

From S2P Require Import Prelude Types StateTransition Reference StateInvariant Transitions ForkChoice.
From S2P Require Import Backend Keys Signatures PayloadBuffer Store Crypto StoreSpec StoreOps StorePruning StoreMaintenance.
From S2P Require Import ChainInvariant ChainStore Bits ChainRefine ChainClock ChainImport ChainBlocks BlockBuilding ChainVotes BuildSpec ChainProduce.
From S2P Require Import ChainServer ServerSpec ServerSteps.

Section messages.
Context `{STL : SszTypesLaws} `{SL : StorageLaws D B} `{CO : Codecs} {CL : CodecsLaws} `{HS : Hashing} {HL : HashingLaws}.
Context `{HOL : HashOrderLaws} `{MS : MultisigScheme}.
Context (seen : BlockHeader → Prop) {HSeen : HeadersSeen seen} {HR : RankedHeaders seen} (anchor : N).
Context {E : Type}.
Implicit Types (s : Store D) (a : View) (b : BlockChainServer (D := D)).

Abbreviation core := (server_core seen anchor).
Abbreviation keeps := (keeps seen anchor).

(** * Sending *)

(** The state after sending [msgs]: they are dropped while the network is not connected. *)
Definition sends b (msgs : list P2PMessage) : BlockChainServer :=
  if bc_p2p b then set_sent (bc_sent b ++ msgs) b else b.

Lemma sends_nil b : sends b [] = b.
Proof. unfold sends. rewrite app_nil_r. destruct b as [? [] ? ? ? ? ?]; done. Qed.

Lemma sends_app b msgs msgs' : sends (sends b msgs) msgs' = sends b (msgs ++ msgs').
Proof. unfold sends. destruct b as [? [] ? ? ? ? ?]; cbn; [by rewrite (assoc_L (++))|done]. Qed.

Lemma sends_store b msgs : bc_store (sends b msgs) = bc_store b ∧ bc_pending_blocks (sends b msgs) = bc_pending_blocks b.
Proof. unfold sends. by destruct (bc_p2p b). Qed.

Lemma sends_keeps b a msgs : core b a → keeps b a (sends b msgs) a.
Proof. intros []. unfold sends. destruct (bc_p2p b); by split; [split|]. Qed.

Lemma sends_actor b msgs : same_actor b (sends b msgs).
Proof. unfold sends. destruct b as [? [] ? ? ? ? ?]; by split. Qed.

Lemma for_each_sends {A} (f : A → M BlockChainServer E unit) (g : A → list P2PMessage) (l : list A) :
  (∀ x b, f x b = Done (sends b (g x)) tt) → ∀ b, for_each f l b = Done (sends b (l ≫= g)) tt.
Proof.
  intros Hf. unfold for_each. induction l as [|x l IH]; intros b; [by rewrite sends_nil|].
  cbn [foldM]. rewrite run_bind, Hf, IH, sends_app. by rewrite bind_cons.
Qed.

(** * Operations of the store *)

Lemma keeps_view b a s' a' :
  core b a → represents s' a' → chain_inv seen anchor a' → same_chain_view a a' → keeps b a (set_store s' b) a'.
Proof.
  intros [_ _ Hb Hp Hps Hd] Hr Hi Hs. pose proof Hs as [_ Hh Hbo Hsi Hst _ _ _ Hda]. split.
  - split; [done|done| | |done|].
    + apply (blocks_ok_same seen anchor a a'); [by split| |exact Hb]. by rewrite Hst.
    + intros p r Hw. rewrite Hh. by apply Hp.
    + intros r d. rewrite Hda. apply Hd.
  - intros Hset p. rewrite Hst. apply Hset.
Qed.

Lemma on_store_ensures {A} (m : M (Store D) E A) b Q :
  ensures m (bc_store b) Q →
  achieves (on_store m) b (λ x b', ∃ s' a', b' = set_store s' b ∧ represents s' a' ∧ Q x a').
Proof. intros (s' & x & a' & Hm & Hr & HQ). exists (set_store s' b), x. unfold on_store. rewrite Hm. eauto 10. Qed.

Lemma reads_head b a : core b a →
  (∃ st, vw_states a !! vw_head a = Some st ∧ head_state (bc_store b) = Return st) ∧
  (∃ x, head_slot (bc_store b) = Return x) ∧ (∃ x, safe_target_slot (bc_store b) = Return x).
Proof.
  intros Hc. pose proof (si_store _ _ _ _ Hc) as Hr. pose proof (ci_core _ _ a (si_chain _ _ _ _ Hc)) as Hch.
  destruct (cc_head _ _ a Hch) as [st Hst], (cc_safe _ _ a Hch) as [sst Hsst].
  pose proof (so_header _ _ _ _ (cc_states _ _ a Hch _ _ Hst)) as Hh.
  pose proof (so_header _ _ _ _ (cc_states _ _ a Hch _ _ Hsst)) as Hsh.
  split; [|split].
  - exists st. split; [done|]. by apply (head_state_refines _ a).
  - exists (bh_slot (header_of st)). by apply (head_slot_refines _ a).
  - exists (bh_slot (header_of sst)). by apply (safe_target_slot_refines _ a).
Qed.

(** * Attesting *)

(** What validator [vid] sends in a slot. *)
Definition attestation_of (km : KeyManager) (num_validators slot : u64) (d : AttestationData) (vid : u64) : list P2PMessage :=
  if is_proposer vid slot num_validators then []
  else match sign_attestation km vid d with
       | inl _ => []
       | inr signature => [PublishAttestation (mk_signed_attestation vid d signature)]
       end.

Lemma produce_attestations_run b a slot :
  core b a →
  ∃ st d, vw_states a !! vw_head a = Some st ∧ produce_attestation_data slot (bc_store b) = Return d ∧
    (produce_attestations slot : M _ E unit) b =
      Done (sends b (validator_ids (bc_key_manager b) ≫=
        attestation_of (bc_key_manager b) (to_u64 (len (st_validators st))) slot d)) tt.
Proof.
  intros Hc. pose proof (si_store _ _ _ _ Hc) as Hr. pose proof (si_chain _ _ _ _ Hc) as Hi.
  destruct (reads_head b a Hc) as [(st & Hst & Hread) _].
  destruct (produce_attestation_data_spec seen anchor (bc_store b) a Hr (ci_core _ _ a Hi) slot Hi) as (d & _ & Hd & _).
  exists st, d. split_and!; [done..|]. unfold produce_attestations, read_store.
  rewrite run_bind, run_reads, Hread, run_bind, run_reads, Hd, run_bind, run_gets.
  apply for_each_sends. intros vid b'. unfold attestation_of.
  destruct (is_proposer _ _ _); [by rewrite sends_nil|]. by destruct (sign_attestation _ _ _); [rewrite sends_nil|].
Qed.

(** An attestation signed with a key of the key manager verifies under its public key. *)
Lemma signed_attestation_valid `{!SignatureSchemeLaws} km vid d sig :
  ad_slot d < 2 ^ 32 → sign_attestation km vid d = inr sig →
  ∃ sk sg, km_keys km !! vid = Some sk ∧ ValidatorSignature_from_bytes sig = Some sg ∧
    is_valid sg (mk_validator_public_key (leansig_public (vsk_inner sk))) (ad_slot d) (tree_hash_root d) = true.
Proof.
  intros Hslot. unfold sign_attestation, sign_message. destruct (km_keys km !! vid) as [sk|]; [|done].
  assert (as_u32 (ad_slot d) = ad_slot d) as -> by (unfold as_u32; by rewrite N.mod_small).
  destruct (sign sk (ad_slot d) (tree_hash_root d)) as [sg|] eqn:Hs; [|done].
  rewrite fixed_vector_new_spec. destruct (_ =? _); [|done]. intros [= <-]. exists sk, sg. split; [done|].
  split; [|by apply sign_is_valid]. unfold ValidatorSignature_from_bytes, ValidatorSignature_to_bytes.
  rewrite signature_bytes_roundtrip. by destruct sg.
Qed.

(** * Proposing *)

(** The block the node builds for [slot] and [vid] may reach it. *)
Definition own_block_seen s (slot vid : u64) : Prop := ∀ s' block proofs,
  produce_block_with_signatures slot vid s = Done s' (block, proofs) →
  seen (block_header block) ∧ no_empty_collision (b_body block).

(** What a tick builds a block on, if it proposes: the slot of the clock, the validator of
    the node that proposes in it, and the store once its clock has moved. *)
Definition tick_proposal b (timestamp_ms : u64) : option (u64 * u64 * Store D) :=
  match store_config (bc_store b) with
  | Return config =>
      let time_since_genesis_ms := saturating_sub timestamp_ms (wrapping_mul (cc_genesis_time config) (to_u64 1000)) in
      let slot := u64_div time_since_genesis_ms MILLISECONDS_PER_SLOT in
      let interval := u64_div (u64_rem time_since_genesis_ms MILLISECONDS_PER_SLOT) MILLISECONDS_PER_INTERVAL in
      if (u64_val interval =? 0) && (0 <? u64_val slot) then
        match get_our_proposer slot b, (on_tick timestamp_ms true (bc_is_aggregator b) : M _ E _) (bc_store b) with
        | Return (Some vid), Done s _ => Some (slot, vid, s)
        | _, _ => None
        end
      else None
  | _ => None
  end.

(** The block that handling [msg] builds, if it builds one, may reach the node. *)
Definition own_seen b (msg : Message) : Prop :=
  match msg with
  | HandleTick timestamp_ms =>
      match tick_proposal b timestamp_ms with
      | Some (slot, vid, s) => own_block_seen s slot vid
      | None => True
      end
  | _ => True
  end.

(** [P] holds of every message and of the actor that handles it. *)
Fixpoint along_run (P : BlockChainServer (D := D) → Message → Prop) (msgs : list Message) b : Prop :=
  match msgs with
  | [] => True
  | msg :: msgs => P b msg ∧ ∀ b', (handle msg : M _ E unit) b = Done b' tt → along_run P msgs b'
  end.

(** The headers of stored blocks, pending ones included; the retention window of states is
    never full while they are fewer than [STATES_TO_KEEP]. *)
Definition stored_headers b : nat := size (contents (s_backend (bc_store b)) BlockHeaders).
Definition retained (msgs : list Message) b : Prop :=
  along_run (λ b _, (stored_headers b < STATES_TO_KEEP)%nat) msgs b.

(** [m] was sent, or nothing was. *)
Definition sent_at_most b (P : P2PMessage → Prop) b' : Prop :=
  bc_sent b' = bc_sent b ∨ ∃ m, bc_sent b' = bc_sent b ++ [m] ∧ P m.

(** A published block: the node has itself imported it, and unless it was known before, it
    is valid for the states of the store. *)
Record published_block a (slot vid : u64) a' (sb : SignedBlockWithAttestation) : Prop := {
  pu_processed : is_Some (vw_states a' !! root_of sb);
  pu_seen : seen_block seen sb;
  pu_valid : vw_states a !! root_of sb = None → ∃ st, block_valid a sb st;
  pu_slot : b_slot (block_of sb) = slot;
  pu_proposer : b_proposer_index (block_of sb) = vid;
}.

(** Validity depends on the states alone. *)
Lemma block_valid_states a a' sb st :
  vw_states a' !! b_parent_root (block_of sb) = vw_states a !! b_parent_root (block_of sb) →
  block_valid a sb st → block_valid a' sb st.
Proof. intros Heq (parent & post & Hp & Hv). exists parent, post. unfold block_of in Heq. by rewrite Heq. Qed.

(** What proposing leaves behind: only a block that the node has itself imported is
    published. *)
Record proposed a b (slot vid : u64) a' b' : Prop := {
  pp_core : core b' a';
  pp_actor : same_actor b b';
  pp_headers : (size (vw_headers a') <= S (size (vw_headers a)))%nat;
  pp_time : vw_time a <= vw_time a';
  pp_sent : sent_at_most b (λ m, ∃ sb, m = PublishBlock sb ∧ published_block a slot vid a' sb) b';
  pp_grown : grown seen anchor a a';
}.

Lemma run_swallow {S E' E2 A A'} (m : M S E' A) (k : option A → M S E2 A') (x : S) :
  (swallow m ≫= k) x = match m x with
    | Done x' y => k (Some y) x'
    | Fail x' _ => k None x'
    | Panicked => Panicked
    | Diverged => Diverged
    end.
Proof. unfold swallow. rewrite run_bind. by destruct (m x). Qed.

Lemma run_on_store {E' A} (m : M (Store D) E' A) b :
  on_store m b = match m (bc_store b) with
    | Done s x => Done (set_store s b) x
    | Fail s e => Fail (set_store s b) e
    | Panicked => Panicked
    | Diverged => Diverged
    end.
Proof. done. Qed.

Lemma proposed_idle a b slot vid a1 s1 :
  keeps b a (set_store s1 b) a1 → same_chain_view a a1 → vw_time a <= vw_time a1 →
  proposed a b slot vid a1 (set_store s1 b).
Proof. intros [Hc _] Hs Ht. split; [done|by split|rewrite (sv_headers _ _ Hs); lia|done|by left|by apply grown_view]. Qed.

(** The signed block of [propose_block] may reach the node. *)
Lemma signed_block_seen b a s1 slot vid block proofs d sig :
  core b a → own_block_seen (bc_store b) slot vid → u64_val (ad_slot d) < 2 ^ 32 →
  produce_block_with_signatures slot vid (bc_store b) = Done s1 (block, proofs) →
  (∀ agg, agg ∈ bb_attestations (b_body block) → ∃ r, vw_data a !! r = Some (aa_data agg)) →
  seen_block seen (mk_signed_block (mk_block_with_attestation block (mk_attestation vid d)) (mk_block_signatures proofs sig)).
Proof.
  intros Hc Hown Hslot Hrun Hfrom. destruct (Hown _ _ _ Hrun) as [Hseen Hbody]. split; [done|done|].
  split; [|exact Hslot]. apply Forall_forall. intros agg (r & Hr)%Hfrom. by apply (si_data _ _ _ _ Hc r).
Qed.

Lemma published_proposed a b slot vid a1 s1 sb a' b' :
  same_chain_view a a1 → vw_time a <= vw_time a1 → vw_time a' = vw_time a1 → core b' a' → same_actor (set_store s1 b) b' →
  bc_sent b' = bc_sent b → (size (vw_headers a') <= S (size (vw_headers a1)))%nat → published_block a slot vid a' sb →
  grown seen anchor a1 a' → proposed a b slot vid a' (sends b' [PublishBlock sb]).
Proof.
  intros Hs Ht Ht' Hc Hact Hsent Hsize Hpub Hgrown. split.
  - by apply sends_keeps.
  - etrans; [|apply sends_actor]. by destruct Hact.
  - by rewrite <- (sv_headers _ _ Hs).
  - by rewrite Ht'.
  - unfold sends, sent_at_most. destruct (bc_p2p b'); cbn [bc_sent set_sent]; rewrite Hsent; [right|by left].
    eexists. split; [done|]. by exists sb.
  - etrans; [by apply grown_view|done].
Qed.

Lemma propose_block_proposed b a slot vid :
  core b a → own_block_seen (bc_store b) slot vid → u64_val slot < 2 ^ 32 →
  achieves (propose_block slot vid : M _ E unit) b (λ _ b', ∃ a', proposed a b slot vid a' b').
Proof.
  intros Hc Hown Hslot. pose proof (si_store _ _ _ _ Hc) as Hr. pose proof (si_chain _ _ _ _ Hc) as Hi.
  destruct (produce_block_cases seen anchor (bc_store b) a slot vid Hr Hi)
    as (s1 & a1 & st & Hr1 & Hi1 & Hs1 & Ht1 & Hst & Hcases).
  pose proof (keeps_view b a s1 a1 Hc Hr1 Hi1 Hs1) as Hk1.
  unfold propose_block, achieves. rewrite run_swallow, run_on_store.
  destruct Hcases as [(_ & block & post & proofs & Hrun & _ & Hbslot & Hbvid & _ & _ & Hlen & Hfrom)|(_ & e & Hrun)].
  2:{ rewrite Hrun. exists (set_store s1 b), tt. split; [done|]. exists a1. by apply proposed_idle. }
  rewrite Hrun. cbn beta iota.
  destruct (get_attestation_target_spec seen anchor s1 a1 Hr1 (ci_core _ _ a1 Hi1)) as (target & Htarget & _).
  unfold read_store. rewrite run_bind, run_reads. cbn [bc_store set_store]. rewrite Htarget.
  rewrite run_bind, run_reads. cbn [bc_store set_store]. rewrite (latest_justified_refines s1 a1 Hr1), run_bind, run_gets.
  cbn beta iota zeta. set (d := mk_attestation_data slot _ target _).
  destruct (sign_attestation _ vid d) as [err|sig].
  { exists (set_store s1 b), tt. split; [done|]. exists a1. by apply proposed_idle. }
  rewrite run_bind, run_lift_partial, variable_list_new_spec, (proj2 (N.leb_le _ _) Hlen). cbn [expect_some].
  rewrite run_swallow. set (sb := mk_signed_block _ _).
  assert (Hsb : seen_block seen sb) by (by eapply (signed_block_seen b a s1 slot vid)).
  destruct (server_process_cases seen anchor (set_store s1 b) a1 sb (proj1 Hk1) Hsb)
    as [[Hknown ->]|[Hnew [(st' & s' & a' & Hvalid & -> & Hr' & Him)|(_ & err & ->)]]].
  - exists (sends (set_store s1 b) [PublishBlock sb]), tt. split; [done|]. exists a1.
    apply (published_proposed a b slot vid a1 s1 sb); try done; [apply Hk1|lia|].
    split; try done. rewrite <- (sv_states _ _ Hs1). intros Hno. rewrite Hno in Hknown. by destruct Hknown.
  - destruct (imported_core seen anchor (set_store s1 b) a1 sb st' s' a' (proj1 Hk1) Hsb Hnew Hr' Him) as [Hc' _].
    exists (sends (set_store s' (set_store s1 b)) [PublishBlock sb]), tt. split; [done|]. exists a'.
    apply (published_proposed a b slot vid a1 s1 sb); try done.
    + apply (bi_time _ _ _ _ _ _ Him).
    + rewrite (sb_headers _ _ (bi_written _ _ _ _ _ _ Him)). apply size_write.
    + split; try done.
      * pose proof (bi_state _ _ _ _ _ _ Him) as ->. rewrite lookup_insert_eq. by eexists.
      * intros _. exists st'. eapply block_valid_states; [|exact Hvalid]. by rewrite (sv_states _ _ Hs1).
    + by apply (grown_block seen anchor a1 sb st').
  - exists (set_store s1 b), tt. split; [done|]. exists a1. by apply proposed_idle.
Qed.

(** * Ticks *)

(** What a message leaves behind: the invariant, the settings, at most one more block, and
    a clock that has not gone back. *)
Record handled a b a' b' : Prop := {
  hd_core : core b' a';
  hd_keys : bc_key_manager b' = bc_key_manager b;
  hd_size : (size (vw_headers a') <= S (size (vw_headers a)))%nat;
  hd_clock : vw_time a <= vw_time a';
  hd_grown : grown seen anchor a a';
}.

Lemma our_proposer b a slot (cond : bool) :
  core b a →
  achieves (if cond then reads (get_our_proposer slot) else mret None : M _ E _) b (λ o b',
    b' = b ∧ ∀ vid, o = Some vid → cond = true ∧ get_our_proposer slot b = Return (Some vid)).
Proof.
  intros Hc. destruct cond; [|by apply achieves_ret].
  destruct (reads_head b a Hc) as [(st & _ & Hread) _]. unfold achieves. rewrite run_reads.
  unfold get_our_proposer. rewrite Hread. cbn [mbind partial_bind]. eexists _, _. split; [done|]. split; [done|].
  by intros vid ->.
Qed.

Lemma propose_handled b a slot o :
  core b a → (∀ vid, o = Some vid → own_block_seen (bc_store b) slot vid) →
  u64_val slot < 2 ^ 32 →
  achieves (match o with Some vid => propose_block slot vid | None => mret tt end : M _ E unit) b
    (λ _ b', ∃ a', handled a b a' b').
Proof.
  intros Hc Hown Hslot. destruct o as [vid|].
  - eapply achieves_mono; [|apply (propose_block_proposed b a slot vid Hc (Hown vid eq_refl) Hslot)].
    intros _ b' (a' & [Hc' Hact Hsize Ht _ Hg]). exists a'. by split; [|apply Hact| | |].
  - apply achieves_ret. exists a. split; try done; lia.
Qed.

Lemma attest_handled b a slot (cond : bool) :
  core b a → achieves (if cond then produce_attestations slot else mret tt : M _ E unit) b (λ _ b', core b' a ∧ same_actor b b').
Proof.
  intros Hc. destruct cond; [|by apply achieves_ret].
  destruct (produce_attestations_run b a slot Hc) as (st & d & _ & _ & Hrun).
  eexists _, tt. split; [exact Hrun|]. split; [by apply sends_keeps|apply sends_actor].
Qed.

Lemma tick_handled b a timestamp :
  core b a → own_seen b (HandleTick timestamp) → u64_val timestamp < 2 ^ 32 * 4000 →
  achieves (server_on_tick timestamp : M _ E unit) b (λ _ b', ∃ a', handled a b a' b').
Proof.
  intros Hc Hown Hts. pose proof (si_store _ _ _ _ Hc) as Hr. unfold server_on_tick.
  revert Hown. unfold own_seen, tick_proposal. rewrite (store_config_refines _ a Hr). cbn zeta. intros Hown.
  eapply achieves_reads; [by apply (store_config_refines _ a)|]. cbn zeta. set (slot := u64_div _ MILLISECONDS_PER_SLOT) in *.
  assert (Hslot : u64_val slot < 2 ^ 32).
  { assert (Hms : u64_val MILLISECONDS_PER_SLOT = 4000) by (by vm_compute).
    unfold slot, u64_div. rewrite Hms, saturating_sub_val. clear -Hts. lia. }
  clearbody slot. set (interval := u64_div _ MILLISECONDS_PER_INTERVAL) in *. clearbody interval.
  destruct (reads_head b a Hc) as [(st & _ & Hread) _]. eapply achieves_reads; [exact Hread|].
  destruct (st_validators st) as [|v vs].
  { apply achieves_ret. exists a. split; try done; lia. }
  eapply achieves_bind; [by apply (our_proposer b a)|]. intros o ? [-> Ho]. apply achieves_gets.
  destruct (on_tick_ensures (E := E) seen anchor (bc_store b) a timestamp (bool_decide (is_Some o)) (bc_is_aggregator b)
    Hr (si_chain _ _ _ _ Hc)) as (s1 & aggs & a1 & Htick & Hr1 & Hi1 & Hs1 & Ht1).
  assert (Hblock : ∀ vid, o = Some vid → own_block_seen s1 slot vid).
  { intros vid ->. destruct (Ho vid eq_refl) as [Hcond Hvid]. rewrite Hcond, Hvid in Hown.
    rewrite bool_decide_eq_true_2 in Htick by done. by rewrite Htick in Hown. }
  eapply (achieves_bind _ _ _ (λ x b', x = aggs ∧ b' = set_store s1 b)).
  { exists (set_store s1 b), aggs. split; [by rewrite run_on_store, Htick|done]. }
  intros ? ? [-> ->].
  pose proof (keeps_view b a s1 a1 Hc Hr1 Hi1 Hs1) as [Hc1 _].
  eapply (achieves_bind _ _ _ (λ _ b', core b' a1 ∧ same_actor b b' ∧ bc_store b' = s1)).
  { eexists _, tt. split; [apply (for_each_sends _ (λ agg, [PublishAggregatedAttestation agg])); done|].
    split; [by apply sends_keeps|]. split; [etrans; [|apply sends_actor]; by split|]. apply sends_store. }
  intros _ b2 (Hc2 & [_ Hk2 _] & Hst2). eapply achieves_bind.
  { apply (propose_handled b2 a1 slot o Hc2); by rewrite ?Hst2. }
  intros _ b3 (a3 & [Hc3 Hk3 Hsize3 Ht3 Hg3]). eapply achieves_bind; [by apply (attest_handled b3 a3)|].
  intros _ b4 [Hc4 [_ Hk4 _]]. destruct (reads_head b4 a3 Hc4) as (_ & (hs & Hhs) & (ss & Hss)).
  eapply achieves_reads; [exact Hss|]. eapply achieves_reads; [exact Hhs|]. apply achieves_ret.
  exists a3. split; [done|congruence| |lia|by etrans; [apply grown_view|]]. by rewrite <- (sv_headers _ _ Hs1).
Qed.

(** * Gossip *)

(** A store whose blocks are those of [a], with data of slots of 32 bits. *)
Lemma handled_gossip b a s' a' :
  core b a → represents s' a' → chain_inv seen anchor a' → same_blocks a' a → vw_states a' = vw_states a →
  grown seen anchor a a' → vw_time a' = vw_time a → (∀ r d, vw_data a' !! r = Some d → vw_data a !! r = Some d ∨ ad_slot d < 2 ^ 32) →
  handled a b a' (set_store s' b).
Proof.
  intros [_ _ Hb Hp Hps Hd] Hr Hi Hbl Hst Hg Ht Hda. pose proof (sb_headers _ _ Hbl) as Hh. split.
  - split; [done|done| | |done|].
    + apply (blocks_ok_same seen anchor a a'); [done|by rewrite Hst|done].
    + intros p r Hw. rewrite Hh. by apply Hp.
    + intros r d [Hold|]%Hda; [by apply (Hd r)|done].
  - done.
  - rewrite Hh. lia.
  - rewrite Ht. done.
  - done.
Qed.

Lemma handled_refl b a : core b a → handled a b a b.
Proof. intros Hc. split; try done; lia. Qed.

Lemma inserted_data (m : gmap H256 AttestationData) r0 (d0 : AttestationData) r d :
  ad_slot d0 < 2 ^ 32 → <[r0 := d0]> m !! r = Some d → m !! r = Some d ∨ ad_slot d < 2 ^ 32.
Proof. intros Hs. rewrite lookup_insert_Some. intros [[_ <-]|[_ ?]]; auto. Qed.

Lemma gossip_handled b a sa :
  core b a → ad_slot (sa_data sa) < 2 ^ 32 →
  achieves (server_on_gossip_attestation sa : M _ E unit) b (λ _ b', ∃ a', handled a b a' b').
Proof.
  intros Hc Hslot. pose proof (si_chain _ _ _ _ Hc) as Hi. unfold server_on_gossip_attestation. apply achieves_gets.
  destruct (bc_is_aggregator b); cbn [negb]; [|apply achieves_ret; exists a; by apply handled_refl].
  apply achieves_gets. unfold achieves. rewrite run_swallow, run_on_store.
  destruct (on_gossip_attestation_atomic (bc_store b) a sa (validator_ids (bc_key_manager b)) (si_store _ _ _ _ Hc)
    (chain_states_wf seen anchor a Hi) Hslot) as [(_ & s' & [] & a' & -> & Hr' & Hst)|(_ & e & ->)].
  - exists (set_store s' b), tt. split; [done|]. exists a'. pose proof (gossip_stored_inv _ _ _ _ _ _ Hi Hst) as Hi'.
    destruct Hst as (sig & _ & ->). destruct (in_our_subnet _ _);
      (apply handled_gossip; try done; [by apply grown_same|]; cbn; intros r d; by apply inserted_data).
  - exists b, tt. split; [by rewrite set_store_id|]. exists a. by apply handled_refl.
Qed.

Lemma aggregate_handled b a sga :
  core b a → ad_slot (sga_data sga) < 2 ^ 32 →
  achieves (server_on_gossip_aggregated_attestation sga : M _ E unit) b (λ _ b', ∃ a', handled a b a' b').
Proof.
  intros Hc Hslot. pose proof (si_chain _ _ _ _ Hc) as Hi. unfold server_on_gossip_aggregated_attestation, achieves.
  rewrite run_swallow, run_on_store.
  destruct (on_gossip_aggregated_atomic (bc_store b) a sga (si_store _ _ _ _ Hc) (chain_states_wf seen anchor a Hi) Hslot)
    as [(Hv & s' & [] & a' & -> & Hr' & ->)|(_ & e & ->)].
  - exists (set_store s' b), tt. split; [done|]. eexists. apply handled_gossip; try done.
    + by apply aggregate_stored_inv.
    + by apply grown_same.
    + cbn. intros r d. by apply inserted_data.
  - exists b, tt. split; [by rewrite set_store_id|]. exists a. by apply handled_refl.
Qed.

(** * Blocks *)

(** The network was asked for a block the node does not have, or for nothing. *)
Definition asked a b b' : Prop :=
  bc_sent b' = bc_sent b ∨
  ∃ m, vw_headers a !! m = None ∧ bc_sent b' = if bc_p2p b then bc_sent b ++ [FetchBlock m] else bc_sent b.

(** What the cascade of a block leaves behind. *)
Record block_done a b sb a' b' : Prop := {
  bd_keeps : keeps b a b' a';
  bd_actor : same_actor b b';
  bd_clock : vw_time a' = vw_time a;
  bd_states : vw_states a ⊆ vw_states a';
  bd_size : (size (vw_headers a') <= S (size (vw_headers a)))%nat;
  bd_valid : (∃ st, block_valid a sb st) → is_Some (vw_states a' !! root_of sb);
  bd_parent : is_Some (vw_states a !! b_parent_root (block_of sb)) → bc_sent b' = bc_sent b;
  bd_orphan : vw_states a !! b_parent_root (block_of sb) = None →
    (waits b' (b_parent_root (block_of sb)) (root_of sb) ∨ is_Some (vw_states a' !! b_parent_root (block_of sb))) ∧
    asked a' b b';
  bd_waiting p r child : queue_settled b a → r ≠ root_of sb → waits b p r → view_signed_block a r = Some child →
    is_Some (vw_states a' !! p) → (∃ st, block_valid a' child st) → is_Some (vw_states a' !! r);
  bd_grown : grown seen anchor a a';
}.

Lemma size_dom_le (m m' : gmap H256 BlockHeader) x :
  (∀ r, is_Some (m' !! r) → is_Some (m !! r) ∨ r = x) → (size m' <= S (size m))%nat.
Proof.
  intros Hsub. rewrite <- !size_dom. apply (Nat.le_trans _ (size ({[ x ]} ∪ dom m))).
  - apply subseteq_size. intros r. rewrite elem_of_union, elem_of_singleton, !elem_of_dom. intros [?|?]%Hsub; auto.
  - rewrite size_union_alt, size_singleton. pose proof (subseteq_size (dom m ∖ {[x]}) (dom m) ltac:(set_solver)). lia.
Qed.

Lemma ready_done b a sb :
  core b a → ready seen a sb →
  achieves (cascade (cascade_fuel b) [sb] : M _ E unit) b (λ _ b', ∃ a', block_done a b sb a' b').
Proof.
  intros Hc Hready. eapply achieves_mono; [|apply (cascade_ready seen anchor (cascade_fuel b) [sb] b a Hc)].
  - intros _ b' (a' & [Hk Hact Hsent Htime Hsub Hhead Hqueue _ Hwait Hgrown]). exists a'. split; try done.
    + apply (size_dom_le _ _ (root_of sb)). intros r [|(sb' & ->%list_elem_of_singleton & ->)]%Hhead; auto.
    + intros (st & Hv). apply Hqueue; [by left|]. exists st.
      destruct Hv as (parent & post & Hp & Hv). exists parent, post. split; [by eapply lookup_weaken|done].
    + intros Hno. destruct Hready as [_ [pst Hp]]. congruence.
    + intros p r child Hset _. by apply Hwait.
  - by constructor.
  - unfold cascade_fuel. cbn. lia.
Qed.

Lemma orphan_done b a sb :
  core b a → seen_block seen sb → vw_states a !! b_parent_root (block_of sb) = None →
  achieves (cascade (cascade_fuel b) [sb] : M _ E unit) b (λ _ b', ∃ a', block_done a b sb a' b').
Proof.
  intros Hc Hs Hno. set (fuel := (2 + pending_count b + stored_fuel (bc_store b))%nat).
  change (cascade (cascade_fuel b) [sb]) with (queue ← (process_or_pend_block sb [] : M _ E _); cascade fuel queue).
  eapply achieves_bind; [by apply (pend_block seen anchor b a)|].
  intros queue' b1 (found & -> & [Hk1 Hact1 Hw1 Hcount Hfound]). cbn [app].
  set (a1 := view_write_block (root_of sb) sb a) in *. pose proof (stored_fuel_refines _ a (si_store _ _ _ _ Hc)) as Hfuel.
  assert (Hq : Forall (ready seen a1) (option_list found) ∧ (length (option_list found) <= 1)%nat ∧
    ∀ sb', sb' ∈ option_list found → is_Some (vw_headers a1 !! root_of sb')).
  { destruct found as [sb'|]; cbn.
    - destruct Hfound as (? & ? & _). split; [by apply Forall_singleton|split; [done|]]. by intros ? ->%list_elem_of_singleton.
    - split; [by constructor|split; [lia|by intros ? ?%not_elem_of_nil]]. }
  destruct Hq as (Hready & Hlen & Hstored).
  eapply achieves_mono; [|apply (cascade_ready seen anchor fuel (option_list found) b1 a1 (proj1 Hk1) Hready); unfold fuel; lia].
  intros _ b' (a' & [Hk Hact Hsent Htime Hsub Hhead _ Hkept Hwait Hgrown]). exists a'. split.
  - by eapply keeps_trans.
  - by etrans.
  - by rewrite Htime.
  - exact Hsub.
  - apply (size_dom_le _ _ (root_of sb)). intros r Hr.
    assert (Hin : is_Some (vw_headers a1 !! r)) by (destruct (Hhead r Hr) as [|(sb' & Hin & ->)]; [done|by apply Hstored]).
    unfold a1 in Hin. cbn in Hin. apply lookup_insert_is_Some' in Hin as [<-|]; auto.
  - intros (st & parent & post & Hp & _). unfold block_of in *. congruence.
  - intros [pst Hp]. congruence.
  - intros _. split.
    + apply Hkept, Hw1. by right.
    + unfold asked. rewrite Hsent. destruct found as [sb'|]; [left; apply Hfound|right].
      destruct Hfound as (m & Hm & ->). exists m. split; [|done].
      apply eq_None_not_Some. intros [Hsome|(sb' & Hin & _)]%Hhead; [rewrite Hm in Hsome; by destruct Hsome|].
      by apply not_elem_of_nil in Hin.
  - intros p r child Hset Hne Hw Hch. apply (Hwait p r child); [by apply Hk1|apply Hw1; by left|].
    unfold a1. by rewrite written_other.
  - etrans; [by apply (grown_same seen anchor a a1)|done].
Qed.

Lemma cascade_done b a sb :
  core b a → seen_block seen sb →
  achieves (cascade (cascade_fuel b) [sb] : M _ E unit) b (λ _ b', ∃ a', block_done a b sb a' b').
Proof.
  intros Hc Hs. destruct (vw_states a !! b_parent_root (block_of sb)) as [pst|] eqn:Hp.
  - apply ready_done; [done|]. split; [done|]. by eexists.
  - by apply orphan_done.
Qed.

(** The whole handler, while the retention window is not full. *)
Lemma on_block_done b a sb :
  core b a → seen_block seen sb → (size (vw_headers a) < STATES_TO_KEEP)%nat →
  achieves (server_on_block sb : M _ E unit) b (λ _ b', ∃ a', block_done a b sb a' b').
Proof.
  intros Hc Hs Hsize. unfold server_on_block. apply achieves_gets.
  eapply achieves_bind; [by apply (cascade_done b a)|]. intros _ b1 (a1 & Hdone). pose proof (bd_size _ _ _ _ _ Hdone) as Hsize1.
  destruct (bd_keeps _ _ _ _ _ Hdone) as [Hc1 Hset1].
  destruct (prune_old_data_idle (E := E) (bc_store b1) a1 (si_store _ _ _ _ Hc1)) as (s2 & Hrun & Hr2); [lia|].
  exists (set_store s2 b1), tt. rewrite run_on_store, Hrun. split; [done|]. exists a1.
  destruct Hdone as [_ Hact ? ? ? ? ? ? ? ?]. split; try done; [|by destruct Hact].
  split; [by destruct Hc1|exact Hset1].
Qed.

Lemma block_handled b a sb :
  core b a → seen_block seen sb → (size (vw_headers a) < STATES_TO_KEEP)%nat →
  achieves (server_on_block sb : M _ E unit) b (λ _ b', ∃ a', handled a b a' b').
Proof.
  intros Hc Hs Hsize. eapply achieves_mono; [|by apply (on_block_done b a)].
  intros _ b' (a' & Hdone). exists a'. split.
  - apply (bd_keeps _ _ _ _ _ Hdone).
  - apply (bd_actor _ _ _ _ _ Hdone).
  - apply (bd_size _ _ _ _ _ Hdone).
  - by rewrite (bd_clock _ _ _ _ _ Hdone).
  - apply (bd_grown _ _ _ _ _ Hdone).
Qed.

(** * Messages *)

(** What the theorems assume of a message: blocks may reach the node, slots fit 32 bits. *)
Definition message_ok (msg : Message) : Prop :=
  match msg with
  | HandleTick timestamp_ms => u64_val timestamp_ms < 2 ^ 32 * 4000
  | InitP2P => True
  | NewBlock block => seen_block seen block
  | NewAttestation attestation => ad_slot (sa_data attestation) < 2 ^ 32
  | NewAggregatedAttestation attestation => ad_slot (sga_data attestation) < 2 ^ 32
  end.

Lemma handle_handled b a msg :
  core b a → own_seen b msg → message_ok msg → (size (vw_headers a) < STATES_TO_KEEP)%nat →
  achieves (handle msg : M _ E unit) b (λ _ b', ∃ a', handled a b a' b').
Proof.
  intros Hc Hown Hok Hsize. destruct msg; cbn [handle message_ok] in *.
  - by apply tick_handled.
  - exists (set_p2p true b), tt. split; [done|]. exists a. destruct Hc. split; [by split|done|cbn; lia|cbn; lia|done].
  - by apply block_handled.
  - by apply gossip_handled.
  - by apply aggregate_handled.
Qed.

Lemma stored_headers_view b a : core b a → stored_headers b = size (vw_headers a).
Proof.
  intros Hc. unfold stored_headers. rewrite (rep_headers _ _ (si_store _ _ _ _ Hc)). apply (size_encoded _ _ _).
Qed.

Lemma messages_handled msgs : ∀ b a,
  core b a → along_run own_seen msgs b → Forall message_ok msgs → retained msgs b →
  achieves (for_each handle msgs : M _ E unit) b (λ _ b', ∃ a', core b' a' ∧ vw_time a <= vw_time a' ∧ grown seen anchor a a').
Proof.
  unfold for_each, retained. induction msgs as [|msg msgs IH]; intros b a Hc Hown Hok Hkept; cbn [foldM along_run] in *.
  - apply achieves_ret. exists a. split_and!; [done|lia|done].
  - apply Forall_cons in Hok as [Hmsg Hok]. destruct Hown as [Hown Howns], Hkept as [Hkept Hkepts].
    rewrite (stored_headers_view b a Hc) in Hkept.
    destruct (handle_handled b a msg Hc Hown Hmsg Hkept) as (b1 & [] & Hrun & a1 & [Hc1 _ _ Ht1 Hg1]).
    eapply (achieves_bind _ _ _ (λ _ b', b' = b1)); [by exists b1, tt|]. intros [] ? ->.
    eapply achieves_mono; [|by apply (IH b1 a1 Hc1); [apply Howns| |apply Hkepts]].
    intros _ b' (a' & ? & ? & ?). exists a'. split_and!; [done|lia|by etrans].
Qed.

(** Every message adds at most one header, so short runs keep the window open. *)
Lemma short_run_retained msgs : ∀ b a,
  core b a → along_run own_seen msgs b → Forall message_ok msgs →
  (size (vw_headers a) + length msgs <= STATES_TO_KEEP)%nat → retained msgs b.
Proof.
  unfold retained. induction msgs as [|msg msgs IH]; intros b a Hc Hown Hok Hsize; cbn [along_run length] in *; [done|].
  apply Forall_cons in Hok as [Hmsg Hok]. destruct Hown as [Hown Howns]. rewrite (stored_headers_view b a Hc).
  split; [lia|]. intros b1 Hrun.
  destruct (handle_handled b a msg Hc Hown Hmsg ltac:(lia)) as (b' & [] & Hrun' & a1 & [Hc1 _ Hs1 _ _]).
  rewrite Hrun in Hrun'. injection Hrun' as <-. apply (IH b1 a1 Hc1); [by apply Howns|done|lia].
Qed.

End messages.
