(* ===== verification/ServerTheorems.v ===== *)
(** The theorems about the blockchain actor: importing blocks and those that wait for
    them, ticks, votes and proposals, runs of many messages, and the flood of pending
    blocks; with witnesses over a concrete chain. *)

From Stdlib Require Import Strings.Byte.
From S2P Require Import Prelude Types StateTransition Reference StateInvariant Justifiability BlockProcessing Transitions ForkChoice.
From S2P Require Import Backend InMemory Keys Signatures PayloadBuffer Store Crypto StoreSpec StoreOps StorePruning StoreMaintenance Codec.
From S2P Require Import ChainInvariant ChainStore Bits ChainRefine ChainClock ChainImport ChainBlocks BlockBuilding ChainVotes BuildSpec ChainProduce ChainTheorems.
From S2P Require Import ChainServer ServerSpec ServerSteps ServerMessages.

Section theorems.
Context `{STL : SszTypesLaws} `{SL : StorageLaws D B} `{CO : Codecs} {CL : CodecsLaws} `{HS : Hashing} {HL : HashingLaws}.
Context `{HOL : HashOrderLaws} `{MS : MultisigScheme}.
Context (seen : BlockHeader → Prop) {HSeen : HeadersSeen seen} {HR : RankedHeaders seen} (anchor : N).
Context {E : Type}.
Implicit Types (s : Store D) (a : View) (b : BlockChainServer (D := D)).

(** * Lemmas *)

Lemma spawn_core s a keys aggregator :
  represents s a → chain_inv seen anchor a → blocks_ok seen anchor a → (∀ r, vw_data a !! r = None) →
  server_core seen anchor (spawn s keys aggregator) a.
Proof.
  intros Hr Hi Hb Hd. split; [done..| | |].
  - intros p r. unfold waits, spawn. cbn. rewrite lookup_empty. by intros ?%elem_of_empty.
  - done.
  - intros r d. by rewrite Hd.
Qed.

(** In the anchor's store the only header is the anchor's. *)
Lemma anchor_blocks_ok state body :
  anchor_ok seen state → anchor = header_slot state → blocks_ok seen anchor (anchor_view state body).
Proof.
  intros Hok Hslot. split.
  - intros r h sb _. assert (view_signed_block (anchor_view state body) r = None) as ->; [|done].
    unfold view_signed_block. by destruct (vw_headers _ !! r).
  - intros r h. unfold anchor_view. cbn [vw_headers]. intros [<- <-]%lookup_singleton_Some. right. exists (anchored_state state). split; [|done].
    by apply lookup_singleton_Some.
Qed.

(** * Blocks *)

(** C5. The handler of a block, within the retention window, returns without panicking and
    keeps the invariant. States only grow; a valid block is imported. Nothing is requested
    when its parent is processed; otherwise the block waits for its parent, unless the
    parent was stored and got processed, and at most one missing block is requested, one
    whose header the node does not have. No valid block is left waiting for a processed
    parent. *)
Theorem server_on_block_correct b a sb :
  server_core seen anchor b a → seen_block seen sb → (size (vw_headers a) < STATES_TO_KEEP)%nat →
  ∃ b' a', (server_on_block sb : M _ E unit) b = Done b' tt ∧ server_core seen anchor b' a' ∧ same_actor b b' ∧
    vw_states a ⊆ vw_states a' ∧ (size (vw_headers a') <= S (size (vw_headers a)))%nat ∧
    ((∃ st, block_valid a sb st) → is_Some (vw_states a' !! root_of sb)) ∧
    (is_Some (vw_states a !! b_parent_root (block_of sb)) → bc_sent b' = bc_sent b) ∧
    (vw_states a !! b_parent_root (block_of sb) = None →
      (waits b' (b_parent_root (block_of sb)) (root_of sb) ∨ is_Some (vw_states a' !! b_parent_root (block_of sb))) ∧
      asked a' b b') ∧
    (queue_settled b a → queue_settled b' a' ∧ ∀ p r child, r ≠ root_of sb → waits b p r →
      view_signed_block a r = Some child → is_Some (vw_states a' !! p) →
      (∃ st, block_valid a' child st) → is_Some (vw_states a' !! r)).
Proof.
  intros Hc Hs Hsize. destruct (on_block_done (E := E) seen anchor b a sb Hc Hs Hsize) as (b' & [] & Hrun & a' & Hd).
  destruct Hd as [[Hc' Hset] Hact _ Hstates Hgrow Hvalid Hparent Horphan Hwait _]. exists b', a'.
  split_and!; try done. intros Hsettled. split; [by apply Hset|eauto].
Qed.

(** * Runs *)

(** C17. An actor spawned over a fresh anchor store, with any validator keys, handles any sequence
    of messages with slots of 32 bits without panicking or running forever, and ends in a
    state that satisfies the invariant, as long as it stores fewer than 3000 headers, as it
    does for the first 2999 messages. The headers it meets, those of the blocks it builds
    on the way included, are assumed to hash without collision. *)
Theorem actor_runs_safely d state body s keys aggregator msgs :
  db_ok d → (∀ t, contents d t = ∅) → init_store d state body = Return s →
  bh_state_root (st_latest_block_header state) = H256_ZERO ∨
    bh_state_root (st_latest_block_header state) = anchor_root state →
  anchor_ok seen state → anchor = header_slot state →
  along_run (E := E) (own_seen (E := E) seen) msgs (spawn s keys aggregator) → Forall (message_ok seen) msgs →
  (length msgs < STATES_TO_KEEP)%nat ∨ retained (E := E) msgs (spawn s keys aggregator) →
  ∃ b' a', (for_each handle msgs : M _ E unit) (spawn s keys aggregator) = Done b' tt ∧ server_core seen anchor b' a'.
Proof.
  intros Hok Hempty Hinit Hroot Hanchor Hslot Hown Hmsgs Hlen.
  destruct (init_store_refines d state body Hok Hempty Hroot) as (s' & Hrun & Hr).
  rewrite Hrun in Hinit. injection Hinit as ->. set (a := anchor_view state body) in *.
  assert (Hc : server_core seen anchor (spawn s keys aggregator) a).
  { apply spawn_core; [done|by apply anchor_chain_inv|by apply anchor_blocks_ok|]. intros r. apply lookup_empty. }
  assert (Hsize : size (vw_headers a) = 1%nat) by apply map_size_singleton.
  assert (Hkept : retained (E := E) msgs (spawn s keys aggregator)).
  { destruct Hlen as [Hlen|]; [|done]. apply (short_run_retained seen anchor msgs _ a); [done..|lia]. }
  destruct (messages_handled (E := E) seen anchor msgs _ a Hc Hown Hmsgs Hkept) as (b' & [] & Hb & a' & Hc' & _).
  by exists b', a'.
Qed.

(** * Votes *)

(** The vote of validator [vid], unless it proposes or cannot sign. *)
Definition vote_of (km : KeyManager) (n slot : u64) (d : AttestationData) (vid : u64) : option SignedAttestation :=
  if is_proposer vid slot n then None
  else match sign_attestation km vid d with
       | inl _ => None
       | inr signature => Some (mk_signed_attestation vid d signature)
       end.

Lemma votes_of km n slot d ids :
  ids ≫= attestation_of km n slot d = PublishAttestation <$> omap (M := list) (vote_of km n slot d) ids.
Proof.
  induction ids as [|vid ids IH]; [done|]. rewrite bind_cons, IH. unfold attestation_of, vote_of. cbn [omap list_omap].
  destruct (is_proposer _ _ _); [done|]. by destruct (sign_attestation _ _ _).
Qed.

Lemma vote_of_spec km n slot d vid sa :
  vote_of km n slot d vid = Some sa ↔ sa_validator_id sa = vid ∧ sa_data sa = d ∧ is_proposer vid slot n = false ∧
    sign_attestation km vid d = inr (sa_signature sa).
Proof.
  unfold vote_of. destruct (is_proposer _ _ _); [naive_solver|]. destruct (sign_attestation _ _ _) as [e|sig]; [naive_solver|].
  destruct sa as [v d' sig']. cbn. naive_solver.
Qed.

Lemma votes_nodup km n slot d ids : NoDup ids → NoDup (sa_validator_id <$> omap (M := list) (vote_of km n slot d) ids).
Proof.
  induction 1 as [|vid ids Hnot _ IH]; [constructor|]. cbn [omap list_omap].
  destruct (vote_of km n slot d vid) as [sa|] eqn:Hv; [|done]. cbn. constructor; [|done].
  intros (sa' & Heq & (vid' & Hin & Hv')%list_elem_of_omap)%list_elem_of_fmap.
  apply vote_of_spec in Hv as (<- & _), Hv' as (Heq' & _). by rewrite Heq, Heq' in Hnot.
Qed.

(** Attesting: every validator of the key manager that is not the proposer of the slot and
    can sign sends exactly one vote, all for the same valid data of the slot; nothing else
    is sent and the store is untouched. A vote signed with the key registered in the target
    state is one that peers in the same state accept. *)
Theorem produce_attestations_correct `{!SignatureSchemeLaws} b a slot :
  server_core seen anchor b a → bc_p2p b = true → u64_val slot <= vw_time a / 5 + 1 → u64_val slot < 2 ^ 32 →
  ∃ b' st d votes, (produce_attestations slot : M _ E unit) b = Done b' tt ∧ bc_store b' = bc_store b ∧
    vw_states a !! vw_head a = Some st ∧ vote_valid a d ∧ ad_slot d = slot ∧ cp_root (ad_head d) = vw_head a ∧
    bc_sent b' = bc_sent b ++ (PublishAttestation <$> votes) ∧ NoDup (sa_validator_id <$> votes) ∧
    (∀ sa, sa ∈ votes ↔ sa_data sa = d ∧ is_proposer (sa_validator_id sa) slot (to_u64 (len (st_validators st))) = false ∧
      sign_attestation (bc_key_manager b) (sa_validator_id sa) d = inr (sa_signature sa)) ∧
    (∀ sa sk target, sa ∈ votes → km_keys (bc_key_manager b) !! sa_validator_id sa = Some sk →
      vw_states a !! cp_root (ad_target d) = Some target →
      registered (st_validators target) (sa_validator_id sa) (mk_validator_public_key (leansig_public (vsk_inner sk))) →
      gossip_valid a sa).
Proof.
  intros Hc Hp2p Hslot Hslot32. destruct (produce_attestations_run (E := E) seen anchor b a slot Hc) as (st & d & Hst & Hd & Hrun).
  pose proof (si_store _ _ _ _ Hc) as Hr. pose proof (ci_core _ _ a (si_chain _ _ _ _ Hc)) as Hch.
  destruct (produced_vote_cases seen anchor (bc_store b) a Hr Hch slot (si_chain _ _ _ _ Hc) Hslot)
    as (d' & Hd' & Hv & Hs & Hh & _).
  rewrite Hd in Hd'. injection Hd' as <-.
  set (n := to_u64 _) in *. set (votes := omap (M := list) (vote_of (bc_key_manager b) n slot d) (validator_ids (bc_key_manager b))).
  assert (Hvotes : ∀ sa, sa ∈ votes ↔ sa_data sa = d ∧ is_proposer (sa_validator_id sa) slot n = false ∧
    sign_attestation (bc_key_manager b) (sa_validator_id sa) d = inr (sa_signature sa)).
  { intros sa. unfold votes. rewrite list_elem_of_omap. setoid_rewrite vote_of_spec. split; [naive_solver|].
    intros (? & ? & Hsign). exists (sa_validator_id sa). split_and!; try done. apply elem_of_hash_keys.
    unfold sign_attestation, sign_message in Hsign. destruct (km_keys _ !! _); [by eexists|done]. }
  eexists _, st, d, votes. split; [exact Hrun|]. rewrite votes_of. fold votes. split_and!; try done.
  - apply sends_store.
  - unfold sends. by rewrite Hp2p.
  - apply votes_nodup, NoDup_hash_keys.
  - intros sa sk target (<- & _ & Hsign)%Hvotes Hsk Htarget Hreg. split; [done|]. exists target. split; [done|].
    destruct (signed_attestation_valid (bc_key_manager b) (sa_validator_id sa) (sa_data sa) _ ltac:(by rewrite Hs) Hsign)
      as (sk' & sg & Hsk' & Hsg & Hvalid). assert (sk' = sk) as -> by congruence. eauto.
Qed.

(** * Proposals *)

(** Proposing returns without panicking and keeps the invariant; it adds at most one block
    to the store, and sends at most one message, the publication of a block of this slot
    and proposer that the node itself has imported and that, unless it was known before, is
    valid for the states of the store. *)
Theorem propose_block_correct b a slot vid :
  server_core seen anchor b a → own_block_seen seen (bc_store b) slot vid → u64_val slot < 2 ^ 32 →
  ∃ b' a', (propose_block slot vid : M _ E unit) b = Done b' tt ∧ server_core seen anchor b' a' ∧ same_actor b b' ∧
    (size (vw_headers a') <= S (size (vw_headers a)))%nat ∧ vw_time a <= vw_time a' ∧
    sent_at_most b (λ m, ∃ sb, m = PublishBlock sb ∧ published_block seen a slot vid a' sb) b'.
Proof.
  intros Hc Hown Hslot. destruct (propose_block_proposed (E := E) seen anchor b a slot vid Hc Hown Hslot)
    as (b' & [] & Hrun & a' & []). by exists b', a'.
Qed.

End theorems.

(** * The flood of pending blocks *)

Section flood.
Context `{STL : SszTypesLaws} `{SL : StorageLaws D B} `{CO : Codecs} {CL : CodecsLaws} `{HS : Hashing} {HL : HashingLaws}.
Context `{HOL : HashOrderLaws} `{MS : MultisigScheme} {E : Type}.
Implicit Types (a : View) (b : BlockChainServer (D := D)).

Lemma foldl_delete_None {V} (m : gmap H256 V) roots r : r ∈ roots → foldl (λ m r, delete r m) m roots !! r = None.
Proof. intros Hin. apply eq_None_not_Some. intros [v [_ Hnot]%foldl_delete_lookup]. done. Qed.

(** The actor after storing [sb] in [s1] as a block that waits for its unknown parent. *)
Definition pended_actor b (sb : SignedBlockWithAttestation) (s1 : Store D) : BlockChainServer :=
  set_pending_blocks (add_pending (b_parent_root (block_of sb)) (root_of sb) (bc_pending_blocks b))
    (set_store s1 (set_pending_block_parents (<[root_of sb := b_parent_root (block_of sb)]> (bc_pending_block_parents b)) b)).

(** Nothing is known of the parent of [sb]. *)
Record orphaned b a (sb : SignedBlockWithAttestation) : Prop := {
  or_header : vw_headers a !! b_parent_root (block_of sb) = None;
  or_state : vw_states a !! b_parent_root (block_of sb) = None;
  or_pending : bc_pending_block_parents b !! b_parent_root (block_of sb) = None;
}.

(** Such a block is stored without being verified, and its parent asked for. *)
Lemma orphan_pended b a sb s1 :
  represents (bc_store b) a → orphaned b a sb → root_of sb ≠ b_parent_root (block_of sb) →
  insert_pending_block (E := E) (root_of sb) sb (bc_store b) = Done s1 tt → represents s1 (view_write_block (root_of sb) sb a) →
  (cascade (cascade_fuel b) [sb] : M _ E unit) b = Done (sends (pended_actor b sb s1) [FetchBlock (b_parent_root (block_of sb))]) tt.
Proof.
  intros Hr [Hno Hnost Hnot] Hne Hins Hr1. set (a1 := view_write_block _ _ a) in *. set (c0 := pended_actor b sb s1).
  assert (Hhead : (process_or_pend_block sb [] : M _ E _) b = Done (sends c0 [FetchBlock (b_parent_root (block_of sb))]) []).
  { unfold process_or_pend_block. fold (block_of sb). cbn zeta. fold (root_of sb). unfold read_store.
    rewrite run_bind, run_reads, (has_state_refines _ a _ Hr), Hnost, bool_decide_eq_false_2 by (by intros []).
    cbn [negb]. rewrite run_bind, run_gets, run_bind, run_lift_partial. unfold resolve_fuel. cbn [resolve_ancestor]. rewrite Hnot.
    rewrite run_bind, run_modify, run_bind, run_on_store. cbn [bc_store set_pending_block_parents]. rewrite Hins.
    rewrite run_bind, run_modify. match goal with |- context [set_pending_blocks ?x ?y] => change (set_pending_blocks x y) with c0 end.
    rewrite run_bind, run_gets. change (bc_store c0) with s1. rewrite (stored_fuel_refines _ a1 Hr1). cbn [walk_stored].
    unfold read_store. rewrite run_bind, run_bind, run_reads. change (bc_store c0) with s1. rewrite (get_block_header_refines _ a1 _ Hr1).
    assert (Hno1 : vw_headers a1 !! b_parent_root (block_of sb) = None) by (unfold a1; cbn; by rewrite lookup_insert_ne).
    by rewrite Hno1. }
  change (cascade (cascade_fuel b) [sb]) with
    (queue ← (process_or_pend_block sb [] : M _ E _); cascade (2 + pending_count b + stored_fuel (bc_store b)) queue).
  by rewrite run_bind, Hhead.
Qed.

(** The headers of blocks above [slot]. *)
Definition newer (slot : N) a : nat := size (filter (λ kv : H256 * BlockHeader, (slot < bh_slot kv.2)%N) (vw_headers a)).

(** What an orphan leaves behind: its header, and the old states or fewer. *)
Record flooded b a sb b' a' : Prop := {
  fd_store : represents (bc_store b') a';
  fd_parents : bc_pending_block_parents b' = <[root_of sb := b_parent_root (block_of sb)]> (bc_pending_block_parents b);
  fd_headers : vw_headers a' = <[root_of sb := block_header (block_of sb)]> (vw_headers a);
  fd_states : vw_states a' ⊆ vw_states a;
  fd_head : vw_head a' = vw_head a;
  fd_justified : vw_justified a' = vw_justified a;
  fd_finalized : vw_finalized a' = vw_finalized a;
  fd_pruned h : vw_headers a' !! vw_head a = Some h → vw_head a ≠ cp_root (vw_finalized a) →
    vw_head a ≠ cp_root (vw_justified a) → (STATES_TO_KEEP <= newer (bh_slot h) a')%nat → vw_states a' !! vw_head a = None;
}.

Lemma orphan_flooded b a sb :
  represents (bc_store b) a → orphaned b a sb → root_of sb ≠ b_parent_root (block_of sb) →
  (size (vw_headers a) < BLOCKS_TO_KEEP)%nat →
  ∃ b' a', (server_on_block sb : M _ E unit) b = Done b' tt ∧ flooded b a sb b' a'.
Proof.
  intros Hr Ho Hne Hsize. destruct (insert_pending_block_refines (E := E) (bc_store b) a (root_of sb) sb Hr) as (s1 & Hins & Hr1).
  pose proof (orphan_pended b a sb s1 Hr Ho Hne Hins Hr1) as Hrun. set (a1 := view_write_block _ _ a) in *.
  destruct (prune_old_data_refines (E := E) s1 a1 Hr1) as (states & blocks & Hst & Hbl & s2 & Hprune & Hr2).
  assert (Hsize1 : (size (vw_headers a1) <= BLOCKS_TO_KEEP)%nat) by (pose proof (size_write a sb); unfold a1; lia).
  assert (blocks = []) as -> by (destruct Hbl as [[? _]|Hb]; [done|apply (window_keeps _ _ _ _ Hsize1 Hb)]).
  destruct (sends_store (pended_actor b sb s1) [FetchBlock (b_parent_root (block_of sb))]) as [Hstore _].
  eexists (set_store s2 (sends (pended_actor b sb s1) _)), _. split.
  { unfold server_on_block. rewrite run_bind, run_gets, run_bind, Hrun, run_on_store, Hstore. change (bc_store (pended_actor b sb s1)) with s1.
    by rewrite Hprune. }
  split; [exact Hr2| |done| |done|done|done|].
  - unfold sends. by destruct (bc_p2p _).
  - intros r. cbn. destruct (foldl _ _ _ !! r) eqn:Hl; [|by destruct (vw_states a !! r)].
    apply foldl_delete_lookup in Hl as [-> _]. done.
  - intros h Hh Hfin Hjust Hnewer. cbn. apply foldl_delete_None.
    destruct (decide (vw_head a ∈ states)) as [|Hnot]; [done|]. exfalso. revert Hnewer. unfold newer. cbn. destruct Hst as [[_ Hsz]|Hb].
    + intros Hnewer.
      assert (Hlt : (size (filter (λ kv : H256 * BlockHeader, (bh_slot h < bh_slot kv.2)%N) (vw_headers a1)) < size (vw_headers a1))%nat).
      { apply map_subset_size. split; [apply map_filter_subseteq|]. intros Hsub.
        pose proof (lookup_weaken _ _ _ _ Hh Hsub) as [_ Hself]%map_lookup_filter_Some. cbn in Hself. lia. }
      unfold a1 in Hlt, Hsz. cbn in Hlt, Hsz. lia.
    + pose proof (bw_newer _ _ _ _ Hb _ h Hnot ltac:(set_solver) Hh) as Hlt. unfold a1 in Hlt. cbn in Hlt. lia.
Qed.

Lemma newer_insert slot a a' r h :
  vw_headers a !! r = None → vw_headers a' = <[r := h]> (vw_headers a) → slot < bh_slot h → newer slot a' = S (newer slot a).
Proof.
  intros Hno Heq Hlt. unfold newer. rewrite Heq, map_filter_insert_True by done. apply map_size_insert_None.
  apply map_lookup_filter_None. by left.
Qed.

(** Blocks that are new, above [slot], and whose parents are unknown, also among themselves. *)
Record flooding b a (slot : N) (blocks : list SignedBlockWithAttestation) : Prop := {
  fl_orphans sb : sb ∈ blocks → orphaned b a sb;
  fl_new sb : sb ∈ blocks → vw_headers a !! root_of sb = None;
  fl_slots sb : sb ∈ blocks → slot < b_slot (block_of sb);
  fl_distinct : NoDup (root_of <$> blocks);
  fl_parents sb sb' : sb ∈ blocks → sb' ∈ blocks → root_of sb ≠ b_parent_root (block_of sb');
}.

Lemma flooding_next b a slot sb blocks b' a' :
  flooding b a slot (sb :: blocks) → flooded b a sb b' a' → flooding b' a' slot blocks.
Proof.
  intros [Ho Hn Hs Hd Hp] Hf. cbn in Hd. apply NoDup_cons in Hd as [Hnot Hd].
  split; [|intros sb' Hin|intros; apply Hs; by right|done|intros; apply Hp; by right].
  - intros sb' Hin. destruct (Ho sb' ltac:(by right)) as [Ho1 Ho2 Ho3].
    assert (Hne : root_of sb ≠ b_parent_root (block_of sb')) by (apply Hp; [by left|by right]). split.
    + by rewrite (fd_headers _ _ _ _ _ Hf), lookup_insert_ne.
    + apply eq_None_not_Some. intros [st Hst]. by rewrite (lookup_weaken _ _ _ _ Hst (fd_states _ _ _ _ _ Hf)) in Ho2.
    + by rewrite (fd_parents _ _ _ _ _ Hf), lookup_insert_ne.
  - rewrite (fd_headers _ _ _ _ _ Hf), lookup_insert_ne; [apply Hn; by right|].
    intros Heq. apply Hnot. rewrite Heq. by apply list_elem_of_fmap_2.
Qed.

Lemma flood_run h blocks : ∀ b a,
  represents (bc_store b) a → vw_headers a !! vw_head a = Some h →
  vw_head a ≠ cp_root (vw_finalized a) → vw_head a ≠ cp_root (vw_justified a) →
  flooding b a (bh_slot h) blocks → (size (vw_headers a) + length blocks <= BLOCKS_TO_KEEP)%nat →
  (STATES_TO_KEEP <= newer (bh_slot h) a + length blocks)%nat → blocks ≠ [] →
  ∃ b' a', (for_each handle (NewBlock <$> blocks) : M _ E unit) b = Done b' tt ∧
    represents (bc_store b') a' ∧ vw_states a' !! vw_head a' = None.
Proof.
  unfold for_each. induction blocks as [|sb blocks IH]; intros b a Hr Hh Hfin Hjust Hfl Hsize Hmany Hne; [done|].
  cbn [length] in *. assert (Hin : sb ∈ sb :: blocks) by by left.
  destruct (orphan_flooded b a sb Hr (fl_orphans _ _ _ _ Hfl _ Hin) ltac:(by apply (fl_parents _ _ _ _ Hfl)) ltac:(lia))
    as (b1 & a1 & Hrun & Hf).
  pose proof (newer_insert (bh_slot h) a a1 _ _ (fl_new _ _ _ _ Hfl _ Hin) (fd_headers _ _ _ _ _ Hf) (fl_slots _ _ _ _ Hfl _ Hin)) as Hcount.
  assert (Hh1 : vw_headers a1 !! vw_head a = Some h).
  { rewrite (fd_headers _ _ _ _ _ Hf), lookup_insert_ne; [done|]. intros Heq.
    pose proof (fl_new _ _ _ _ Hfl _ Hin) as Hnew. rewrite Heq, Hh in Hnew. done. }
  cbn [fmap list_fmap foldM]. rewrite run_bind. cbn [handle]. rewrite Hrun. destruct blocks as [|sb' blocks].
  - exists b1, a1. split; [done|]. split; [apply Hf|]. rewrite (fd_head _ _ _ _ _ Hf).
    apply (fd_pruned _ _ _ _ _ Hf h); [done..|]. rewrite Hcount. cbn in Hmany. lia.
  - apply (IH b1 a1); rewrite ?(fd_head _ _ _ _ _ Hf), ?(fd_finalized _ _ _ _ _ Hf), ?(fd_justified _ _ _ _ _ Hf); try done.
    + apply Hf.
    + by eapply flooding_next.
    + rewrite (fd_headers _ _ _ _ _ Hf), map_size_insert_None by (by apply (fl_new _ _ _ _ Hfl)). lia.
    + rewrite Hcount. lia.
Qed.

(** C40. Blocks with unknown parents are stored without being verified, and their headers count
    for the retention window of states. As soon as new blocks of this kind, for slots above
    the head's and none the parent of another, have brought the number of stored headers
    newer than the head to 3000, while the head is neither the justified nor the finalized
    root, the actor has deleted the state of its own head, and its next tick panics,
    whatever the time. (The store keeps 21600 blocks; the theorem counts up to there.) *)
Theorem pending_flood_panics b a h blocks :
  represents (bc_store b) a → vw_headers a !! vw_head a = Some h →
  vw_head a ≠ cp_root (vw_finalized a) → vw_head a ≠ cp_root (vw_justified a) →
  flooding b a (bh_slot h) blocks → blocks ≠ [] →
  (STATES_TO_KEEP <= newer (bh_slot h) a + length blocks)%nat → (size (vw_headers a) + length blocks <= BLOCKS_TO_KEEP)%nat →
  ∃ b', (for_each handle (NewBlock <$> blocks) : M _ E unit) b = Done b' tt ∧
    ∀ timestamp_ms, (handle (HandleTick timestamp_ms) : M _ E unit) b' = Panicked.
Proof.
  intros Hr Hh Hfin Hjust Hfl Hne Hmany Hsize.
  destruct (flood_run h blocks b a Hr Hh Hfin Hjust Hfl Hsize Hmany Hne) as (b' & a' & Hrun & Hr' & Hgone).
  exists b'. split; [done|]. intros timestamp_ms.
  assert (Hpanic : head_state (bc_store b') = Panic).
  { unfold head_state. rewrite (store_head_refines _ _ Hr'). cbn [mbind partial_bind].
    rewrite (get_state_refines _ _ _ Hr'). cbn [mbind partial_bind]. by rewrite Hgone. }
  cbn [handle]. unfold server_on_tick, read_store. rewrite run_bind, run_reads, (store_config_refines _ _ Hr'). cbn zeta.
  by rewrite run_bind, run_reads, Hpanic.
Qed.

End flood.

(** * The clock of the actor *)

(** The actor sleeps between 1 and 800 milliseconds, to the next multiple of 800
    milliseconds of the UNIX epoch: the interval boundaries of the chain, which are counted
    from genesis, are hit exactly when the genesis time is such a multiple. *)
Theorem ms_to_next_interval_bounds now genesis_ms :
  let wait := u64_val (ms_to_next_interval now) in
  1 <= wait <= 800 ∧ (u64_val now + wait) mod 800 = 0 ∧
  (genesis_ms <= u64_val now + wait → ((u64_val now + wait - genesis_ms) mod 800 = 0 ↔ genesis_ms mod 800 = 0)).
Proof.
  assert (Hms : u64_val MILLISECONDS_PER_INTERVAL = 800) by (by vm_compute). intros wait.
  assert (Hwait : wait = 800 - u64_val now mod 800).
  { unfold wait, ms_to_next_interval. assert (Hrem : u64_val (u64_rem now MILLISECONDS_PER_INTERVAL) = u64_val now mod 800).
    { unfold u64_rem. rewrite Hms. apply to_u64_small. pose proof (u64_lt now). lia. }
    rewrite wrapping_sub_le; rewrite Hrem, Hms; lia. }
  pose proof (N.mod_lt (u64_val now) 800). clearbody wait. subst wait. split; [lia|]. split; [lia|]. intros Hle. lia.
Qed.

(** * A concrete actor *)

Module ServerSample.
Import ChainSample.

#[local] Existing Instances reference_ssz_types reference_ssz_types_laws reference_codecs reference_codecs_laws
  reference_hashing reference_hashing_laws reference_scheme reference_scheme_laws reference_multisig
  reference_multisig_laws reference_order canonical_order_laws in_memory_backend in_memory_laws seen_ok.

(** The root of block 1, by its header. *)
Definition root1h : H256 := tree_hash_root (block_header block1).

Definition sample_rank (r : H256) : nat :=
  if bool_decide (r = root1h) then 2%nat else if bool_decide (r = root0) then 1%nat else 0%nat.

Lemma sample_rank1 : sample_rank root1h = 2%nat.
Proof. unfold sample_rank. by rewrite bool_decide_eq_true_2. Qed.

Lemma sample_rank0 : sample_rank root0 = 1%nat.
Proof.
  unfold sample_rank. rewrite bool_decide_eq_false_2 by (intros Heq; exact (roots_differ Heq)).
  by rewrite bool_decide_eq_true_2.
Qed.

Lemma sample_rank_zero : sample_rank H256_ZERO = 0%nat.
Proof. by vm_compute. Qed.

#[local] Instance ranked : RankedHeaders seen.
Proof.
  refine {| rank := sample_rank |}. intros h [->| ->].
  - change (sample_rank H256_ZERO < sample_rank root0)%nat. rewrite sample_rank_zero, sample_rank0. lia.
  - change (sample_rank (b_parent_root block1) < sample_rank root1h)%nat. rewrite block1_parent, sample_rank0, sample_rank1. lia.
Qed.

Definition keys (ids : list N) : gmap u64 ValidatorSecretKey :=
  list_to_map ((λ i, (to_u64 i, mk_validator_secret_key (H := reference_scheme) [])) <$> ids).
Definition actor (ids : list N) : BlockChainServer := set_p2p true (spawn start (keys ids) true).

Lemma actor_core ids : server_core seen 0 (actor ids) start_view.
Proof.
  assert (Hc : server_core seen 0 (spawn start (keys ids) true) start_view).
  { apply (spawn_core seen 0); [apply start_init|apply start_inv| |intros r; apply lookup_empty].
    apply anchor_blocks_ok; [exact genesis_ok|done]. }
  destruct Hc. by split.
Qed.

Lemma fresh_start : (size (vw_headers start_view) < STATES_TO_KEEP)%nat.
Proof.
  assert (Hsize : size (vw_headers start_view) = 1%nat) by apply map_size_singleton.
  rewrite Hsize. apply Nat.ltb_lt. by vm_compute.
Qed.

Lemma signed1_seen : seen_block seen (signed1 vote1).
Proof. split; [by right|done|exact vote1_fits]. Qed.

Lemma server_on_block_correct_witness : ∃ b' a', server_on_block (E := unit) (signed1 vote1) (actor []) = Done b' tt ∧
  server_core seen 0 b' a' ∧ is_Some (vw_states a' !! root1).
Proof.
  destruct (server_on_block_correct (E := unit) seen 0 (actor []) start_view (signed1 vote1) (actor_core []) signed1_seen)
    as (b' & a' & Hrun & Hc & _ & _ & _ & Hvalid & _); [by apply fresh_start|].
  exists b', a'. split; [exact Hrun|split; [exact Hc|]]. apply Hvalid. eexists. exact block1_valid.
Defined.

(** The network connects, the node proposes block 1 at the first slot, hears of it again, and
    votes in slot 2. *)
Definition messages : list Message :=
  [InitP2P; HandleTick (to_u64 1004000); NewBlock (signed1 vote1); HandleTick (to_u64 1008800)].

(** The actor handles all messages, [test] holds of every one and the actor that handles it,
    and [final] of the actor in the end. *)
Fixpoint test_run (test : BlockChainServer → Message → bool) (final : BlockChainServer → bool) (msgs : list Message)
    (b : BlockChainServer) : bool :=
  match msgs with
  | [] => final b
  | msg :: msgs =>
      test b msg && match handle (E := unit) msg b with Done b' _ => test_run test final msgs b' | _ => false end
  end.

Lemma test_run_spec (P : BlockChainServer → Message → Prop) test final msgs : (∀ b msg, test b msg = true → P b msg) → ∀ b,
  test_run test final msgs b = true → along_run (E := unit) P msgs b ∧
    ∃ b', for_each (E := unit) handle msgs b = Done b' tt ∧ final b' = true.
Proof.
  intros Htest. unfold for_each. induction msgs as [|msg msgs IH]; intros b; cbn [test_run along_run foldM]; [by eauto|].
  intros [Hb Hrest]%andb_true_iff. rewrite run_bind. destruct (handle msg b) as [b1 []| | |] eqn:Hrun; try done.
  destruct (IH b1 Hrest) as [Halong Hdone]. split; [|done]. split; [by apply Htest|]. by intros b' [= <-].
Qed.

(** The block a tick builds satisfies [test]. *)
Definition test_own (test : Block → bool) (b : BlockChainServer) (msg : Message) : bool :=
  match msg with
  | HandleTick timestamp_ms =>
      match tick_proposal (E := unit) b timestamp_ms with
      | Some (slot, vid, s) =>
          match produce_block_with_signatures slot vid s with Done _ (block, _) => test block | _ => true end
      | None => true
      end
  | _ => true
  end.

Lemma test_own_seen (known : BlockHeader → Prop) test b msg :
  (∀ block, test block = true → known (block_header block) ∧ no_empty_collision (b_body block)) →
  test_own test b msg = true → own_seen (E := unit) known b msg.
Proof.
  intros Htest. unfold test_own, own_seen. destruct msg; try done.
  destruct (tick_proposal _ _) as [[[slot vid] s]|]; [|done]. intros Hblock s' block proofs Hrun. rewrite Hrun in Hblock.
  by apply Htest.
Qed.

(** The actor proposes: it has the key of validator 1, and publishes the block it builds. *)
Definition proposer : BlockChainServer := spawn start (keys [1]) true.

Lemma proposer_runs : test_run (test_own (λ block, bool_decide (block = block1))) (λ b,
  match bc_sent b with PublishBlock sb :: _ => bool_decide (block_of sb = block1) | _ => false end) messages proposer = true.
Proof. by vm_compute. Qed.

Lemma proposer_seen : along_run (E := unit) (own_seen (E := unit) seen) messages proposer.
Proof.
  refine (proj1 (test_run_spec _ _ _ messages _ proposer proposer_runs)). intros b msg.
  apply test_own_seen. intros block ->%bool_decide_eq_true_1. split; [by right|done].
Qed.

Lemma actor_runs_safely_witness : ∃ b' a',
  for_each (E := unit) handle messages proposer = Done b' tt ∧ server_core seen 0 b' a'.
Proof.
  apply (actor_runs_safely (E := unit) seen 0 InMemoryBackend_new genesis None start (keys [1]) true messages);
    [apply in_memory_new_ok|apply in_memory_new_empty|apply start_init|by left|exact genesis_ok|done|exact proposer_seen| |].
  - constructor; [done|constructor; [by vm_compute|constructor; [exact signed1_seen|constructor; [by vm_compute|constructor]]]].
  - left. apply Nat.ltb_lt. by vm_compute.
Defined.

(** ** Votes and proposals *)

Lemma sample_signs d : ∃ sig, sign_attestation (bc_key_manager (actor [2])) (to_u64 2) d = inr sig.
Proof.
  assert (Hkey : km_keys (bc_key_manager (actor [2])) !! to_u64 2 = Some (mk_validator_secret_key (H := reference_scheme) []))
    by apply lookup_insert_eq.
  unfold sign_attestation, sign_message. rewrite Hkey. cbn [sign leansig_sign reference_scheme vsk_inner mbind option_bind].
  rewrite fixed_vector_new_spec.
  match goal with |- context [len ?l =? _] => set (sig := l) end.
  assert (Hlen : len sig = SIGNATURE_SIZE).
  { unfold sig, len, ValidatorSignature_to_bytes. cbn [leansig_signature_to_bytes reference_scheme vs_inner].
    rewrite !length_app, length_be_bytes, length_H256_bytes.
    by vm_compute. }
  rewrite Hlen, N.eqb_refl. by eexists.
Qed.

Lemma only_signer vid d sig : sign_attestation (bc_key_manager (actor [2])) vid d = inr sig → vid = to_u64 2.
Proof.
  intros Hsign. destruct (decide (vid = to_u64 2)) as [|Hne]; [done|]. exfalso.
  assert (Hkey : km_keys (bc_key_manager (actor [2])) !! vid = None) by (apply (lookup_singleton_ne (to_u64 2)); intros Heq; by rewrite Heq in Hne).
  unfold sign_attestation, sign_message in Hsign. by rewrite Hkey in Hsign.
Qed.

Lemma single_vote votes vid (sa : SignedAttestation) :
  NoDup (sa_validator_id <$> votes) → (∀ sa, sa ∈ votes → sa_validator_id sa = vid) → sa ∈ votes → votes = [sa].
Proof.
  intros Hnd Hone Hin. destruct votes as [|v1 [|v2 votes]]; [by apply not_elem_of_nil in Hin| |].
  - by apply list_elem_of_singleton in Hin as ->.
  - exfalso. apply NoDup_cons in Hnd as [Hnot _]. apply Hnot. cbn.
    rewrite (Hone v1), <- (Hone v2) by set_solver. by left.
Qed.

Lemma produce_attestations_correct_witness : ∃ b' d sig, produce_attestations (E := unit) (to_u64 1) (actor [2]) = Done b' tt ∧
  vote_valid start_view d ∧ bc_sent b' = [PublishAttestation (mk_signed_attestation (to_u64 2) d sig)].
Proof.
  destruct (produce_attestations_correct (E := unit) seen 0 (actor [2]) start_view (to_u64 1) (actor_core [2]))
    as (b' & st & d & votes & Hrun & _ & Hst & Hv & _ & _ & Hsent & Hnd & Hvotes & _); [done|by vm_compute|by vm_compute|].
  assert (Hhead : vw_states start_view !! vw_head start_view = Some (anchored_state genesis)) by apply lookup_singleton_eq.
  rewrite Hhead in Hst. injection Hst as <-. destruct (sample_signs d) as [sig Hsig].
  exists b', d, sig. split; [exact Hrun|split; [exact Hv|]]. rewrite Hsent.
  change (bc_sent (actor [2])) with ([] : list P2PMessage). cbn [app].
  assert (Hone : ∀ sa, sa ∈ votes → sa_validator_id sa = to_u64 2).
  { intros sa (_ & _ & Hsign)%Hvotes. by apply only_signer in Hsign. }
  assert (Hin : mk_signed_attestation (to_u64 2) d sig ∈ votes) by (apply Hvotes; split_and!; [done|by vm_compute|exact Hsig]).
  by rewrite (single_vote votes (to_u64 2) _ Hnd Hone Hin).
Defined.

Lemma own_block1 : own_block_seen seen start (to_u64 1) (to_u64 1).
Proof.
  intros s' block proofs Hrun.
  assert (Hown : match produce_block_with_signatures (to_u64 1) (to_u64 1) start with
    | Done _ (block, _) => bool_decide (block = block1) | _ => false end = true) by (by vm_compute).
  rewrite Hrun in Hown. clear Hrun. apply bool_decide_eq_true in Hown as ->. split; [by right|done].
Qed.

Lemma propose_block_correct_witness : ∃ b' a', propose_block (E := unit) (to_u64 1) (to_u64 1) (actor [1]) = Done b' tt ∧
  server_core seen 0 b' a'.
Proof.
  destruct (propose_block_correct (E := unit) seen 0 (actor [1]) start_view (to_u64 1) (to_u64 1) (actor_core [1]) own_block1)
    as (b' & a' & Hrun & Hc & _); [by vm_compute|].
  exists b', a'. split; [exact Hrun|exact Hc].
Defined.

Lemma ms_to_next_interval_bounds_witness :
  1 <= u64_val (ms_to_next_interval (to_u64 1000123)) <= 800 ∧
  (1000000 <= 1000123 + u64_val (ms_to_next_interval (to_u64 1000123)) →
    ((1000123 + u64_val (ms_to_next_interval (to_u64 1000123)) - 1000000) mod 800 = 0 ↔ 1000000 mod 800 = 0)).
Proof.
  destruct (ms_to_next_interval_bounds (to_u64 1000123) 1000000) as (Hb & _ & Hal).
  split; [exact Hb|exact Hal].
Defined.

(** ** The flood *)

(** Block 1 is the head; then unverified blocks of slot 5 arrive. *)
Definition based : View :=
  let a := view_write_block root1 (signed1 vote1) start_view in
  view_checkpoints (head_only root1) (vset_states (<[root1 := imported_state block1 post1]> (vw_states a)) a).
Definition orphan : SignedBlockWithAttestation :=
  mk_signed_block (mk_block_with_attestation (mk_block (to_u64 5) (to_u64 0) (h256 7) H256_ZERO BlockBody_default)
    (mk_attestation (to_u64 0) vote1)) (mk_block_signatures [] []).
Fixpoint flood (n : nat) (a : View) : View :=
  match n with
  | O => a
  | S n => view_write_block (h256 (N.of_nat n)) orphan (flood n a)
  end.

Lemma based_represented : ∃ s : store, represents s based.
Proof.
  destruct (insert_pending_block_refines (E := unit) start start_view root1 (signed1 vote1) (proj2 start_init)) as (s1 & _ & Hr1).
  destruct (insert_state_refines (E := unit) s1 _ root1 (imported_state block1 post1) Hr1) as (s2 & _ & Hr2).
  pose proof (update_checkpoints_refines (E := unit) s2 _ (head_only root1) Hr2) as (s3 & _ & Hr3). by exists s3.
Qed.

Lemma flood_represented n a : (∃ s : store, represents s a) → ∃ s : store, represents s (flood n a).
Proof.
  intros Ha. induction n as [|n (s & Hr)]; [done|].
  destruct (insert_pending_block_refines (E := unit) s _ (h256 (N.of_nat n)) orphan Hr) as (s' & _ & Hr'). by exists s'.
Qed.

Lemma flood_kept n a :
  vw_states (flood n a) = vw_states a ∧ vw_head (flood n a) = vw_head a ∧
  vw_justified (flood n a) = vw_justified a ∧ vw_finalized (flood n a) = vw_finalized a.
Proof. by induction n. Qed.

Lemma flood_headers n a r :
  (∀ i, (i < n)%nat → h256 (N.of_nat i) ≠ r) → vw_headers (flood n a) !! r = vw_headers a !! r.
Proof.
  induction n as [|n IH]; intros Hne; [done|]. cbn. rewrite lookup_insert_ne by (apply Hne; lia).
  apply IH. intros i Hi. apply Hne. lia.
Qed.

Lemma flood_lookup n a i : (i < n)%nat → vw_headers (flood n a) !! h256 (N.of_nat i) = Some (block_header (block_of orphan)).
Proof.
  induction n as [|n IH]; intros Hi; [lia|]. cbn. apply lookup_insert_Some.
  destruct (decide (h256 (N.of_nat n) = h256 (N.of_nat i))) as [|Hne]; [by left|right]. split; [done|]. apply IH.
  destruct (decide (i = n)) as [->|]; [done|lia].
Qed.

Lemma flood_size n a slot : N.of_nat n < h256_modulus → slot < 5 →
  (n <= size (filter (λ kv : H256 * BlockHeader, (slot < bh_slot kv.2)%N) (vw_headers (flood n a))))%nat.
Proof.
  intros Hn Hslot. rewrite <- length_map_to_list.
  assert (Hlen : length ((λ i, (h256 (N.of_nat i), block_header (block_of orphan))) <$> seq 0 n) = n)
    by (by rewrite length_fmap, length_seq).
  rewrite <- Hlen at 1.
  apply submseteq_length, NoDup_submseteq.
  - apply NoDup_fmap_2_strong; [|apply NoDup_seq]. intros i j Hi%elem_of_seq Hj%elem_of_seq [= Heq].
    apply (f_equal h256_val) in Heq. rewrite !h256_small in Heq by lia. lia.
  - intros [r h] (i & [= -> ->] & Hi%elem_of_seq)%list_elem_of_fmap. apply elem_of_map_to_list, map_lookup_filter_Some.
    split; [apply flood_lookup; lia|]. cbn. change (slot < 5). done.
Qed.

(** 2998 headers are stored already; two more orphans arrive. *)
Definition stored_already : nat := N.to_nat 2998.
Definition orphan_at (slot parent : N) : SignedBlockWithAttestation :=
  mk_signed_block (mk_block_with_attestation (mk_block (to_u64 slot) (to_u64 0) (h256 parent) H256_ZERO BlockBody_default)
    (mk_attestation (to_u64 0) vote1)) (mk_block_signatures [] []).
Definition last_orphans : list SignedBlockWithAttestation := [orphan_at 5 1000001; orphan_at 6 1000002].

Lemma flood_other r : 3000 < h256_val r → vw_headers (flood stored_already based) !! r = vw_headers based !! r.
Proof.
  intros Hbig. apply flood_headers. intros i Hi Heq. apply (f_equal h256_val) in Heq.
  assert (Hsmall : N.of_nat i < 2998) by (unfold stored_already in Hi; lia).
  rewrite h256_small in Heq; [lia|]. unfold h256_modulus. lia.
Qed.

Lemma flooded_head : vw_headers (flood stored_already based) !! vw_head based = Some (block_header block1).
Proof. rewrite flood_other; [apply lookup_insert_eq|by vm_compute]. Qed.

Lemma head_moved : vw_head based ≠ root0.
Proof. intros Heq. by apply roots_differ. Qed.

Lemma flood_total n a : (size (vw_headers (flood n a)) <= n + size (vw_headers a))%nat.
Proof.
  induction n as [|n IH]; [done|]. cbn. rewrite map_size_insert. destruct (_ !! _); cbn; lia.
Qed.

(** Roots that the sample store has no header and no state for. *)
Lemma two_entries {V} (r0 r1 r : H256) (x y : V) : r0 ≠ r → r1 ≠ r → (<[r1 := y]> {[r0 := x]} : gmap H256 V) !! r = None.
Proof. intros ? ?. by rewrite lookup_insert_ne, lookup_singleton_ne. Qed.

Lemma unknown_root r : 3000 < h256_val r → negb (h256_val root0 =? h256_val r) && negb (h256_val root1 =? h256_val r) = true →
  vw_headers (flood stored_already based) !! r = None ∧ vw_states (flood stored_already based) !! r = None.
Proof.
  intros Hbig [Hne0%negb_true_iff%N.eqb_neq Hne1%negb_true_iff%N.eqb_neq]%andb_true_iff.
  assert (Hr0 : root0 ≠ r) by (intros Heq; apply Hne0; rewrite Heq; reflexivity).
  assert (Hr1 : root1 ≠ r) by (intros Heq; apply Hne1; rewrite Heq; reflexivity). split.
  - rewrite (flood_other r Hbig). exact (two_entries root0 root1 r _ _ Hr0 Hr1).
  - rewrite (proj1 (flood_kept stored_already based)). exact (two_entries root0 root1 r _ _ Hr0 Hr1).
Qed.

Lemma last_flooding s : flooding (set_store s (actor [])) (flood stored_already based) (bh_slot (block_header block1)) last_orphans.
Proof.
  assert (Hall : ∀ P : SignedBlockWithAttestation → Prop, P (orphan_at 5 1000001) → P (orphan_at 6 1000002) → ∀ sb, sb ∈ last_orphans → P sb)
    by (intros P HP1 HP2 sb [->|[->|[]%not_elem_of_nil]%elem_of_cons]%elem_of_cons; assumption).
  split.
  - apply (Hall (λ sb, orphaned _ _ sb)); (split; [apply unknown_root; by vm_compute..|apply lookup_empty]).
  - apply (Hall (λ sb, vw_headers (flood stored_already based) !! root_of sb = None)); apply unknown_root; by vm_compute.
  - apply (Hall (λ sb, bh_slot (block_header block1) < b_slot (block_of sb))); by vm_compute.
  - apply (NoDup_fmap_1 h256_val), (bool_decide_eq_true_1 _). by vm_compute.
  - intros sb sb' Hsb Hsb' Heq. apply (f_equal h256_val) in Heq. revert sb Hsb sb' Hsb' Heq.
    apply (Hall (λ sb, ∀ sb', sb' ∈ last_orphans → h256_val (root_of sb) = h256_val (b_parent_root (block_of sb')) → False)).
    + apply (Hall (λ sb', h256_val (root_of (orphan_at 5 1000001)) = h256_val (b_parent_root (block_of sb')) → False));
        apply N.eqb_neq; by vm_compute.
    + apply (Hall (λ sb', h256_val (root_of (orphan_at 6 1000002)) = h256_val (b_parent_root (block_of sb')) → False));
        apply N.eqb_neq; by vm_compute.
Qed.

Lemma pending_flood_panics_witness : ∃ b b', for_each (E := unit) handle (NewBlock <$> last_orphans) b = Done b' tt ∧
  server_on_tick (E := unit) (to_u64 1010000) b' = Panicked.
Proof.
  destruct (flood_represented stored_already based based_represented) as [s Hr]. exists (set_store s (actor [])).
  destruct (flood_kept stored_already based) as (Hst & Hhead & Hjust & Hfin).
  destruct (pending_flood_panics (E := unit) (set_store s (actor [])) (flood stored_already based)
    (block_header block1) last_orphans) as (b' & Hrun & Hpanic).
  - exact Hr.
  - rewrite Hhead. exact flooded_head.
  - rewrite Hhead, Hfin. exact head_moved.
  - rewrite Hhead, Hjust. exact head_moved.
  - apply last_flooding.
  - discriminate.
  - assert (Hsz : (stored_already <= newer (bh_slot (block_header block1)) (flood stored_already based))%nat)
      by (apply flood_size; by vm_compute).
    unfold stored_already, STATES_TO_KEEP in *. cbn [length last_orphans]. lia.
  - pose proof (flood_total stored_already based) as Htotal.
    assert (Hbase : size (vw_headers based) = 2%nat) by (by vm_compute).
    unfold stored_already, BLOCKS_TO_KEEP in *. cbn [length last_orphans]. lia.
  - exists b'. split; [exact Hrun|apply Hpanic].
Defined.

End ServerSample.
