(* ===== verification/Finality.v ===== *)
(** What the checkpoints of a running node rest on: every state of its store is that of a
    chain of blocks whose signatures were verified, so a justified or finalized checkpoint
    above genesis has verified votes of two thirds of the validators, and two nodes with
    different checkpoints of one slot prove a third of the validators guilty. *)

From S2P Require Import Prelude Types StateTransition Reference StateInvariant BlockProcessing Transitions Quorums ForkChoice.
From S2P Require Import Backend InMemory Keys Signatures PayloadBuffer Store Crypto StoreSpec StoreOps StorePruning StoreMaintenance Codec.
From S2P Require Import ChainInvariant ChainStore Bits ChainRefine ChainClock ChainImport ChainBlocks BlockBuilding ChainVotes BuildSpec ChainProduce ChainTheorems.
From S2P Require Import ChainServer ServerSpec ServerSteps ServerMessages ServerTheorems.

(** * Stored states and the states of chains

    The store keeps a state with its header completed ([anchored_state]); the transition
    function would complete it at the next block. *)

Section anchored.
Context `{STL : SszTypesLaws} `{HS : Hashing} `{HOL : HashOrderLaws} `{SC : SignatureScheme}.

Definition unsealed (s : State) : Prop := bh_state_root (st_latest_block_header s) = H256_ZERO.

Lemma chain_unsealed g blocks s : chain_from g blocks s → unsealed s.
Proof.
  destruct 1 as [genesis_time validators _ Hgen|blocks s block s' Hc Hrun].
  - revert Hgen. unfold from_genesis. rewrite variable_list_new_spec, !bitlist_with_capacity_spec.
    destruct (_ <=? VALIDATOR_REGISTRY_LIMIT); [|done]. cbn. by intros [= <-].
  - destruct (chain_state_wf s) as [Hwf _]; [by eapply chain_from_state|].
    destruct (state_transition_done _ _ _ Hwf Hrun) as (_ & Hp & _).
    unfold unsealed. by rewrite (bp_header _ _ _ Hp).
Qed.

Lemma anchor_root_unsealed s : unsealed s → anchor_root s = tree_hash_root s.
Proof.
  intros Hu. unfold anchor_root. f_equal. destruct s as [? ? [] ? ? ? ? ? ? ?]. cbn in *. by rewrite Hu.
Qed.

Lemma completed_unsealed s : unsealed s → completed_header s = st_latest_block_header (anchored_state s).
Proof.
  intros Hu. unfold completed_header, is_zero. rewrite bool_decide_eq_true_2 by done.
  unfold anchored_state. cbn. by rewrite anchor_root_unsealed.
Qed.

Lemma at_slot_anchored slot s : unsealed s → at_slot slot (anchored_state s) = at_slot slot s.
Proof.
  intros Hu. unfold at_slot.
  enough (Heq : completed_header (anchored_state s) = completed_header s) by (by rewrite Heq).
  rewrite (completed_unsealed s Hu). unfold completed_header at 1. destruct (is_zero _) eqn:Hz; [|done].
  unfold is_zero in Hz. apply bool_decide_eq_true in Hz. change (anchor_root s = H256_ZERO) in Hz.
  assert (Hid : anchored_state s = s).
  { unfold anchored_state. rewrite Hz. destruct s as [? ? [] ? ? ? ? ? ? ?]. cbn in *. unfold unsealed in Hu. cbn in Hu.
    by rewrite Hu. }
  rewrite Hid. rewrite anchor_root_unsealed in Hz by done. rewrite Hz.
  destruct s as [? ? [] ? ? ? ? ? ? ?]. unfold unsealed in Hu. cbn in *. by rewrite Hu.
Qed.

(** A block is accepted on a stored state with the same result as on the chain's state. *)
Lemma transition_anchored s block post :
  unsealed s → state_transition block (anchored_state s) = Done post tt →
  state_transition block s = Done post tt.
Proof.
  intros Hu. unfold state_transition. rewrite !run_bind, !run_process_slots.
  change (st_slot (anchored_state s)) with (st_slot s). destruct (_ <=? _); [done|].
  by rewrite at_slot_anchored.
Qed.

Lemma imported_anchored s block post :
  state_wf s → state_transition block s = Done post tt → imported_state block post = anchored_state post.
Proof.
  intros Hwf Hrun. destruct (state_transition_done _ _ _ Hwf Hrun) as (_ & Hp & Hroot & _).
  assert (Hu : unsealed post) by (unfold unsealed; by rewrite (bp_header _ _ _ Hp)).
  unfold imported_state, anchored_state. by rewrite Hroot, anchor_root_unsealed.
Qed.

End anchored.

(** * Where the states of a store come from *)

Section provenance.
Context `{STL : SszTypesLaws} `{SL : StorageLaws D B} `{CO : Codecs} {CL : CodecsLaws} `{HS : Hashing} {HL : HashingLaws}.
Context `{HOL : HashOrderLaws} `{MS : MultisigScheme}.
Context (seen : BlockHeader → Prop) {HSeen : HeadersSeen seen} {HR : RankedHeaders seen} (anchor : N).
Implicit Types (a : View) (g st : State).

(** A block the node has checked the signatures of. *)
Definition checked_block (validators : list Validator) (block : Block) : Prop :=
  ∃ sb, block_of sb = block ∧ seen_block seen sb ∧ signatures_valid validators sb.

Definition checked_chain g (blocks : list Block) st : Prop :=
  chain_from g blocks st ∧ Forall (checked_block (st_validators g)) blocks.

(** A checkpoint some checked chain certifies. *)
Definition rests_on_chain g (c : Checkpoint) : Prop :=
  ∃ blocks st, checked_chain g blocks st ∧ certified st c.

(** All states of the store are those of checked chains, and its checkpoints are certified
    by such chains. *)
Record rooted g a : Prop := {
  ro_states r st : vw_states a !! r = Some st →
    ∃ blocks post, checked_chain g blocks post ∧ st = anchored_state post;
  ro_justified : 0 < cp_slot (vw_justified a) → rests_on_chain g (vw_justified a);
  ro_finalized : 0 < cp_slot (vw_finalized a) → rests_on_chain g (vw_finalized a);
}.

Lemma imported_chain g a sb st :
  rooted g a → seen_block seen sb → block_valid a sb st →
  ∃ blocks post, checked_chain g blocks post ∧ st = anchored_state post.
Proof.
  intros Hro Hs (parent & post & Hp & Hsigs & Hrun & ->).
  destruct (ro_states _ _ Hro _ _ Hp) as (blocks & s & [Hc Hall] & ->).
  apply transition_anchored in Hrun; [|by eapply chain_unsealed].
  destruct (chain_state_wf s) as [Hwf _]; [by eapply chain_from_state|].
  exists (blocks ++ [block_of sb]), post. split; [|by apply (imported_anchored s)].
  split; [by apply (chain_from_block g blocks s)|].
  apply Forall_app. split; [done|]. apply Forall_singleton. exists sb. split_and!; [done..|].
  by rewrite <- (chain_from_validators g blocks s).
Qed.

Lemma grown_rooted g a a' : grown seen anchor a a' → rooted g a → rooted g a'.
Proof.
  induction 1 as [a a' Hs Hj Hf|a sb st a' Hs Hv Him|a1 a2 a3 _ IH1 _ IH2]; intros Hro; [|..|auto].
  - destruct Hro. split; by rewrite ?Hs, ?Hj, ?Hf.
  - destruct (imported_chain g a sb st Hro Hs Hv) as (blocks & post & Hc & Hst).
    destruct Hro as [Hstates Hj Hf]. split.
    + intros r st'. rewrite (bi_state _ _ _ _ _ _ Him), lookup_insert_Some. intros [[_ <-]|[_ Hr]]; [|by eapply Hstates].
      by exists blocks, post.
    + rewrite (bi_justified _ _ _ _ _ _ Him).
      destruct (newer_cases (st_latest_justified st) (vw_justified a)) as [->|[-> _]]; [done|]. intros _.
      exists blocks, post. split; [done|]. rewrite Hst. apply (certified_justified post).
    + rewrite (bi_finalized _ _ _ _ _ _ Him).
      destruct (newer_cases (st_latest_finalized st) (vw_finalized a)) as [->|[-> _]]; [done|]. intros _.
      exists blocks, post. split; [done|]. rewrite Hst. apply (certified_finalized post).
Qed.

Lemma genesis_rooted g genesis_time validators body :
  validators ≠ [] → from_genesis genesis_time validators = Return g → rooted g (anchor_view g body).
Proof.
  intros Hne Hgen. pose proof (gs_header _ _ _ (genesis_fields _ _ _ Hgen)) as Hslot. unfold header_slot in Hslot.
  split; unfold anchor_view; cbn [vw_states vw_justified vw_finalized cp_slot].
  - intros r st [_ <-]%lookup_singleton_Some. exists [], g. split; [|done]. split; [by econstructor|constructor].
  - cbn. rewrite Hslot. cbn. lia.
  - cbn. rewrite Hslot. cbn. lia.
Qed.

(** * Verified votes *)

(** A vote of [i] for [target], under a proof that verifies against registered keys. *)
Definition verified_vote (validators : list Validator) (i : nat) (target : Checkpoint)
    (data : AttestationData) : Prop :=
  ∃ bits proof, ad_target data = target ∧ bits !! i = Some true ∧
    proof_valid validators (mk_aggregated_attestation bits data, proof).

(** Verified votes of two thirds of the validators. *)
Definition verified_quorum (validators : list Validator) (target : Checkpoint) : Prop :=
  ∃ V : gset nat, among (len validators) V ∧ 2 * len validators <= 3 * N.of_nat (size V) ∧
    ∀ i, i ∈ V → ∃ data, verified_vote validators i target data.

Lemma elem_of_combine {A A'} (l : list A) (l' : list A') k x y :
  l !! k = Some x → l' !! k = Some y → (x, y) ∈ combine l l'.
Proof.
  revert l l'. induction k as [|k IH]; intros [|x' l] [|y' l'] Hx Hy; try done; cbn in *.
  - injection Hx as ->. injection Hy as ->. by left.
  - right. by apply IH.
Qed.

Lemma checked_vote validators blocks i source target :
  Forall (checked_block validators) blocks → cast (chain_votes blocks) i source target →
  ∃ data, verified_vote validators i target data.
Proof.
  intros Hall (att & (block & Hatt & Hb)%list_elem_of_bind & _ & Ht & Hi).
  rewrite Forall_forall in Hall. destruct (Hall _ Hb) as (sb & Heq & _ & Hlen & Hproofs & _).
  unfold block_of in Heq. rewrite Heq in Hlen, Hproofs.
  apply list_elem_of_lookup in Hatt as [k Hk].
  destruct (lookup_lt_is_Some_2 (bs_attestation_signatures (sb_signature sb)) k) as [proof Hproof].
  { apply lookup_lt_Some in Hk. unfold len in Hlen. lia. }
  exists (aa_data att), (aa_aggregation_bits att), proof. split_and!; [done..|].
  rewrite Forall_forall in Hproofs. destruct att as [bits data]. apply Hproofs.
  by eapply elem_of_combine.
Qed.

Lemma headers_seen g blocks :
  Forall (checked_block (st_validators g)) blocks → seen (completed_header g) →
  collision_free (chain_headers g blocks).
Proof.
  intros Hall Hg h h' Hh Hh'.
  assert (Hseen : ∀ h, h ∈ chain_headers g blocks → seen h).
  { intros h0 [->|(block & -> & Hb)%list_elem_of_fmap]%elem_of_cons; [done|].
    rewrite Forall_forall in Hall. destruct (Hall _ Hb) as (sb & <- & Hs & _). apply Hs. }
  apply seen_inj; by apply Hseen.
Qed.

Lemma rests_on_quorum g c :
  seen (completed_header g) → rests_on_chain g c → 0 < cp_slot c → verified_quorum (st_validators g) c.
Proof.
  intros Hg (blocks & st & [Hc Hall] & Hcert) Hpos.
  destruct (certified_quorum g blocks st c) as (V & HV & Hsize & Hvotes);
    [done|by apply headers_seen|done..|].
  exists V. split_and!; [done..|]. intros i [source Hcast]%Hvotes. by eapply checked_vote.
Qed.

End provenance.

(** * Nodes *)

Section nodes.
Context `{STL : SszTypesLaws} `{SL : StorageLaws D B} `{CO : Codecs} {CL : CodecsLaws} `{HS : Hashing} {HL : HashingLaws}.
Context `{HOL : HashOrderLaws} `{MS : MultisigScheme}.
Context (seen : BlockHeader → Prop) {HSeen : HeadersSeen seen} {HR : RankedHeaders seen}.
Context {E : Type}.
Implicit Types (b : BlockChainServer (D := D)).

(** [b] is a blockchain actor that was spawned over an empty database initialized with the
    genesis state [g], with any validator keys, and has handled some messages with slots of
    32 bits, storing fewer than 3000 headers all the while (or having handled at most 2999
    messages, which implies it). All headers it has met may reach a node, also those of the
    blocks it has built itself. *)
Inductive node_run (g : State) : BlockChainServer → Prop :=
| node_runs d s keys aggregator msgs b :
    db_ok d → (∀ t, contents d t = ∅) → init_store d g None = Return s →
    along_run (E := E) (own_seen (E := E) seen) msgs (spawn s keys aggregator) → Forall (message_ok seen) msgs →
    (length msgs < STATES_TO_KEEP)%nat ∨ retained (E := E) msgs (spawn s keys aggregator) →
    (for_each handle msgs : M _ E unit) (spawn s keys aggregator) = Done b tt → node_run g b.

(** The node holds [c] for justified or finalized. *)
Definition holds b (c : Checkpoint) : Prop :=
  latest_justified (bc_store b) = Return c ∨ latest_finalized (bc_store b) = Return c.

Context (genesis_time : u64) (validators : list Validator) (g : State).
Context (Hne : validators ≠ []) (Hgen : from_genesis genesis_time validators = Return g)
  (Hg : seen (completed_header g)).

Lemma genesis_anchor_ok : anchor_ok seen g.
Proof.
  destruct (genesis_wf _ _ _ Hne Hgen) as [Hwf Ha].
  pose proof (gs_header _ _ _ (genesis_fields _ _ _ Hgen)) as Hslot.
  assert (Hc : chain_from g [] g) by (by econstructor).
  split; [done|done| | |].
  - intros Hpos. rewrite Hslot in Hpos. cbn in Hpos. lia.
  - unfold header_of. by rewrite <- (completed_unsealed g (chain_unsealed g [] g Hc)).
  - intros h Hh Heq. destruct (seen_nonzero h Hh). rewrite Heq.
    revert Hgen. unfold from_genesis. rewrite variable_list_new_spec, !bitlist_with_capacity_spec.
    destruct (_ <=? VALIDATOR_REGISTRY_LIMIT); [|done]. cbn. by intros [= <-].
Qed.

(** The invariant and the provenance of the states, for a running node. *)
Lemma node_rooted b : node_run g b → ∃ a, server_core seen 0 b a ∧ rooted seen g a.
Proof.
  destruct 1 as [d s keys aggregator msgs b Hok Hempty Hinit Hown Hmsgs Hlen Hrun].
  pose proof genesis_anchor_ok as Hanchor.
  assert (Hslot : 0 = header_slot g) by (by rewrite (gs_header _ _ _ (genesis_fields _ _ _ Hgen))).
  destruct (init_store_refines d g None Hok Hempty) as (s' & Hi & Hr).
  { left. apply (chain_unsealed g [] g). by econstructor. }
  rewrite Hi in Hinit. injection Hinit as ->. set (a := anchor_view g None) in *.
  assert (Hc : server_core seen 0 (spawn s keys aggregator) a).
  { apply spawn_core; [done|by apply anchor_chain_inv|by apply anchor_blocks_ok|]. intros r. apply lookup_empty. }
  assert (Hsize : size (vw_headers a) = 1%nat) by apply map_size_singleton.
  assert (Hkept : retained (E := E) msgs (spawn s keys aggregator)).
  { destruct Hlen as [Hlen|]; [|done]. apply (short_run_retained seen 0 msgs _ a); [done..|lia]. }
  destruct (messages_handled (E := E) seen 0 msgs _ a Hc Hown Hmsgs Hkept) as (b' & [] & Hb & a' & Hc' & _ & Hgrown).
  rewrite Hb in Hrun. injection Hrun as ->. exists a'. split; [done|].
  eapply grown_rooted; [exact Hgrown|]. by eapply genesis_rooted.
Qed.

Lemma holds_quorum b c :
  node_run g b → holds b c → 0 < cp_slot c → verified_quorum (st_validators g) c.
Proof.
  intros Hb Hh Hpos. destruct (node_rooted b Hb) as (a & Hc & Hro). pose proof (si_store _ _ _ _ Hc) as Hr.
  apply (rests_on_quorum seen); [done| |done].
  destruct Hh as [Hh|Hh].
  - rewrite (latest_justified_refines _ a Hr) in Hh. injection Hh as <-. by apply (ro_justified _ _ _ Hro).
  - rewrite (latest_finalized_refines _ a Hr) in Hh. injection Hh as <-. by apply (ro_finalized _ _ _ Hro).
Qed.

(** C3. A node that was started from genesis, validator or not, and has handled messages with
    slots of 32 bits while it stored fewer than 3000 headers, holds no justified or finalized
    checkpoint above genesis without votes of two thirds of the genesis validators, each
    covered by an aggregated proof that verified against the validators' keys; the headers
    of all blocks, also of those it has built, are assumed to hash without collision. *)
Theorem finality_certified b :
  node_run g b →
  ∃ justified finalized,
    latest_justified (bc_store b) = Return justified ∧ latest_finalized (bc_store b) = Return finalized ∧
    cp_slot finalized <= cp_slot justified ∧
    (0 < cp_slot justified → verified_quorum validators justified) ∧
    (0 < cp_slot finalized → verified_quorum validators finalized).
Proof.
  intros Hb. destruct (node_rooted b Hb) as (a & Hc & _). pose proof (si_store _ _ _ _ Hc) as Hr.
  pose proof (latest_justified_refines _ a Hr) as Hj. pose proof (latest_finalized_refines _ a Hr) as Hf.
  exists (vw_justified a), (vw_finalized a). rewrite <- (gs_validators _ _ _ (genesis_fields _ _ _ Hgen)).
  split_and!; [done|done|apply (ci_core _ _ a (si_chain _ _ _ _ Hc))| |];
    intros Hpos; apply (holds_quorum b); [done|by left|done|done|by right|done].
Qed.

(** C4. Two nodes that were started from one genesis, and have handled messages with slots of
    32 bits while they stored fewer than 3000 headers, which hash without collision, prove
    a third of the validators guilty when they hold different checkpoints of one slot: each
    of these validators signed two votes for that slot, with different targets. *)
Theorem nodes_accountable b1 b2 c1 c2 :
  node_run g b1 → node_run g b2 → holds b1 c1 → holds b2 c2 →
  c1 ≠ c2 → cp_slot c1 = cp_slot c2 → 0 < cp_slot c1 →
  ∃ V : gset nat, among (len validators) V ∧ len validators <= 3 * N.of_nat (size V) ∧
    ∀ i, i ∈ V → ∃ d1 d2, verified_vote validators i c1 d1 ∧ verified_vote validators i c2 d2 ∧
      double_vote d1 d2.
Proof.
  intros Hb1 Hb2 Hh1 Hh2 Hdiff Hslot Hpos. rewrite <- (gs_validators _ _ _ (genesis_fields _ _ _ Hgen)).
  destruct (holds_quorum b1 c1) as (V & HV & HVn & HVv); [done..|].
  destruct (holds_quorum b2 c2) as (W & HW & HWn & HWv); [done..|by rewrite <- Hslot|].
  exists (V ∩ W). split_and!.
  - intros i [Hi _]%elem_of_intersection. by apply HV.
  - by apply quorum_intersection.
  - intros i [[d1 Hd1]%HVv [d2 Hd2]%HWv]%elem_of_intersection. exists d1, d2. split_and!; [done..|].
    destruct Hd1 as (? & ? & Ht1 & _), Hd2 as (? & ? & Ht2 & _). unfold double_vote. by rewrite Ht1, Ht2.
Qed.

End nodes.

(** * Two concrete nodes

    One imports blocks 3 and 4 of [Forks], the other the twin blocks of the same slots. *)

Module NodesSample.
Import ChainSample ServerSample Forks.

#[local] Existing Instances reference_ssz_types reference_ssz_types_laws reference_codecs reference_codecs_laws
  reference_hashing reference_hashing_laws reference_scheme reference_scheme_laws reference_multisig
  reference_multisig_laws reference_order canonical_order_laws in_memory_backend in_memory_laws.

(** A block with the signatures of its voters and its proposer. *)
Definition proof_of (att : AggregatedAttestation) : AggregatedSignatureProof :=
  mk_proof (aa_aggregation_bits att) (as_ssz_bytes (A := XmssAggregateSignature)
    ((λ _, signature (aa_data att)) <$> filter (λ bit, bit = true) (aa_aggregation_bits att) : list bytes)).
Definition own_vote (block : Block) : AttestationData :=
  mk_attestation_data (b_slot block) (at_block block) (at_block block) check0.
Definition signed (block : Block) : SignedBlockWithAttestation :=
  mk_signed_block (mk_block_with_attestation block (mk_attestation (b_proposer_index block) (own_vote block)))
    (mk_block_signatures (proof_of <$> bb_attestations (b_body block)) (signature (own_vote block))).


Definition delivered (blocks : list Block) : list Message := NewBlock ∘ signed <$> blocks.

(** The headers of the nodes; the position in the list is the rank. Block [own5] is the one
    that validator 2 builds on the common blocks when its clock reaches slot 5. *)
Definition validator2 : BlockChainServer := spawn start (keys [2]) false.
Definition tick5 : Message := HandleTick (to_u64 1020000).
Definition own5 : Block := Eval vm_compute in
  match for_each (E := unit) handle (delivered common) validator2 with
  | Done b _ =>
      match tick_proposal (E := unit) b (to_u64 1020000) with
      | Some (slot, vid, s) =>
          match produce_block_with_signatures slot vid s with Done _ (block, _) => block | _ => block3 end
      | None => block3
      end
  | _ => block3
  end.
Definition headers : list BlockHeader := Eval vm_compute in
  completed_header genesis :: (block_header <$> common ++ [own5; twin3; twin4] ++ left ++ right).
Definition known (h : BlockHeader) : Prop := h ∈ headers.

Lemma known_roots : NoDup (H256_ZERO :: ((tree_hash_root : BlockHeader → H256) <$> headers)).
Proof. apply (NoDup_fmap_1 h256_val), (bool_decide_eq_true_1 _). by vm_compute. Qed.

#[local] Instance known_ok : HeadersSeen known.
Proof.
  pose proof known_roots as [Hzero Hnd]%NoDup_cons. split.
  - intros h1 h2 Hh1 Hh2. by apply (collision_free_NoDup headers Hnd).
  - intros h Hh Heq. apply Hzero. rewrite <- Heq. by apply list_elem_of_fmap_2.
Qed.

Definition roots : list H256 := Eval vm_compute in tree_hash_root <$> headers.
Definition position (r : H256) : nat :=
  match list_find (r =.) roots with Some (i, _) => S i | None => 0%nat end.

#[local] Instance known_ranked : RankedHeaders known.
Proof.
  refine {| rank := position |}. intros h Hh.
  assert (Hall : Forall (λ h, (position (bh_parent_root h) < position (tree_hash_root h))%nat) headers)
    by (apply (bool_decide_eq_true_1 _); by vm_compute).
  rewrite Forall_forall in Hall. by apply Hall.
Qed.

Definition finish (blocks : list Block) : BlockChainServer :=
  match for_each (E := unit) handle (delivered blocks) (spawn start ∅ false) with
  | Done b _ => b
  | _ => spawn start ∅ false
  end.

(** The actor handles all messages, and the test [k] holds of what it ends as. *)
Definition continues (msgs : list Message) (b : BlockChainServer) (k : BlockChainServer → bool) : bool :=
  match for_each (E := unit) handle msgs b with Done b' _ => k b' | _ => false end.

Lemma continues_done msgs b k : continues msgs b k = true →
  ∃ b', for_each (E := unit) handle msgs b = Done b' tt ∧ k b' = true.
Proof. unfold continues. destruct (for_each _ _ _) as [? []| | |]; by eauto. Qed.

(** After the blocks the node holds these checkpoints for justified and finalized. *)
Definition shows (b : BlockChainServer) (justified finalized : Checkpoint) : Prop :=
  latest_justified (bc_store b) = Return justified ∧ latest_finalized (bc_store b) = Return finalized.
Definition returns (p : partial Checkpoint) (c : Checkpoint) : bool :=
  if p is Return c' then bool_decide (c' = c) else false.
Definition test_shows (justified finalized : Checkpoint) (b : BlockChainServer) : bool :=
  returns (latest_justified (bc_store b)) justified && returns (latest_finalized (bc_store b)) finalized.

Lemma returns_spec p c : returns p c = true → p = Return c.
Proof. destruct p; [|done..]. by intros ->%bool_decide_eq_true_1. Qed.

Lemma test_shows_spec b justified finalized : test_shows justified finalized b = true → shows b justified finalized.
Proof. by intros [?%returns_spec ?%returns_spec]%andb_true_iff. Qed.

Definition finished (blocks : list Block) (justified finalized : Checkpoint) : Prop :=
  for_each (E := unit) handle (delivered blocks) (spawn start ∅ false) = Done (finish blocks) tt ∧
  shows (finish blocks) justified finalized.

Lemma finish_done blocks b justified finalized :
  for_each (E := unit) handle (delivered blocks) (spawn start ∅ false) = Done b tt →
  test_shows justified finalized b = true → finished blocks justified finalized.
Proof.
  intros Hrun Hshow%test_shows_spec. assert (finish blocks = b) as Heq by (unfold finish; by rewrite Hrun).
  split; by rewrite Heq.
Qed.

Lemma delivered_app blocks blocks' b b' :
  for_each (E := unit) handle (delivered blocks) (spawn start ∅ false) = Done b tt →
  for_each (E := unit) handle (delivered blocks') b = Done b' tt →
  for_each (E := unit) handle (delivered (blocks ++ blocks')) (spawn start ∅ false) = Done b' tt.
Proof.
  intros H1 H2. unfold delivered, for_each in *. rewrite fmap_app, foldM_app, run_bind. rewrite H1. exact H2.
Qed.

(** A node goes on from [common] with [left], then also [right]; another with [right]. *)
Definition runs_ok (msgs1 msgs2 msgs3 : list Message) : bool :=
  continues msgs1 (spawn start ∅ false) (λ b, test_shows check3 check0 b &&
    continues msgs2 b (λ b, test_shows (at_block left9) (at_block left6) b &&
      continues msgs3 b (test_shows (at_block right15) (at_block right12))) &&
    continues msgs3 b (test_shows (at_block right15) (at_block right12))).

Lemma all_runs_ok : runs_ok (delivered common) (delivered left) (delivered right) = true.
Proof. by vm_compute. Qed.

Lemma all_finished :
  finished common check3 check0 ∧ finished (common ++ left) (at_block left9) (at_block left6) ∧
  finished ((common ++ left) ++ right) (at_block right15) (at_block right12) ∧
  finished (common ++ right) (at_block right15) (at_block right12).
Proof.
  pose proof all_runs_ok as (b1 & H1 & [[T1 L]%andb_true_iff R]%andb_true_iff)%continues_done.
  apply continues_done in L as (b2 & H2 & [T2 (b3 & H3 & T3)%continues_done]%andb_true_iff).
  apply continues_done in R as (b4 & H4 & T4). pose proof (delivered_app _ _ _ _ H1 H2) as H12.
  split; [exact (finish_done _ _ _ _ H1 T1)|]. split; [exact (finish_done _ _ _ _ H12 T2)|].
  split; [exact (finish_done _ _ _ _ (delivered_app _ _ _ _ H12 H3) T3)|].
  exact (finish_done _ _ _ _ (delivered_app _ _ _ _ H1 H4) T4).
Qed.

Lemma twin_finished : finished [twin3; twin4] (at_block twin3) check0.
Proof.
  assert (Hok : continues (delivered [twin3; twin4]) (spawn start ∅ false) (test_shows (at_block twin3) check0) = true)
    by (vm_compute; reflexivity).
  apply continues_done in Hok as (b & Hrun & Hshow). exact (finish_done _ _ _ _ Hrun Hshow).
Qed.

(** What [message_ok] asks of the blocks, as a test. *)
Definition block_ok (block : Block) : bool :=
  bool_decide (block_header block ∈ headers) &&
  negb (bool_decide (tree_hash_root (b_body block) = EMPTY_BODY_ROOT) && bool_decide (b_body block ≠ BlockBody_default)) &&
  forallb (λ att, ad_slot (aa_data att) <? 2 ^ 32) (bb_attestations (b_body block)) && (b_slot block <? 2 ^ 32).

Lemma block_ok_message block : block_ok block = true → message_ok known (NewBlock (signed block)).
Proof.
  unfold block_ok. rewrite !andb_true_iff, negb_true_iff, andb_false_iff, bool_decide_eq_true, !bool_decide_eq_false.
  intros [[[Hin Hbody] Hatts] Hslot]. split; [exact Hin| |split].
  - intros Heq. destruct Hbody as [Hno|Hdef]; [by destruct Hno|].
    destruct (decide (b_body block = BlockBody_default)); [done|by destruct Hdef].
  - apply Forall_forall. intros att Hatt. rewrite forallb_forall in Hatts.
    by apply N.ltb_lt, Hatts, list_elem_of_In.
  - by apply N.ltb_lt.
Qed.

Lemma delivered_ok blocks : forallb block_ok blocks = true → Forall (message_ok known) (delivered blocks).
Proof.
  intros Hok. apply Forall_fmap, Forall_forall. intros block Hin. cbn. apply block_ok_message.
  rewrite forallb_forall in Hok. by apply Hok, list_elem_of_In.
Qed.

(** Imported blocks build none. *)
Lemma delivered_seen blocks b : along_run (E := unit) (own_seen (E := unit) known) (delivered blocks) b.
Proof. revert b. unfold delivered. induction blocks as [|block blocks IH]; intros b; cbn; [done|]. split; [done|]. intros b' _. apply IH. Qed.

Lemma own5_ok block : bool_decide (block = own5) = true → known (block_header block) ∧ no_empty_collision (b_body block).
Proof.
  intros ->%bool_decide_eq_true_1. assert (Hok : block_ok own5 = true) by (by vm_compute).
  destruct (block_ok_message own5 Hok) as [Hin Hbody _]. by split.
Qed.

Definition blocks_ok (blocks : list Block) : bool :=
  forallb block_ok blocks && (length blocks <? STATES_TO_KEEP)%nat.

Lemma finish_node_run blocks justified finalized :
  finished blocks justified finalized → blocks_ok blocks = true →
  node_run (E := unit) known genesis (finish blocks).
Proof.
  intros [Hrun _] [Hok Hlen%Nat.ltb_lt]%andb_true_iff.
  apply (node_runs (E := unit) known genesis InMemoryBackend_new start ∅ false (delivered blocks));
    [apply in_memory_new_ok|apply in_memory_new_empty|apply start_init|apply delivered_seen| |left; unfold delivered; by rewrite length_fmap|exact Hrun].
  - by apply delivered_ok.
Qed.

(** Node A has the key of validator 2, imports the common blocks and proposes block [own5]. *)
Definition msgsA : list Message := delivered common ++ [tick5].
Definition nodeA : BlockChainServer :=
  match for_each (E := unit) handle msgsA validator2 with Done b _ => b | _ => validator2 end.
Definition nodeB : BlockChainServer := finish [twin3; twin4].

Definition has_head (r : H256) (b : BlockChainServer) : bool :=
  if store_head (bc_store b) is Return r' then bool_decide (r' = r) else false.

Lemma runA_ok : test_run (test_own (λ block, bool_decide (block = own5)))
  (λ b, test_shows check3 check0 b && has_head (tree_hash_root own5) b) msgsA validator2 = true.
Proof. vm_compute. reflexivity. Qed.

Lemma finishedA : along_run (E := unit) (own_seen (E := unit) known) msgsA validator2 ∧
  for_each (E := unit) handle msgsA validator2 = Done nodeA tt ∧ shows nodeA check3 check0.
Proof.
  destruct (test_run_spec (own_seen (E := unit) known) _ _ msgsA (λ b msg, test_own_seen known _ b msg own5_ok) validator2 runA_ok)
    as [Halong (b & Hrun & [Hshow%test_shows_spec _]%andb_true_iff)].
  assert (nodeA = b) as Heq by (unfold nodeA; by rewrite Hrun). rewrite Heq. by split_and!.
Qed.

Lemma nodeA_run : node_run (E := unit) known genesis nodeA.
Proof.
  destruct finishedA as (Halong & Hrun & _).
  apply (node_runs (E := unit) known genesis InMemoryBackend_new start (keys [2]) false msgsA);
    [apply in_memory_new_ok|apply in_memory_new_empty|apply start_init|exact Halong| |left; apply Nat.ltb_lt; by vm_compute|exact Hrun].
  apply Forall_app. split; [|apply Forall_singleton; by vm_compute]. apply delivered_ok. by vm_compute.
Qed.
Lemma nodeB_run : node_run (E := unit) known genesis nodeB.
Proof. refine (finish_node_run _ _ _ twin_finished _). by vm_compute. Qed.

Lemma nodeA_holds : holds nodeA check3.
Proof. left. apply finishedA. Qed.
Lemma nodeB_holds : holds nodeB (at_block twin3).
Proof. left. destruct twin_finished as [_ [HB _]]. exact HB. Qed.

Definition sample_validators : list Validator := [Sample.validator 0; Sample.validator 1; Sample.validator 2].

Lemma three_genesis : from_genesis (to_u64 1000) sample_validators = Return genesis.
Proof. by vm_compute. Qed.


Lemma finality_certified_witness :
  ∃ justified finalized, latest_justified (bc_store nodeA) = Return justified ∧
    latest_finalized (bc_store nodeA) = Return finalized ∧ cp_slot finalized <= cp_slot justified ∧
    (0 < cp_slot justified → verified_quorum sample_validators justified) ∧
    (0 < cp_slot finalized → verified_quorum sample_validators finalized).
Proof.
  apply (finality_certified (E := unit) known (to_u64 1000) sample_validators genesis);
    [done|exact three_genesis|by left|exact nodeA_run].
Defined.

Lemma nodes_accountable_witness :
  ∃ V : gset nat, among (len sample_validators) V ∧ len sample_validators <= 3 * N.of_nat (size V) ∧
    ∀ i, i ∈ V → ∃ d1 d2, verified_vote sample_validators i check3 d1 ∧
      verified_vote sample_validators i (at_block twin3) d2 ∧ double_vote d1 d2.
Proof.
  apply (nodes_accountable (E := unit) known (to_u64 1000) sample_validators genesis) with (b1 := nodeA) (b2 := nodeB);
    [done|exact three_genesis|by left|exact nodeA_run|exact nodeB_run|exact nodeA_holds|exact nodeB_holds| |by vm_compute|by vm_compute].
  apply (bool_decide_eq_true_1 _). by vm_compute.
Defined.

End NodesSample.
