(* ===== verification/Stalling.v ===== *)
(** A chain whose latest justified checkpoint has gone back: voters use the store's
    checkpoint as source, which never goes back, block building takes only votes from the
    chain's one, so no vote is included any more and the chain stops being justified. *)

From S2P Require Import Prelude Types StateTransition Reference StateInvariant BlockProcessing Transitions Quorums ForkChoice.
From S2P Require Import Backend InMemory Keys Signatures PayloadBuffer Store Crypto StoreSpec StoreOps StorePruning StoreMaintenance Codec.
From S2P Require Import ChainInvariant ChainStore Bits ChainRefine ChainClock ChainImport ChainBlocks BlockBuilding ChainVotes BuildSpec ChainProduce ChainTheorems.
From S2P Require Import ChainServer ServerSpec ServerSteps ServerMessages ServerTheorems Finality.

Section stalling.
Context `{STL : SszTypesLaws} `{HS : Hashing} `{HOL : HashOrderLaws} `{MS : MultisigScheme}.

(** The same justified and finalized checkpoints, and the same justified slots. *)
Record same_finality (s s' : State) : Prop := {
  sf_justified : st_latest_justified s' = st_latest_justified s;
  sf_finalized : st_latest_finalized s' = st_latest_finalized s;
  sf_slots t : justified_slot s' t ↔ justified_slot s t;
}.

#[global] Instance same_finality_refl : Reflexive same_finality.
Proof. by split. Qed.
#[global] Instance same_finality_trans : Transitive same_finality.
Proof. intros s1 s2 s3 [? ? H12] [? ? H23]. split; [congruence..|]. intros t. by rewrite H23, H12. Qed.

(** Blocks without attestations do not touch finality, once genesis has a successor. *)
Lemma empty_block_same head block post :
  state_wf head → block_fits head block → 0 < header_slot head → bb_attestations (b_body block) = [] →
  process_block block (at_slot (b_slot block) head) = Done post tt → same_finality head post.
Proof.
  intros Hwf Hfits Hpos Hatts. pose proof (at_slot_wf (b_slot block) head Hwf (bf_slot _ _ Hfits)) as Hwf0.
  unfold process_block. rewrite run_bind.
  destruct (process_block_header_cases (at_slot (b_slot block) head) block)
    as [(? & ? & -> & _)|(s1 & -> & Hacc & Happ)]; [apply Hwf0|done|].
  assert (Hwf1 : state_wf s1) by (by eapply header_applied_wf).
  destruct (process_attestations_steps s1 [] Hwf1) as (s2 & J & Hsteps & Hrun & _).
  inversion Hsteps. subst. rewrite Hatts, Hrun, with_loaded_tallies by done. intros [= <-].
  assert (Hzero : (u64_val (header_slot (at_slot (b_slot block) head)) =? 0) = false).
  { apply N.eqb_neq. rewrite at_slot_header_slot. lia. }
  split.
  - by rewrite (hd_justified _ _ _ Happ), Hzero.
  - by rewrite (hd_finalized _ _ _ Happ), Hzero.
  - intros t. unfold justified_slot. by rewrite (hd_window_bits _ _ _ Happ t).
Qed.

(** * Building with votes from another source *)

Section build.
Context (available : list Attestation) (roots : gset H256) (payloads : gmap SignatureKey (list AggregatedSignatureProof)).
Context (head_state : State) (slot proposer_index : u64) (parent_root : H256).
Context (Hwf : state_wf head_state) (Hpos : 0 < header_slot head_state).
Context (Hsource : ∀ att, att ∈ available → ad_source (att_data att) ≠ st_latest_justified head_state).

Lemma nothing_collected : collect_new (st_latest_justified head_state) available roots payloads ∅ = ([], ∅).
Proof.
  destruct (collect_new _ _ _ _ _) as [new keys] eqn:Hnew.
  destruct (collect_new_spec _ _ _ _ _ _ _ Hnew) as (Hkeys & _ & Hin & _).
  destruct new as [|att new].
  - f_equal. rewrite Hkeys. apply (right_id_L ∅ (∪)).
  - destruct (Hin att) as (Hatt & [_ Heq _] & _); [by left|]. by destruct (Hsource att Hatt).
Qed.

Lemma no_aggregates : aggregate_attestations_by_data [] = Return [].
Proof.
  unfold aggregate_attestations_by_data. cbn [foldl].
  assert (hash_iter (∅ : gmap H256 (AttestationData * list u64)) = []) as ->; [|done].
  apply Permutation_nil_r. by rewrite hash_iter_perm, map_to_list_empty.
Qed.

Lemma no_attestations : block_attestations [] = Return [].
Proof. unfold block_attestations. by rewrite variable_list_new_spec. Qed.

(** The block has no attestations, and its post-state the head's finality. *)
Lemma build_empty {S : Type} (s s' : S) block post proofs :
  build_block head_state slot proposer_index parent_root available roots payloads s = Done s' (block, post, proofs) →
  bb_attestations (b_body block) = [] ∧ state_wf post ∧ u64_val slot = header_slot post ∧
  header_slot head_state < slot ∧ same_finality head_state post.
Proof.
  set (empty := candidate_block slot proposer_index parent_root []). intros Hrun.
  destruct (state_transition_cases head_state empty Hwf) as [(_ & _ & _ & Hno)|(post0 & Hpb & Hfits & Hpost & _)].
  { exfalso. destruct (candidate_rejected head_state Hwf empty Hno) as [e He]. revert Hrun.
    unfold build_block, collect_fuel. cbn [collect_loop].
    rewrite run_bind, run_bind, run_lift_partial, no_aggregates, run_bind, run_lift_partial.
    rewrite no_attestations, run_bind. fold empty. by rewrite He. }
  destruct (candidate_accepted head_state Hwf empty Hfits) as (post1 & Hpb1 & Hwf1 & Hcand).
  assert (post1 = post0) as -> by congruence.
  pose proof (empty_block_same head_state empty post0 Hwf Hfits Hpos eq_refl Hpb) as Hsame.
  revert Hrun. unfold build_block, collect_fuel. cbn [collect_loop].
  rewrite run_bind, run_bind, run_lift_partial, no_aggregates, run_bind, run_lift_partial.
  rewrite no_attestations, run_bind. fold empty. rewrite Hcand, (sf_justified _ _ Hsame), nothing_collected.
  assert (Hsel : select_aggregated_proofs [] payloads = Return ([], []))
    by (unfold select_aggregated_proofs; by rewrite no_aggregates).
  destruct (_ || _); rewrite run_ret, run_bind, run_lift_partial, Hsel, run_bind, run_lift_partial, no_attestations, run_bind;
    fold empty; rewrite Hcand, run_ret; intros [= _ <- <- _]; split_and!; try done.
  all: try (unfold header_slot; by rewrite (bp_header _ _ _ Hpost)).
  all: pose proof (bf_slot _ _ Hfits); pose proof (wf_slot _ (proj1 Hwf)); cbn in *; lia.
Qed.

End build.

(** * Chains of built blocks *)

(** Heads that follow from each other by blocks that [build_block] returns, from whatever
    votes, proofs and known blocks their proposers have, with sources in [sources]. *)
Inductive builds_on (sources : Checkpoint → Prop) (head : State) : State → Prop :=
  | builds_nothing : builds_on sources head head
  | builds_block head' slot proposer_index parent_root available roots payloads (s s' : unit) block post proofs :
      builds_on sources head head' →
      (∀ att, att ∈ available → sources (ad_source (att_data att))) →
      build_block head' slot proposer_index parent_root available roots payloads s = Done s' (block, post, proofs) →
      builds_on sources head (imported_state block post).

Lemma imported_state_wf block post : state_wf post → state_wf (imported_state block post).
Proof. intros [Hc Ht]. split; [by destruct Hc; split|by destruct Ht; split]. Qed.

Lemma imported_state_same block post : same_finality post (imported_state block post).
Proof. by split. Qed.

(** C11. Justification stalls on a chain whose latest justified checkpoint is not the source
    of the votes: the blocks that [build_block] returns have no attestations, so the
    chain's justified and finalized checkpoints never change again, however many
    validators vote. *)
Theorem justification_stalls sources head head' :
  state_wf head → 0 < header_slot head → ¬ sources (st_latest_justified head) → builds_on sources head head' →
  same_finality head head'.
Proof.
  intros Hwf Hpos Hno Hbuilds.
  enough (state_wf head' ∧ 0 < header_slot head' ∧ same_finality head head') by intuition.
  induction Hbuilds as [|head' slot proposer_index root available roots payloads s s' block post proofs _ (Hwf' & Hpos' & Hsame) Hsources Hrun];
    [done|].
  destruct (build_empty available roots payloads head' slot proposer_index root Hwf' Hpos'
    (λ att Hatt Heq, Hno (eq_ind _ sources (Hsources att Hatt) _ (eq_trans Heq (sf_justified _ _ Hsame)))) s s' block post proofs Hrun)
    as (_ & Hwfp & Hslot & Hlt & Hsamep).
  split; [by apply imported_state_wf|]. split; [change (0 < header_slot post); lia|].
  etrans; [exact Hsame|]. etrans; [exact Hsamep|apply imported_state_same].
Qed.

End stalling.

(** * A node whose chain stalls *)

Module StallingSample.
Import Scenario ChainSample ServerSample Forks NodesSample.

#[local] Existing Instances reference_ssz_types reference_ssz_types_laws reference_codecs reference_codecs_laws
  reference_hashing reference_hashing_laws reference_scheme reference_scheme_laws reference_multisig
  reference_multisig_laws reference_order canonical_order_laws in_memory_backend in_memory_laws.

(** Block 3 has the votes for block 2, block 4 late votes for block 1. *)
Definition late3 : Block := Eval vm_compute in votes_back 1.
Definition lstate3 : State := Eval vm_compute in after pstate2 late3.
Definition late4 : Block := Eval vm_compute in sealed lstate3 4 [ballot all origin (at_block solo1)].
Definition lstate4 : State := Eval vm_compute in after lstate3 late4.
Definition stalled : list Block := [solo1; plain2; late3; late4].

(** The state the node keeps for block 4, and a vote as its validators cast it afterwards. *)
Definition stalled_head : State := imported_state late4 lstate4.
Definition honest_vote : AttestationData :=
  mk_attestation_data (to_u64 4) (at_block late4) (at_block late3) (at_block plain2).
Definition honest_votes : list Attestation := (λ i, mk_attestation (to_u64 i) honest_vote) <$> [0; 1; 2].
Definition honest_proof : AggregatedSignatureProof := proof_of (mk_aggregated_attestation all honest_vote).
Definition honest_payloads : gmap SignatureKey (list AggregatedSignatureProof) :=
  list_to_map ((λ i, ((to_u64 i, tree_hash_root honest_vote), [honest_proof])) <$> [0; 1; 2]).

Definition built : outcome unit StoreError (Block * State * list AggregatedSignatureProof) :=
  build_block stalled_head (to_u64 5) (to_u64 2) (tree_hash_root late4) honest_votes {[tree_hash_root late4]}
    honest_payloads tt.
Lemma stalled_chain : chain_from genesis stalled lstate4.
Proof.
  apply (extend [solo1; plain2; late3] lstate3 late4); [|run_step].
  apply (extend [solo1; plain2] pstate2 late3); [|run_step].
  apply (extend [solo1] sstate1 plain2); [|run_step].
  apply (extend [] genesis solo1); [apply genesis_chain_from|run_step].
Qed.

Lemma stalled_wf : state_wf stalled_head.
Proof. eapply imported_state_wf, chain_state_wf, chain_from_state, stalled_chain. Qed.

Lemma is_done_done {S E A} (o : outcome S E A) : is_done o = true → ∃ s a, o = Done s a.
Proof. destruct o; [eauto|done..]. Qed.

Lemma built_done : ∃ s block post proofs, built = Done s (block, post, proofs).
Proof. destruct (is_done_done built) as (s & [[block post] proofs] & Heq); [by vm_compute|eauto]. Qed.

(** The node that imports the chain votes with block 2 as source. *)
Definition test_stalled (b : BlockChainServer) : bool :=
  returns (latest_justified (bc_store b)) (at_block plain2) &&
  match get_state (tree_hash_root late4) (bc_store b) with
  | Return (Some st) => bool_decide (st = stalled_head)
  | _ => false
  end.

Lemma test_stalled_spec b : test_stalled b = true →
  latest_justified (bc_store b) = Return (at_block plain2) ∧
  get_state (tree_hash_root late4) (bc_store b) = Return (Some stalled_head).
Proof.
  intros [?%returns_spec Hst]%andb_true_iff. split; [done|].
  destruct (get_state _ _) as [[st|]| |]; [|done..]. by apply bool_decide_eq_true_1 in Hst as ->.
Qed.

Lemma stalled_node : ∃ b, for_each (E := unit) handle (delivered stalled) (spawn start ∅ false) = Done b tt ∧
  latest_justified (bc_store b) = Return (at_block plain2) ∧
  get_state (tree_hash_root late4) (bc_store b) = Return (Some stalled_head).
Proof.
  assert (Hok : continues (delivered stalled) (spawn start ∅ false) test_stalled = true) by (vm_compute; reflexivity).
  apply continues_done in Hok as (b & Hrun & Htest). exists b. split; [exact Hrun|exact (test_stalled_spec b Htest)].
Qed.

(** Its head's state has block 1 as the latest justified one, and a block is built that
    leaves the votes of all validators out. *)
Lemma justification_stalls_witness :
  (∃ b, for_each (E := unit) handle (delivered stalled) (spawn start ∅ false) = Done b tt ∧
    latest_justified (bc_store b) = Return (at_block plain2) ∧
    get_state (tree_hash_root late4) (bc_store b) = Return (Some stalled_head)) ∧
  st_latest_justified stalled_head = at_block solo1 ∧
  ∃ block post proofs, built = Done tt (block, post, proofs) ∧ same_finality stalled_head (imported_state block post).
Proof.
  split; [exact stalled_node|]. split; [by vm_compute|].
  destruct built_done as ([] & block & post & proofs & Hbuilt). exists block, post, proofs. split; [exact Hbuilt|].
  apply (justification_stalls (λ c, c = at_block plain2));
    [exact stalled_wf|by vm_compute|apply (bool_decide_eq_true_1 _); by vm_compute|].
  apply (builds_block _ _ stalled_head (to_u64 5) (to_u64 2) (tree_hash_root late4) honest_votes
    {[tree_hash_root late4]} honest_payloads tt tt block post proofs); [constructor| |exact Hbuilt].
  intros att Hatt. unfold honest_votes in Hatt. apply list_elem_of_fmap in Hatt as (i & -> & _). reflexivity.
Defined.

End StallingSample.
