(* ===== verification/Wire.v ===== *)
(** The encodings of the network (crates/net/p2p/src/req_resp/{encoding,messages,codec}.rs
    and gossipsub/encoding.rs): variable-length sizes, snappy payloads, and the requests and
    responses of the two protocols. A stream is the list of bytes that are still to be read
    (until its end), or that were written. *)

From Stdlib Require Import Strings.Byte.
From S2P Require Import Prelude Types.

(** * Third-party interfaces *)

(** The snap library: the frame format and the raw format. [snappy_decompress] fills a
    buffer of the length the message claims. *)
Class Snappy := {
  snappy_frame_encode : bytes → option bytes;
  snappy_frame_decode : bytes → option bytes;
  snappy_decompress_len : bytes → option N;
  snappy_decompress : bytes → option bytes;
  snappy_compress : bytes → option bytes;
}.

Definition MAX_PAYLOAD_SIZE : N := 10 * 1024 * 1024.
Definition MAX_COMPRESSED_PAYLOAD_SIZE : N := 32 + MAX_PAYLOAD_SIZE + MAX_PAYLOAD_SIZE / 6 + 1024.

(** Its documented behaviour: both formats round trip; compression grows data by a sixth at
    most; a frame stream of non-empty data starts with the stream identifier; and after it
    no compressed chunk may be longer than the longest compression of 64 KiB. *)
Definition stream_identifier : bytes := [xff; x06; x00; x00; x73; x4e; x61; x50; x70; x59].
Definition MAX_COMPRESS_BLOCK_SIZE : N := 76490.
Definition le24 (a b c : byte) : N := Byte.to_N a + 256 * Byte.to_N b + 65536 * Byte.to_N c.

Class SnappyLaws `{Snappy} : Prop := {
  frame_encodes d : len d <= MAX_PAYLOAD_SIZE → ∃ c, snappy_frame_encode d = Some c ∧ len c <= 32 + len d + len d / 6;
  frame_roundtrip d c : snappy_frame_encode d = Some c → snappy_frame_decode c = Some d;
  frame_identifier d c : snappy_frame_encode d = Some c → d ≠ [] → ∃ t, c = stream_identifier ++ t;
  frame_chunk_too_long d c x y z rest :
    snappy_frame_encode d = Some c → d ≠ [] → MAX_COMPRESS_BLOCK_SIZE + 4 < le24 x y z →
    snappy_frame_decode (c ++ x00 :: x :: y :: z :: rest) = None;
  raw_compresses d : len d < 2 ^ 32 → is_Some (snappy_compress d);
  raw_roundtrip d c : snappy_compress d = Some c → snappy_decompress c = Some d;
  raw_length c d : snappy_decompress c = Some d → snappy_decompress_len c = Some (len d);
}.

(** * encoding.rs *)

Inductive IoError : Type :=
| UnexpectedEof
| MessageTooShort
| VarintTooLong
| MessageSizeExceedsMaximum
| SnappyFailed
| SizeMismatch
| InvalidSsz
| UnknownProtocol.

(** [value << count] on a [u32]: a release build masks the count. *)
Definition shl32 (value count : N) : N := N.shiftl value (count mod 32) mod 2 ^ 32.

Fixpoint encode_varint_loop (rounds : nat) (value : N) : bytes :=
  match rounds with
  | O => []
  | S rounds =>
      let low := N.land value 127 in
      let value := N.shiftr value 7 in
      let b := byte_of_N (if negb (value =? 0) then N.lor low 128 else low) in
      if value =? 0 then [b] else b :: encode_varint_loop rounds value
  end.

(** [encode_varint] *)
Definition encode_varint (value : N) : bytes := encode_varint_loop 5 value.

(** [decode_varint]; [i] counts the bytes read. *)
Fixpoint decode_varint_loop (i result : N) (buf : bytes) : option (N * bytes) :=
  match buf with
  | [] => None
  | b :: rest =>
      let result := N.lor result (shl32 (N.land (Byte.to_N b) 127) (7 * i)) in
      if N.land (Byte.to_N b) 128 =? 0 then Some (result, rest)
      else decode_varint_loop (i + 1) result rest
  end.
Definition decode_varint (buf : bytes) : IoError + N * bytes :=
  match decode_varint_loop 0 0 buf with
  | Some r => inr r
  | None => inl VarintTooLong
  end.

(** The first [n] bytes of a stream. *)
Fixpoint take_N (n : N) (l : bytes) : bytes :=
  match l with
  | [] => []
  | x :: l => if n =? 0 then [] else x :: take_N (n - 1) l
  end.
Fixpoint drop_N (n : N) (l : bytes) : bytes :=
  match l with
  | [] => []
  | x :: l' => if n =? 0 then l else drop_N (n - 1) l'
  end.

(** [io.take(limit).read_to_end(..)], [io.read_exact(..)] of one byte, [io.write_all(..)] *)
Definition read_to_end {E} (limit : N) : M bytes E bytes := λ io, Done (drop_N limit io) (take_N limit io).
Definition read_byte : M bytes IoError byte := λ io,
  match io with
  | [] => Fail [] UnexpectedEof
  | b :: io => Done io b
  end.
Definition write_all {E} (l : bytes) : M bytes E unit := modify (λ io, io ++ l).

Section payload.
Context `{Snappy}.

(** [decode_payload] *)
Definition decode_payload : M bytes IoError bytes :=
  buf ← read_to_end MAX_COMPRESSED_PAYLOAD_SIZE;
  fail_if (len buf <? 2) MessageTooShort;;
  '(size, rest) ← map_err id (decode_varint buf);
  fail_if (MAX_PAYLOAD_SIZE <? size) MessageSizeExceedsMaximum;;
  uncompressed ← ok_or (snappy_frame_decode rest) SnappyFailed;
  fail_if (negb (len uncompressed =? size)) SizeMismatch;;
  mret uncompressed.

(** [write_payload] *)
Definition write_payload (encoded : bytes) : M bytes IoError unit :=
  let uncompressed_size := len encoded in
  buf ← ok_or (snappy_frame_encode encoded) SnappyFailed;
  let varint_buf := encode_varint (uncompressed_size mod 2 ^ 32) in
  write_all varint_buf;;
  write_all buf.

(** ** gossipsub/encoding.rs *)

Inductive DecompressError : Type :=
| Snap
| TooLarge (size max : N).

(** [decompress_message] *)
Definition decompress_message (data : bytes) : DecompressError + bytes :=
  match snappy_decompress_len data with
  | None => inl Snap
  | Some uncompressed_size =>
      if MAX_PAYLOAD_SIZE <? uncompressed_size then inl (TooLarge uncompressed_size MAX_PAYLOAD_SIZE)
      else
        match snappy_decompress data with
        | None => inl Snap
        | Some uncompressed_data => inr uncompressed_data
        end
  end.

(** [compress_message] *)
Definition compress_message (data : bytes) : partial bytes := expect_some (snappy_compress data).

End payload.

(** * messages.rs *)

Definition STATUS_PROTOCOL_V1 : string := "/leanconsensus/req/status/1/ssz_snappy".
Definition BLOCKS_BY_ROOT_PROTOCOL_V1 : string := "/leanconsensus/req/blocks_by_root/1/ssz_snappy".

Record Status := mk_status { status_finalized : Checkpoint; status_head : Checkpoint }.

(** A list of at most 1024 roots. *)
Definition MaxRequestBlocks : N := 1024.
Definition MaxErrorMessageLength : N := 256.
Record BlocksByRootRequest := mk_blocks_by_root_request { roots : list H256 }.
Abbreviation ErrorMessage := bytes.

Inductive Request : Type :=
| RequestStatus (status : Status)
| RequestBlocksByRoot (request : BlocksByRootRequest).

(** A response code is a byte; 0 is success. *)
Abbreviation ResponseCode := byte.
Definition SUCCESS : ResponseCode := x00.

Inductive ResponsePayload : Type :=
| PayloadStatus (status : Status)
| PayloadBlocksByRoot (blocks : list SignedBlockWithAttestation).

Inductive Response : Type :=
| ResponseSuccess (payload : ResponsePayload)
| ResponseError (code : ResponseCode) (message : ErrorMessage).

(** * codec.rs *)

(** The derived SSZ codecs of what the network carries. *)
Class WireCodecs := {
  wire_Status : Ssz Status;
  wire_Request : Ssz BlocksByRootRequest;
  wire_Block : Ssz SignedBlockWithAttestation;
  wire_Attestation : Ssz SignedAttestation;
  wire_Aggregated : Ssz SignedAggregatedAttestation;
  wire_Error : Ssz ErrorMessage;
}.
#[global] Existing Instances wire_Status wire_Request wire_Block wire_Attestation wire_Aggregated wire_Error.

(** They round trip, bounded lists within their limit; a list of bytes is written as it is;
    a signed block takes 128 bytes or more (its proposer signature alone takes 3112). *)
Class WireLaws `{WireCodecs} : Prop := {
  wire_Status_laws :: SszLaws Status;
  wire_Request_laws r : len (roots r) <= MaxRequestBlocks → from_ssz_bytes (as_ssz_bytes r) = Some r;
  wire_Block_laws :: SszLaws SignedBlockWithAttestation;
  wire_Attestation_laws :: SszLaws SignedAttestation;
  wire_Aggregated_laws :: SszLaws SignedAggregatedAttestation;
  wire_Error_laws (m : ErrorMessage) :
    len m <= MaxErrorMessageLength → as_ssz_bytes m = m ∧ from_ssz_bytes (as_ssz_bytes m) = Some m;
  wire_Status_nonempty (s : Status) : as_ssz_bytes s ≠ [];
  wire_Request_nonempty (r : BlocksByRootRequest) : as_ssz_bytes r ≠ [];
  wire_Block_length (b : SignedBlockWithAttestation) : 128 <= len (as_ssz_bytes b);
}.

Section codec.
Context `{Snappy} `{WireCodecs}.

(** [T::from_ssz_bytes(payload).map_err(..)?] *)
Definition decode_ssz {A} `{Ssz A} (payload : bytes) : M bytes IoError A := ok_or (from_ssz_bytes payload) InvalidSsz.

(** [read_request] *)
Definition read_request (protocol : string) : M bytes IoError Request :=
  payload ← decode_payload;
  if bool_decide (protocol = STATUS_PROTOCOL_V1) then
    status ← decode_ssz payload; mret (RequestStatus status)
  else if bool_decide (protocol = BLOCKS_BY_ROOT_PROTOCOL_V1) then
    request ← decode_ssz payload; mret (RequestBlocksByRoot request)
  else throw UnknownProtocol.

(** [decode_status_response] *)
Definition decode_status_response : M bytes IoError Response :=
  code ← read_byte;
  payload ← decode_payload;
  if negb (bool_decide (code = SUCCESS)) then
    message ← decode_ssz (A := ErrorMessage) payload; mret (ResponseError code message)
  else
    status ← decode_ssz payload; mret (ResponseSuccess (PayloadStatus status)).

(** [decode_blocks_by_root_response]: every round reads a byte or ends. *)
Fixpoint decode_blocks_loop (fuel : nat) (blocks : list SignedBlockWithAttestation) : M bytes IoError Response := λ io,
  match fuel with
  | O => Diverged
  | S fuel =>
      match io with
      | [] => Done [] (ResponseSuccess (PayloadBlocksByRoot blocks))
      | code :: io =>
          (payload ← decode_payload;
           if negb (bool_decide (code = SUCCESS)) then decode_blocks_loop fuel blocks
           else
             block ← decode_ssz payload;
             decode_blocks_loop fuel (blocks ++ [block])) io
      end
  end.
Definition decode_blocks_by_root_response : M bytes IoError Response := λ io,
  decode_blocks_loop (S (length io)) [] io.

(** [read_response] *)
Definition read_response (protocol : string) : M bytes IoError Response :=
  if bool_decide (protocol = STATUS_PROTOCOL_V1) then decode_status_response
  else if bool_decide (protocol = BLOCKS_BY_ROOT_PROTOCOL_V1) then decode_blocks_by_root_response
  else throw UnknownProtocol.

(** [write_request] *)
Definition write_request (req : Request) : M bytes IoError unit :=
  let encoded := match req with
                 | RequestStatus status => as_ssz_bytes status
                 | RequestBlocksByRoot request => as_ssz_bytes request
                 end in
  write_payload encoded.

(** [write_response] *)
Definition write_response (resp : Response) : M bytes IoError unit :=
  match resp with
  | ResponseSuccess (PayloadStatus status) =>
      write_all [SUCCESS];;
      write_payload (as_ssz_bytes status)
  | ResponseSuccess (PayloadBlocksByRoot blocks) =>
      foldM (λ _ block,
        write_all [SUCCESS];;
        write_payload (as_ssz_bytes block)) tt blocks
  | ResponseError code message =>
      write_all [code];;
      write_payload (as_ssz_bytes message)
  end.

End codec.
