(* ===== verification/WireCodec.v ===== *)
(** Reference instances of the interfaces of the network: a frame format of one stored
    chunk, the identity as raw format, and self-delimiting encoders. They show that the
    hypotheses can be met, and let the network be evaluated. *)

From Stdlib Require Import Strings.Byte.
From S2P Require Import Prelude Types Keys Codec Wire.

#[local] Existing Instances serial_u64 serial_u64_laws serial_H256 serial_H256_laws serial_byte serial_byte_laws
  serial_list serial_list_laws serial_prod serial_prod_laws serial_checkpoint serial_checkpoint_laws
  serial_data serial_data_laws serial_attestation serial_attestation_laws serial_proof serial_proof_laws
  serial_body serial_body_laws.

(** * Compression *)

Definition le24_bytes (n : N) : bytes := [byte_of_N n; byte_of_N (n / 256); byte_of_N (n / 65536)].

Lemma le24_of n : n < 2 ^ 24 → le24 (byte_of_N n) (byte_of_N (n / 256)) (byte_of_N (n / 65536)) = n.
Proof. intros Hn. unfold le24. rewrite !byte_of_N_val. lia. Qed.

Definition frame_encode (d : bytes) : option bytes :=
  match d with
  | [] => Some []
  | _ => if len d <? 2 ^ 24 then Some (stream_identifier ++ x01 :: le24_bytes (len d) ++ d) else None
  end.
Definition frame_decode (c : bytes) : option bytes :=
  match c with
  | [] => Some []
  | _ =>
      if bool_decide (take 10 c = stream_identifier) then
        match drop 10 c with
        | x01 :: a :: b :: e :: d => if len d =? le24 a b e then Some d else None
        | _ => None
        end
      else None
  end.

Definition reference_snappy : Snappy := {|
  snappy_frame_encode := frame_encode;
  snappy_frame_decode := frame_decode;
  snappy_decompress_len c := Some (len c);
  snappy_decompress c := Some c;
  snappy_compress d := Some d;
|}.

Lemma frame_encode_inv d c : frame_encode d = Some c →
  (d = [] ∧ c = []) ∨ (d ≠ [] ∧ len d < 2 ^ 24 ∧ c = stream_identifier ++ x01 :: le24_bytes (len d) ++ d).
Proof.
  unfold frame_encode. destruct d as [|x d]; [intros [= <-]; by left|].
  destruct (N.ltb_spec (len (x :: d)) (2 ^ 24)); [|done]. intros [= <-]. by right.
Qed.

Lemma reference_snappy_laws : @SnappyLaws reference_snappy.
Proof.
  split.
  - intros d Hd. cbn [snappy_frame_encode reference_snappy]. unfold frame_encode. destruct d as [|x d]; [exists []; split; [done|unfold len; cbn [length]; lia]|].
    unfold MAX_PAYLOAD_SIZE in Hd. rewrite (proj2 (N.ltb_lt _ _)) by lia. eexists. split; [done|].
    unfold len in *. rewrite length_app. cbn [length stream_identifier le24_bytes app]. cbn [length] in *. lia.
  - intros d c [[-> ->]|(Hne & Hlen & ->)]%frame_encode_inv; [done|]. cbn [snappy_frame_decode reference_snappy].
    unfold frame_decode. cbn [app stream_identifier]. rewrite bool_decide_eq_true_2 by done. cbn [drop app le24_bytes].
    by rewrite le24_of, N.eqb_refl.
  - intros d c [[-> _]|(_ & _ & ->)]%frame_encode_inv Hd; [done|]. by eexists.
  - intros d c x y z rest [[-> _]|(_ & Hlen & ->)]%frame_encode_inv Hd _; [done|]. cbn [snappy_frame_decode reference_snappy].
    unfold frame_decode. rewrite <- (assoc_L (++)). cbn [app stream_identifier]. rewrite bool_decide_eq_true_2 by done.
    cbn [drop app le24_bytes]. rewrite le24_of by done. rewrite (proj2 (N.eqb_neq _ _)); [done|].
    unfold len. rewrite length_app. cbn [length]. lia.
  - by intros d _.
  - by intros d c [= ->].
  - by intros c d [= ->].
Qed.

(** * SSZ *)

#[local] Instance serial_Status : Serial Status :=
  serial_iso (λ s, (status_finalized s, status_head s)) (λ '(f, h), mk_status f h).
#[local] Instance serial_Status_laws : SerialLaws Status.
Proof. serial_record. Qed.

#[local] Instance serial_Request : Serial BlocksByRootRequest := serial_iso roots mk_blocks_by_root_request.
#[local] Instance serial_Request_laws : SerialLaws BlocksByRootRequest.
Proof. serial_record. Qed.

#[local] Instance serial_Block : Serial Block :=
  serial_iso (λ b, (b_slot b, (b_proposer_index b, (b_parent_root b, (b_state_root b, b_body b)))))
    (λ '(a, (b, (c, (d, e)))), mk_block a b c d e).
#[local] Instance serial_Block_laws : SerialLaws Block.
Proof. serial_record. Qed.

(** A signed block starts with 128 bytes, in place of those of its fixed-size signature. *)
Definition block_padding : bytes := repeat x00 128.
#[local] Instance serial_Signed : Serial SignedBlockWithAttestation := {|
  put_bytes sb := block_padding ++ put_bytes (bwa_block (sb_message sb), (bwa_proposer_attestation (sb_message sb),
    (bs_attestation_signatures (sb_signature sb), bs_proposer_signature (sb_signature sb))));
  pop_bytes l := '((b, (a, (s, p))), rest) ← pop_bytes (drop 128 l);
    Some (mk_signed_block (mk_block_with_attestation b a) (mk_block_signatures s p), rest);
|}.
#[local] Instance serial_Signed_laws : SerialLaws SignedBlockWithAttestation.
Proof.
  intros [[b a] [s p]] rest. cbn [put_bytes pop_bytes serial_Signed]. rewrite <- (assoc_L (++)).
  rewrite drop_app_length' by done. by rewrite pop_put.
Qed.

#[local] Instance serial_Attestation_signed : Serial SignedAttestation :=
  serial_iso (λ s, (sa_validator_id s, (sa_data s, sa_signature s))) (λ '(v, (d, s)), mk_signed_attestation v d s).
#[local] Instance serial_Attestation_signed_laws : SerialLaws SignedAttestation.
Proof. serial_record. Qed.

#[local] Instance serial_Aggregated_signed : Serial SignedAggregatedAttestation :=
  serial_iso (λ s, (sga_data s, sga_proof s)) (λ '(d, p), mk_signed_aggregated d p).
#[local] Instance serial_Aggregated_signed_laws : SerialLaws SignedAggregatedAttestation.
Proof. serial_record. Qed.

Definition reference_wire : WireCodecs := {|
  wire_Status := serial_ssz; wire_Request := serial_ssz; wire_Block := serial_ssz;
  wire_Attestation := serial_ssz; wire_Aggregated := serial_ssz;
  wire_Error := {| as_ssz_bytes m := m; from_ssz_bytes b := Some b |};
|}.

Lemma put_nonempty `{SerialLaws A} (x : A) : pop_bytes (A := A) [] = None → put_bytes x ≠ [].
Proof. intros Hnone Hnil. pose proof (pop_put x []) as Hp. by rewrite app_nil_r, Hnil, Hnone in Hp. Qed.

Lemma reference_wire_laws : @WireLaws reference_wire.
Proof.
  split; try apply serial_ssz_laws.
  - intros r _. apply (serial_ssz_laws r).
  - by intros m _.
  - intros s. by apply put_nonempty.
  - intros r. by apply put_nonempty.
  - intros b. cbn [as_ssz_bytes wire_Block reference_wire serial_ssz put_bytes serial_Signed].
    unfold len. rewrite length_app. assert (length block_padding = 128%nat) as -> by done. lia.
Qed.
