(* ===== verification/WireTheorems.v ===== *)
(** The theorems about the encodings of the network: variable-length sizes, payloads,
    requests and responses round trip; sizes are bounded; responses of more than one block
    are rejected. With witnesses over a concrete compression format. *)

From Stdlib Require Import Strings.Byte.
From S2P Require Import Prelude Types Keys Wire WireCodec.

(** * Bits of numbers *)

(** What a boolean test says of all numbers below [k]. *)
Lemma below_all (k : nat) (P : N → bool) :
  forallb (λ n, P (N.of_nat n)) (seq 0 k) = true → ∀ n, n < N.of_nat k → P n = true.
Proof.
  intros Hall n Hn. rewrite forallb_forall in Hall. specialize (Hall (N.to_nat n)). rewrite N2Nat.id in Hall.
  apply Hall, in_seq. lia.
Qed.

Lemma low7 v : N.land v 127 = v mod 128.
Proof. change 127 with (N.ones 7). by rewrite N.land_ones. Qed.

Lemma high_bit b : b < 256 → (N.land b 128 =? 0) = (b <? 128).
Proof.
  intros Hb. apply eqb_prop.
  by apply (below_all 256 (λ b, Bool.eqb (N.land b 128 =? 0) (b <? 128)) ltac:(by vm_compute)).
Qed.

Lemma or_high v : N.lor (N.land v 127) 128 = v mod 128 + 128.
Proof.
  rewrite low7. apply N.eqb_eq.
  apply (below_all 128 (λ a, N.lor a 128 =? a + 128) ltac:(by vm_compute)). lia.
Qed.

(** Seven more bits of [v] above the [k] bits of [r]. *)
Lemma lor_shift r v k : N.lor (N.lor r (N.shiftl (v mod 128) k)) (N.shiftl (v / 128) (k + 7)) = N.lor r (N.shiftl v k).
Proof.
  rewrite <- N.lor_assoc. f_equal. change 128 with (2 ^ 7). rewrite <- N.land_ones, <- N.shiftr_div_pow2.
  apply N.bits_inj. intros i. rewrite N.lor_spec.
  destruct (N.lt_ge_cases i k) as [Hlt|Hge].
  - rewrite !N.shiftl_spec_low by lia. done.
  - rewrite (N.shiftl_spec_high' _ k), (N.shiftl_spec_high' v k), N.land_spec by done.
    destruct (N.lt_ge_cases i (k + 7)) as [Hlt|Hge'].
    + rewrite (N.shiftl_spec_low _ (k + 7)), N.ones_spec_low by lia. by rewrite andb_true_r, orb_false_r.
    + rewrite (N.shiftl_spec_high' _ (k + 7)), N.ones_spec_high, N.shiftr_spec' by lia. rewrite andb_false_r. cbn.
      f_equal. lia.
Qed.

(** * Sizes *)

Lemma shl32_exact v i : v < 2 ^ (32 - 7 * i) → 7 * i < 32 → shl32 v (7 * i) = N.shiftl v (7 * i).
Proof.
  intros Hv Hi. unfold shl32. rewrite (N.mod_small (7 * i)) by done. apply N.mod_small. rewrite N.shiftl_mul_pow2.
  replace (2 ^ 32) with (2 ^ (32 - 7 * i) * 2 ^ (7 * i)) by (rewrite <- N.pow_add_r; f_equal; lia).
  apply N.mul_lt_mono_pos_r; [apply N.neq_0_lt_0, N.pow_nonzero; lia|done].
Qed.

Lemma varint_loop rounds : ∀ i v r rest,
  i + N.of_nat rounds = 5 → (0 < rounds)%nat → v < 2 ^ (32 - 7 * i) →
  decode_varint_loop i r (encode_varint_loop rounds v ++ rest) = Some (N.lor r (N.shiftl v (7 * i)), rest) ∧
  (1 <= length (encode_varint_loop rounds v) <= rounds)%nat.
Proof.
  induction rounds as [|rounds IH]; intros i v r rest Hi Hpos Hv; [lia|]. cbn [encode_varint_loop].
  assert (Hshift : N.shiftr v 7 = v / 128) by (by rewrite N.shiftr_div_pow2).
  assert (Hbyte : ∀ b, b < 256 → Byte.to_N (byte_of_N b) = b) by (intros b Hb; rewrite byte_of_N_val; by apply N.mod_small).
  assert (Hsmall : v mod 128 < 2 ^ (32 - 7 * i)) by (pose proof (N.Div0.mod_le v 128); lia).
  assert (Hi32 : 7 * i < 32) by lia.
  rewrite Hshift, low7. destruct (N.eqb_spec (v / 128) 0) as [Hz|Hnz]; cbn [negb].
  - cbn [app decode_varint_loop length]. assert (v < 128) by lia. rewrite (N.mod_small v 128) in * by done.
    rewrite Hbyte, high_bit, (proj2 (N.ltb_lt _ _)), low7, N.mod_small, shl32_exact by lia.
    split; [done|lia].
  - cbn [app decode_varint_loop length]. rewrite <- low7, or_high. rewrite Hbyte by lia.
    rewrite high_bit by lia. rewrite (proj2 (N.ltb_ge _ _)) by lia. rewrite low7.
    replace ((v mod 128 + 128) mod 128) with (v mod 128) by lia. rewrite shl32_exact by done.
    assert (Hnext : v / 128 < 2 ^ (32 - 7 * (i + 1))).
    { destruct (N.lt_ge_cases (7 * (i + 1)) 32) as [Hlt|Hge].
      - apply N.Div0.div_lt_upper_bound. change 128 with (2 ^ 7). rewrite <- N.pow_add_r. by replace (7 + (32 - 7 * (i + 1))) with (32 - 7 * i) by lia.
      - exfalso. assert (i = 4) as -> by lia. change (2 ^ (32 - 7 * 4)) with 16 in Hv. lia. }
    assert (Hrounds : (0 < rounds)%nat).
    { destruct rounds; [|lia]. exfalso. assert (i = 4) as -> by lia. change (2 ^ (32 - 7 * 4)) with 16 in Hv. lia. }
    destruct (IH (i + 1) (v / 128) (N.lor r (N.shiftl (v mod 128) (7 * i))) rest) as [-> Hlen]; [lia|done|done|].
    split; [|lia]. do 2 f_equal. replace (7 * (i + 1)) with (7 * i + 7) by lia. apply lor_shift.
Qed.

Lemma varint_decodes v rest : v < 2 ^ 32 → decode_varint (encode_varint v ++ rest) = inr (v, rest).
Proof.
  intros Hv. unfold decode_varint, encode_varint. destruct (varint_loop 5 0 v 0 rest) as [-> _]; [done|lia|done|].
  by rewrite N.lor_0_l, N.shiftl_0_r.
Qed.

Lemma length_varint v : v < 2 ^ 32 → (1 <= length (encode_varint v) <= 5)%nat.
Proof. intros Hv. apply (varint_loop 5 0 v 0 []); [done|lia|done]. Qed.

(** * Payloads *)

Lemma take_N_all n l : len l <= n → take_N n l = l ∧ drop_N n l = [].
Proof.
  revert n. induction l as [|x l IH]; intros n Hn; [done|]. rewrite len_cons in Hn. cbn.
  rewrite (proj2 (N.eqb_neq _ _)) by lia. destruct (IH (n - 1)) as [-> ->]; [lia|done].
Qed.

Lemma length_take_drop n l : len (take_N n l) = N.min n (len l) ∧ len (drop_N n l) = len l - n.
Proof.
  revert n. induction l as [|x l IH]; intros n; [cbn [take_N drop_N]; rewrite len_nil; lia|].
  cbn [take_N drop_N]. rewrite (len_cons x l).
  destruct (N.eqb_spec n 0) as [->|Hn]; [rewrite len_nil, len_cons; lia|]. rewrite len_cons.
  destruct (IH (n - 1)) as [-> ->]. lia.
Qed.

(** The first three bytes of a size of at least 128, before the stream identifier, as the
    length of a chunk. *)
Lemma long_varint n t : 128 <= n < 2 ^ 32 →
  ∃ x y z rest, encode_varint n ++ xff :: t = x :: y :: z :: rest ∧ MAX_COMPRESS_BLOCK_SIZE + 4 < le24 x y z.
Proof.
  intros [Hlo Hhi]. unfold encode_varint, le24. cbn [encode_varint_loop].
  assert (Hbyte : ∀ b, b < 256 → Byte.to_N (byte_of_N b) = b) by (intros b Hb; rewrite byte_of_N_val; by apply N.mod_small).
  assert (Hshift : ∀ v, N.shiftr v 7 = v / 128) by (intros v; by rewrite N.shiftr_div_pow2). rewrite !Hshift.
  rewrite (proj2 (N.eqb_neq (n / 128) 0)) by lia. cbn [negb].
  destruct (N.eqb_spec (n / 128 / 128) 0) as [Hz|Hnz]; cbn [app negb].
  - eexists _, _, xff, _. split; [done|]. change (Byte.to_N xff) with 255. unfold MAX_COMPRESS_BLOCK_SIZE. lia.
  - rewrite or_high, or_high. set (b3 := byte_of_N (if negb _ then _ else _)).
    assert (Hb3 : 1 <= Byte.to_N b3).
    { unfold b3. destruct (N.eqb_spec (n / 128 / 128 / 128) 0); cbn [negb]; rewrite ?or_high, ?low7, Hbyte; lia. }
    destruct (N.eqb_spec (n / 128 / 128 / 128) 0); cbn [app]; (eexists _, _, b3, _; split; [done|]);
      rewrite !Hbyte by lia; unfold MAX_COMPRESS_BLOCK_SIZE; lia.
Qed.

Lemma run_write_all {E} (l io : bytes) : (write_all l : M bytes E unit) io = Done (io ++ l) tt.
Proof. done. Qed.

Section payloads.
Context `{SL : SnappyLaws}.

(** The bytes [write_payload] writes for [e]. *)
Definition payload_of (e chunk : bytes) : Prop :=
  ∃ c, snappy_frame_encode e = Some c ∧ chunk = encode_varint (len e) ++ c.

Record sendable (e : bytes) : Prop := {
  sd_nonempty : e ≠ [];
  sd_size : len e <= MAX_PAYLOAD_SIZE;
}.

Lemma write_payload_spec e out : sendable e →
  ∃ chunk, payload_of e chunk ∧ write_payload e out = Done (out ++ chunk) tt.
Proof.
  intros [_ Hsize]. destruct (frame_encodes e Hsize) as (c & Hc & _). exists (encode_varint (len e) ++ c).
  split; [by exists c|]. unfold write_payload. rewrite run_bind, Hc, run_ok_or. cbn zeta.
  rewrite N.mod_small by (unfold MAX_PAYLOAD_SIZE in Hsize; lia). rewrite run_bind. rewrite !run_write_all.
  by rewrite (assoc_L (++)).
Qed.

Lemma payload_length e chunk : sendable e → payload_of e chunk → 2 <= len chunk <= MAX_COMPRESSED_PAYLOAD_SIZE.
Proof.
  intros [Hne Hsize] (c & Hc & ->). destruct (frame_encodes e Hsize) as (c' & Hc' & Hlen).
  assert (c' = c) as -> by congruence. destruct (frame_identifier e c Hc Hne) as (t & Ht).
  pose proof (length_varint (len e)) as Hv. unfold MAX_COMPRESSED_PAYLOAD_SIZE, MAX_PAYLOAD_SIZE in *.
  assert (10 <= len c) by (rewrite Ht; unfold len; rewrite length_app; cbn [length stream_identifier]; lia).
  unfold len at 1 3. rewrite length_app. fold (len c). unfold len in *. lia.
Qed.

(** Reading a payload up to the end of the stream. *)
Lemma decode_payload_run io :
  len io <= MAX_COMPRESSED_PAYLOAD_SIZE →
  decode_payload io =
    if len io <? 2 then Fail [] MessageTooShort
    else match decode_varint io with
         | inl e => Fail [] e
         | inr (size, rest) =>
             if MAX_PAYLOAD_SIZE <? size then Fail [] MessageSizeExceedsMaximum
             else match snappy_frame_decode rest with
                  | None => Fail [] SnappyFailed
                  | Some u => if len u =? size then Done [] u else Fail [] SizeMismatch
                  end
         end.
Proof.
  intros Hlen. unfold decode_payload. rewrite run_bind. unfold read_to_end.
  destruct (take_N_all _ _ Hlen) as [-> ->]. cbn beta iota. rewrite run_bind, run_fail_if.
  destruct (len io <? 2); [done|]. rewrite run_bind. unfold map_err.
  destruct (decode_varint io) as [e|[size rest]]; [done|]. rewrite run_ret. cbn beta iota. rewrite run_bind, run_fail_if.
  destruct (_ <? size); [done|]. rewrite run_bind, run_ok_or. destruct (snappy_frame_decode rest) as [u|]; [|done].
  rewrite run_bind, run_fail_if. by destruct (len u =? size).
Qed.

Lemma decode_payload_spec e chunk : sendable e → payload_of e chunk → decode_payload chunk = Done [] e.
Proof.
  intros Hs Hp. pose proof (payload_length e chunk Hs Hp) as [Hlo Hhi]. rewrite decode_payload_run by done.
  rewrite (proj2 (N.ltb_ge _ _)) by done. destruct Hp as (c & Hc & ->), Hs as [_ Hsize].
  rewrite varint_decodes by (unfold MAX_PAYLOAD_SIZE in Hsize; lia).
  rewrite (proj2 (N.ltb_ge _ _)) by done. by rewrite (frame_roundtrip e c Hc), N.eqb_refl.
Qed.

(** A payload followed by another chunk of 128 bytes or more is not decoded: the rest of
    the stream is taken for a compressed chunk that is too long. *)
Lemma decode_payload_swallows e chunk e' chunk' rest io :
  sendable e → payload_of e chunk → sendable e' → 128 <= len e' → payload_of e' chunk' →
  io = chunk ++ x00 :: chunk' ++ rest → len io <= MAX_COMPRESSED_PAYLOAD_SIZE →
  decode_payload io = Fail [] SnappyFailed.
Proof.
  intros Hs Hp Hs' Hlong Hp' -> Hlen. rewrite decode_payload_run by done.
  pose proof (payload_length e chunk Hs Hp) as [Hlo _]. destruct Hp as (c & Hc & ->).
  rewrite (proj2 (N.ltb_ge _ _)).
  2:{ unfold len in *. rewrite length_app. lia. }
  destruct Hs as [Hne Hsize], Hs' as [Hne' Hsize']. unfold MAX_PAYLOAD_SIZE in Hsize, Hsize'.
  rewrite <- (assoc_L (++)), varint_decodes by lia. rewrite (proj2 (N.ltb_ge _ _)) by (unfold MAX_PAYLOAD_SIZE; lia).
  destruct Hp' as (c' & Hc' & ->). destruct (frame_identifier e' c' Hc' Hne') as (t & ->).
  destruct (long_varint (len e') (drop 1 stream_identifier ++ t ++ rest)) as (x & y & z & rest' & Heq & Hbig); [lia|].
  assert ((encode_varint (len e') ++ stream_identifier ++ t) ++ rest = x :: y :: z :: rest') as ->
    by (rewrite <- !(assoc_L (++)); exact Heq).
  by rewrite (frame_chunk_too_long e c x y z _ Hc Hne Hbig).
Qed.

(** Reading a payload never panics. *)
Lemma decode_payload_cases io :
  (∃ s e, decode_payload io = Fail s e) ∨
  (∃ u, decode_payload io = Done (drop_N MAX_COMPRESSED_PAYLOAD_SIZE io) u ∧ len u <= MAX_PAYLOAD_SIZE ∧ 2 <= len io).
Proof.
  unfold decode_payload. rewrite run_bind. unfold read_to_end. rewrite run_bind, run_fail_if.
  destruct (N.ltb_spec (len (take_N MAX_COMPRESSED_PAYLOAD_SIZE io)) 2) as [|Hlen]; [left; by eexists _, _|]. rewrite run_bind.
  unfold map_err. destruct (decode_varint _) as [e|[size rest]]; [left; by eexists _, _|]. rewrite run_ret. cbn beta iota.
  rewrite run_bind, run_fail_if. destruct (N.ltb_spec MAX_PAYLOAD_SIZE size) as [|Hsize]; [left; by eexists _, _|].
  rewrite run_bind, run_ok_or. destruct (snappy_frame_decode rest) as [u|]; [|left; by eexists _, _].
  rewrite run_bind, run_fail_if. destruct (N.eqb_spec (len u) size) as [Hu|]; [right|left; by eexists _, _].
  exists u. split; [done|]. split; [by rewrite Hu|].
  pose proof (proj1 (length_take_drop MAX_COMPRESSED_PAYLOAD_SIZE io)). lia.
Qed.

End payloads.

(** * Theorems *)

(** A size survives encoding: at most five bytes are written, and decoding returns the size
    and the bytes that follow. *)
Theorem varint_roundtrip v rest :
  v < 2 ^ 32 → (1 <= length (encode_varint v) <= 5)%nat ∧ decode_varint (encode_varint v ++ rest) = inr (v, rest).
Proof. intros Hv. split; [by apply length_varint|by apply varint_decodes]. Qed.

Section theorems.
Context `{SL : SnappyLaws} `{WL : WireLaws}.

Definition protocol_of (req : Request) : string :=
  match req with
  | RequestStatus _ => STATUS_PROTOCOL_V1
  | RequestBlocksByRoot _ => BLOCKS_BY_ROOT_PROTOCOL_V1
  end.
Definition request_bytes (req : Request) : bytes :=
  match req with
  | RequestStatus status => as_ssz_bytes status
  | RequestBlocksByRoot request => as_ssz_bytes request
  end.
Definition request_ok (req : Request) : Prop :=
  match req with
  | RequestStatus _ => True
  | RequestBlocksByRoot request => len (roots request) <= MaxRequestBlocks
  end.

(** A payload of up to 10 MiB that is not empty is read back, when the stream ends after it. *)
Theorem payload_roundtrip encoded :
  encoded ≠ [] → len encoded <= MAX_PAYLOAD_SIZE →
  ∃ io, write_payload encoded [] = Done io tt ∧ decode_payload io = Done [] encoded.
Proof.
  intros Hne Hsize. assert (Hs : sendable encoded) by done.
  destruct (write_payload_spec encoded [] Hs) as (chunk & Hp & Hw). exists chunk. split; [done|].
  by apply decode_payload_spec.
Qed.

(** C39. Whatever a peer sends, a decoded payload is at most 10 MiB and no more than the bounded
    prefix of the stream has been read. *)
Theorem decode_payload_bounded io io' payload :
  decode_payload io = Done io' payload →
  len payload <= MAX_PAYLOAD_SIZE ∧ io' = drop_N MAX_COMPRESSED_PAYLOAD_SIZE io ∧ 2 <= len io.
Proof.
  destruct (decode_payload_cases io) as [(s & e & ->)|(u & -> & ? & ?)]; [done|]. by intros [= <- <-].
Qed.

(** A request is read back as it was written, under its protocol. *)
Theorem request_roundtrip req :
  request_ok req → len (request_bytes req) <= MAX_PAYLOAD_SIZE →
  ∃ io, write_request req [] = Done io tt ∧ read_request (protocol_of req) io = Done [] req.
Proof.
  intros Hok Hsize. assert (Hs : sendable (request_bytes req)).
  { split; [|done]. destruct req; [apply wire_Status_nonempty|apply wire_Request_nonempty]. }
  destruct (write_payload_spec (request_bytes req) [] Hs) as (chunk & Hp & Hw). exists chunk.
  split; [by destruct req|]. unfold read_request. rewrite run_bind, (decode_payload_spec _ _ Hs Hp). destruct req as [status|request].
  - rewrite bool_decide_eq_true_2 by done. rewrite run_bind. unfold decode_ssz. cbn [request_bytes].
    by rewrite run_ok_or, ssz_roundtrip.
  - rewrite bool_decide_eq_false_2, bool_decide_eq_true_2 by done. rewrite run_bind. unfold decode_ssz. cbn [request_bytes].
    by rewrite run_ok_or, wire_Request_laws.
Qed.

(** The responses that fit one chunk which is not empty. *)
Definition single_chunk (protocol : string) (resp : Response) : Prop :=
  match resp with
  | ResponseSuccess (PayloadStatus status) =>
      protocol = STATUS_PROTOCOL_V1 ∧ len (as_ssz_bytes status) <= MAX_PAYLOAD_SIZE
  | ResponseSuccess (PayloadBlocksByRoot []) => protocol = BLOCKS_BY_ROOT_PROTOCOL_V1
  | ResponseSuccess (PayloadBlocksByRoot [block]) =>
      protocol = BLOCKS_BY_ROOT_PROTOCOL_V1 ∧ len (as_ssz_bytes block) <= MAX_PAYLOAD_SIZE
  | ResponseSuccess _ => False
  | ResponseError code message =>
      protocol = STATUS_PROTOCOL_V1 ∧ code ≠ SUCCESS ∧ message ≠ [] ∧ len message <= MaxErrorMessageLength
  end.

Lemma blocks_loop_step fuel blocks code (io : bytes) :
  decode_blocks_loop (S fuel) blocks (code :: io) =
    (payload ← decode_payload;
     if negb (bool_decide (code = SUCCESS)) then decode_blocks_loop fuel blocks
     else block ← decode_ssz payload; decode_blocks_loop fuel (blocks ++ [block])) io.
Proof. done. Qed.

Lemma block_response_bytes (block : SignedBlockWithAttestation) :
  len (as_ssz_bytes block) <= MAX_PAYLOAD_SIZE →
  ∃ io, write_response (ResponseSuccess (PayloadBlocksByRoot [block])) [] = Done io tt ∧
    read_response BLOCKS_BY_ROOT_PROTOCOL_V1 io = Done [] (ResponseSuccess (PayloadBlocksByRoot [block])).
Proof.
  intros Hsize. unfold read_response, write_response. assert (Hs : sendable (as_ssz_bytes block)).
  { split; [|done]. pose proof (wire_Block_length block) as Hlen. intros Hnil. by rewrite Hnil in Hlen. }
  cbn [foldM]. rewrite run_bind, run_bind. rewrite run_write_all.
  destruct (write_payload_spec _ ([] ++ [SUCCESS]) Hs) as (chunk & Hp & ->). eexists. split; [done|].
  rewrite bool_decide_eq_false_2, bool_decide_eq_true_2 by done. unfold decode_blocks_by_root_response. cbn [app length].
  rewrite blocks_loop_step, run_bind, (decode_payload_spec _ _ Hs Hp). rewrite bool_decide_eq_true_2 by done. cbn [negb].
  unfold decode_ssz. by rewrite run_bind, run_ok_or, ssz_roundtrip.
Qed.

(** C30. A response of one chunk at most is read back as it was written: a status, an error with
    a code other than success and a non-empty message of at most 256 bytes to a status
    request, and no block or one, of at most 10 MiB. *)
Theorem response_roundtrip protocol resp :
  single_chunk protocol resp →
  ∃ io, write_response resp [] = Done io tt ∧ read_response protocol io = Done [] resp.
Proof.
  intros Hok. destruct resp as [[status|[|block [|]]]|code message]; cbn in Hok; try done;
    [unfold read_response, write_response..| |unfold read_response, write_response].
  - destruct Hok as [-> Hsize]. assert (Hs : sendable (as_ssz_bytes status)) by (split; [apply wire_Status_nonempty|done]).
    rewrite bool_decide_eq_true_2 by done. rewrite run_bind. rewrite run_write_all.
    destruct (write_payload_spec _ ([] ++ [SUCCESS]) Hs) as (chunk & Hp & ->). eexists. split; [done|].
    unfold decode_status_response. rewrite run_bind. cbn [read_byte app]. rewrite run_bind, (decode_payload_spec _ _ Hs Hp).
    rewrite bool_decide_eq_true_2 by done. cbn [negb]. unfold decode_ssz. by rewrite run_bind, run_ok_or, ssz_roundtrip.
  - subst protocol. exists []. split; [done|]. by rewrite bool_decide_eq_false_2, bool_decide_eq_true_2.
  - destruct Hok as [-> Hsize]. by apply block_response_bytes.
  - destruct Hok as (-> & Hcode & Hne & Hsize). destruct (wire_Error_laws message Hsize) as [Hbytes Hround].
    assert (Hs : sendable (as_ssz_bytes message)).
    { rewrite Hbytes. split; [done|]. unfold MaxErrorMessageLength, MAX_PAYLOAD_SIZE in *. lia. }
    rewrite bool_decide_eq_true_2 by done. rewrite run_bind. rewrite run_write_all.
    destruct (write_payload_spec _ ([] ++ [code]) Hs) as (chunk & Hp & ->). eexists. split; [done|].
    unfold decode_status_response. rewrite run_bind. cbn [read_byte app]. rewrite run_bind, (decode_payload_spec _ _ Hs Hp).
    rewrite bool_decide_eq_false_2 by done. cbn [negb]. unfold decode_ssz. by rewrite run_bind, run_ok_or, Hround.
Qed.

(** An error without a message is not: its payload is the single byte of a zero length, and a
    payload of less than two bytes is refused. (The snappy encoder writes nothing for an
    empty input.) *)
Theorem empty_error_unreadable code :
  snappy_frame_encode [] = Some [] →
  ∃ io, write_response (ResponseError code []) [] = Done io tt ∧ read_response STATUS_PROTOCOL_V1 io = Fail [] MessageTooShort.
Proof.
  intros Hempty. destruct (wire_Error_laws []) as [Hbytes _]; [by vm_compute|]. exists [code; x00]. split.
  - unfold write_response. rewrite run_bind, run_write_all, Hbytes. unfold write_payload. by rewrite Hempty.
  - unfold read_response. by rewrite bool_decide_eq_true_2.
Qed.

Abbreviation write_chunk := (λ (_ : unit) (block : SignedBlockWithAttestation), write_all [SUCCESS];; write_payload (as_ssz_bytes block)).

Lemma block_sendable (block : SignedBlockWithAttestation) : len (as_ssz_bytes block) <= MAX_PAYLOAD_SIZE → sendable (as_ssz_bytes block).
Proof.
  intros Hsize. split; [|done]. pose proof (wire_Block_length block) as Hlen. intros Hnil. by rewrite Hnil in Hlen.
Qed.

Lemma write_blocks_spec (blocks : list SignedBlockWithAttestation) : Forall (λ b, len (as_ssz_bytes b) <= MAX_PAYLOAD_SIZE) blocks →
  ∀ out, ∃ t, foldM write_chunk tt blocks out = Done (out ++ t) tt.
Proof.
  induction 1 as [|block blocks Hsize _ IH]; intros out; [exists []; by rewrite app_nil_r|]. cbn [foldM].
  rewrite run_bind, run_bind. rewrite run_write_all.
  destruct (write_payload_spec _ (out ++ [SUCCESS]) (block_sendable block Hsize)) as (chunk & _ & ->). cbn beta iota.
  destruct (IH ((out ++ [SUCCESS]) ++ chunk)) as (t & ->). eexists. by rewrite <- !(assoc_L (++)).
Qed.

(** A response of two blocks or more, within the limit of one payload, is written, but what
    was written cannot be read: the payload of the first block is read to the end of the
    stream, and the second block makes decompression fail. *)
Theorem multi_block_response_rejected block1 block2 blocks :
  Forall (λ b : SignedBlockWithAttestation, len (as_ssz_bytes b) <= MAX_PAYLOAD_SIZE) (block1 :: block2 :: blocks) →
  ∃ io, write_response (ResponseSuccess (PayloadBlocksByRoot (block1 :: block2 :: blocks))) [] = Done io tt ∧
    (len io <= MAX_COMPRESSED_PAYLOAD_SIZE → read_response BLOCKS_BY_ROOT_PROTOCOL_V1 io = Fail [] SnappyFailed).
Proof.
  intros Hall. apply Forall_cons in Hall as [H1 Hall]. pose proof Hall as Hall2. apply Forall_cons in Hall2 as [H2 Hrest].
  pose proof (block_sendable block1 H1) as Hs1. pose proof (block_sendable block2 H2) as Hs2.
  unfold write_response. cbn [foldM]. rewrite run_bind, run_bind. rewrite run_write_all.
  destruct (write_payload_spec _ ([] ++ [SUCCESS]) Hs1) as (chunk1 & Hp1 & ->). cbn beta iota. rewrite run_bind, run_bind. rewrite run_write_all. destruct (write_payload_spec _ ((([] ++ [SUCCESS]) ++ chunk1) ++ [SUCCESS]) Hs2) as (chunk2 & Hp2 & ->). cbn beta iota.
  destruct (write_blocks_spec blocks Hrest (((([] ++ [SUCCESS]) ++ chunk1) ++ [SUCCESS]) ++ chunk2)) as (t & ->).
  eexists. split; [done|]. intros Hlen. unfold read_response. rewrite bool_decide_eq_false_2, bool_decide_eq_true_2 by done.
  unfold decode_blocks_by_root_response. rewrite <- !(assoc_L (++)). cbn [app length]. rewrite blocks_loop_step, run_bind.
  rewrite (decode_payload_swallows (as_ssz_bytes block1) chunk1 (as_ssz_bytes block2) chunk2 t); try done.
  - apply wire_Block_length.
  - rewrite <- !(assoc_L (++)) in Hlen. cbn [app] in Hlen. rewrite len_cons in Hlen. unfold SUCCESS in *. lia.
Qed.

Lemma blocks_loop_cases fuel : ∀ (io : bytes) blocks, (length io < fuel)%nat →
  (∃ s e, decode_blocks_loop fuel blocks io = Fail s e) ∨
  (∃ more, decode_blocks_loop fuel blocks io = Done [] (ResponseSuccess (PayloadBlocksByRoot (blocks ++ more))) ∧
    len more * (1 + MAX_COMPRESSED_PAYLOAD_SIZE) < len io + (1 + MAX_COMPRESSED_PAYLOAD_SIZE)).
Proof.
  induction fuel as [|fuel IH]; intros io blocks Hfuel; [lia|]. destruct io as [|code io].
  { right. exists []. rewrite app_nil_r. split; [done|]. unfold len; cbn [length]. lia. }
  rewrite blocks_loop_step, run_bind. cbn [length] in Hfuel. rewrite len_cons.
  destruct (decode_payload_cases io) as [(s & e & ->)|(u & -> & _ & Hio)]; [left; by eexists _, _|].
  pose proof (proj2 (length_take_drop MAX_COMPRESSED_PAYLOAD_SIZE io)) as Hdrop.
  assert (Hfuel' : (length (drop_N MAX_COMPRESSED_PAYLOAD_SIZE io) < fuel)%nat) by (unfold len in Hdrop; lia).
  destruct (negb _).
  - destruct (IH _ blocks Hfuel') as [?|(more & Hrun & Hlen)]; [by left|right]. exists more. split; [done|]. rewrite Hdrop in Hlen.
    clear -Hlen Hio. revert Hlen. generalize (len more * (1 + MAX_COMPRESSED_PAYLOAD_SIZE)). unfold MAX_COMPRESSED_PAYLOAD_SIZE, MAX_PAYLOAD_SIZE. lia.
  - rewrite run_bind. unfold decode_ssz. rewrite run_ok_or. destruct (from_ssz_bytes u) as [block|]; [|left; by eexists _, _].
    destruct (IH _ (blocks ++ [block]) Hfuel') as [?|(more & Hrun & Hlen)]; [by left|right]. exists (block :: more).
    rewrite <- (assoc_L (++)) in Hrun. split; [done|]. rewrite len_cons, N.mul_add_distr_r. rewrite Hdrop in Hlen.
    clear -Hlen Hio. set (k := 1 + MAX_COMPRESSED_PAYLOAD_SIZE) in *. change MAX_COMPRESSED_PAYLOAD_SIZE with (k - 1) in Hlen.
    assert (Hk : 1 <= k) by (by vm_compute). clearbody k. destruct (N.eq_0_gt_0_cases (len more)) as [Hz|Hpos]; [rewrite Hz in *; lia|].
    assert (k <= len more * k) by nia. lia.
Qed.

(** Reading a response of blocks always ends, with blocks or an error, whatever the peer
    sends; and it returns at most one block per 12 MB of stream. *)
Theorem decode_blocks_terminates io :
  (∃ s e, decode_blocks_by_root_response io = Fail s e) ∨
  (∃ blocks, decode_blocks_by_root_response io = Done [] (ResponseSuccess (PayloadBlocksByRoot blocks)) ∧
    len blocks * (1 + MAX_COMPRESSED_PAYLOAD_SIZE) < len io + (1 + MAX_COMPRESSED_PAYLOAD_SIZE)).
Proof. apply (blocks_loop_cases (S (length io)) io []). lia. Qed.

End theorems.

(** * Concrete messages *)

Module WireSample.

#[local] Existing Instances reference_snappy reference_snappy_laws reference_wire reference_wire_laws.

Definition root (n : N) : H256 := h256 n.
Definition request : Request := RequestBlocksByRoot (mk_blocks_by_root_request [root 7]).
Definition block (slot : N) : SignedBlockWithAttestation :=
  mk_signed_block (mk_block_with_attestation (mk_block (to_u64 slot) (to_u64 0) (root 1) (root 2) (mk_block_body []))
    (mk_attestation (to_u64 0) (mk_attestation_data (to_u64 slot) Checkpoint_default Checkpoint_default Checkpoint_default)))
    (mk_block_signatures [] []).

Lemma varint_roundtrip_witness : decode_varint (encode_varint 300 ++ [x07]) = inr (300, [x07]).
Proof. apply varint_roundtrip. by vm_compute. Defined.

Lemma payload_roundtrip_witness : ∃ io, write_payload [x01; x02] [] = Done io tt ∧ decode_payload io = Done [] [x01; x02].
Proof. apply payload_roundtrip; [done|by vm_compute]. Defined.

Definition sent_payload : bytes := match write_payload [x01; x02] [] with Done io _ => io | _ => [] end.

Lemma decode_payload_bounded_witness : len [x01; x02] <= MAX_PAYLOAD_SIZE ∧ 2 <= len sent_payload.
Proof.
  destruct (decode_payload_bounded sent_payload [] [x01; x02]) as (Hsize & _ & Hlen); [by vm_compute|].
  split; [exact Hsize|exact Hlen].
Defined.

Lemma request_roundtrip_witness : ∃ io, write_request request [] = Done io tt ∧
  read_request BLOCKS_BY_ROOT_PROTOCOL_V1 io = Done [] request.
Proof. apply (request_roundtrip request); by vm_compute. Defined.

Lemma response_roundtrip_witness : ∃ io,
  write_response (ResponseSuccess (PayloadBlocksByRoot [block 3])) [] = Done io tt ∧
  read_response BLOCKS_BY_ROOT_PROTOCOL_V1 io = Done [] (ResponseSuccess (PayloadBlocksByRoot [block 3])).
Proof. apply response_roundtrip. split; [done|by vm_compute]. Defined.

Lemma empty_error_unreadable_witness : ∃ io, write_response (ResponseError x01 []) [] = Done io tt ∧
  read_response STATUS_PROTOCOL_V1 io = Fail [] MessageTooShort.
Proof. apply (empty_error_unreadable x01). reflexivity. Defined.

Lemma multi_block_response_rejected_witness : ∃ io,
  write_response (ResponseSuccess (PayloadBlocksByRoot [block 3; block 4])) [] = Done io tt ∧
  read_response BLOCKS_BY_ROOT_PROTOCOL_V1 io = Fail [] SnappyFailed.
Proof.
  destruct (multi_block_response_rejected (block 3) (block 4) []) as (io & Hw & Hr); [by repeat constructor; vm_compute|].
  exists io. split; [exact Hw|]. apply Hr.
  assert (Hlen : match write_response (ResponseSuccess (PayloadBlocksByRoot [block 3; block 4])) [] with
    | Done io _ => len io <=? MAX_COMPRESSED_PAYLOAD_SIZE | _ => false end = true) by (by vm_compute).
  rewrite Hw in Hlen. by apply N.leb_le in Hlen.
Defined.

End WireSample.
