(* ===== verification/P2P.v ===== *)
(** The network actor (crates/net/p2p/src/lib.rs, req_resp/handlers.rs and
    gossipsub/handler.rs): block fetches with retries, requests and responses, gossip, and
    connections. What it sends to the swarm, to the blockchain actor and to its timers is
    recorded in the state, in order. The metrics that the handlers update are in Metrics.v. *)

From Stdlib Require Import Strings.Ascii Strings.String Strings.Byte.
From stdpp Require Import pretty.
From S2P Require Import Prelude Types Backend Keys Signatures PayloadBuffer Store Crypto ChainStore ChainServer Wire.

(** * Third-party interfaces *)

(** libp2p: identities, addresses and the identifiers of requests and response channels. *)
Class Libp2p := {
  PeerId : Type;
  Multiaddr : Type;
  OutboundRequestId : Type;
  ResponseChannel : Type;
  peer_id_eq_dec :: EqDecision PeerId;
  peer_id_countable :: Countable PeerId;
  request_id_eq_dec :: EqDecision OutboundRequestId;
  request_id_countable :: Countable OutboundRequestId;
}.

(** [VariableList::push]; SHA-256. *)
Class P2PLibraries := {
  variable_list_push : ∀ {A : Type}, N → list A → A → option (list A);
  sha256 : bytes → bytes;
}.
Class P2PLibrariesLaws `{P2PLibraries} : Prop := {
  variable_list_push_spec A limit (l : list A) x :
    variable_list_push limit l x = if len l <? limit then Some (l ++ [x]) else None;
  length_sha256 l : length (sha256 l) = 32%nat;
}.

(** What a handler takes from its environment: a random number, and the identifier the swarm
    gives to the next request, unless its adapter has stopped. *)
Record Env `{Libp2p} := mk_env {
  env_random : N;
  env_answer : option OutboundRequestId;
}.
Arguments mk_env {_} _ _.

(** * lib.rs: data *)

Definition MAX_FETCH_RETRIES : N := 10.
Definition INITIAL_BACKOFF_MS : N := 5.
Definition BACKOFF_MULTIPLIER : N := 2.
Definition PEER_REDIAL_INTERVAL_SECS : N := 12.

(** ** gossipsub/messages.rs and the topics of [build_swarm] *)

#[local] Open Scope string_scope.

Definition BLOCK_TOPIC_KIND : string := "block".
Definition ATTESTATION_SUBNET_TOPIC_PREFIX : string := "attestation".
Definition AGGREGATION_TOPIC_KIND : string := "aggregation".

Definition topic_of (kind : string) : string := "/leanconsensus/devnet0/" +:+ kind +:+ "/ssz_snappy".

(** The subnet of the node's validator. *)
Definition subnet_of (validator_id : option u64) (attestation_committee_count : u64) : partial u64 :=
  match validator_id with
  | Some vid =>
      if (u64_val attestation_committee_count =? 0)%N then Panic else Return (u64_rem vid attestation_committee_count)
  | None => Return (to_u64 0)
  end.
Definition attestation_topic_kind (subnet_id : u64) : string :=
  ATTESTATION_SUBNET_TOPIC_PREFIX +:+ "_" +:+ pretty (u64_val subnet_id).

(** [topic.split("/")] *)
Fixpoint split_slash (s : string) : list string :=
  match s with
  | EmptyString => [""]
  | String c s =>
      if Ascii.eqb c "/"%char then "" :: split_slash s
      else match split_slash s with
           | [] => [String c ""]
           | x :: l => String c x :: l
           end
  end.

#[local] Close Scope string_scope.

Section server.
Context `{ST : SszTypes} `{SB : StorageBackend D B} `{CO : Codecs} `{HS : Hashing} `{HO : HashOrder}.
Context `{SC : SignatureScheme} `{SN : Snappy} `{WC : WireCodecs} `{LP : Libp2p} `{PL : P2PLibraries}.

Record PendingRequest := mk_pending_request {
  attempts : N;
  failed_peers : gset PeerId;
}.

(** Commands to the swarm (swarm_adapter.rs); a request is listed when the swarm took it. *)
Inductive SwarmCommand : Type :=
| Publish (topic : string) (data : bytes)
| Dial (addr : Multiaddr)
| SendRequest (peer : PeerId) (request : Request) (protocol : string)
| SendResponse (channel : ResponseChannel) (response : Response).

(** Messages of the actor to itself. *)
Inductive P2PTimer : Type :=
| RetryBlockFetch (root : H256)
| RetryPeerRedial (peer_id : PeerId).

Record P2PServer := mk_p2p {
  ps_commands : list SwarmCommand;
  ps_timers : list (N * P2PTimer);
  ps_store : Store D;
  ps_blockchain : bool;
  ps_forwarded : list Message;
  ps_attestation_topic : string;
  ps_block_topic : string;
  ps_aggregation_topic : string;
  ps_connected_peers : gset PeerId;
  ps_pending_requests : gmap H256 PendingRequest;
  ps_request_id_map : gmap OutboundRequestId H256;
  ps_bootnode_addrs : gmap PeerId Multiaddr;
}.

Abbreviation p2p := P2PServer.

Definition set_commands x (s : p2p) : p2p :=
  mk_p2p x (ps_timers s) (ps_store s) (ps_blockchain s) (ps_forwarded s) (ps_attestation_topic s) (ps_block_topic s)
    (ps_aggregation_topic s) (ps_connected_peers s) (ps_pending_requests s) (ps_request_id_map s) (ps_bootnode_addrs s).
Definition set_timers x (s : p2p) : p2p :=
  mk_p2p (ps_commands s) x (ps_store s) (ps_blockchain s) (ps_forwarded s) (ps_attestation_topic s) (ps_block_topic s)
    (ps_aggregation_topic s) (ps_connected_peers s) (ps_pending_requests s) (ps_request_id_map s) (ps_bootnode_addrs s).
Definition set_blockchain x (s : p2p) : p2p :=
  mk_p2p (ps_commands s) (ps_timers s) (ps_store s) x (ps_forwarded s) (ps_attestation_topic s) (ps_block_topic s)
    (ps_aggregation_topic s) (ps_connected_peers s) (ps_pending_requests s) (ps_request_id_map s) (ps_bootnode_addrs s).
Definition set_forwarded x (s : p2p) : p2p :=
  mk_p2p (ps_commands s) (ps_timers s) (ps_store s) (ps_blockchain s) x (ps_attestation_topic s) (ps_block_topic s)
    (ps_aggregation_topic s) (ps_connected_peers s) (ps_pending_requests s) (ps_request_id_map s) (ps_bootnode_addrs s).
Definition set_connected_peers x (s : p2p) : p2p :=
  mk_p2p (ps_commands s) (ps_timers s) (ps_store s) (ps_blockchain s) (ps_forwarded s) (ps_attestation_topic s)
    (ps_block_topic s) (ps_aggregation_topic s) x (ps_pending_requests s) (ps_request_id_map s) (ps_bootnode_addrs s).
Definition set_pending_requests x (s : p2p) : p2p :=
  mk_p2p (ps_commands s) (ps_timers s) (ps_store s) (ps_blockchain s) (ps_forwarded s) (ps_attestation_topic s)
    (ps_block_topic s) (ps_aggregation_topic s) (ps_connected_peers s) x (ps_request_id_map s) (ps_bootnode_addrs s).
Definition set_request_id_map x (s : p2p) : p2p :=
  mk_p2p (ps_commands s) (ps_timers s) (ps_store s) (ps_blockchain s) (ps_forwarded s) (ps_attestation_topic s)
    (ps_block_topic s) (ps_aggregation_topic s) (ps_connected_peers s) (ps_pending_requests s) x (ps_bootnode_addrs s).

(** [P2P::spawn]: the state of the actor when it starts. *)
Definition p2p_spawn (store : Store D) (attestation_topic block_topic aggregation_topic : string)
    (bootnode_addrs : gmap PeerId Multiaddr) : p2p :=
  mk_p2p [] [] store false [] attestation_topic block_topic aggregation_topic ∅ ∅ ∅ bootnode_addrs.

Section handlers.
Context {E : Type}.
Abbreviation P2PM := (M p2p E).

(** * swarm_adapter.rs, timers and the blockchain *)

Definition command (c : SwarmCommand) : P2PM unit := modify (λ s, set_commands (ps_commands s ++ [c]) s).
Definition send_request (env : Env) (peer : PeerId) (request : Request) (protocol : string) :
    P2PM (option OutboundRequestId) :=
  match env_answer env with
  | None => mret None
  | Some id => command (SendRequest peer request protocol);; mret (Some id)
  end.
Definition send_after (delay_ms : N) (t : P2PTimer) : P2PM unit :=
  modify (λ s, set_timers (ps_timers s ++ [(delay_ms, t)]) s).

(** [if let Some(ref blockchain) = server.blockchain { .. }] *)
Definition forward (msg : Message) : P2PM unit :=
  modify (λ s, if ps_blockchain s then set_forwarded (ps_forwarded s ++ [msg]) s else s).

(** * req_resp/handlers.rs *)

(** [build_status] *)
Definition build_status (store : Store D) : partial Status :=
  finalized ← latest_finalized store;
  head_root ← store_head store;
  header ← get_block_header head_root store;
  header ← expect_some header;
  Return (mk_status finalized (mk_checkpoint head_root (bh_slot header))).

(** [handle_status_request] *)
Definition handle_status_request (request : Status) (channel : ResponseChannel) : P2PM unit :=
  our_status ← reads (λ s, build_status (ps_store s));
  command (SendResponse channel (ResponseSuccess (PayloadStatus our_status))).

(** [handle_blocks_by_root_request] *)
Definition handle_blocks_by_root_request (request : BlocksByRootRequest) (channel : ResponseChannel) : P2PM unit :=
  blocks ← foldM (λ blocks root,
    signed_block ← reads (λ s, get_signed_block root (ps_store s));
    mret (match signed_block with Some block => blocks ++ [block] | None => blocks end)) [] (roots request);
  command (SendResponse channel (ResponseSuccess (PayloadBlocksByRoot blocks))).

(** [pool.choose(..)] *)
Definition choose (random : N) (pool : list PeerId) : option PeerId := pool !! N.to_nat (random mod len pool).

(** [fetch_block_from_peer] *)
Definition fetch_block_from_peer (env : Env) (root : H256) : P2PM bool :=
  connected ← gets ps_connected_peers;
  if bool_decide (connected = ∅) then mret false
  else
    failed ← gets (λ s, failed_peers <$> ps_pending_requests s !! root);
    let pool :=
      match failed with
      | Some failed =>
          if bool_decide (failed = ∅) then hash_elems connected else filter (.∉ failed) (hash_elems connected)
      | None => hash_elems connected
      end in
    pool ←
      match pool with
      | [] =>
          modify (λ s, match ps_pending_requests s !! root with
                       | Some pending => set_pending_requests
                           (<[root := mk_pending_request (attempts pending) ∅]> (ps_pending_requests s)) s
                       | None => s
                       end);;
          mret (hash_elems connected)
      | _ => mret pool
      end;
    match choose (env_random env) pool with
    | None => mret false
    | Some peer =>
        match variable_list_push MaxRequestBlocks [] root with
        | None => mret false
        | Some roots =>
            request_id ← send_request env peer (RequestBlocksByRoot (mk_blocks_by_root_request roots))
              BLOCKS_BY_ROOT_PROTOCOL_V1;
            match request_id with
            | None => mret false
            | Some request_id =>
                modify (λ s, match ps_pending_requests s !! root with
                             | Some _ => s
                             | None => set_pending_requests
                                 (<[root := mk_pending_request 1 ∅]> (ps_pending_requests s)) s
                             end);;
                modify (λ s, set_request_id_map (<[request_id := root]> (ps_request_id_map s)) s);;
                mret true
            end
        end
    end.

(** The delay before the next attempt, on [u64] with the exponent on [u32]. *)
Definition backoff_ms (attempts : N) : N :=
  (INITIAL_BACKOFF_MS * (BACKOFF_MULTIPLIER ^ ((attempts + 2 ^ 32 - 1) mod 2 ^ 32) mod 2 ^ 64)) mod 2 ^ 64.

(** [handle_fetch_failure] *)
Definition handle_fetch_failure (root : H256) (peer : PeerId) : P2PM unit :=
  pending_requests ← gets ps_pending_requests;
  match pending_requests !! root with
  | None => mret tt
  | Some pending =>
      let failed := {[ peer ]} ∪ failed_peers pending in
      modify (set_pending_requests (<[root := mk_pending_request (attempts pending) failed]> pending_requests));;
      if MAX_FETCH_RETRIES <=? attempts pending then
        modify (λ s, set_pending_requests (delete root (ps_pending_requests s)) s)
      else
        modify (set_pending_requests
          (<[root := mk_pending_request ((attempts pending + 1) mod 2 ^ 32) failed]> pending_requests));;
        send_after (backoff_ms (attempts pending)) (RetryBlockFetch root)
  end.

(** [handle_blocks_by_root_response] *)
Definition receive_block (requested_root : H256) (block : SignedBlockWithAttestation) : P2PM unit :=
  let root := tree_hash_root (bwa_block (sb_message block)) in
  if negb (bool_decide (root = requested_root)) then mret tt
  else
    modify (λ s, set_pending_requests (delete root (ps_pending_requests s)) s);;
    forward (NewBlock block).

Definition handle_blocks_by_root_response (blocks : list SignedBlockWithAttestation) (peer : PeerId)
    (request_id : OutboundRequestId) : P2PM unit :=
  request_id_map ← gets ps_request_id_map;
  match request_id_map !! request_id with
  | None => mret tt
  | Some requested_root =>
      modify (set_request_id_map (delete request_id request_id_map));;
      match blocks with
      | [] =>
          modify (λ s, set_request_id_map (<[request_id := requested_root]> (ps_request_id_map s)) s);;
          handle_fetch_failure requested_root peer
      | _ => foldM (λ _ block, receive_block requested_root block) tt blocks
      end
  end.

(** The events of the request-response protocol. *)
Inductive ReqRespEvent : Type :=
| MessageRequest (peer : PeerId) (request : Request) (channel : ResponseChannel)
| MessageResponse (peer : PeerId) (request_id : OutboundRequestId) (response : Response)
| OutboundFailure (peer : PeerId) (request_id : OutboundRequestId)
| InboundFailure (peer : PeerId)
| ResponseSent (peer : PeerId).

(** [handle_req_resp_message] *)
Definition handle_req_resp_message (event : ReqRespEvent) : P2PM unit :=
  match event with
  | MessageRequest peer (RequestStatus status) channel => handle_status_request status channel
  | MessageRequest peer (RequestBlocksByRoot request) channel => handle_blocks_by_root_request request channel
  | MessageResponse peer request_id (ResponseSuccess (PayloadStatus status)) => mret tt
  | MessageResponse peer request_id (ResponseSuccess (PayloadBlocksByRoot blocks)) =>
      handle_blocks_by_root_response blocks peer request_id
  | MessageResponse peer request_id (ResponseError code message) => mret tt
  | OutboundFailure peer request_id =>
      request_id_map ← gets ps_request_id_map;
      match request_id_map !! request_id with
      | Some root =>
          modify (set_request_id_map (delete request_id request_id_map));;
          handle_fetch_failure root peer
      | None => mret tt
      end
  | InboundFailure peer => mret tt
  | ResponseSent peer => mret tt
  end.

(** * gossipsub/handler.rs *)

(** Decompress, decode and forward. *)
Definition receive_gossip {A} `{Ssz A} (data : bytes) (msg : A → Message) : P2PM unit :=
  match decompress_message data with
  | inl _ => mret tt
  | inr uncompressed_data =>
      match from_ssz_bytes uncompressed_data with
      | None => mret tt
      | Some x => forward (msg x)
      end
  end.

(** [handle_gossipsub_message] *)
Definition handle_gossipsub_message (topic : string) (data : bytes) : P2PM unit :=
  match split_slash topic !! 3%nat with
  | Some kind =>
      if bool_decide (kind = BLOCK_TOPIC_KIND) then receive_gossip data NewBlock
      else if bool_decide (kind = AGGREGATION_TOPIC_KIND) then receive_gossip data NewAggregatedAttestation
      else if String.prefix ATTESTATION_SUBNET_TOPIC_PREFIX kind then receive_gossip data NewAttestation
      else mret tt
  | None => mret tt
  end.

(** [publish_attestation], [publish_block], [publish_aggregated_attestation] *)
Definition publish {A} `{Ssz A} (topic : p2p → string) (x : A) : P2PM unit :=
  let ssz_bytes := as_ssz_bytes x in
  compressed ← lift_partial (compress_message ssz_bytes);
  topic ← gets topic;
  command (Publish topic compressed).
Definition publish_attestation (attestation : SignedAttestation) : P2PM unit := publish ps_attestation_topic attestation.
Definition publish_block (signed_block : SignedBlockWithAttestation) : P2PM unit := publish ps_block_topic signed_block.
Definition publish_aggregated_attestation (attestation : SignedAggregatedAttestation) : P2PM unit :=
  publish ps_aggregation_topic attestation.

(** * lib.rs: handlers *)

(** [handle_retry_block_fetch], [handle_retry_peer_redial] *)
Definition handle_retry_block_fetch (env : Env) (root : H256) : P2PM unit :=
  pending_requests ← gets ps_pending_requests;
  if negb (bool_decide (is_Some (pending_requests !! root))) then mret tt
  else
    sent ← fetch_block_from_peer env root;
    if negb sent then modify (λ s, set_pending_requests (delete root (ps_pending_requests s)) s) else mret tt.

Definition handle_retry_peer_redial (peer_id : PeerId) : P2PM unit :=
  connected ← gets ps_connected_peers;
  if bool_decide (peer_id ∈ connected) then mret tt
  else
    addrs ← gets ps_bootnode_addrs;
    match addrs !! peer_id with
    | Some addr => command (Dial addr)
    | None => mret tt
    end.

(** [Handler<PublishBlock>], [Handler<PublishAttestation>],
    [Handler<PublishAggregatedAttestation>], [Handler<FetchBlock>] *)
Definition handle_fetch_block (env : Env) (root : H256) : P2PM unit :=
  pending_requests ← gets ps_pending_requests;
  if bool_decide (is_Some (pending_requests !! root)) then mret tt
  else fetch_block_from_peer env root;; mret tt.

Definition handle_blockchain_message (env : Env) (msg : P2PMessage) : P2PM unit :=
  match msg with
  | PublishBlock block => publish_block block
  | PublishAttestation attestation => publish_attestation attestation
  | PublishAggregatedAttestation attestation => publish_aggregated_attestation attestation
  | FetchBlock root => handle_fetch_block env root
  end.

(** The events of the swarm; a connection is inbound or, when dialed, outbound, and an error is
    given by its text. *)
Inductive SwarmEvent : Type :=
| ReqResp (event : ReqRespEvent)
| Gossipsub (topic : string) (data : bytes)
| ConnectionEstablished (peer_id : PeerId) (is_dialer : bool) (num_established : N)
| ConnectionClosed (peer_id : PeerId) (is_dialer : bool) (num_established : N) (cause : option string)
| OutgoingConnectionError (peer_id : option PeerId) (error : string)
| IncomingConnectionError (peer_id : option PeerId)
| OtherSwarmEvent.

(** [handle_swarm_event] *)
Definition handle_swarm_event (env : Env) (event : SwarmEvent) : P2PM unit :=
  match event with
  | ReqResp event => handle_req_resp_message event
  | Gossipsub topic data => handle_gossipsub_message topic data
  | ConnectionEstablished peer_id is_dialer num_established =>
      if num_established =? 1 then
        modify (λ s, set_connected_peers ({[ peer_id ]} ∪ ps_connected_peers s) s);;
        our_status ← reads (λ s, build_status (ps_store s));
        send_request env peer_id (RequestStatus our_status) STATUS_PROTOCOL_V1;;
        mret tt
      else mret tt
  | ConnectionClosed peer_id is_dialer num_established cause =>
      if num_established =? 0 then
        modify (λ s, set_connected_peers (ps_connected_peers s ∖ {[ peer_id ]}) s);;
        addrs ← gets ps_bootnode_addrs;
        if bool_decide (is_Some (addrs !! peer_id)) then
          send_after (PEER_REDIAL_INTERVAL_SECS * 1000) (RetryPeerRedial peer_id)
        else mret tt
      else mret tt
  | OutgoingConnectionError peer_id error =>
      addrs ← gets ps_bootnode_addrs;
      connected ← gets ps_connected_peers;
      match peer_id with
      | Some pid =>
          if bool_decide (is_Some (addrs !! pid)) && negb (bool_decide (pid ∈ connected)) then
            send_after (PEER_REDIAL_INTERVAL_SECS * 1000) (RetryPeerRedial pid)
          else mret tt
      | None => mret tt
      end
  | IncomingConnectionError peer_id => mret tt
  | OtherSwarmEvent => mret tt
  end.

(** The messages the actor handles. *)
Inductive P2PInput : Type :=
| InitBlockChain
| FromBlockchain (msg : P2PMessage)
| TimerFired (t : P2PTimer)
| WrappedSwarmEvent (event : SwarmEvent).

Definition p2p_handle (env : Env) (input : P2PInput) : P2PM unit :=
  match input with
  | InitBlockChain => modify (set_blockchain true)
  | FromBlockchain msg => handle_blockchain_message env msg
  | TimerFired (RetryBlockFetch root) => handle_retry_block_fetch env root
  | TimerFired (RetryPeerRedial peer_id) => handle_retry_peer_redial peer_id
  | WrappedSwarmEvent event => handle_swarm_event env event
  end.

End handlers.

(** The actor and its timers: any message may arrive, and any timer may fire once. *)
Inductive p2p_step (s : p2p) : p2p → Prop :=
| step_message env input s' :
    (∀ t, input ≠ TimerFired t) → p2p_handle (E := Empty_set) env input s = Done s' tt → p2p_step s s'
| step_timer env t l k delay s' :
    ps_timers s = l ++ (delay, t) :: k →
    p2p_handle (E := Empty_set) env (TimerFired t) (set_timers (l ++ k) s) = Done s' tt → p2p_step s s'.

(** [compute_message_id] *)
Definition le_bytes (k : nat) (n : N) : bytes := reverse (be_bytes k n).
Definition MESSAGE_DOMAIN_INVALID_SNAPPY : bytes := [x00; x00; x00; x00].
Definition MESSAGE_DOMAIN_VALID_SNAPPY : bytes := [x01; x00; x00; x00].
Definition compute_message_id (topic : string) (message_data : bytes) : bytes :=
  let '(domain, data) :=
    match decompress_message message_data with
    | inr data => (MESSAGE_DOMAIN_VALID_SNAPPY, data)
    | inl _ => (MESSAGE_DOMAIN_INVALID_SNAPPY, message_data)
    end in
  let topic := String.list_byte_of_string topic in
  let topic_len := le_bytes 8 (len topic) in
  take 20 (sha256 (domain ++ topic_len ++ topic ++ data)).

End server.
