(* ===== verification/P2PSpec.v ===== *)
(** Lemmas about the network actor: what a fetch, a failure and a response do to its state,
    and how topics are told apart. *)

From Stdlib Require Import Strings.Ascii Strings.String Strings.Byte.
From stdpp Require Import pretty.
From S2P Require Import Prelude Types Backend Keys Signatures PayloadBuffer Store Crypto ChainStore ChainServer Wire WireTheorems P2P.

(** * Topics *)

Section topics.
#[local] Open Scope string_scope.

(** A string without a slash is one part. *)
Definition no_slash (s : string) : Prop := split_slash s = [s].

Lemma no_slash_cons c s : Ascii.eqb c "/"%char = false → no_slash s → no_slash (String c s).
Proof. unfold no_slash. intros Hc Hs. cbn [split_slash]. by rewrite Hc, Hs. Qed.

Lemma split_part s t : no_slash s → split_slash (s +:+ String "/"%char t) = s :: split_slash t.
Proof.
  unfold no_slash. induction s as [|c s IH]; intros Hs; [done|]. cbn [split_slash String.append] in *.
  destruct (Ascii.eqb c "/"%char) eqn:Hc.
  - exfalso. injection Hs as Heq. done.
  - destruct (split_slash s) as [|x [|y l]] eqn:Hsplit; [|injection Hs as ->|done].
    + destruct s; cbn in Hsplit; [done|]. destruct (Ascii.eqb _ _); [done|]. by destruct (split_slash s).
    + change (String c s +:+ String "/"%char t) with (String c (s +:+ String "/"%char t)). cbn [split_slash].
      by rewrite Hc, IH.
Qed.

Lemma pretty_digit_no_slash x : Ascii.eqb (pretty_N_char x) "/"%char = false.
Proof. unfold pretty_N_char. by repeat case_match. Qed.

Lemma pretty_go_no_slash x : ∀ s, no_slash s → no_slash (pretty_N_go x s).
Proof.
  induction x as [x IH] using (well_founded_induction N.lt_wf_0). intros s Hs.
  destruct (N.eq_0_gt_0_cases x) as [->|Hx]; [by rewrite pretty_N_go_0|].
  rewrite pretty_N_go_step by done. apply IH; [apply N.div_lt; lia|].
  apply no_slash_cons; [apply pretty_digit_no_slash|done].
Qed.

Lemma pretty_no_slash (x : N) : no_slash (pretty x).
Proof.
  unfold pretty, pretty_N. case_decide; [done|]. by apply pretty_go_no_slash.
Qed.

(** The kind of one of our topics is its fourth part. *)
Lemma topic_kind kind : no_slash kind → split_slash (topic_of kind) !! 3%nat = Some kind.
Proof.
  intros Hk. unfold topic_of.
  assert (Hsplit : split_slash ("/leanconsensus/devnet0/" +:+ kind +:+ "/ssz_snappy") =
    "" :: "leanconsensus" :: "devnet0" :: split_slash (kind +:+ "/ssz_snappy")) by done.
  rewrite Hsplit. change "/ssz_snappy" with (String "/"%char "ssz_snappy"). by rewrite split_part.
Qed.

Lemma attestation_kind_no_slash subnet_id : no_slash (attestation_topic_kind subnet_id).
Proof.
  unfold attestation_topic_kind, ATTESTATION_SUBNET_TOPIC_PREFIX. cbn [String.append].
  repeat (apply no_slash_cons; [done|]). apply pretty_no_slash.
Qed.

End topics.

(** * Fetches *)

Section fetch.
Context `{ST : SszTypes} `{SB : StorageBackend D B} `{CO : Codecs} `{HS : Hashing} `{HOL : HashOrderLaws}.
Context `{SC : SignatureScheme} `{SN : Snappy} `{WC : WireCodecs} `{LP : Libp2p} `{PL : P2PLibrariesLaws}.
Context {E : Type}.
Implicit Types (s : P2PServer (D := D)) (root : H256).

Definition failed_of s root : gset PeerId := default ∅ (failed_peers <$> ps_pending_requests s !! root).

(** Every connected peer has failed: the record of failures is cleared. *)
Definition exhausted s root : Prop := ps_connected_peers s ⊆ failed_of s root.
#[local] Instance exhausted_dec s root : Decision (exhausted s root).
Proof. unfold exhausted. apply _. Defined.

Definition clear_failed root s : P2PServer :=
  match ps_pending_requests s !! root with
  | Some pending => set_pending_requests (<[root := mk_pending_request (attempts pending) ∅]> (ps_pending_requests s)) s
  | None => s
  end.
Definition cleared root s : P2PServer := if decide (exhausted s root) then clear_failed root s else s.

(** A peer that may be asked: one that has not failed, unless all have. *)
Definition eligible s root (peer : PeerId) : Prop :=
  peer ∈ ps_connected_peers s ∧ (peer ∉ failed_of s root ∨ exhausted s root).

Definition block_request (peer : PeerId) root : SwarmCommand :=
  SendRequest peer (RequestBlocksByRoot (mk_blocks_by_root_request [root])) BLOCKS_BY_ROOT_PROTOCOL_V1.

(** The state after the request [id] for [root] was sent to [peer]. *)
Definition tracked root (id : OutboundRequestId) peer s : P2PServer :=
  set_request_id_map (<[id := root]> (ps_request_id_map s))
    (set_pending_requests (<[root := default (mk_pending_request 1 ∅) (ps_pending_requests s !! root)]> (ps_pending_requests s))
      (set_commands (ps_commands s ++ [block_request peer root]) s)).

Lemma choose_spec random (pool : list PeerId) : pool ≠ [] → ∃ p, choose random pool = Some p ∧ p ∈ pool.
Proof.
  intros Hne. unfold choose. destruct (pool !! N.to_nat (random mod len pool)) as [p|] eqn:Hp.
  - exists p. split; [done|]. by eapply list_elem_of_lookup_2.
  - exfalso. apply lookup_ge_None in Hp. unfold len in Hp. destruct pool as [|x pool]; [done|].
    pose proof (N.mod_lt random (N.of_nat (length (x :: pool)))) as Hlt. cbn [length] in *. lia.
Qed.

(** The pool a fetch draws from. *)
Definition fetch_pool s root : list PeerId := filter (.∉ failed_of s root) (hash_elems (ps_connected_peers s)).

Lemma fetch_pool_nil s root : fetch_pool s root = [] ↔ exhausted s root.
Proof.
  unfold fetch_pool, exhausted. split.
  - intros Hnil p Hp. destruct (decide (p ∈ failed_of s root)) as [|Hno]; [done|]. exfalso.
    assert (Hin : p ∈ filter (.∉ failed_of s root) (hash_elems (ps_connected_peers s)))
      by (apply list_elem_of_filter; split; [done|by apply elem_of_hash_elems]).
    rewrite Hnil in Hin. by apply not_elem_of_nil in Hin.
  - intros Hsub. destruct (filter _ _) as [|p l] eqn:Hf; [done|exfalso].
    assert (Hin : p ∈ filter (.∉ failed_of s root) (hash_elems (ps_connected_peers s))) by (rewrite Hf; by left).
    apply list_elem_of_filter in Hin as [Hno Hin%elem_of_hash_elems]. by apply Hno, Hsub.
Qed.

Lemma filter_not_empty (f : gset PeerId) (l : list PeerId) : f = ∅ → filter (.∉ f) l = l.
Proof.
  intros ->. induction l as [|x l IH]; [done|]. rewrite filter_cons_True, IH; [done|]. apply not_elem_of_empty.
Qed.

Lemma tracked_pending root s :
  (match ps_pending_requests s !! root with
   | Some _ => s
   | None => set_pending_requests (<[root := mk_pending_request 1 ∅]> (ps_pending_requests s)) s
   end) = set_pending_requests (<[root := default (mk_pending_request 1 ∅) (ps_pending_requests s !! root)]> (ps_pending_requests s)) s.
Proof.
  destruct (ps_pending_requests s !! root) as [p|] eqn:Hp; [|done]. cbn [default]. rewrite insert_id by done. by destruct s.
Qed.

Lemma fetch_idle env root s : ps_connected_peers s = ∅ → (fetch_block_from_peer env root : M _ E bool) s = Done s false.
Proof. intros Hempty. unfold fetch_block_from_peer. rewrite run_bind, run_gets. by rewrite bool_decide_eq_true_2. Qed.

Lemma fetch_run env root s :
  ps_connected_peers s ≠ ∅ →
  ∃ peer, eligible s root peer ∧
    (fetch_block_from_peer env root : M _ E bool) s =
      match env_answer env with
      | None => Done (cleared root s) false
      | Some id => Done (tracked root id peer (cleared root s)) true
      end.
Proof.
  intros Hne. unfold fetch_block_from_peer. rewrite run_bind, run_gets, bool_decide_eq_false_2 by done. rewrite run_bind, run_gets.
  assert (Hpool : match failed_peers <$> ps_pending_requests s !! root with
    | Some failed => if bool_decide (failed = ∅) then hash_elems (ps_connected_peers s)
                     else filter (.∉ failed) (hash_elems (ps_connected_peers s))
    | None => hash_elems (ps_connected_peers s) end = fetch_pool s root).
  { unfold fetch_pool, failed_of. destruct (failed_peers <$> ps_pending_requests s !! root) as [f|].
    - case_bool_decide as Hf; [|done]. symmetry. by apply (filter_not_empty f).
    - symmetry. by apply (filter_not_empty ∅). }
  cbv zeta. rewrite Hpool. clear Hpool. rewrite run_bind.
  assert (Hall : hash_elems (ps_connected_peers s) ≠ []).
  { intros Hnil. apply Hne. apply elem_of_equiv_empty_L. intros p Hp%elem_of_hash_elems. rewrite Hnil in Hp. by apply not_elem_of_nil in Hp. }
  set (pool := if decide (exhausted s root) then hash_elems (ps_connected_peers s) else fetch_pool s root).
  assert (Hnext : (match fetch_pool s root with
    | [] => modify (λ s, match ps_pending_requests s !! root with
        | Some pending => set_pending_requests (<[root := mk_pending_request (attempts pending) ∅]> (ps_pending_requests s)) s
        | None => s end);; mret (hash_elems (ps_connected_peers s))
    | _ => mret (fetch_pool s root) end : M _ E _) s = Done (cleared root s) pool).
  { unfold pool, cleared. destruct (decide (exhausted s root)) as [Hex|Hex].
    - by rewrite (proj2 (fetch_pool_nil s root) Hex).
    - rewrite <- fetch_pool_nil in Hex. by destruct (fetch_pool s root). }
  rewrite Hnext. clear Hnext. cbn beta iota.
  assert (Hpne : pool ≠ []) by (unfold pool; destruct (decide _) as [|Hex]; [done|by rewrite fetch_pool_nil]).
  destruct (choose_spec (env_random env) pool Hpne) as (peer & -> & Hin). exists peer. split.
  { unfold pool in Hin. unfold eligible. destruct (decide (exhausted s root)) as [Hex|Hex].
    - apply elem_of_hash_elems in Hin. by split; [|right].
    - apply list_elem_of_filter in Hin as [Hno Hin%elem_of_hash_elems]. by split; [|left]. }
  assert (variable_list_push MaxRequestBlocks [] root = Some [root]) as -> by (by rewrite variable_list_push_spec).
  cbn beta iota. rewrite run_bind. unfold send_request. destruct (env_answer env) as [id|]; [|done].
  rewrite run_bind. unfold command. rewrite run_modify, run_ret. cbn beta iota. rewrite run_bind, run_modify, run_bind, run_modify, run_ret.
  by rewrite tracked_pending.
Qed.

(** * Failures *)

Lemma failure_run root peer s : (handle_fetch_failure root peer : M _ E unit) s =
  match ps_pending_requests s !! root with
  | None => Done s tt
  | Some p => Done
      (if MAX_FETCH_RETRIES <=? attempts p then set_pending_requests (delete root (ps_pending_requests s)) s
       else set_timers (ps_timers s ++ [(backoff_ms (attempts p), RetryBlockFetch root)])
         (set_pending_requests (<[root := mk_pending_request ((attempts p + 1) mod 2 ^ 32) ({[ peer ]} ∪ failed_peers p)]>
           (ps_pending_requests s)) s)) tt
  end.
Proof.
  unfold handle_fetch_failure. rewrite run_bind, run_gets. destruct (ps_pending_requests s !! root) as [p|]; [|done].
  cbv zeta. rewrite run_bind, run_modify. destruct (MAX_FETCH_RETRIES <=? attempts p); [|done].
  rewrite run_modify. cbn [ps_pending_requests set_pending_requests]. by rewrite delete_insert_eq.
Qed.

Lemma backoff_small k : 1 <= k <= 10 → backoff_ms k = 5 * 2 ^ (k - 1).
Proof.
  intros Hk. unfold backoff_ms, INITIAL_BACKOFF_MS, BACKOFF_MULTIPLIER.
  replace ((k + 2 ^ 32 - 1) mod 2 ^ 32) with (k - 1) by lia.
  assert (Hpow : 2 ^ (k - 1) <= 2 ^ 9) by (apply N.pow_le_mono_r; lia). change (2 ^ 9) with 512 in Hpow.
  rewrite (N.mod_small (2 ^ (k - 1))) by lia. apply N.mod_small. lia.
Qed.

(** * What does not concern a root *)

(** [s'] asks nothing for [root] and keeps its entry. *)
Record quiet root s s' : Prop := {
  qt_pending : ps_pending_requests s' !! root = ps_pending_requests s !! root;
  qt_ids id : ps_request_id_map s' !! id = Some root → ps_request_id_map s !! id = Some root;
  qt_timers d : (d, RetryBlockFetch root) ∈ ps_timers s' → (d, RetryBlockFetch root) ∈ ps_timers s;
  qt_commands : ∃ new, ps_commands s' = ps_commands s ++ new ∧ ∀ peer, block_request peer root ∉ new;
}.

#[export] Instance quiet_refl root : Reflexive (quiet root).
Proof. intros s. split; try done. exists []. rewrite app_nil_r. split; [done|]. intros p. apply not_elem_of_nil. Qed.
#[export] Instance quiet_trans root : Transitive (quiet root).
Proof.
  intros s1 s2 s3 [H1 H2 H3 (n1 & Hc1 & Hn1)] [H4 H5 H6 (n2 & Hc2 & Hn2)]. split; [congruence|auto..|].
  exists (n1 ++ n2). rewrite Hc2, Hc1, (assoc_L (++)). split; [done|]. intros p [?|?]%elem_of_app; [by apply (Hn1 p)|by apply (Hn2 p)].
Qed.

(** The same entries, identifiers, timers and commands. *)
Lemma quiet_same root s s' :
  ps_pending_requests s' = ps_pending_requests s → ps_request_id_map s' = ps_request_id_map s →
  ps_timers s' = ps_timers s → ps_commands s' = ps_commands s → quiet root s s'.
Proof.
  intros Hp Hi Ht Hc. split; rewrite ?Hp, ?Hi, ?Ht, ?Hc; try done.
  exists []. rewrite app_nil_r. split; [done|]. intros p. apply not_elem_of_nil.
Qed.

Lemma quiet_command root c s : (∀ peer, c ≠ block_request peer root) → quiet root s (set_commands (ps_commands s ++ [c]) s).
Proof.
  intros Hc. split; try done. exists [c]. split; [done|]. intros p Hin%list_elem_of_singleton. by apply (Hc p).
Qed.

Lemma quiet_pending root (m : gmap H256 PendingRequest) s :
  m !! root = ps_pending_requests s !! root → quiet root s (set_pending_requests m s).
Proof.
  intros Hm. split; try done. exists []. rewrite app_nil_r. split; [done|]. intros p. apply not_elem_of_nil.
Qed.

Lemma quiet_forward root msg s s' : (forward msg : M _ E unit) s = Done s' tt → quiet root s s'.
Proof. intros [= <-]. destruct (ps_blockchain s); [by apply quiet_same|done]. Qed.

Lemma quiet_cleared root r s : r ≠ root → quiet root s (cleared r s).
Proof.
  intros Hne. unfold cleared, clear_failed. case_decide; [|done].
  destruct (ps_pending_requests s !! r); [|done]. apply (quiet_pending root). by rewrite lookup_insert_ne.
Qed.

Lemma quiet_tracked root r id peer s : r ≠ root → quiet root s (tracked r id peer s).
Proof.
  intros Hne. split; cbn.
  - by rewrite lookup_insert_ne.
  - intros id'. rewrite lookup_insert_Some. by intros [[_ ?]|[_ ?]].
  - done.
  - exists [block_request peer r]. split; [done|]. intros p Hin%list_elem_of_singleton. injection Hin. congruence.
Qed.

Lemma quiet_failure root r peer s s' : r ≠ root → (handle_fetch_failure r peer : M _ E unit) s = Done s' tt → quiet root s s'.
Proof.
  intros Hne. rewrite failure_run. destruct (ps_pending_requests s !! r) as [p|]; [|by intros [= <-]].
  intros [= <-]. destruct (_ <=? _).
  - apply (quiet_pending root). by rewrite lookup_delete_ne.
  - split; cbn; [by rewrite lookup_insert_ne|done| |].
    + intros d [?|Hin%list_elem_of_singleton]%elem_of_app; [done|]. by injection Hin.
    + exists []. rewrite app_nil_r. split; [done|]. intros q. apply not_elem_of_nil.
Qed.

Lemma quiet_fetch env root r s s' x :
  r ≠ root → (fetch_block_from_peer env r : M _ E bool) s = Done s' x → quiet root s s'.
Proof.
  intros Hne. destruct (decide (ps_connected_peers s = ∅)) as [He|He].
  - rewrite fetch_idle by done. by intros [= <- _].
  - destruct (fetch_run env r s He) as (peer & _ & ->). destruct (env_answer env) as [id|]; intros [= <- _].
    + etrans; [by apply quiet_cleared|by apply quiet_tracked].
    + by apply quiet_cleared.
Qed.

(** * Whole handlers *)

(** The fetch of [root] is stranded: its entry is there, but no request and no timer is. *)
Record stranded root s : Prop := {
  sr_pending : is_Some (ps_pending_requests s !! root);
  sr_ids id : ps_request_id_map s !! id ≠ Some root;
  sr_timers d : (d, RetryBlockFetch root) ∉ ps_timers s;
}.

Lemma quiet_stranded root s s' : quiet root s s' → stranded root s → stranded root s'.
Proof.
  intros [Hp Hi Ht _] [Hp' Hi' Ht']. split; [by rewrite Hp|intros id Hid; by apply (Hi' id), Hi|intros d Hd; by apply (Ht' d), Ht].
Qed.

Lemma publish_run {A} `{Ssz A} topic (x : A) s :
  (publish topic x : M _ E unit) s =
    match compress_message (as_ssz_bytes x) with
    | Return data => Done (set_commands (ps_commands s ++ [Publish (topic s) data]) s) tt
    | Panic => Panicked
    | Diverge => Diverged
    end.
Proof. unfold publish. cbv zeta. rewrite run_bind, run_lift_partial. by destruct (compress_message _). Qed.

Lemma quiet_publish {A} `{Ssz A} root topic (x : A) s s' : (publish topic x : M _ E unit) s = Done s' tt → quiet root s s'.
Proof. rewrite publish_run. destruct (compress_message _); [|done..]. intros [= <-]. by apply quiet_command. Qed.

Lemma quiet_gossip root topic data s s' : (handle_gossipsub_message topic data : M _ E unit) s = Done s' tt → quiet root s s'.
Proof.
  assert (Hrecv : ∀ A (SA : Ssz A) (msg : A → Message), (receive_gossip data msg : M _ E unit) s = Done s' tt → quiet root s s').
  { intros A SA msg. unfold receive_gossip. destruct (decompress_message data); [by intros [= <-]|].
    destruct (from_ssz_bytes _); [apply quiet_forward|by intros [= <-]]. }
  unfold handle_gossipsub_message. destruct (split_slash topic !! 3%nat) as [kind|]; [|by intros [= <-]].
  repeat case_bool_decide; try apply Hrecv. destruct (String.prefix _ _); [apply Hrecv|by intros [= <-]].
Qed.

Lemma receive_other root r block s :
  tree_hash_root (bwa_block (sb_message block)) ≠ r → (receive_block r block : M _ E unit) s = Done s tt.
Proof. intros Hne. unfold receive_block. cbv zeta. by rewrite bool_decide_eq_false_2. Qed.

Lemma quiet_receive root r blocks : r ≠ root → ∀ s s',
  (foldM (λ _ block, receive_block r block) tt blocks : M _ E unit) s = Done s' tt → quiet root s s'.
Proof.
  intros Hne. induction blocks as [|block blocks IH]; intros s s'; [by intros [= <-]|]. cbn [foldM]. rewrite run_bind.
  unfold receive_block at 1. cbv zeta. case_bool_decide as Hr; cbn [negb]; [|apply IH]. subst r.
  rewrite run_bind, run_modify. unfold forward at 1. rewrite run_modify. intros Hrun%IH. etrans; [|exact Hrun].
  etrans; [apply (quiet_pending root); by rewrite lookup_delete_ne|].
  destruct (ps_blockchain _); by apply quiet_same.
Qed.

Lemma quiet_response root blocks peer id s s' :
  ps_request_id_map s !! id ≠ Some root →
  (handle_blocks_by_root_response blocks peer id : M _ E unit) s = Done s' tt → quiet root s s'.
Proof.
  intros Hid. unfold handle_blocks_by_root_response. rewrite run_bind, run_gets.
  destruct (ps_request_id_map s !! id) as [r|] eqn:Hr; [|by intros [= <-]].
  assert (Hne : r ≠ root) by congruence. rewrite run_bind, run_modify.
  assert (Hq : quiet root s (set_request_id_map (delete id (ps_request_id_map s)) s)).
  { split; try done; [intros id'; cbn; by intros [_ ?]%lookup_delete_Some|]. exists []. rewrite app_nil_r. split; [done|].
    intros p. apply not_elem_of_nil. }
  destruct blocks as [|block blocks].
  - rewrite run_bind, run_modify. intros Hrun%(quiet_failure root); [|done]. etrans; [|exact Hrun]. cbn [ps_request_id_map set_request_id_map].
    rewrite insert_delete_id by done. by apply quiet_same.
  - intros Hrun%(quiet_receive root); [|done]. by etrans.
Qed.

Lemma quiet_req_resp root event s s' :
  stranded root s → (handle_req_resp_message event : M _ E unit) s = Done s' tt → quiet root s s'.
Proof.
  intros [_ Hids _]. destruct event as [peer [status|request] channel|peer id [[status|blocks]|code message]|peer id|peer|peer];
    cbn [handle_req_resp_message]; try by intros [= <-].
  - unfold handle_status_request. rewrite run_bind, run_reads. destruct (build_status _); [|done..]. intros [= <-]. by apply quiet_command.
  - unfold handle_blocks_by_root_request. rewrite run_bind.
    assert (Hread : ∀ roots acc s1 blocks, (foldM (λ blocks root,
      signed_block ← reads (λ s : P2PServer (D := D), get_signed_block root (ps_store s));
      mret (match signed_block with Some block => blocks ++ [block] | None => blocks end)) acc roots : M _ E _) s = Done s1 blocks → s1 = s).
    { induction roots as [|r roots IH]; intros acc s1 blocks; [by intros [= <- _]|]. cbn [foldM]. rewrite run_bind, run_bind, run_reads.
      destruct (get_signed_block r (ps_store s)); [|done..]. rewrite run_ret. apply IH. }
    destruct (foldM _ _ _ _) as [s1 blocks| | |] eqn:Hrun; [|done..]. apply Hread in Hrun as ->. intros [= <-]. by apply quiet_command.
  - by apply quiet_response.
  - rewrite run_bind, run_gets. destruct (ps_request_id_map s !! id) as [r|] eqn:Hr; [|by intros [= <-]].
    rewrite run_bind, run_modify. intros Hrun%(quiet_failure root); [|intros ->; by apply (Hids id)]. etrans; [|exact Hrun].
    split; try done; [intros id'; cbn; by intros [_ ?]%lookup_delete_Some|]. exists []. rewrite app_nil_r. split; [done|].
    intros p. apply not_elem_of_nil.
Qed.

Lemma quiet_timer_added root delay peer s : quiet root s (set_timers (ps_timers s ++ [(delay, RetryPeerRedial peer)]) s).
Proof.
  split; try done; cbn.
  - by intros d [?|Hin%list_elem_of_singleton]%elem_of_app.
  - exists []. rewrite app_nil_r. split; [done|]. intros p. apply not_elem_of_nil.
Qed.

Lemma quiet_swarm env root event s s' :
  stranded root s → (handle_swarm_event env event : M _ E unit) s = Done s' tt → quiet root s s'.
Proof.
  intros Hst. destruct event as [event|topic data|peer dialer n|peer dialer n cause|peer error|peer|]; cbn [handle_swarm_event]; try by intros [= <-].
  - by apply quiet_req_resp.
  - apply quiet_gossip.
  - destruct (n =? 1); [|by intros [= <-]]. rewrite run_bind, run_modify, run_bind, run_reads.
    destruct (build_status _) as [status| |]; [|done..]. rewrite run_bind. unfold send_request.
    set (s1 := set_connected_peers _ s). assert (quiet root s s1) by (by apply quiet_same).
    destruct (env_answer env) as [id|]; intros [= <-]; [|done]. etrans; [done|]. by apply (quiet_command root _ s1).
  - destruct (n =? 0); [|by intros [= <-]]. rewrite run_bind, run_modify, run_bind, run_gets.
    set (s1 := set_connected_peers _ s). assert (quiet root s s1) by (by apply quiet_same).
    case_bool_decide; intros [= <-]; [|done]. etrans; [done|]. by apply (quiet_timer_added root _ _ s1).
  - rewrite run_bind, run_gets, run_bind, run_gets. destruct peer as [pid|]; [|by intros [= <-]].
    destruct (_ && _); intros [= <-]; [apply quiet_timer_added|done].
Qed.

(** Nothing but its own retry timer makes the actor act for a stranded fetch. *)
Lemma quiet_handle env root input s s' :
  stranded root s → input ≠ TimerFired (RetryBlockFetch root) →
  (p2p_handle env input : M _ E unit) s = Done s' tt → quiet root s s'.
Proof.
  intros Hst Hne. destruct input as [|msg|[r|peer]|event]; cbn [p2p_handle].
  - intros [= <-]. by apply quiet_same.
  - destruct msg as [block|att|agg|r]; cbn [handle_blockchain_message]; try apply quiet_publish.
    unfold handle_fetch_block. rewrite run_bind, run_gets. case_bool_decide as Hp; [by intros [= <-]|].
    rewrite run_bind. destruct (fetch_block_from_peer env r s) as [s1 x| | |] eqn:Hrun; [|done..]. intros [= <-].
    apply (quiet_fetch env root r s s1 x); [|exact Hrun]. intros ->. by destruct Hst.
  - unfold handle_retry_block_fetch. rewrite run_bind, run_gets. case_bool_decide; cbn [negb]; [|by intros [= <-]].
    rewrite run_bind. destruct (fetch_block_from_peer env r s) as [s1 x| | |] eqn:Hrun; [|done..].
    assert (Hr : r ≠ root) by congruence. apply (quiet_fetch env root) in Hrun; [|done]. destruct x; cbn [negb].
    + intros [= <-]. done.
    + intros [= <-]. etrans; [exact Hrun|]. apply (quiet_pending root). by rewrite lookup_delete_ne.
  - unfold handle_retry_peer_redial. rewrite run_bind, run_gets. case_bool_decide; [by intros [= <-]|].
    rewrite run_bind, run_gets. destruct (_ !! peer); intros [= <-]; [by apply quiet_command|done].
  - by apply quiet_swarm.
Qed.

End fetch.
