(* ===== verification/P2PTheorems.v ===== *)
(** The theorems about the network actor: its handlers never panic and keep the bounds of
    the retries; fetches are deduplicated, ask peers that have not failed, and end after ten
    attempts; answers to requests; gossip round trips; and the fetch that a mismatched answer
    strands. With witnesses over a concrete actor. *)

From Stdlib Require Import Strings.Ascii Strings.String Strings.Byte.
From stdpp Require Import pretty.
From S2P Require Import Prelude Types StateTransition Reference StateInvariant ForkChoice.
From S2P Require Import Backend InMemory Keys Signatures PayloadBuffer Store Crypto StoreSpec StoreOps StorePruning StoreMaintenance Codec.
From S2P Require Import ChainInvariant ChainStore ChainTheorems ChainServer ServerSpec Wire WireCodec WireTheorems P2P P2PSpec.

Section theorems.
Context `{STL : SszTypesLaws} `{SL : StorageLaws D B} `{CO : Codecs} {CL : CodecsLaws} `{HS : Hashing} {HL : HashingLaws}.
Context `{HOL : HashOrderLaws} `{SC : SignatureScheme} `{SNL : SnappyLaws} `{WL : WireLaws} `{LP : Libp2p} `{PLL : P2PLibrariesLaws}.
Context {E : Type}.
Implicit Types (s : P2PServer (D := D)) (a : View).

(** * Lemmas *)

(** Fetches in progress have made one to ten attempts. *)
Definition attempts_ok s : Prop := ∀ root p, ps_pending_requests s !! root = Some p → 1 <= attempts p <= MAX_FETCH_RETRIES.

(** The store the actor reads has a header for its head. *)
Definition store_ok s a : Prop := represents (ps_store s) a ∧ is_Some (vw_headers a !! vw_head a).

(** What is published fits the compressor. *)
Definition input_ok (input : P2PInput) : Prop :=
  match input with
  | FromBlockchain (PublishBlock block) => len (as_ssz_bytes block) < 2 ^ 32
  | FromBlockchain (PublishAttestation attestation) => len (as_ssz_bytes attestation) < 2 ^ 32
  | FromBlockchain (PublishAggregatedAttestation aggregate) => len (as_ssz_bytes aggregate) < 2 ^ 32
  | _ => True
  end.

Lemma build_status_run s a : store_ok s a →
  ∃ h, vw_headers a !! vw_head a = Some h ∧
    build_status (ps_store s) = Return (mk_status (vw_finalized a) (mk_checkpoint (vw_head a) (bh_slot h))).
Proof.
  intros [Hr [h Hh]]. exists h. split; [done|]. unfold build_status.
  rewrite (latest_finalized_refines _ a Hr). cbn [mbind partial_bind]. rewrite (store_head_refines _ a Hr). cbn [mbind partial_bind].
  rewrite (get_block_header_refines _ a _ Hr). cbn [mbind partial_bind]. by rewrite Hh.
Qed.

(** A handler that keeps the store and the bounds. *)
Definition safe s (m : M P2PServer E unit) : Prop :=
  achieves m s (λ _ s', attempts_ok s' ∧ ps_store s' = ps_store s).

Lemma safe_done s s' (m : M P2PServer E unit) : m s = Done s' tt → attempts_ok s' → ps_store s' = ps_store s → safe s m.
Proof. intros Hm ? ?. by exists s', tt. Qed.

Lemma cleared_ok root s : attempts_ok s → attempts_ok (cleared root s) ∧ ps_store (cleared root s) = ps_store s.
Proof.
  intros Hok. unfold cleared, clear_failed. destruct (decide _); [|done]. destruct (ps_pending_requests s !! root) as [p|] eqn:Hp; [|done].
  split; [|done]. intros r q. cbn. rewrite lookup_insert_Some. intros [[<- <-]|[_ Hq]]; [exact (Hok root p Hp)|by apply (Hok r)].
Qed.

Lemma tracked_ok root id peer s : attempts_ok s → attempts_ok (tracked root id peer s).
Proof.
  intros Hok r q. cbn. rewrite lookup_insert_Some. intros [[<- <-]|[_ Hq]]; [|by apply (Hok r)].
  destruct (ps_pending_requests s !! root) as [p|] eqn:Hp; [exact (Hok root p Hp)|]. cbn. unfold MAX_FETCH_RETRIES. lia.
Qed.

Lemma fetch_safe env root s : attempts_ok s →
  achieves (fetch_block_from_peer env root : M P2PServer E bool) s (λ _ s', attempts_ok s' ∧ ps_store s' = ps_store s).
Proof.
  intros Hok. destruct (cleared_ok root s Hok) as [Hc Hst]. destruct (decide (ps_connected_peers s = ∅)) as [He|He].
  - eexists s, false. split; [by apply fetch_idle|done].
  - destruct (fetch_run (E := E) env root s He) as (peer & _ & Hrun). destruct (env_answer env) as [id|].
    + eexists _, true. split; [exact Hrun|]. split; [by apply tracked_ok|exact Hst].
    + by eexists _, false.
Qed.

Lemma deleted_ok root s : attempts_ok s → attempts_ok (set_pending_requests (delete root (ps_pending_requests s)) s).
Proof. intros Hok r q. cbn. intros [_ Hq]%lookup_delete_Some. by apply (Hok r). Qed.

Lemma failure_safe root peer s : attempts_ok s → safe s (handle_fetch_failure root peer).
Proof.
  intros Hok. pose proof (failure_run (E := E) root peer s) as Hrun. destruct (ps_pending_requests s !! root) as [p|] eqn:Hp.
  2:{ by eapply safe_done. }
  eapply safe_done; [exact Hrun| |by destruct (_ <=? _)].
  destruct (N.leb_spec MAX_FETCH_RETRIES (attempts p)); [by apply deleted_ok|].
  pose proof (Hok root p Hp). unfold MAX_FETCH_RETRIES in *. intros r q. cbn. rewrite lookup_insert_Some.
  intros [[<- <-]|[_ Hq]]; [|by apply (Hok r)]. cbn [attempts]. unfold MAX_FETCH_RETRIES. lia.
Qed.

(** The state after the requested block [block] has come. *)
Definition received block s : P2PServer :=
  let s1 := set_pending_requests (delete (tree_hash_root (bwa_block (sb_message block))) (ps_pending_requests s)) s in
  if ps_blockchain s1 then set_forwarded (ps_forwarded s1 ++ [NewBlock block]) s1 else s1.

Lemma receive_run root block s :
  (receive_block root block : M _ E unit) s =
    Done (if bool_decide (tree_hash_root (bwa_block (sb_message block)) = root) then received block s else s) tt.
Proof. unfold receive_block. cbv zeta. by case_bool_decide. Qed.

Lemma receive_safe root blocks : ∀ s, attempts_ok s → safe s (foldM (λ _ block, receive_block root block) tt blocks).
Proof.
  induction blocks as [|block blocks IH]; intros s Hok; [by eapply safe_done|].
  set (s1 := if bool_decide (tree_hash_root (bwa_block (sb_message block)) = root) then received block s else s).
  assert (Hs1 : attempts_ok s1 ∧ ps_store s1 = ps_store s).
  { unfold s1, received. case_bool_decide; [|done]. cbv zeta. destruct (ps_blockchain _); (split; [by apply (deleted_ok _ s)|done]). }
  destruct (IH s1 (proj1 Hs1)) as (s' & [] & Hrun & Hok' & Hst). exists s', tt. cbn [foldM]. rewrite run_bind, receive_run.
  fold s1. split; [exact Hrun|]. split; [done|]. rewrite Hst. apply Hs1.
Qed.

Lemma publish_safe {A} `{Ssz A} topic (x : A) s : attempts_ok s → len (as_ssz_bytes x) < 2 ^ 32 → safe s (publish topic x).
Proof.
  intros Hok Hlen. destruct (raw_compresses _ Hlen) as [c Hc]. eapply safe_done.
  - rewrite publish_run. unfold compress_message. rewrite Hc. done.
  - done.
  - done.
Qed.

Lemma forward_safe msg s : attempts_ok s → safe s (forward msg).
Proof. intros Hok. eexists _, tt. split; [done|]. by destruct (ps_blockchain s). Qed.

(** The stored blocks among [roots], in order. *)
Lemma collect_blocks s a roots : represents (ps_store s) a → ∀ acc,
  (foldM (λ blocks root,
    signed_block ← reads (λ s : P2PServer (D := D), get_signed_block root (ps_store s));
    mret (match signed_block with Some block => blocks ++ [block] | None => blocks end)) acc roots : M _ E _) s =
  Done s (acc ++ omap (M := list) (view_signed_block a) roots).
Proof.
  intros Hr. induction roots as [|r roots IH]; intros acc; [by rewrite app_nil_r|]. cbn [foldM]. rewrite run_bind, run_bind, run_reads.
  rewrite (get_signed_block_refines _ a r Hr), run_ret, IH. cbn [omap list_omap].
  destruct (view_signed_block a r); [by rewrite <- (assoc_L (++))|done].
Qed.

Lemma serve_blocks_run s a request channel : represents (ps_store s) a →
  (handle_blocks_by_root_request request channel : M _ E unit) s =
    Done (set_commands (ps_commands s ++ [SendResponse channel (ResponseSuccess (PayloadBlocksByRoot
      (omap (M := list) (view_signed_block a) (roots request))))]) s) tt.
Proof. intros Hr. unfold handle_blocks_by_root_request. by rewrite run_bind, (collect_blocks s a). Qed.

Lemma req_resp_safe event s a : store_ok s a → attempts_ok s → safe s (handle_req_resp_message event).
Proof.
  intros Hs Hok. destruct (build_status_run s a Hs) as (h & _ & Hstatus).
  destruct event as [peer [status|request] channel|peer id [[status|blocks]|code message]|peer id|peer|peer];
    cbn [handle_req_resp_message]; try by eapply safe_done.
  - eapply safe_done; [unfold handle_status_request; by rewrite run_bind, run_reads, Hstatus|done|done].
  - eapply safe_done; [by apply (serve_blocks_run s a), Hs|done|done].
  - unfold handle_blocks_by_root_response. apply achieves_gets. destruct (ps_request_id_map s !! id) as [r|]; [|by eapply safe_done].
    apply achieves_modify. destruct blocks as [|block blocks].
    + apply achieves_modify. by apply (failure_safe r peer (set_request_id_map _ (set_request_id_map _ s))).
    + by apply (receive_safe r (block :: blocks) (set_request_id_map _ s)).
  - apply achieves_gets. destruct (ps_request_id_map s !! id) as [r|]; [|by eapply safe_done].
    apply achieves_modify. by apply (failure_safe r peer (set_request_id_map _ s)).
Qed.

Lemma gossip_safe topic data s : attempts_ok s → safe s (handle_gossipsub_message topic data).
Proof.
  intros Hok. assert (Hrecv : ∀ A (SA : Ssz A) (msg : A → Message), safe s (receive_gossip data msg)).
  { intros A SA msg. unfold receive_gossip. destruct (decompress_message data); [by eapply safe_done|].
    destruct (from_ssz_bytes _); [by apply forward_safe|by eapply safe_done]. }
  unfold handle_gossipsub_message. destruct (split_slash topic !! 3%nat) as [kind|]; [|by eapply safe_done].
  repeat case_bool_decide; try apply Hrecv. destruct (String.prefix _ _); [apply Hrecv|by eapply safe_done].
Qed.

Lemma swarm_safe env event s a : store_ok s a → attempts_ok s → safe s (handle_swarm_event env event).
Proof.
  intros Hs Hok. destruct (build_status_run s a Hs) as (h & _ & Hstatus).
  destruct event as [event|topic data|peer dialer n|peer dialer n cause|peer error|peer|]; cbn [handle_swarm_event]; try by eapply safe_done.
  - by apply (req_resp_safe event s a).
  - by apply gossip_safe.
  - destruct (n =? 1); [|by eapply safe_done]. apply achieves_modify. eapply achieves_reads; [exact Hstatus|].
    unfold send_request. destruct (env_answer env); by eexists _, tt.
  - destruct (n =? 0); [|by eapply safe_done]. apply achieves_modify, achieves_gets. case_bool_decide; by eexists _, tt.
  - do 2 apply achieves_gets. destruct peer as [pid|]; [|by eapply safe_done]. destruct (_ && _); by eexists _, tt.
Qed.

(** * Safety *)

Lemma handle_safe env input s a : store_ok s a → attempts_ok s → input_ok input → safe s (p2p_handle env input).
Proof.
  intros Hs Hok Hinput. destruct input as [|msg|[r|peer]|event]; cbn [p2p_handle].
  - by eexists _, tt.
  - destruct msg as [block|att|agg|r]; try by apply publish_safe. cbn [handle_blockchain_message].
    unfold handle_fetch_block. apply achieves_gets. case_bool_decide; [by eapply safe_done|].
    eapply achieves_bind; [by apply fetch_safe|]. intros x s1 HQ. by eexists s1, tt.
  - unfold handle_retry_block_fetch. apply achieves_gets. case_bool_decide; cbn [negb]; [|by eapply safe_done].
    eapply achieves_bind; [by apply fetch_safe|]. intros [] s1 [Hok1 Hst1]; cbn [negb]; eexists _, tt; (split; [done|]); [done|].
    split; [by apply deleted_ok|done].
  - unfold handle_retry_peer_redial. apply achieves_gets. case_bool_decide; [by eapply safe_done|].
    apply achieves_gets. destruct (_ !! peer); by eexists _, tt.
  - by apply (swarm_safe env event s a).
Qed.

(** C24. Every message, timer and swarm event is handled without panicking (for data that fits
    the compressor, while the head's header is stored), leaves the store alone, and keeps
    the number of attempts of every fetch between one and ten. *)
Theorem p2p_handles_safely env input s a :
  store_ok s a → attempts_ok s → input_ok input →
  ∃ s', (p2p_handle env input : M _ E unit) s = Done s' tt ∧ attempts_ok s' ∧ store_ok s' a.
Proof.
  intros Hs Hok Hinput. destruct (handle_safe env input s a Hs Hok Hinput) as (s' & [] & Hrun & Hok' & Hst).
  exists s'. split_and!; [done..|]. unfold store_ok. by rewrite Hst.
Qed.

(** * Fetches *)

Lemma fetch_block_run env root s :
  ps_pending_requests s !! root = None → ps_connected_peers s ≠ ∅ →
  ∃ peer, peer ∈ ps_connected_peers s ∧ (handle_fetch_block env root : M _ E unit) s =
    Done (match env_answer env with None => s | Some id => tracked root id peer s end) tt.
Proof.
  intros Hp Hne. destruct (fetch_run (E := E) env root s Hne) as (peer & [Hin _] & Hrun). exists peer. split; [done|].
  unfold handle_fetch_block. rewrite run_bind, run_gets, bool_decide_eq_false_2 by (rewrite Hp; by intros []).
  assert (Hclear : cleared root s = s) by (unfold cleared, clear_failed; rewrite Hp; by destruct (decide _)).
  rewrite run_bind, Hrun, Hclear. by destruct (env_answer env).
Qed.

(** A request of the blockchain actor for a block: ignored while a fetch of that block is in
    progress, and without connected peers; otherwise exactly one request, for this root, goes
    to a connected peer, and the fetch is tracked with one attempt and no failures. *)
Theorem fetch_block_correct env root s :
  (is_Some (ps_pending_requests s !! root) ∨ ps_connected_peers s = ∅ →
    (p2p_handle env (FromBlockchain (FetchBlock root)) : M _ E unit) s = Done s tt) ∧
  (ps_pending_requests s !! root = None → ps_connected_peers s ≠ ∅ → ∀ id, env_answer env = Some id →
    ∃ s' peer, (p2p_handle env (FromBlockchain (FetchBlock root)) : M _ E unit) s = Done s' tt ∧
      peer ∈ ps_connected_peers s ∧ ps_commands s' = ps_commands s ++ [block_request peer root] ∧
      ps_pending_requests s' = <[root := mk_pending_request 1 ∅]> (ps_pending_requests s) ∧
      ps_request_id_map s' = <[id := root]> (ps_request_id_map s)).
Proof.
  cbn [p2p_handle handle_blockchain_message]. split.
  - intros Hcase. unfold handle_fetch_block. rewrite run_bind, run_gets. case_bool_decide as Hp; [done|].
    destruct Hcase as [|He]; [done|]. by rewrite run_bind, fetch_idle.
  - intros Hp Hne id Hid. destruct (fetch_block_run env root s Hp Hne) as (peer & Hin & Hrun). rewrite Hid in Hrun.
    exists (tracked root id peer s), peer. split_and!; try done. unfold tracked. cbn. by rewrite Hp.
Qed.

Lemma retry_run env root s s1 sent :
  is_Some (ps_pending_requests s !! root) → (fetch_block_from_peer env root : M _ E bool) s = Done s1 sent →
  (handle_retry_block_fetch env root : M _ E unit) s =
    Done (if sent then s1 else set_pending_requests (delete root (ps_pending_requests s1)) s1) tt.
Proof.
  intros Hp Hrun. unfold handle_retry_block_fetch. rewrite run_bind, run_gets, bool_decide_eq_true_2 by done. cbn [negb].
  rewrite run_bind, Hrun. by destruct sent.
Qed.

(** A retry asks a connected peer that has not failed for this block, if there is one; only
    when all connected peers have failed are they asked again, and their failures forgotten.
    The number of attempts is kept. Without peers, or when the swarm has stopped, the fetch is
    given up. *)
Theorem retry_block_fetch_correct env root s p :
  ps_pending_requests s !! root = Some p →
  ∃ s', (p2p_handle env (TimerFired (RetryBlockFetch root)) : M _ E unit) s = Done s' tt ∧
    (ps_connected_peers s = ∅ ∨ env_answer env = None →
      ps_pending_requests s' !! root = None ∧ ps_commands s' = ps_commands s) ∧
    (ps_connected_peers s ≠ ∅ → ∀ id, env_answer env = Some id → ∃ peer,
      peer ∈ ps_connected_peers s ∧ (ps_connected_peers s ⊆ failed_peers p ∨ peer ∉ failed_peers p) ∧
      ps_commands s' = ps_commands s ++ [block_request peer root] ∧ ps_request_id_map s' !! id = Some root ∧
      ps_pending_requests s' !! root = Some (mk_pending_request (attempts p)
        (if bool_decide (ps_connected_peers s ⊆ failed_peers p) then ∅ else failed_peers p))).
Proof.
  intros Hp. cbn [p2p_handle].
  assert (Hfailed : failed_of s root = failed_peers p) by (unfold failed_of; by rewrite Hp).
  destruct (decide (ps_connected_peers s = ∅)) as [He|He].
  { eexists. split; [apply (retry_run env root s s false); [by eexists|by apply fetch_idle]|].
    split; [|done]. intros _. by split; [apply lookup_delete_eq|]. }
  destruct (fetch_run (E := E) env root s He) as (peer & [Hin Hel] & Hrun). unfold exhausted in Hel. rewrite Hfailed in Hel.
  assert (Hclear : ps_pending_requests (cleared root s) !! root = Some (mk_pending_request (attempts p)
      (if bool_decide (ps_connected_peers s ⊆ failed_peers p) then ∅ else failed_peers p)) ∧
      ps_commands (cleared root s) = ps_commands s).
  { unfold cleared, clear_failed. destruct (decide (exhausted s root)) as [Hex|Hex]; unfold exhausted in Hex; rewrite Hfailed in Hex.
    - rewrite bool_decide_eq_true_2 by done. rewrite Hp. by split; [apply lookup_insert_eq|].
    - rewrite bool_decide_eq_false_2 by done. rewrite Hp. by destruct p. }
  destruct Hclear as [Hclear Hcmd].
  destruct (env_answer env) as [id|].
  - eexists. split; [eapply retry_run; [by eexists|exact Hrun]|]. split; [by intros [?|?]|].
    intros _ id' [= <-]. exists peer. unfold tracked. cbn. rewrite Hcmd, !lookup_insert_eq, Hclear. split_and!; try done.
    destruct Hel; auto.
  - eexists. split; [eapply retry_run; [by eexists|exact Hrun]|]. split; [|done].
    intros _. split; [apply lookup_delete_eq|exact Hcmd].
Qed.

(** ** Giving up *)

(** One attempt: the random number, the identifier of the request and the peer whose failure
    is reported. *)
Abbreviation attempt := (N * OutboundRequestId * PeerId)%type.
Definition attempt_env (x : attempt) : Env := mk_env x.1.1 (Some x.1.2).
Definition failure_of (x : attempt) : P2PInput := WrappedSwarmEvent (ReqResp (OutboundFailure x.2 x.1.2)).

(** The retries of a fetch that keeps failing, and the whole fetch. *)
Definition failing_retries root (l : list attempt) : M P2PServer E unit :=
  foldM (λ _ x, p2p_handle (attempt_env x) (TimerFired (RetryBlockFetch root));; p2p_handle (attempt_env x) (failure_of x)) tt l.
Definition failing_fetch root (first : attempt) (rest : list attempt) : M P2PServer E unit :=
  p2p_handle (attempt_env first) (FromBlockchain (FetchBlock root));;
  p2p_handle (attempt_env first) (failure_of first);;
  failing_retries root rest.

Lemma failure_event_run x root s p :
  ps_request_id_map s !! x.1.2 = Some root → ps_pending_requests s !! root = Some p →
  ∃ s', (p2p_handle (attempt_env x) (failure_of x) : M _ E unit) s = Done s' tt ∧
    ps_commands s' = ps_commands s ∧ ps_connected_peers s' = ps_connected_peers s ∧
    if MAX_FETCH_RETRIES <=? attempts p then ps_pending_requests s' !! root = None ∧ ps_timers s' = ps_timers s
    else (∃ p', ps_pending_requests s' !! root = Some p' ∧ attempts p' = (attempts p + 1) mod 2 ^ 32) ∧
      ps_timers s' = ps_timers s ++ [(backoff_ms (attempts p), RetryBlockFetch root)].
Proof.
  intros Hid Hp. cbn [p2p_handle failure_of handle_swarm_event handle_req_resp_message].
  set (s1 := set_request_id_map (delete x.1.2 (ps_request_id_map s)) s).
  pose proof (failure_run (E := E) root x.2 s1) as Hrun. change (ps_pending_requests s1) with (ps_pending_requests s) in Hrun.
  rewrite Hp in Hrun. eexists. split; [rewrite run_bind, run_gets, Hid, run_bind, run_modify; exact Hrun|].
  destruct (MAX_FETCH_RETRIES <=? attempts p); split_and!; try done; [apply lookup_delete_eq|].
  eexists. split; [apply lookup_insert_eq|done].
Qed.

Lemma failing_retries_run root : ∀ (l : list attempt) s p,
  ps_connected_peers s ≠ ∅ → ps_pending_requests s !! root = Some p → l ≠ [] →
  1 <= attempts p → attempts p + len l = 11 →
  ∃ s' peers, failing_retries root l s = Done s' tt ∧ ps_pending_requests s' !! root = None ∧
    length peers = length l ∧ Forall (λ peer, peer ∈ ps_connected_peers s) peers ∧
    ps_commands s' = ps_commands s ++ ((λ peer, block_request peer root) <$> peers) ∧
    ps_timers s' = ps_timers s ++ ((λ k, (5 * 2 ^ (N.of_nat k - 1), RetryBlockFetch root)) <$> seq (N.to_nat (attempts p)) (length l - 1)).
Proof.
  induction l as [|x l IH]; intros s p Hne Hp Hl Hpos Hlen; [done|]. rewrite len_cons in Hlen. unfold failing_retries. cbn [foldM].
  destruct (fetch_run (E := E) (attempt_env x) root s Hne) as (peer & [Hin _] & Hrun). cbn [attempt_env env_answer] in Hrun.
  set (s1 := tracked root x.1.2 peer (cleared root s)) in *.
  assert (Hfacts : ps_connected_peers s1 = ps_connected_peers s ∧ ps_timers s1 = ps_timers s ∧
    ps_commands s1 = ps_commands s ++ [block_request peer root] ∧ ps_request_id_map s1 !! x.1.2 = Some root ∧
    ∃ p1, ps_pending_requests s1 !! root = Some p1 ∧ attempts p1 = attempts p).
  { unfold s1, tracked, cleared, clear_failed. rewrite Hp. cbn. destruct (decide (exhausted s root)); cbn;
      rewrite !lookup_insert_eq, ?Hp; split_and!; try done; eauto. }
  destruct Hfacts as (Hconn & Htim & Hcmd & Hid & p1 & Hp1 & Ha1). clearbody s1.
  assert (Hretry : (p2p_handle (attempt_env x) (TimerFired (RetryBlockFetch root)) : M _ E unit) s = Done s1 tt).
  { cbn [p2p_handle]. by apply (retry_run _ root s s1 true). }
  rewrite run_bind, run_bind, Hretry.
  destruct (failure_event_run x root s1 p1 Hid Hp1) as (s2 & Hf & Hcmd2 & Hconn2 & Hcase). rewrite Hf, Ha1 in *.
  destruct (N.leb_spec MAX_FETCH_RETRIES (attempts p)) as [Hge|Hlt]; unfold MAX_FETCH_RETRIES in *.
  - destruct l as [|y l]; [|rewrite len_cons in Hlen; lia]. destruct Hcase as [Hgone Htim2]. exists s2, [peer]. cbn [fmap list_fmap length seq Nat.sub].
    rewrite app_nil_r, Hcmd2, Hcmd, Htim2. split_and!; try done. by constructor.
  - destruct Hcase as [(p2 & Hp2 & Ha2) Htim2]. rewrite N.mod_small in Ha2 by lia.
    destruct (IH s2 p2) as (s' & peers & Hrun' & Hgone & Hlen' & Hall & Hcmd' & Htim'); [by rewrite Hconn2, Hconn|done| |lia|lia|].
    { intros ->. rewrite len_nil in Hlen. lia. }
    exists s', (peer :: peers). split; [exact Hrun'|]. rewrite Hconn2, Hconn in Hall. split_and!; [done|cbn; by rewrite Hlen'|by constructor| |].
    + by rewrite Hcmd', Hcmd2, Hcmd, <- (assoc_L (++)).
    + rewrite Htim', Htim2, Htim, <- (assoc_L (++)). f_equal. rewrite Ha2, (backoff_small (attempts p)) by lia.
      destruct l as [|y l]; [rewrite len_nil in Hlen; lia|]. cbn [length Nat.sub seq fmap list_fmap app]. rewrite Nat.sub_0_r, N2Nat.id.
      by replace (N.to_nat (attempts p + 1)) with (S (N.to_nat (attempts p))) by lia.
Qed.

(** C18. A fetch whose requests all fail ends: after exactly ten requests, to connected peers, the
    fetch is given up; the nine retries were scheduled with delays that double from 5 to 1280
    milliseconds. *)
Theorem fetch_gives_up root (first : attempt) rest s :
  ps_pending_requests s !! root = None → ps_connected_peers s ≠ ∅ → length rest = 9%nat →
  ∃ s' peers, failing_fetch root first rest s = Done s' tt ∧ ps_pending_requests s' !! root = None ∧
    length peers = 10%nat ∧ Forall (λ peer, peer ∈ ps_connected_peers s) peers ∧
    ps_commands s' = ps_commands s ++ ((λ peer, block_request peer root) <$> peers) ∧
    ps_timers s' = ps_timers s ++ ((λ ms, (ms, RetryBlockFetch root)) <$> [5; 10; 20; 40; 80; 160; 320; 640; 1280]).
Proof.
  intros Hp Hne Hlen. destruct (fetch_block_run (attempt_env first) root s Hp Hne) as (peer & Hin & Hrun).
  cbn [attempt_env env_answer] in Hrun. set (s1 := tracked root first.1.2 peer s) in *.
  destruct (failure_event_run first root s1 (mk_pending_request 1 ∅)) as (s2 & Hf & Hcmd & Hconn & (p2 & Hp2 & Ha2) & Htim).
  { apply lookup_insert_eq. } { cbn. rewrite lookup_insert_eq, Hp. done. }
  cbn [attempts] in Ha2, Htim. rewrite N.mod_small in Ha2 by lia.
  destruct (failing_retries_run root rest s2 p2) as (s' & peers & Hrun' & Hgone & Hlen' & Hall & Hcmd' & Htim').
  { by rewrite Hconn. } { done. } { intros ->. done. } { lia. } { unfold len. rewrite Hlen. lia. }
  exists s', (peer :: peers). split_and!.
  - unfold failing_fetch. rewrite run_bind. cbn [p2p_handle handle_blockchain_message]. rewrite Hrun, run_bind, Hf. exact Hrun'.
  - done.
  - cbn. by rewrite Hlen', Hlen.
  - rewrite Hconn in Hall. by constructor.
  - rewrite Hcmd', Hcmd. unfold s1, tracked. cbn. by rewrite <- (assoc_L (++)).
  - rewrite Htim', Htim, Hlen, Ha2, <- (assoc_L (++)). done.
Qed.

(** * Answers *)

Abbreviation matches root block := (tree_hash_root (bwa_block (sb_message block)) = root).

Lemma receive_blocks_run root blocks : ∀ s,
  (foldM (λ _ block, receive_block root block) tt blocks : M _ E unit) s =
    let found := filter (λ block : SignedBlockWithAttestation, matches root block) blocks in
    Done (match found with
          | [] => s
          | _ => set_forwarded (ps_forwarded s ++ (if ps_blockchain s then NewBlock <$> found else []))
                   (set_pending_requests (delete root (ps_pending_requests s)) s)
          end) tt.
Proof.
  induction blocks as [|block blocks IH]; intros s; [done|]. cbn [foldM]. rewrite run_bind, receive_run. rewrite IH, filter_cons.
  cbv zeta. destruct (decide (matches root block)) as [Hm|Hm]; [|by rewrite bool_decide_eq_false_2].
  rewrite bool_decide_eq_true_2 by done. unfold received. cbv zeta. rewrite Hm. f_equal.
  destruct s as [cmd tim st [] fw at_ bt agt cp pr im ba]; cbn; destruct (filter _ blocks) as [|x l]; cbn; try done;
    rewrite ?delete_delete_eq, ?app_nil_r, <- ?(assoc_L (++)); done.
Qed.

(** The answer to a request for [root]: the blocks with this root go to the blockchain
    actor, in order, and end the fetch; other blocks are ignored. Nothing is sent. An empty
    answer counts as a failure of the peer: the next attempt is scheduled, or the fetch given
    up. An answer to an unknown request is ignored. *)
Theorem blocks_response_correct env s peer id blocks :
  let response := WrappedSwarmEvent (ReqResp (MessageResponse peer id (ResponseSuccess (PayloadBlocksByRoot blocks)))) in
  match ps_request_id_map s !! id with
  | None => (p2p_handle env response : M _ E unit) s = Done s tt
  | Some root =>
      let found := filter (λ block : SignedBlockWithAttestation, matches root block) blocks in
      ∃ s', (p2p_handle env response : M _ E unit) s = Done s' tt ∧ ps_commands s' = ps_commands s ∧
        (blocks ≠ [] → ps_timers s' = ps_timers s ∧ ps_request_id_map s' = delete id (ps_request_id_map s) ∧
          ps_forwarded s' = ps_forwarded s ++ (if ps_blockchain s then NewBlock <$> found else []) ∧
          ps_pending_requests s' = match found with [] => ps_pending_requests s | _ => delete root (ps_pending_requests s) end) ∧
        (blocks = [] → ps_request_id_map s' = ps_request_id_map s ∧ ps_forwarded s' = ps_forwarded s ∧
          (handle_fetch_failure root peer : M _ E unit) s = Done s' tt)
  end.
Proof.
  intros response. cbn [p2p_handle response handle_swarm_event handle_req_resp_message]. unfold handle_blocks_by_root_response.
  rewrite run_bind, run_gets. destruct (ps_request_id_map s !! id) as [root|] eqn:Hid; [|done]. cbv zeta.
  rewrite run_bind, run_modify. destruct blocks as [|block blocks].
  - assert (Hback : set_request_id_map (<[id := root]> (ps_request_id_map (set_request_id_map (delete id (ps_request_id_map s)) s)))
      (set_request_id_map (delete id (ps_request_id_map s)) s) = s).
    { cbn. rewrite insert_delete_id by done. by destruct s. }
    rewrite run_bind, run_modify, Hback, failure_run.
    destruct (ps_pending_requests s !! root) as [p|]; [destruct (_ <=? _)|]; (eexists; split; [done|]); by split_and!.
  - rewrite receive_blocks_run. eexists. split; [done|]. split; [by destruct (filter _ _)|]. split; [|done]. intros _.
    destruct (filter _ (block :: blocks)) as [|x l]; [|by split_and!]. split_and!; try done. cbn. by destruct (ps_blockchain s); rewrite app_nil_r.
Qed.

(** A status request is answered with our finalized checkpoint and our head; a request for
    blocks with exactly the stored blocks among those asked for, in order; and a peer's first
    connection makes the actor send its own status. *)
Theorem requests_answered env s a peer dialer channel status request :
  store_ok s a →
  ∃ h, vw_headers a !! vw_head a = Some h ∧
  let ours := mk_status (vw_finalized a) (mk_checkpoint (vw_head a) (bh_slot h)) in
  let event e := (p2p_handle env (WrappedSwarmEvent e) : M _ E unit) s in
  event (ReqResp (MessageRequest peer (RequestStatus status) channel)) =
    Done (set_commands (ps_commands s ++ [SendResponse channel (ResponseSuccess (PayloadStatus ours))]) s) tt ∧
  event (ReqResp (MessageRequest peer (RequestBlocksByRoot request) channel)) =
    Done (set_commands (ps_commands s ++ [SendResponse channel (ResponseSuccess (PayloadBlocksByRoot
      (omap (M := list) (view_signed_block a) (roots request))))]) s) tt ∧
  ∃ s', event (ConnectionEstablished peer dialer 1) = Done s' tt ∧ ps_connected_peers s' = {[ peer ]} ∪ ps_connected_peers s ∧
    ps_commands s' = ps_commands s ++
      match env_answer env with Some _ => [SendRequest peer (RequestStatus ours) STATUS_PROTOCOL_V1] | None => [] end.
Proof.
  intros Hs. destruct (build_status_run s a Hs) as (h & Hh & Hstatus). exists h. split; [done|]. cbv zeta. split_and!.
  - cbn [p2p_handle handle_swarm_event handle_req_resp_message]. unfold handle_status_request. by rewrite run_bind, run_reads, Hstatus.
  - by apply (serve_blocks_run s a), Hs.
  - cbn [p2p_handle handle_swarm_event]. rewrite N.eqb_refl, run_bind, run_modify, run_bind, run_reads.
    cbn [ps_store set_connected_peers]. rewrite Hstatus, run_bind. unfold send_request.
    destruct (env_answer env); eexists; (split; [done|]); split; try done. cbn. by rewrite app_nil_r.
Qed.

(** ** The stranded fetch *)

(** When the answer to the only request for a root holds other blocks but not the requested
    one, the request is forgotten, yet the fetch stays registered and no retry is scheduled:
    whatever happens afterwards, the block is never requested again, and every later request
    of the blockchain actor for it is ignored. *)
Theorem mismatched_response_strands env s peer id root blocks :
  ps_request_id_map s !! id = Some root → (∀ id', ps_request_id_map s !! id' = Some root → id' = id) →
  is_Some (ps_pending_requests s !! root) → (∀ d, (d, RetryBlockFetch root) ∉ ps_timers s) →
  blocks ≠ [] → Forall (λ block, ¬ matches root block) blocks →
  ∃ s', (p2p_handle env (WrappedSwarmEvent (ReqResp (MessageResponse peer id
      (ResponseSuccess (PayloadBlocksByRoot blocks))))) : M _ E unit) s = Done s' tt ∧
    ∀ s'', rtc p2p_step s' s'' →
      is_Some (ps_pending_requests s'' !! root) ∧
      (∃ new, ps_commands s'' = ps_commands s' ++ new ∧ ∀ p, block_request p root ∉ new) ∧
      ∀ env', (p2p_handle env' (FromBlockchain (FetchBlock root)) : M _ E unit) s'' = Done s'' tt.
Proof.
  intros Hid Huniq Hpend Htimers Hne Hall. cbn [p2p_handle handle_swarm_event handle_req_resp_message].
  unfold handle_blocks_by_root_response. rewrite run_bind, run_gets, Hid, run_bind, run_modify.
  destruct blocks as [|block blocks]; [done|]. rewrite receive_blocks_run. cbv zeta.
  assert (Hnone : filter (λ b : SignedBlockWithAttestation, matches root b) (block :: blocks) = []).
  { clear -Hall. induction Hall as [|b l Hb _ IH]; [done|]. by rewrite filter_cons_False. }
  rewrite Hnone. clear Hnone. set (s' := set_request_id_map (delete id (ps_request_id_map s)) s). exists s'. split; [done|].
  assert (Hst : stranded root s').
  { split; [done| |done]. intros id'. cbn. intros [Hneq Hid']%lookup_delete_Some. by apply Huniq in Hid'. }
  assert (Hsteps : ∀ x y, rtc p2p_step x y → stranded root x → stranded root y ∧ quiet root x y).
  { intros x y. induction 1 as [x|x y z Hstep _ IH]; intros Hx; [done|].
    assert (Hq : quiet root x y).
    { destruct Hstep as [env0 input y Hinput Hrun|env0 t l k delay y Ht Hrun].
      - apply (quiet_handle (E := Empty_set) env0 root input x y Hx); [|exact Hrun]. intros ->. by apply (Hinput (RetryBlockFetch root)).
      - assert (Hsub : ∀ d, (d, RetryBlockFetch root) ∈ l ++ k → (d, RetryBlockFetch root) ∈ ps_timers x)
          by (intros d; rewrite Ht, !elem_of_app, elem_of_cons; tauto).
        assert (Hq1 : quiet root x (set_timers (l ++ k) x)).
        { split; try done. exists []. rewrite app_nil_r. split; [done|]. intros p. apply not_elem_of_nil. }
        etrans; [exact Hq1|]. apply (quiet_handle (E := Empty_set) env0 root (TimerFired t) _ y (quiet_stranded _ _ _ Hq1 Hx)); [|exact Hrun].
        intros [= ->]. apply (sr_timers _ _ Hx delay). rewrite Ht. apply elem_of_app. right. by left. }
    destruct (IH (quiet_stranded _ _ _ Hq Hx)) as [? ?]. split; [done|]. by etrans. }
  intros s'' Hrtc. destruct (Hsteps s' s'' Hrtc Hst) as [[Hp _ _] [_ _ _ Hnew]]. split_and!; [done..|].
  intros env'. cbn [p2p_handle handle_blockchain_message]. unfold handle_fetch_block.
  by rewrite run_bind, run_gets, bool_decide_eq_true_2.
Qed.

(** * Gossip *)

(** What the blockchain actor of a peer gets when ours publishes [msg], and its bytes. *)
Definition published (msg : P2PMessage) : option Message :=
  match msg with
  | PublishBlock block => Some (NewBlock block)
  | PublishAttestation attestation => Some (NewAttestation attestation)
  | PublishAggregatedAttestation aggregate => Some (NewAggregatedAttestation aggregate)
  | FetchBlock _ => None
  end.
Definition message_bytes (msg : P2PMessage) : bytes :=
  match msg with
  | PublishBlock block => as_ssz_bytes block
  | PublishAttestation attestation => as_ssz_bytes attestation
  | PublishAggregatedAttestation aggregate => as_ssz_bytes aggregate
  | FetchBlock _ => []
  end.

(** The topics [build_swarm] sets up. *)
Record topics_ok s (subnet_id : u64) : Prop := {
  to_attestation : ps_attestation_topic s = topic_of (attestation_topic_kind subnet_id);
  to_block : ps_block_topic s = topic_of BLOCK_TOPIC_KIND;
  to_aggregation : ps_aggregation_topic s = topic_of AGGREGATION_TOPIC_KIND;
}.

Lemma receive_published {A} `{SszLaws A} (x : A) data (m : A → Message) s2 :
  snappy_compress (as_ssz_bytes x) = Some data → len (as_ssz_bytes x) <= MAX_PAYLOAD_SIZE → ps_blockchain s2 = true →
  (receive_gossip data m : M _ E unit) s2 = Done (set_forwarded (ps_forwarded s2 ++ [m x]) s2) tt.
Proof.
  intros Hc Hlen Hb. pose proof (raw_roundtrip _ _ Hc) as Hd. unfold receive_gossip, decompress_message.
  rewrite (raw_length _ _ Hd), (proj2 (N.ltb_ge _ _)) by done. rewrite Hd, ssz_roundtrip. unfold forward. by rewrite run_modify, Hb.
Qed.

Lemma gossip_delivered env s subnet_id msg m :
  topics_ok s subnet_id → published msg = Some m → len (message_bytes msg) <= MAX_PAYLOAD_SIZE →
  ∃ topic data, (p2p_handle env (FromBlockchain msg) : M _ E unit) s =
      Done (set_commands (ps_commands s ++ [Publish topic data]) s) tt ∧
    ∀ env' s2, ps_blockchain s2 = true →
      (p2p_handle env' (WrappedSwarmEvent (Gossipsub topic data)) : M _ E unit) s2 =
        Done (set_forwarded (ps_forwarded s2 ++ [m]) s2) tt.
Proof.
  intros [Hta Htb Htg] Hm Hlen. assert (Hsmall : len (message_bytes msg) < 2 ^ 32) by (unfold MAX_PAYLOAD_SIZE in Hlen; lia).
  destruct (raw_compresses _ Hsmall) as [data Hc]. cbn [p2p_handle handle_blockchain_message].
  destruct msg as [block|att|agg|r]; [injection Hm as <-..|done]; cbn [message_bytes handle_blockchain_message] in *;
    unfold publish_block, publish_attestation, publish_aggregated_attestation; rewrite publish_run; unfold compress_message;
    rewrite Hc; cbn [expect_some]; eexists _, data; (split; [done|]); intros env' s2 Hb;
    cbn [handle_swarm_event]; unfold handle_gossipsub_message.
  - rewrite Htb, topic_kind by done. rewrite bool_decide_eq_true_2 by done. by apply receive_published.
  - rewrite Hta, topic_kind by apply attestation_kind_no_slash. rewrite !bool_decide_eq_false_2 by done.
    by apply receive_published.
  - rewrite Htg, topic_kind by done. rewrite bool_decide_eq_false_2, bool_decide_eq_true_2 by done. by apply receive_published.
Qed.

(** C31. What one node publishes, a block, an attestation on any subnet, or an aggregate, reaches
    the blockchain actor of a node that receives it, unchanged (up to 10 MiB). *)
Theorem gossip_roundtrip env s subnet_id msg m :
  topics_ok s subnet_id → published msg = Some m → len (message_bytes msg) <= MAX_PAYLOAD_SIZE →
  ∃ topic data, (p2p_handle env (FromBlockchain msg) : M _ E unit) s =
      Done (set_commands (ps_commands s ++ [Publish topic data]) s) tt ∧
    ∀ env' s2, ps_blockchain s2 = true →
      (p2p_handle env' (WrappedSwarmEvent (Gossipsub topic data)) : M _ E unit) s2 =
        Done (set_forwarded (ps_forwarded s2 ++ [m]) s2) tt.
Proof. apply gossip_delivered. Qed.

(** The identifier of a gossip message, twenty bytes, does not depend on how its data was
    compressed. *)
Theorem message_id_of_data topic data1 data2 payload :
  decompress_message data1 = inr payload → decompress_message data2 = inr payload →
  compute_message_id topic data1 = compute_message_id topic data2 ∧ length (compute_message_id topic data1) = 20%nat.
Proof.
  intros Hd1 Hd2. unfold compute_message_id. rewrite Hd1, Hd2. split; [done|]. by rewrite length_take, length_sha256.
Qed.

End theorems.

(** * A concrete actor *)

Module P2PSample.
Import ChainSample.

#[local] Existing Instances reference_ssz_types reference_ssz_types_laws reference_codecs reference_codecs_laws
  reference_hashing reference_hashing_laws reference_scheme reference_scheme_laws reference_order canonical_order_laws
  in_memory_backend in_memory_laws reference_snappy reference_snappy_laws reference_wire reference_wire_laws.

(** Numbers as identities. *)
#[local] Instance sample_libp2p : Libp2p :=
  {| PeerId := N; Multiaddr := N; OutboundRequestId := N; ResponseChannel := N |}.
#[local] Instance sample_libraries : P2PLibraries := {|
  variable_list_push := λ A limit l x, if len l <? limit then Some (l ++ [x]) else None;
  sha256 := λ l, H256_bytes (h256 (be_val l));
|}.
#[local] Instance sample_libraries_laws : P2PLibrariesLaws.
Proof. split; [done|]. intros l. apply length_H256_bytes. Qed.

Definition env (random : N) (answer : option N) : @Env sample_libp2p := @mk_env sample_libp2p random answer.
Definition peer (n : N) : @PeerId sample_libp2p := n.
Definition rid (n : N) : @OutboundRequestId sample_libp2p := n.
Definition channel (n : N) : @ResponseChannel sample_libp2p := n.
Definition tries (l : list (N * N * N)) : list (N * @OutboundRequestId sample_libp2p * @PeerId sample_libp2p) := l.

Abbreviation server := (P2PServer (D := StorageData)).

(** The actor with three connected peers, and with a fetch of root 7 in progress. *)
Definition node : server :=
  p2p_spawn start (topic_of (attestation_topic_kind (to_u64 3))) (topic_of BLOCK_TOPIC_KIND) (topic_of AGGREGATION_TOPIC_KIND) ∅.
Definition connected : server := set_connected_peers {[ peer 1; peer 2; peer 3 ]} node.
Definition wanted : H256 := h256 7.
Definition fetching : server := tracked wanted (rid 70) (peer 1) connected.

Lemma node_ok : store_ok node start_view ∧ attempts_ok node.
Proof.
  split; [split|].
  - apply start_init.
  - exists header0. apply lookup_singleton_eq.
  - intros r p Hp. change ((∅ : gmap H256 PendingRequest) !! r = Some p) in Hp. by rewrite lookup_empty in Hp.
Qed.

Lemma connected_some : ps_connected_peers connected ≠ ∅.
Proof. intros Heq. assert (Hin : peer 1 ∈ ps_connected_peers connected) by (cbn; set_solver). rewrite Heq in Hin. by apply not_elem_of_empty in Hin. Qed.

Lemma p2p_handles_safely_witness : ∃ s', p2p_handle (E := unit) (env 5 (Some 9))
  (WrappedSwarmEvent (ConnectionEstablished (peer 4) true 1)) node = Done s' tt ∧ attempts_ok s'.
Proof.
  destruct (p2p_handles_safely (E := unit) (env 5 (Some 9)) (WrappedSwarmEvent (ConnectionEstablished (peer 4) true 1)) node start_view
    (proj1 node_ok) (proj2 node_ok) I) as (s' & Hrun & Hok & _).
  exists s'. split; [exact Hrun|exact Hok].
Defined.

Lemma fetch_block_correct_witness : ∃ s' peer, p2p_handle (E := unit) (env 5 (Some 70)) (FromBlockchain (FetchBlock wanted)) connected = Done s' tt ∧
  ps_commands s' = [block_request peer wanted].
Proof.
  destruct (proj2 (fetch_block_correct (E := unit) (env 5 (Some 70)) wanted connected) (lookup_empty _) connected_some (rid 70) eq_refl)
    as (s' & peer & Hrun & _ & Hcmd & _).
  exists s', peer. split; [exact Hrun|exact Hcmd].
Defined.

Lemma fetching_pending : ps_pending_requests fetching !! wanted = Some (mk_pending_request 1 ∅).
Proof. apply lookup_insert_eq. Qed.

Lemma retry_block_fetch_correct_witness : ∃ s' peer, p2p_handle (E := unit) (env 5 (Some 71)) (TimerFired (RetryBlockFetch wanted)) fetching = Done s' tt ∧
  ps_commands s' = ps_commands fetching ++ [block_request peer wanted].
Proof.
  destruct (retry_block_fetch_correct (E := unit) (env 5 (Some 71)) wanted fetching _ fetching_pending) as (s' & Hrun & _ & Hsent).
  destruct (Hsent connected_some (rid 71) eq_refl) as (peer & _ & _ & Hcmd & _). exists s', peer. split; [exact Hrun|exact Hcmd].
Defined.

Definition first : N * @OutboundRequestId sample_libp2p * @PeerId sample_libp2p := (0, rid 10, peer 1).
Definition rest : list (N * @OutboundRequestId sample_libp2p * @PeerId sample_libp2p) :=
  tries [(1, 11, 1); (2, 12, 2); (3, 13, 3); (4, 14, 1); (5, 15, 2); (6, 16, 3); (7, 17, 1); (8, 18, 2); (9, 19, 3)].

Lemma fetch_gives_up_witness : ∃ s' peers, failing_fetch (E := unit) wanted first rest connected = Done s' tt ∧
  length peers = 10%nat ∧ ps_commands s' = (λ peer, block_request peer wanted) <$> peers.
Proof.
  destruct (fetch_gives_up (E := unit) wanted first rest connected
    (lookup_empty _) connected_some eq_refl) as (s' & peers & Hrun & _ & Hlen & _ & Hcmd & _).
  exists s', peers. split; [exact Hrun|split; [exact Hlen|exact Hcmd]].
Defined.

Lemma requests_answered_witness : ∃ h, vw_headers start_view !! vw_head start_view = Some h ∧
  p2p_handle (E := unit) (env 0 None) (WrappedSwarmEvent (ReqResp (MessageRequest (peer 1) (RequestStatus (mk_status Checkpoint_default Checkpoint_default)) (channel 5)))) node =
    Done (set_commands [SendResponse (channel 5) (ResponseSuccess (PayloadStatus (mk_status (vw_finalized start_view)
      (mk_checkpoint (vw_head start_view) (bh_slot h)))))] node) tt.
Proof.
  destruct (requests_answered (E := unit) (env 0 None) node start_view (peer 1) true (channel 5) (mk_status Checkpoint_default Checkpoint_default)
    (mk_blocks_by_root_request [root0]) (proj1 node_ok)) as (h & Hh & Hstatus & _).
  exists h. split; [exact Hh|exact Hstatus].
Defined.

(** A block with another root than the one asked for. *)
Definition unrelated : SignedBlockWithAttestation := WireSample.block 9.

Lemma unrelated_root : tree_hash_root (bwa_block (sb_message unrelated)) ≠ wanted.
Proof. intros Heq. apply (f_equal h256_val) in Heq. vm_compute in Heq. discriminate. Qed.

Lemma mismatched_response_strands_witness : ∃ s', p2p_handle (E := unit) (env 0 None)
    (WrappedSwarmEvent (ReqResp (MessageResponse (peer 1) (rid 70) (ResponseSuccess (PayloadBlocksByRoot [unrelated]))))) fetching = Done s' tt ∧
  ∀ env', p2p_handle (E := unit) env' (FromBlockchain (FetchBlock wanted)) s' = Done s' tt.
Proof.
  destruct (mismatched_response_strands (E := unit) (env 0 None) fetching (peer 1) (rid 70) wanted [unrelated]) as (s' & Hrun & Hafter).
  - apply lookup_insert_eq.
  - intros id'. unfold fetching, tracked. cbn [ps_request_id_map set_request_id_map]. rewrite lookup_insert_Some.
    intros [[<- _]|[_ Hid]]; [reflexivity|]. exfalso. exact (lookup_empty_Some _ _ Hid).
  - rewrite fetching_pending. by eexists.
  - intros d Hd. apply not_elem_of_nil in Hd. exact Hd.
  - discriminate.
  - constructor; [exact unrelated_root|constructor].
  - exists s'. split; [exact Hrun|]. apply (Hafter s'). apply rtc_refl.
Defined.

Lemma gossip_roundtrip_witness : ∃ topic data,
  p2p_handle (E := unit) (env 0 None) (FromBlockchain (PublishBlock (signed1 vote1))) node =
    Done (set_commands [Publish topic data] node) tt ∧
  p2p_handle (E := unit) (env 0 None) (WrappedSwarmEvent (Gossipsub topic data)) (set_blockchain true connected) =
    Done (set_forwarded [NewBlock (signed1 vote1)] (set_blockchain true connected)) tt.
Proof.
  destruct (gossip_roundtrip (E := unit) (env 0 None) node (to_u64 3) (PublishBlock (signed1 vote1)) (NewBlock (signed1 vote1)))
    as (topic & data & Hrun & Hrecv); [by split|done|by vm_compute|].
  exists topic, data. split; [exact Hrun|]. apply (Hrecv (env 0 None) (set_blockchain true connected)). done.
Defined.

Lemma message_id_of_data_witness : length (compute_message_id "topic" [x01; x02]) = 20%nat.
Proof. apply (message_id_of_data "topic" [x01; x02] [x01; x02] [x01; x02]); by vm_compute. Defined.

End P2PSample.
