(* ===== verification/Swarm.v ===== *)
(** The set-up of the swarm, the node records of the boot nodes and the adapter that runs the
    swarm (crates/net/p2p/src/lib.rs and swarm_adapter.rs). *)

From Stdlib Require Import Strings.Ascii Strings.String Strings.Byte.
From S2P Require Import Prelude Types Backend Keys Signatures PayloadBuffer Store Crypto ChainStore ChainServer Wire P2P.

(** * Third-party interfaces *)

(** The configuration of gossipsub that [build_swarm] sets; times in milliseconds. *)
Record GossipsubConfig := mk_gossipsub_config {
  mesh_n : N;
  mesh_n_low : N;
  mesh_n_high : N;
  gossip_lazy : N;
  heartbeat_interval : N;
  fanout_ttl : N;
  history_length : N;
  history_gossip : N;
  duplicate_cache_time : N;
  validation_anonymous : bool;
  max_transmit_size : N;
  max_messages_per_rpc : option N;
  allow_self_origin : bool;
  idontwant_message_size_threshold : N;
}.

(** libp2p: keys, addresses and the swarm. An operation on the swarm tells whether it
    succeeded; [swarm_next] is the next event, [None] when there is none yet. *)
Class SwarmLib `{Libp2p} := {
  SecretKey : Type;
  PublicKey : Type;
  IpAddr : Type;
  Swarm : Type;
  SecretKey_try_from_bytes : bytes → option SecretKey;
  PeerId_from_public_key : PublicKey → PeerId;
  quic_multiaddr : IpAddr → N → Multiaddr;
  with_p2p : Multiaddr → PeerId → option Multiaddr;
  new_swarm : SecretKey → GossipsubConfig → list string → option Swarm;
  local_peer_id : Swarm → PeerId;
  swarm_dial : Swarm → Multiaddr → Swarm * bool;
  swarm_listen_on : Swarm → Multiaddr → Swarm * bool;
  gossipsub_subscribe : Swarm → string → Swarm * bool;
  gossipsub_publish : Swarm → string → bytes → Swarm * bool;
  req_resp_send_request : Swarm → PeerId → Request → string → Swarm * OutboundRequestId;
  req_resp_send_response : Swarm → ResponseChannel → Response → Swarm * bool;
}.

(** ethrex: base64, RLP node records and their fields; libp2p's secp256k1 keys. *)
Class NodeRecordLib `{SwarmLib} := {
  base64_decode : bytes → bytes;
  NodeRecord_decode : bytes → option (list (bytes * bytes));
  H264_decode : bytes → option bytes;
  u16_decode : bytes → option N;
  Ipv4Addr_decode : bytes → option IpAddr;
  Ipv6Addr_decode : bytes → option IpAddr;
  secp256k1_PublicKey_try_from_bytes : bytes → option PublicKey;
}.

(** * lib.rs: swarm construction *)

Section build.
Context `{SL : SwarmLib}.

Record Bootnode := mk_bootnode {
  bn_ip : IpAddr;
  bn_quic_port : N;
  bn_public_key : PublicKey;
}.

Record SwarmConfig := mk_swarm_config {
  sc_node_key : bytes;
  sc_bootnodes : list Bootnode;
  sc_listening_socket : IpAddr * N;
  sc_validator_id : option u64;
  sc_attestation_committee_count : u64;
  sc_is_aggregator : bool;
}.

Record BuiltSwarm := mk_built_swarm {
  bs_swarm : Swarm;
  bs_attestation_topic : string;
  bs_block_topic : string;
  bs_aggregation_topic : string;
  bs_bootnode_addrs : gmap PeerId Multiaddr;
}.

(** [libp2p::gossipsub::SubscriptionError] *)
Inductive SubscriptionError : Type := SubscriptionFailed.

Definition gossipsub_config : GossipsubConfig := {|
  mesh_n := 8;
  mesh_n_low := 6;
  mesh_n_high := 12;
  gossip_lazy := 6;
  heartbeat_interval := 700;
  fanout_ttl := 60 * 1000;
  history_length := 6;
  history_gossip := 3;
  duplicate_cache_time := 4 * 3 * 2 * 1000;
  validation_anonymous := true;
  max_transmit_size := MAX_COMPRESSED_PAYLOAD_SIZE;
  max_messages_per_rpc := Some 500;
  allow_self_origin := true;
  idontwant_message_size_threshold := 1000;
|}.

(** [result.unwrap()], [result.expect(..)] *)
Definition unwrap_op (r : Swarm * bool) : partial Swarm := if r.2 then Return r.1 else Panic.

(** The address of a boot node, and the step of the loop that dials it. *)
Definition bootnode_addr (bootnode : Bootnode) : option Multiaddr :=
  with_p2p (quic_multiaddr (bn_ip bootnode) (bn_quic_port bootnode)) (PeerId_from_public_key (bn_public_key bootnode)).

Definition dial_bootnode (local : PeerId) (acc : Swarm * gmap PeerId Multiaddr) (bootnode : Bootnode) :
    partial (Swarm * gmap PeerId Multiaddr) :=
  let peer_id := PeerId_from_public_key (bn_public_key bootnode) in
  if bool_decide (peer_id = local) then Return acc
  else
    addr ← expect_some (bootnode_addr bootnode);
    swarm ← unwrap_op (swarm_dial acc.1 addr);
    Return (swarm, <[peer_id := addr]> acc.2).

Definition build_swarm (config : SwarmConfig) : partial (SubscriptionError + BuiltSwarm) :=
  secret_key ← expect_some (SecretKey_try_from_bytes (sc_node_key config));
  swarm ← expect_some (new_swarm secret_key gossipsub_config [STATUS_PROTOCOL_V1; BLOCKS_BY_ROOT_PROTOCOL_V1]);
  dialed ← fold_partial (dial_bootnode (local_peer_id swarm)) (swarm, ∅) (sc_bootnodes config);
  let '(swarm, bootnode_addrs) := dialed in
  swarm ← unwrap_op (swarm_listen_on swarm
    (quic_multiaddr (sc_listening_socket config).1 (sc_listening_socket config).2));
  let block_topic := topic_of BLOCK_TOPIC_KIND in
  swarm ← unwrap_op (gossipsub_subscribe swarm block_topic);
  let aggregation_topic := topic_of AGGREGATION_TOPIC_KIND in
  swarm ← unwrap_op (gossipsub_subscribe swarm aggregation_topic);
  subnet_id ← subnet_of (sc_validator_id config) (sc_attestation_committee_count config);
  let attestation_topic := topic_of (attestation_topic_kind subnet_id) in
  if sc_is_aggregator config then
    let '(swarm, subscribed) := gossipsub_subscribe swarm attestation_topic in
    if subscribed : bool
    then Return (inr (mk_built_swarm swarm attestation_topic block_topic aggregation_topic bootnode_addrs))
    else Return (inl SubscriptionFailed)
  else Return (inr (mk_built_swarm swarm attestation_topic block_topic aggregation_topic bootnode_addrs)).

End build.

(** [P2P::spawn]: the actor, which owns the topics and the addresses. *)
Definition P2P_spawn `{SB : StorageBackend D B} `{SL : SwarmLib} (built : BuiltSwarm) (store : Store D) : P2PServer (D := D) :=
  p2p_spawn store (bs_attestation_topic built) (bs_block_topic built) (bs_aggregation_topic built) (bs_bootnode_addrs built).

(** * lib.rs: node records *)

Section records.
Context `{NR : NodeRecordLib}.

(** [record.pairs.iter().find(|(key, _)| key == name).map(|(_, value)| value)] *)
Definition find_pair (pairs : list (bytes * bytes)) (name : string) : option bytes :=
  snd <$> List.find (λ kv, bool_decide (kv.1 = list_byte_of_string name)) pairs.

(** [.map(|(_, bytes)| T::decode(bytes).expect(..))] *)
Definition map_expect {A} (decode : bytes → option A) (o : option bytes) : partial (option A) :=
  match o with
  | Some b => a ← expect_some (decode b); Return (Some a)
  | None => Return None
  end.

Definition parse_enr (enr_str : bytes) : partial Bootnode :=
  _ ← assert_that (4 <=? len enr_str);
  let base64_decoded := base64_decode (drop 4 enr_str) in
  pairs ← expect_some (NodeRecord_decode base64_decoded);
  quic_port_bytes ← expect_some (find_pair pairs "quic");
  public_key_rlp ← expect_some (find_pair pairs "secp256k1");
  public_key_bytes ← expect_some (H264_decode public_key_rlp);
  public_key ← expect_some (secp256k1_PublicKey_try_from_bytes public_key_bytes);
  quic_port ← expect_some (u16_decode quic_port_bytes);
  ipv4 ← map_expect Ipv4Addr_decode (find_pair pairs "ip");
  ipv6 ← map_expect Ipv6Addr_decode (find_pair pairs "ip6");
  ip ← expect_some (match ipv4 with Some ip => Some ip | None => ipv6 end);
  Return (mk_bootnode ip quic_port public_key).

Definition parse_enrs (enrs : list bytes) : partial (list Bootnode) :=
  fold_partial (λ bootnodes enr_str, bootnode ← parse_enr enr_str; Return (bootnodes ++ [bootnode])) [] enrs.

End records.

(** * swarm_adapter.rs

    The handle and the loop share two unbounded channels: commands to the swarm, and events
    from it. *)

(** [tokio::sync::mpsc::unbounded_channel]: sending never waits; [chan_recv] is [None] while
    nothing is queued. *)
Class UnboundedChannel := {
  Chan : Type → Type;
  chan_new {A} : Chan A;
  chan_send {A} : Chan A → A → Chan A;
  chan_recv {A} : Chan A → option (A * Chan A);
}.

(** Its documentation: messages are received in the order they were sent, each once. *)
Class UnboundedChannelLaws `{UC : UnboundedChannel} := {
  queued {A} : Chan A → list A;
  queued_new {A} : queued (chan_new (A := A)) = [];
  queued_send {A} (c : Chan A) x : queued (chan_send c x) = queued c ++ [x];
  queued_recv {A} (c : Chan A) : match chan_recv c with
                                 | Some (x, c') => queued c = x :: queued c'
                                 | None => queued c = []
                                 end;
}.

Section adapter.
Context `{SL : SwarmLib} `{SN : Snappy} `{WC : WireCodecs} `{UC : UnboundedChannel}.

(** [execute_command]; a request is answered with the identifier the swarm gave it. *)
Definition execute_command (swarm : Swarm) (cmd : SwarmCommand) : Swarm * option OutboundRequestId :=
  match cmd with
  | Publish topic data => ((gossipsub_publish swarm topic data).1, None)
  | Dial addr => ((swarm_dial swarm addr).1, None)
  | SendRequest peer request protocol =>
      let '(swarm, request_id) := req_resp_send_request swarm peer request protocol in (swarm, Some request_id)
  | SendResponse channel response => ((req_resp_send_response swarm channel response).1, None)
  end.

Record Adapter := mk_adapter {
  ad_swarm : Swarm;
  ad_commands : Chan SwarmCommand;
  ad_events : Chan SwarmEvent;
  ad_senders : bool;
  ad_receiver : bool;
  ad_running : bool;
}.

(** [start_swarm_adapter] *)
Definition start_swarm_adapter (swarm : Swarm) : Adapter := mk_adapter swarm chan_new chan_new true true true.

(** What can be seen of a step. *)
Inductive AdapterLabel : Type :=
| Sent (cmd : SwarmCommand)
| Rejected (cmd : SwarmCommand)
| Executed (cmd : SwarmCommand) (answer : option OutboundRequestId)
| Yielded (event : SwarmEvent)
| Delivered (event : SwarmEvent)
| Closed
| Exited.

(** [swarm.next()] may complete with an event, or with [None] when the swarm has ended. *)
Context (swarm_next : Swarm → option SwarmEvent → Swarm → Prop).

(** The loop chooses between an event and a command ([tokio::select!]); the actor sends and
    receives, and either side may close its channel. *)
Inductive adapter_step : Adapter → AdapterLabel → Adapter → Prop :=
| step_send swarm cmds events rx cmd :
    adapter_step (mk_adapter swarm cmds events true rx true) (Sent cmd) (mk_adapter swarm (chan_send cmds cmd) events true rx true)
| step_reject swarm cmds events rx cmd :
    adapter_step (mk_adapter swarm cmds events true rx false) (Rejected cmd) (mk_adapter swarm cmds events true rx false)
| step_event swarm swarm' cmds events tx event :
    swarm_next swarm (Some event) swarm' →
    adapter_step (mk_adapter swarm cmds events tx true true) (Yielded event)
      (mk_adapter swarm' cmds (chan_send events event) tx true true)
| step_event_lost swarm swarm' cmds events tx event :
    swarm_next swarm (Some event) swarm' →
    adapter_step (mk_adapter swarm cmds events tx false true) Exited (mk_adapter swarm' cmds events tx false false)
| step_swarm_end swarm swarm' cmds events tx rx :
    swarm_next swarm None swarm' →
    adapter_step (mk_adapter swarm cmds events tx rx true) Exited (mk_adapter swarm' cmds events tx rx false)
| step_command swarm swarm' cmd cmds cmds' events tx rx answer :
    chan_recv cmds = Some (cmd, cmds') → execute_command swarm cmd = (swarm', answer) →
    adapter_step (mk_adapter swarm cmds events tx rx true) (Executed cmd answer) (mk_adapter swarm' cmds' events tx rx true)
| step_commands_end swarm cmds events rx :
    chan_recv cmds = None →
    adapter_step (mk_adapter swarm cmds events false rx true) Exited (mk_adapter swarm cmds events false rx false)
| step_deliver swarm cmds event events events' tx run :
    chan_recv events = Some (event, events') →
    adapter_step (mk_adapter swarm cmds events tx true run) (Delivered event) (mk_adapter swarm cmds events' tx true run)
| step_drop_handle swarm cmds events rx run :
    adapter_step (mk_adapter swarm cmds events true rx run) Closed (mk_adapter swarm cmds events false rx run)
| step_drop_stream swarm cmds events tx run :
    adapter_step (mk_adapter swarm cmds events tx true run) Closed (mk_adapter swarm cmds events tx false run).

Inductive adapter_run : Adapter → list AdapterLabel → Adapter → Prop :=
| run_nil a : adapter_run a [] a
| run_snoc a l a' x a'' : adapter_run a l a' → adapter_step a' x a'' → adapter_run a (l ++ [x]) a''.

End adapter.
