(* ===== verification/SwarmTheorems.v ===== *)
(** The theorems about the set-up of the network: what [build_swarm] dials and subscribes
    to, which node records are read, and that the adapter is a pair of queues. *)

From Stdlib Require Import Strings.Ascii Strings.String Strings.Byte.
From S2P Require Import Prelude Types Reference ForkChoice Backend InMemory Keys Signatures PayloadBuffer Store Crypto StoreSpec StoreOps.
From S2P Require Import Codec ChainStore ChainServer ChainTheorems Wire WireCodec WireTheorems P2P P2PSpec P2PTheorems Swarm.

(** * The swarm *)

Section build.
Context `{SL : SwarmLib}.

(** The operations on the swarm, in order. *)
Inductive SwarmOp : Type :=
| OpDial (addr : Multiaddr)
| OpListen (addr : Multiaddr)
| OpSubscribe (topic : string).

Definition run_op (swarm : Swarm) (op : SwarmOp) : Swarm * bool :=
  match op with
  | OpDial addr => swarm_dial swarm addr
  | OpListen addr => swarm_listen_on swarm addr
  | OpSubscribe topic => gossipsub_subscribe swarm topic
  end.

(** The swarm after operations that all succeed. *)
Fixpoint run_ops (swarm : Swarm) (ops : list SwarmOp) : option Swarm :=
  match ops with
  | [] => Some swarm
  | op :: ops => if (run_op swarm op).2 then run_ops (run_op swarm op).1 ops else None
  end.

Lemma run_ops_app ops ops' swarm : run_ops swarm (ops ++ ops') = run_ops swarm ops ≫= λ swarm, run_ops swarm ops'.
Proof. revert swarm. induction ops as [|op ops IH]; intros swarm; [done|]. cbn. destruct (run_op swarm op).2; [apply IH|done]. Qed.

(** The other boot nodes, with their peer identifiers and addresses. *)
Definition node_peer (b : Bootnode) : PeerId := PeerId_from_public_key (bn_public_key b).
Definition others (local : PeerId) (bootnodes : list Bootnode) : list Bootnode := filter (λ b, node_peer b ≠ local) bootnodes.
Definition node_addr (b : Bootnode) (addr : Multiaddr) : Prop := bootnode_addr b = Some addr.

(** [addrs] are the addresses of [nodes]. *)
Definition addresses (nodes : list Bootnode) (addrs : list Multiaddr) : Prop := Forall2 node_addr nodes addrs.

Lemma dial_self local acc b : node_peer b = local → dial_bootnode local acc b = Return acc.
Proof. intros Heq. unfold dial_bootnode. cbv zeta. fold (node_peer b). by rewrite bool_decide_eq_true_2. Qed.

Lemma dial_other local swarm swarm' known b addr : node_peer b ≠ local → bootnode_addr b = Some addr →
  swarm_dial swarm addr = (swarm', true) → dial_bootnode local (swarm, known) b = Return (swarm', <[node_peer b := addr]> known).
Proof.
  intros Hne Haddr Hdial. unfold dial_bootnode. cbv zeta. fold (node_peer b). rewrite bool_decide_eq_false_2, Haddr by done.
  cbn [mbind partial_bind expect_some fst snd]. by rewrite Hdial.
Qed.

Lemma dial_all local bootnodes : ∀ swarm swarm' addrs (known : gmap PeerId Multiaddr),
  addresses (others local bootnodes) addrs → run_ops swarm (OpDial <$> addrs) = Some swarm' →
  fold_partial (dial_bootnode local) (swarm, known) bootnodes =
    Return (swarm', foldl (λ m '(b, addr), <[node_peer b := addr]> m) known (zip (others local bootnodes) addrs)).
Proof.
  induction bootnodes as [|b bootnodes IH]; intros swarm swarm' addrs known Haddrs Hrun.
  { apply Forall2_nil_inv_l in Haddrs as ->. by injection Hrun as ->. }
  unfold others in *. rewrite filter_cons in *. cbn [fold_partial].
  destruct (decide (node_peer b ≠ local)) as [Hne|Heq].
  - apply Forall2_cons_inv_l in Haddrs as (addr & addrs' & Haddr & Haddrs & ->). cbn in Hrun.
    destruct (swarm_dial swarm addr) as [swarm1 []] eqn:Hdial; cbn in Hrun; [|done].
    rewrite (dial_other local swarm swarm1 known b addr Hne Haddr Hdial). cbn [mbind partial_bind].
    by rewrite (IH _ swarm' addrs' _ Haddrs Hrun).
  - apply dec_stable in Heq. rewrite dial_self by done. cbn [mbind partial_bind]. by apply IH.
Qed.

(** What [build_swarm] does with its swarm. *)
Definition setup_ops (config : SwarmConfig) (addrs : list Multiaddr) (subnet_id : u64) : list SwarmOp :=
  (OpDial <$> addrs) ++ [OpListen (quic_multiaddr (sc_listening_socket config).1 (sc_listening_socket config).2);
    OpSubscribe (topic_of BLOCK_TOPIC_KIND); OpSubscribe (topic_of AGGREGATION_TOPIC_KIND)] ++
  (if sc_is_aggregator config then [OpSubscribe (topic_of (attestation_topic_kind subnet_id))] else []).

(** The node's subnet: of its first validator, for a positive number of committees. *)
Lemma subnet_of_spec vid count : 0 < u64_val count →
  subnet_of vid count = Return (to_u64 (match vid with Some vid => u64_val vid mod u64_val count | None => 0 end)).
Proof. intros Hpos. unfold subnet_of. destruct vid; [|done]. by rewrite (proj2 (N.eqb_neq _ _)) by lia. Qed.

(** The addresses that are kept, by peer. *)
Definition kept (l : list (Bootnode * Multiaddr)) (known : gmap PeerId Multiaddr) : gmap PeerId Multiaddr :=
  foldl (λ m '(b, addr), <[node_peer b := addr]> m) known l.

Lemma kept_snoc l b addr known : kept (l ++ [(b, addr)]) known = <[node_peer b := addr]> (kept l known).
Proof. unfold kept. by rewrite foldl_app. Qed.

Lemma kept_lookup l peer addr : kept l ∅ !! peer = Some addr → ∃ b, (b, addr) ∈ l ∧ node_peer b = peer.
Proof.
  induction l as [|[b addr'] l IH] using rev_ind; [done|]. rewrite kept_snoc, lookup_insert_Some.
  intros [[<- <-]|[_ (b' & Hin & Hp)%IH]]; [exists b|exists b']; (split; [|done]); rewrite elem_of_app; [right; by left|by left].
Qed.

Lemma kept_all l b addr : (b, addr) ∈ l → is_Some (kept l ∅ !! node_peer b).
Proof.
  induction l as [|[b' addr'] l IH] using rev_ind; [by intros ?%not_elem_of_nil|]. rewrite elem_of_app, list_elem_of_singleton, kept_snoc.
  intros [Hin|[= -> ->]]; [|rewrite lookup_insert_eq; by eexists]. apply lookup_insert_is_Some'. right. by apply IH.
Qed.

Lemma build_swarm_run config key swarm0 swarm addrs :
  let subnet_id := to_u64 (match sc_validator_id config with Some vid => u64_val vid mod u64_val (sc_attestation_committee_count config) | None => 0 end) in
  SecretKey_try_from_bytes (sc_node_key config) = Some key →
  new_swarm key gossipsub_config [STATUS_PROTOCOL_V1; BLOCKS_BY_ROOT_PROTOCOL_V1] = Some swarm0 →
  0 < u64_val (sc_attestation_committee_count config) →
  addresses (others (local_peer_id swarm0) (sc_bootnodes config)) addrs →
  run_ops swarm0 (setup_ops config addrs subnet_id) = Some swarm →
  ∃ built, build_swarm config = Return (inr built) ∧ bs_swarm built = swarm ∧
    bs_block_topic built = topic_of BLOCK_TOPIC_KIND ∧ bs_aggregation_topic built = topic_of AGGREGATION_TOPIC_KIND ∧
    bs_attestation_topic built = topic_of (attestation_topic_kind subnet_id) ∧
    bs_bootnode_addrs built !! local_peer_id swarm0 = None ∧
    ∀ b, b ∈ sc_bootnodes config → node_peer b ≠ local_peer_id swarm0 →
      ∃ b' addr, b' ∈ sc_bootnodes config ∧ node_peer b' = node_peer b ∧ bootnode_addr b' = Some addr ∧
        bs_bootnode_addrs built !! node_peer b = Some addr.
Proof.
  intros subnet_id Hkey Hnew Hcount Haddrs Hops. unfold setup_ops in Hops. rewrite run_ops_app in Hops.
  destruct (run_ops swarm0 (OpDial <$> addrs)) as [swarm1|] eqn:Hdial; [|done]. cbn in Hops.
  destruct (swarm_listen_on swarm1 _) as [swarm2 []] eqn:Hlisten; cbn in Hops; [|done].
  destruct (gossipsub_subscribe swarm2 _) as [swarm3 []] eqn:Hblocks; cbn in Hops; [|done].
  destruct (gossipsub_subscribe swarm3 _) as [swarm4 []] eqn:Haggs; cbn in Hops; [|done].
  pose proof (dial_all _ _ _ _ _ ∅ Haddrs Hdial) as Hrun. fold (kept (zip (others (local_peer_id swarm0) (sc_bootnodes config)) addrs) ∅) in Hrun.
  set (l := zip _ _) in Hrun.
  exists (mk_built_swarm swarm (topic_of (attestation_topic_kind subnet_id)) (topic_of BLOCK_TOPIC_KIND) (topic_of AGGREGATION_TOPIC_KIND) (kept l ∅)).
  split.
  { unfold build_swarm. rewrite Hkey. cbn [mbind partial_bind expect_some]. rewrite Hnew. cbn [mbind partial_bind expect_some].
    rewrite Hrun. unfold unwrap_op. cbn [mbind partial_bind]. rewrite Hlisten. cbn [mbind partial_bind fst snd]. rewrite Hblocks.
    cbn [mbind partial_bind fst snd]. rewrite Haggs. cbn [mbind partial_bind fst snd]. rewrite subnet_of_spec by done.
    cbn [mbind partial_bind]. fold subnet_id. destruct (sc_is_aggregator config); [|by injection Hops as ->]. cbn in Hops.
    by destruct (gossipsub_subscribe swarm4 _) as [swarm5 []]; cbn in Hops |- *; [injection Hops as ->|]. }
  assert (Hl : ∀ b addr, (b, addr) ∈ l → b ∈ others (local_peer_id swarm0) (sc_bootnodes config) ∧ bootnode_addr b = Some addr).
  { intros b addr Hin. unfold l in Hin. clear -Hin Haddrs. induction Haddrs as [|b' addr' bs addrs' Ha _ IH]; [by apply not_elem_of_nil in Hin|].
    cbn in Hin. apply elem_of_cons in Hin as [[= -> ->]|[Hb ?]%IH]; [split; [by left|done]|]. split; [by right|done]. }
  split_and!; try done; cbn [bs_bootnode_addrs].
  - apply eq_None_not_Some. intros [addr (b & [Hb _]%Hl & Hp)%kept_lookup]. by apply list_elem_of_filter in Hb as [].
  - intros b Hb Hne. assert (Hin : b ∈ others (local_peer_id swarm0) (sc_bootnodes config)) by (by apply list_elem_of_filter).
    assert (Hz : ∃ addr, (b, addr) ∈ l).
    { unfold l. clear -Hin Haddrs. induction Haddrs as [|b' addr' bs addrs' _ _ IH]; [by apply not_elem_of_nil in Hin|].
      cbn. apply elem_of_cons in Hin as [->|[addr Ha]%IH]; [exists addr'; by left|exists addr; by right]. }
    destruct Hz as [addr Hz]. destruct (kept_all l b addr Hz) as [addr' Ha']. destruct (kept_lookup l _ _ Ha') as (b' & Hb' & Hp').
    destruct (Hl _ _ Hb') as [[_ Hin']%list_elem_of_filter Haddr']. by exists b', addr'.
Qed.

(** With a valid key and at least one committee, [build_swarm] dials every boot node but the
    node itself, in order, listens, and subscribes to the blocks and the aggregates, and to
    the subnet of its validator exactly when it is an aggregator; if all that succeeds, it
    returns the swarm with the topics the actor publishes on and, for redialing, an address
    of every boot node but itself. *)
Theorem build_swarm_correct config key swarm0 swarm addrs :
  let subnet_id := to_u64 (match sc_validator_id config with Some vid => u64_val vid mod u64_val (sc_attestation_committee_count config) | None => 0 end) in
  SecretKey_try_from_bytes (sc_node_key config) = Some key →
  new_swarm key gossipsub_config [STATUS_PROTOCOL_V1; BLOCKS_BY_ROOT_PROTOCOL_V1] = Some swarm0 →
  0 < u64_val (sc_attestation_committee_count config) →
  addresses (others (local_peer_id swarm0) (sc_bootnodes config)) addrs →
  run_ops swarm0 (setup_ops config addrs subnet_id) = Some swarm →
  ∃ built, build_swarm config = Return (inr built) ∧ bs_swarm built = swarm ∧
    bs_block_topic built = topic_of BLOCK_TOPIC_KIND ∧ bs_aggregation_topic built = topic_of AGGREGATION_TOPIC_KIND ∧
    bs_attestation_topic built = topic_of (attestation_topic_kind subnet_id) ∧
    bs_bootnode_addrs built !! local_peer_id swarm0 = None ∧
    ∀ b, b ∈ sc_bootnodes config → node_peer b ≠ local_peer_id swarm0 →
      ∃ b' addr, b' ∈ sc_bootnodes config ∧ node_peer b' = node_peer b ∧ bootnode_addr b' = Some addr ∧
        bs_bootnode_addrs built !! node_peer b = Some addr.
Proof. apply build_swarm_run. Qed.
End build.

(** * Node records *)

Section records.
Context `{NR : NodeRecordLib}.

(** The address of a record: its IPv4 address if it has one (then an IPv6 address must still
    decode), and otherwise its IPv6 address. *)
Definition record_ip (pairs : list (bytes * bytes)) (ip : IpAddr) : Prop :=
  (∃ v, find_pair pairs "ip" = Some v ∧ Ipv4Addr_decode v = Some ip ∧
     ∀ v6, find_pair pairs "ip6" = Some v6 → is_Some (Ipv6Addr_decode v6)) ∨
  (find_pair pairs "ip" = None ∧ ∃ v6, find_pair pairs "ip6" = Some v6 ∧ Ipv6Addr_decode v6 = Some ip).

(** [b] is what the text of a node record says, after its prefix of four bytes. *)
Definition enr_bootnode (enr : bytes) (b : Bootnode) : Prop :=
  4 <= len enr ∧ ∃ pairs port_bytes key_rlp key_bytes,
    NodeRecord_decode (base64_decode (drop 4 enr)) = Some pairs ∧
    find_pair pairs "quic" = Some port_bytes ∧ u16_decode port_bytes = Some (bn_quic_port b) ∧
    find_pair pairs "secp256k1" = Some key_rlp ∧ H264_decode key_rlp = Some key_bytes ∧
    secp256k1_PublicKey_try_from_bytes key_bytes = Some (bn_public_key b) ∧ record_ip pairs (bn_ip b).

(** One missing or malformed part is a panic. *)
Lemma expect_cases {A B} (o : option A) (k : A → partial B) :
  (expect_some o ≫= k) = match o with Some a => k a | None => Panic end.
Proof. by destruct o. Qed.

Lemma map_expect_cases {A B} (decode : bytes → option A) o (k : option A → partial B) :
  (map_expect decode o ≫= k) =
    match o with Some v => match decode v with Some a => k (Some a) | None => Panic end | None => k None end.
Proof. destruct o as [v|]; [|done]. cbn. by destruct (decode v). Qed.

Ltac expect_step x H := rewrite expect_cases; lazymatch goal with
  | |- context [match ?o with Some _ => _ | None => Panic end] => destruct o as [x|] eqn:H; [|by left]
  end.

Lemma parse_enr_cases enr : parse_enr enr = Panic ∨ ∃ b, parse_enr enr = Return b ∧ enr_bootnode enr b.
Proof.
  unfold parse_enr. destruct (N.leb_spec 4 (len enr)) as [Hlen|]; cbn [assert_that mbind partial_bind]; [|by left].
  expect_step pairs Hpairs. expect_step pb Hquic. expect_step kr Hsecp. expect_step kb Hkb. expect_step key Hkey. expect_step port Hport.
  assert (Hfound : ∀ ip, record_ip pairs ip → enr_bootnode enr (mk_bootnode ip port key)).
  { intros ip Hip. split; [done|]. by exists pairs, pb, kr, kb. }
  rewrite map_expect_cases. destruct (find_pair pairs "ip") as [v|] eqn:Hip.
  - destruct (Ipv4Addr_decode v) as [ip|] eqn:Hv; [|by left]. rewrite map_expect_cases. destruct (find_pair pairs "ip6") as [v6|] eqn:Hip6.
    + destruct (Ipv6Addr_decode v6) as [ip6|] eqn:Hv6; [|by left]. right. eexists. split; [done|]. apply Hfound.
      left. exists v. split_and!; [done..|]. intros ? [= <-]%(eq_trans (eq_sym Hip6)). by eexists.
    + right. eexists. split; [done|]. apply Hfound. left. exists v. split_and!; [done..|]. congruence.
  - rewrite map_expect_cases. destruct (find_pair pairs "ip6") as [v6|] eqn:Hip6; [|by left].
    destruct (Ipv6Addr_decode v6) as [ip6|] eqn:Hv6; [|by left]. right. eexists. split; [done|]. apply Hfound.
    right. split; [done|]. by exists v6.
Qed.

Lemma parse_enr_complete enr b : enr_bootnode enr b → parse_enr enr = Return b.
Proof.
  intros [Hlen (pairs & pb & kr & kb & Hpairs & Hquic & Hport & Hsecp & Hkb & Hkey & Hip)]. unfold parse_enr.
  rewrite (proj2 (N.leb_le _ _)) by done. cbn [assert_that mbind partial_bind].
  rewrite expect_cases, Hpairs, expect_cases, Hquic, expect_cases, Hsecp, expect_cases, Hkb, expect_cases, Hkey, expect_cases, Hport.
  destruct b as [ip port key]. cbn in *. rewrite map_expect_cases. destruct Hip as [(v & -> & -> & H6)|(-> & v6 & H6 & Hv6)].
  - rewrite map_expect_cases. destruct (find_pair pairs "ip6") as [v6|] eqn:Hv6; [|done]. by destruct (H6 v6 eq_refl) as [ip6 ->].
  - by rewrite map_expect_cases, H6, Hv6.
Qed.

Lemma parse_enr_iff enr b : parse_enr enr = Return b ↔ enr_bootnode enr b.
Proof.
  split; [|apply parse_enr_complete]. intros Hrun. destruct (parse_enr_cases enr) as [Hp|(b' & Hrun' & Hb)]; congruence.
Qed.

Lemma parse_enrs_from enrs : ∀ acc,
  fold_partial (λ bootnodes enr_str, bootnode ← parse_enr enr_str; Return (bootnodes ++ [bootnode])) acc enrs =
    (l ← map_partial parse_enr enrs; Return (acc ++ l)).
Proof.
  induction enrs as [|enr enrs IH]; intros acc; cbn; [by rewrite app_nil_r|]. destruct (parse_enr enr) as [b| |]; cbn; [|done..].
  rewrite IH. destruct (map_partial parse_enr enrs); cbn; [|done..]. by rewrite <- (assoc_L (++)).
Qed.

(** The list of boot nodes is read exactly when every record is complete, and then it has one
    boot node per record, in order; one bad record stops the node. *)
Theorem parse_enrs_correct enrs :
  (∀ l, parse_enrs enrs = Return l ↔ Forall2 enr_bootnode enrs l) ∧
  ((∃ l, Forall2 enr_bootnode enrs l) ∨ parse_enrs enrs = Panic).
Proof.
  unfold parse_enrs. rewrite parse_enrs_from. cbn [app].
  assert (Hall : (∃ l, map_partial parse_enr enrs = Return l ∧ Forall2 enr_bootnode enrs l) ∨
    (map_partial parse_enr enrs = Panic ∧ ∀ l, ¬ Forall2 enr_bootnode enrs l)).
  { induction enrs as [|enr enrs IH]; [left; by exists []|]. cbn. destruct (parse_enr_cases enr) as [Hp|(b & Hrun & Hb)].
    - right. rewrite Hp. split; [done|]. intros l (b & l' & Hb%parse_enr_complete & _)%Forall2_cons_inv_l. congruence.
    - rewrite Hrun. destruct IH as [(l & -> & Hl)|[-> Hno]]; [left; exists (b :: l); by split; [|constructor]|right].
      split; [done|]. intros l (b' & l' & _ & Hl' & ->)%Forall2_cons_inv_l. by apply (Hno l'). }
  destruct Hall as [(l & -> & Hl)|[-> Hno]]; cbn [mbind partial_bind app].
  - split; [|left; by exists l]. intros l'. split; [by intros [= <-]|]. intros Hl'. f_equal.
    revert l' Hl'. induction Hl as [|enr b enrs l Hb _ IH]; intros l' Hl'; [by apply Forall2_nil_inv_l in Hl'|].
    apply Forall2_cons_inv_l in Hl' as (b' & l'' & Hb' & Hl'' & ->). rewrite (IH _ Hl''). f_equal.
    apply parse_enr_complete in Hb, Hb'. congruence.
  - split; [|by right]. intros l. split; [done|]. intros Hl. by apply Hno in Hl.
Qed.
End records.

(** * The adapter *)

Section adapter.
Context `{SL : SwarmLib} `{SN : Snappy} `{WC : WireCodecs} `{UCL : UnboundedChannelLaws}.
Context (swarm_next : Swarm → option SwarmEvent → Swarm → Prop).
Implicit Types (a : Adapter) (l : list AdapterLabel).

Definition sent_of (x : AdapterLabel) : option SwarmCommand := match x with Sent c => Some c | _ => None end.
Definition executed_of (x : AdapterLabel) : option SwarmCommand := match x with Executed c _ => Some c | _ => None end.
Definition yielded_of (x : AdapterLabel) : option SwarmEvent := match x with Yielded e => Some e | _ => None end.
Definition delivered_of (x : AdapterLabel) : option SwarmEvent := match x with Delivered e => Some e | _ => None end.
Abbreviation trace f l := (omap (M := list) f l).

(** Labels of a running loop. *)
Definition active (x : AdapterLabel) : Prop :=
  match x with Rejected _ | Delivered _ | Closed => False | _ => True end.

(** What a command asks of the swarm: one call of the library, and for a request the answer
    is the identifier that the call returned. *)
Inductive asked_of (swarm : Swarm) : SwarmCommand → option OutboundRequestId → Swarm → Prop :=
| asks_publish topic data swarm' ok :
    gossipsub_publish swarm topic data = (swarm', ok) → asked_of swarm (Publish topic data) None swarm'
| asks_dial addr swarm' ok : swarm_dial swarm addr = (swarm', ok) → asked_of swarm (Dial addr) None swarm'
| asks_request peer request protocol swarm' id :
    req_resp_send_request swarm peer request protocol = (swarm', id) →
    asked_of swarm (SendRequest peer request protocol) (Some id) swarm'
| asks_response channel response swarm' ok :
    req_resp_send_response swarm channel response = (swarm', ok) → asked_of swarm (SendResponse channel response) None swarm'.

(** The swarm on its own: it serves the executed commands and yields the events of a run,
    in this order, and nothing else moves it but the event on which the loop ends. *)
Inductive swarm_history : Swarm → list AdapterLabel → Swarm → Prop :=
| history_nil swarm : swarm_history swarm [] swarm
| history_command swarm l swarm' c answer swarm'' :
    swarm_history swarm l swarm' → asked_of swarm' c answer swarm'' → swarm_history swarm (l ++ [Executed c answer]) swarm''
| history_event swarm l swarm' e swarm'' :
    swarm_history swarm l swarm' → swarm_next swarm' (Some e) swarm'' → swarm_history swarm (l ++ [Yielded e]) swarm''
| history_exit swarm l swarm' swarm'' :
    swarm_history swarm l swarm' → swarm'' = swarm' ∨ (∃ e, swarm_next swarm' e swarm'') → swarm_history swarm (l ++ [Exited]) swarm''
| history_other swarm l swarm' x :
    swarm_history swarm l swarm' → (match x with Executed _ _ | Yielded _ | Exited => False | _ => True end) →
    swarm_history swarm (l ++ [x]) swarm'.

(** What holds after a run [l] that reached [a]. *)
Record adapter_inv swarm l a : Prop := {
  ai_swarm : swarm_history swarm l (ad_swarm a);
  ai_commands : trace sent_of l = trace executed_of l ++ queued (ad_commands a);
  ai_events : trace yielded_of l = trace delivered_of l ++ queued (ad_events a);
  ai_exited l1 l2 : l = l1 ++ Exited :: l2 → ad_running a = false ∧ Forall (λ x, ¬ active x) l2;
}.

Lemma execute_asked swarm c swarm' answer : execute_command swarm c = (swarm', answer) → asked_of swarm c answer swarm'.
Proof.
  destruct c as [topic data|addr|peer request protocol|channel response]; cbn.
  - destruct (gossipsub_publish _ _ _) as [s ok] eqn:Hs. intros [= <- <-]. by apply (asks_publish _ _ _ _ ok).
  - destruct (swarm_dial _ _) as [s ok] eqn:Hs. intros [= <- <-]. by apply (asks_dial _ _ _ ok).
  - destruct (req_resp_send_request _ _ _ _) as [s id] eqn:Hs. intros [= <- <-]. by apply asks_request.
  - destruct (req_resp_send_response _ _ _) as [s ok] eqn:Hs. intros [= <- <-]. by apply (asks_response _ _ _ _ ok).
Qed.

Lemma exited_snoc l x l1 l2 : l ++ [x] = l1 ++ Exited :: l2 →
  (x = Exited ∧ l2 = [] ∧ l = l1) ∨ ∃ l2', l2 = l2' ++ [x] ∧ l = l1 ++ Exited :: l2'.
Proof.
  destruct l2 as [|y l2 _] using rev_ind.
  - intros [-> [= ->]]%app_inj_tail. by left.
  - rewrite app_comm_cons, (assoc_L (++)). intros [-> ->]%app_inj_tail. right. by exists l2.
Qed.

Lemma recv_Some {A} (c c' : Chan A) x : chan_recv c = Some (x, c') → queued c = x :: queued c'.
Proof. intros Hr. pose proof (queued_recv c) as Hq. by rewrite Hr in Hq. Qed.

Lemma step_history swarm l a x a' :
  swarm_history swarm l (ad_swarm a) → adapter_step swarm_next a x a' → swarm_history swarm (l ++ [x]) (ad_swarm a').
Proof.
  intros Hs Hstep. destruct Hstep; cbn in *; try (by apply history_other).
  - by eapply history_event.
  - eapply history_exit; [done|right; eauto].
  - eapply history_exit; [done|right; eauto].
  - eapply history_command; [done|by apply execute_asked].
  - eapply history_exit; [done|by left].
Qed.

Lemma adapter_step_inv swarm l a x a' :
  adapter_inv swarm l a → adapter_step swarm_next a x a' → adapter_inv swarm (l ++ [x]) a'.
Proof.
  intros [Hs Hc He Hx] Hstep. split.
  - by eapply step_history.
  - rewrite !omap_app, Hc. destruct Hstep; cbn in *; rewrite ?app_nil_r, ?queued_send, <- ?(assoc_L (++)); try done.
    match goal with Hr : chan_recv _ = Some _ |- _ => by rewrite (recv_Some _ _ _ Hr) end.
  - rewrite !omap_app, He. destruct Hstep; cbn in *; rewrite ?app_nil_r, ?queued_send, <- ?(assoc_L (++)); try done.
    match goal with Hr : chan_recv _ = Some _ |- _ => by rewrite (recv_Some _ _ _ Hr) end.
  - intros l1 l2 [(-> & -> & ->)|(l2' & -> & Hl)]%exited_snoc; [by inversion Hstep|].
    destruct (Hx _ _ Hl) as [Hrun Hall]. destruct Hstep; cbn in *; try done; (split; [done|]; apply Forall_app; split; [done|apply Forall_singleton; by intros []]).
Qed.

(** C36. The adapter drives the swarm as its commands ask, over channels that keep their order:
    whatever the interleaving, the state of the swarm is the result of one library call for
    each executed command, and of its own events, in the order of the run, and a request is
    answered with the identifier that its call returned; the executed commands are the
    commands the actor has sent, in order, without those still queued, and the events the
    actor has received are those the swarm has yielded, without those queued. A loop that
    runs can execute its next command; once it has exited, nothing is sent, executed or
    yielded any more. *)
Theorem adapter_fifo swarm l a :
  adapter_run swarm_next (start_swarm_adapter swarm) l a →
  swarm_history swarm l (ad_swarm a) ∧
  trace sent_of l = trace executed_of l ++ queued (ad_commands a) ∧
  trace yielded_of l = trace delivered_of l ++ queued (ad_events a) ∧
  (∀ c cmds, ad_running a = true → queued (ad_commands a) = c :: cmds →
    ∃ answer a', adapter_step swarm_next a (Executed c answer) a' ∧ queued (ad_commands a') = cmds) ∧
  (∀ l1 l2, l = l1 ++ Exited :: l2 → Forall (λ x, ¬ active x) l2).
Proof.
  intros Hrun. assert (Hinv : adapter_inv swarm l a).
  { remember (start_swarm_adapter swarm) as a0. induction Hrun as [a|a0 l a x a' _ IH Hstep]; subst.
    - split; [constructor|cbn; by rewrite queued_new..|]. intros l1 l2 Hl. by destruct l1.
    - eapply adapter_step_inv; [by apply IH|done]. }
  destruct Hinv as [Hs Hc He Hx]. split_and!; [done..| |].
  - intros c cmds Hr Hcmds. destruct a as [sw q ev tx rx run]; cbn in *; subst. pose proof (queued_recv q) as Hq.
    destruct (chan_recv q) as [[c' q']|] eqn:Hrecv; rewrite Hcmds in Hq; [|done]. injection Hq as <- ->.
    destruct (execute_command sw c) as [sw' answer] eqn:Hex. eexists answer, _. split; [by eapply step_command|done].
  - intros l1 l2 Hl. by apply (Hx l1 l2).
Qed.
End adapter.
