(* ===== verification/Network.v ===== *)
(** The actors of several nodes together: a proposed block travels through the network
    actors of two nodes into the store of the second, and a missing parent is fetched from
    a peer, after which the block that waited for it is processed. *)

From Stdlib Require Import Strings.Byte.
From S2P Require Import Prelude Types StateTransition Reference StateInvariant Transitions ForkChoice.
From S2P Require Import Backend InMemory Keys Signatures PayloadBuffer Store Crypto StoreSpec StoreOps StorePruning StoreMaintenance Codec.
From S2P Require Import ChainInvariant ChainStore ChainRefine ChainBlocks ChainTheorems ChainServer ServerSpec ServerSteps ServerMessages ServerTheorems.
From S2P Require Import Wire WireCodec WireTheorems P2P P2PSpec P2PTheorems.

Section network.
Context `{STL : SszTypesLaws} `{SL : StorageLaws D B} `{CO : Codecs} {CL : CodecsLaws} `{HS : Hashing} {HL : HashingLaws}.
Context `{HOL : HashOrderLaws} `{MS : MultisigScheme} `{SNL : SnappyLaws} `{WL : WireLaws} `{LP : Libp2p} `{PLL : P2PLibrariesLaws}.
Context (seen : BlockHeader → Prop) {HSeen : HeadersSeen seen} {HR : RankedHeaders seen}.
Context {E : Type}.
Implicit Types (b c : BlockChainServer (D := D)) (p q : P2PServer (D := D)) (a : View).

(** C12. A new block that one node proposes and publishes reaches the blockchain actor of every
    connected node through gossip, and a node that has the same state for its parent
    processes it, without asking for anything. *)
Theorem proposed_block_propagates anchor b a b' slot vid sb p subnet env anchor' c ac q env' :
  server_core seen anchor b a → own_block_seen seen (bc_store b) slot vid → u64_val slot < 2 ^ 32 →
  (propose_block slot vid : M _ E unit) b = Done b' tt → bc_sent b' = bc_sent b ++ [PublishBlock sb] →
  vw_states a !! root_of sb = None →
  topics_ok p subnet → len (as_ssz_bytes sb) <= MAX_PAYLOAD_SIZE → ps_blockchain q = true →
  server_core seen anchor' c ac → (size (vw_headers ac) < STATES_TO_KEEP)%nat →
  vw_states ac !! b_parent_root (block_of sb) = vw_states a !! b_parent_root (block_of sb) →
  ∃ topic data,
    (p2p_handle env (FromBlockchain (PublishBlock sb)) : M _ E unit) p =
      Done (set_commands (ps_commands p ++ [Publish topic data]) p) tt ∧
    (p2p_handle env' (WrappedSwarmEvent (Gossipsub topic data)) : M _ E unit) q =
      Done (set_forwarded (ps_forwarded q ++ [NewBlock sb]) q) tt ∧
    ∃ c' ac', (handle (NewBlock sb) : M _ E unit) c = Done c' tt ∧ server_core seen anchor' c' ac' ∧
      is_Some (vw_states ac' !! root_of sb) ∧ bc_sent c' = bc_sent c ∧
      b_slot (block_of sb) = slot ∧ b_proposer_index (block_of sb) = vid.
Proof.
  intros Hc Hown Hslot Hrun Hsent Hnew Htopics Hlen Hq Hcc Hsize Hparent.
  destruct (propose_block_proposed (E := E) seen anchor b a slot vid Hc Hown Hslot) as (b1 & [] & Hrun' & a' & Hp).
  rewrite Hrun in Hrun'. injection Hrun' as <-.
  assert (Hpub : published_block seen a slot vid a' sb).
  { destruct (pp_sent _ _ _ _ _ _ _ _ Hp) as [Hs|(m & Hs & sb' & -> & Hpub)]; rewrite Hs in Hsent.
    - apply (f_equal length) in Hsent. rewrite length_app in Hsent. cbn in Hsent. lia.
    - apply app_inv_head in Hsent. by injection Hsent as ->. }
  destruct Hpub as [_ Hseen Hvalid Hbslot Hbvid]. destruct (Hvalid Hnew) as [st Hst].
  destruct (gossip_delivered (E := E) env p subnet (PublishBlock sb) (NewBlock sb) Htopics eq_refl Hlen)
    as (topic & data & Hout & Hin).
  exists topic, data. split; [exact Hout|]. split; [by apply Hin|].
  destruct (on_block_done (E := E) seen anchor' c ac sb Hcc Hseen Hsize) as (c' & [] & Hhandled & ac' & Hd).
  assert (Hpst : is_Some (vw_states ac !! b_parent_root (block_of sb))).
  { rewrite Hparent. destruct Hst as (parent & post & Hpp & _). by exists parent. }
  exists c', ac'. split_and!; try done.
  - apply (bd_keeps _ _ _ _ _ _ _ Hd).
  - apply (bd_valid _ _ _ _ _ _ _ Hd). exists st. by apply (block_valid_states a).
  - by apply (bd_parent _ _ _ _ _ _ _ Hd).
Qed.

(** * A missing parent *)

(** A block whose parent is unknown is stored, waits for it, and the parent is asked for. *)
Lemma unknown_parent_run anchor c a sb :
  server_core seen anchor c a → queue_settled c a → seen_block seen sb → (size (vw_headers a) < STATES_TO_KEEP)%nat →
  vw_headers a !! b_parent_root (block_of sb) = None → bc_pending_block_parents c !! b_parent_root (block_of sb) = None →
  let a1 := view_write_block (root_of sb) sb a in
  ∃ c1, (server_on_block sb : M _ E unit) c = Done (sends c1 [FetchBlock (b_parent_root (block_of sb))]) tt ∧
    bc_sent c1 = bc_sent c ∧ bc_p2p c1 = bc_p2p c ∧
    server_core seen anchor c1 a1 ∧ queue_settled c1 a1 ∧ waits c1 (b_parent_root (block_of sb)) (root_of sb).
Proof.
  intros Hc Hset Hs Hsize Hno Hnot a1. pose proof (ci_core _ _ a (si_chain _ _ _ _ Hc)) as Hch.
  assert (Hnost : vw_states a !! b_parent_root (block_of sb) = None).
  { apply eq_None_not_Some. intros [st Hst]. pose proof (so_header _ _ _ _ (cc_states _ _ a Hch _ _ Hst)) as Hh.
    by rewrite Hno in Hh. }
  pose proof (rank_parent _ (sn_header _ _ Hs)) as Hrank. rewrite seen_root in Hrank. cbn [block_header bh_parent_root] in Hrank.
  destruct (insert_pending_block_refines (E := E) (bc_store c) a (root_of sb) sb (si_store _ _ _ _ Hc)) as (s1 & Hins & Hr1).
  pose proof (pended_keeps seen anchor c a sb s1 _ Hc Hs Hnost Hr1 Hrank) as Hk. fold (pended_actor c sb s1) in Hk.
  assert (Hsize1 : (size (vw_headers a1) <= STATES_TO_KEEP)%nat) by (pose proof (size_write a sb); unfold a1; lia).
  destruct (prune_old_data_idle (E := E) s1 a1 Hr1 Hsize1) as (s2 & Hprune & Hr2).
  destruct Hk as [Hc0 Hset0]. specialize (Hset0 Hset).
  assert (Hne : root_of sb ≠ b_parent_root (block_of sb)) by (intros Heq; rewrite Heq in Hrank; lia).
  pose proof (orphan_pended (E := E) c a sb s1 (si_store _ _ _ _ Hc) (Build_orphaned c a sb Hno Hnost Hnot) Hne Hins Hr1) as Hrun.
  exists (set_store s2 (pended_actor c sb s1)). split_and!; [|done..| | |].
  - unfold server_on_block. rewrite run_bind, run_gets, run_bind, Hrun, run_on_store.
    destruct (sends_store (pended_actor c sb s1) [FetchBlock (b_parent_root (block_of sb))]) as [-> _].
    change (bc_store (pended_actor c sb s1)) with s1. rewrite Hprune. unfold sends.
    change (bc_p2p (set_store s2 (pended_actor c sb s1))) with (bc_p2p (pended_actor c sb s1)). by destruct (bc_p2p _).
  - by destruct Hc0.
  - exact Hset0.
  - unfold waits. apply (waits_add _ _ c). by left.
Qed.

(** The root of a stored block, which may reach the node. *)
Lemma stored_block_seen anchor b a r sb :
  server_core seen anchor b a → view_signed_block a r = Some sb → root_of sb = r ∧ seen_block seen sb.
Proof.
  intros Hc Hsb. assert (Hh : is_Some (vw_headers a !! r)).
  { unfold view_signed_block in Hsb. destruct (vw_headers a !! r); [by eexists|done]. }
  destruct Hh as [h Hh]. destruct (bk_block _ _ _ (si_blocks _ _ _ _ Hc) r h sb Hh Hsb) as [Heq Hs]. split; [|done].
  rewrite <- seen_root, Heq. by apply (cc_headers _ _ a (ci_core _ _ a (si_chain _ _ _ _ Hc))).
Qed.

(** The fetch of one block: the request, and the answer that holds it. *)
Lemma fetch_answered root env env' q id block :
  ps_pending_requests q !! root = None → ps_connected_peers q ≠ ∅ → env_answer env = Some id → root_of block = root →
  ps_blockchain q = true →
  ∃ peer q1 q2, peer ∈ ps_connected_peers q ∧
    (p2p_handle env (FromBlockchain (FetchBlock root)) : M _ E unit) q = Done q1 tt ∧
    ps_commands q1 = ps_commands q ++ [block_request peer root] ∧
    (p2p_handle env' (WrappedSwarmEvent (ReqResp (MessageResponse peer id (ResponseSuccess (PayloadBlocksByRoot [block]))))) : M _ E unit) q1 =
      Done q2 tt ∧
    ps_forwarded q2 = ps_forwarded q ++ [NewBlock block] ∧ ps_pending_requests q2 = ps_pending_requests q.
Proof.
  intros Hp Hne Hid Hroot Hq. destruct (fetch_block_run (E := E) env root q Hp Hne) as (peer & Hin & Hrun). rewrite Hid in Hrun.
  exists peer, (tracked root id peer q).
  pose proof (blocks_response_correct (E := E) env' (tracked root id peer q) peer id [block]) as Hanswer. cbv zeta in Hanswer.
  assert (Hmap : ps_request_id_map (tracked root id peer q) !! id = Some root) by apply lookup_insert_eq.
  rewrite Hmap in Hanswer. destruct Hanswer as (q2 & Hrun2 & _ & Hsome & _). exists q2.
  destruct Hsome as (_ & _ & Hfw & Hpend); [done|]. rewrite filter_cons_True in Hfw, Hpend by done. cbn in Hfw, Hpend. rewrite Hq in Hfw.
  split_and!; try done. rewrite Hpend, delete_insert_id; done.
Qed.

(** C13. A block arrives whose parent the node [c] does not have: it is stored, and its parent is
    asked for. The network actor [q] sends one request to a connected peer; a peer [n] that
    has the parent answers with it alone; the answer is encoded to bytes that are read back.
    The answer ends the fetch and brings the parent to [c], which processes it if it is valid,
    and then the block that waited, if that is valid. *)
Theorem missing_parent_recovered anchor c a child q env id anchor' b ab n parent env' from channel env'' :
  let root := b_parent_root (block_of child) in
  let answer := ResponseSuccess (PayloadBlocksByRoot [parent]) in
  server_core seen anchor c a → queue_settled c a → bc_p2p c = true → seen_block seen child →
  (S (size (vw_headers a)) < STATES_TO_KEEP)%nat → vw_headers a !! root = None → bc_pending_block_parents c !! root = None →
  ps_connected_peers q ≠ ∅ → ps_pending_requests q !! root = None → ps_blockchain q = true → env_answer env = Some id →
  server_core seen anchor' b ab → ps_store n = bc_store b → view_signed_block ab root = Some parent →
  len (as_ssz_bytes parent) <= MAX_PAYLOAD_SIZE → (∃ st, block_valid a parent st) →
  ∃ c1 peer q1 q2 c2 a2,
    (handle (NewBlock child) : M _ E unit) c = Done c1 tt ∧ bc_sent c1 = bc_sent c ++ [FetchBlock root] ∧
    (p2p_handle env (FromBlockchain (FetchBlock root)) : M _ E unit) q = Done q1 tt ∧
    peer ∈ ps_connected_peers q ∧ ps_commands q1 = ps_commands q ++ [block_request peer root] ∧
    (p2p_handle env' (WrappedSwarmEvent (ReqResp (MessageRequest from
        (RequestBlocksByRoot (mk_blocks_by_root_request [root])) channel))) : M _ E unit) n =
      Done (set_commands (ps_commands n ++ [SendResponse channel answer]) n) tt ∧
    (∃ io, write_response answer [] = Done io tt ∧ read_response BLOCKS_BY_ROOT_PROTOCOL_V1 io = Done [] answer) ∧
    (p2p_handle env'' (WrappedSwarmEvent (ReqResp (MessageResponse peer id answer))) : M _ E unit) q1 = Done q2 tt ∧
    ps_forwarded q2 = ps_forwarded q ++ [NewBlock parent] ∧ ps_pending_requests q2 = ps_pending_requests q ∧
    (handle (NewBlock parent) : M _ E unit) c1 = Done c2 tt ∧ server_core seen anchor c2 a2 ∧ queue_settled c2 a2 ∧
    is_Some (vw_states a2 !! root) ∧ bc_sent c2 = bc_sent c1 ∧
    ((∃ st, block_valid a2 child st) → is_Some (vw_states a2 !! root_of child)).
Proof.
  intros root answer Hc Hset Hp2p Hchild Hsize Hno Hnot Hpeers Hpend Hq Hid Hcb Hn Hstored Hlen [st Hvalid].
  destruct (stored_block_seen anchor' b ab root parent Hcb Hstored) as [Hroot Hparent].
  destruct (unknown_parent_run anchor c a child Hc Hset Hchild ltac:(lia) Hno Hnot)
    as (c0 & Hrun1 & Hsent0 & Hp0 & Hc0 & Hset0 & Hwaits). fold root in Hrun1, Hwaits.
  set (c1 := sends c0 [FetchBlock root]) in *. set (a1 := view_write_block (root_of child) child a) in *.
  destruct (sends_keeps seen anchor c0 a1 [FetchBlock root] Hc0) as [Hc1 Hset1]. specialize (Hset1 Hset0). fold c1 in Hc1, Hset1.
  assert (Hwaits1 : waits c1 root (root_of child)) by (unfold waits, c1; by destruct (sends_store c0 [FetchBlock root]) as [_ ->]).
  assert (Hsent1 : bc_sent c1 = bc_sent c ++ [FetchBlock root]) by (unfold c1, sends; rewrite Hp0, Hp2p; cbn; by rewrite Hsent0).
  assert (Hdiffer : root_of child ≠ root_of parent).
  { rewrite Hroot. intros Heq. pose proof (rank_parent _ (sn_header _ _ Hchild)) as Hrank. rewrite seen_root in Hrank.
    cbn [block_header bh_parent_root] in Hrank. fold root in Hrank. rewrite Heq in Hrank. lia. }
  assert (Hsize1 : (size (vw_headers a1) < STATES_TO_KEEP)%nat) by (pose proof (size_write a child); unfold a1; lia).
  destruct (on_block_done (E := E) seen anchor c1 a1 parent Hc1 Hparent Hsize1) as (c2 & [] & Hrun2 & a2 & Hd).
  assert (Hproc : is_Some (vw_states a2 !! root)).
  { rewrite <- Hroot. apply (bd_valid _ _ _ _ _ _ _ Hd). exists st. by apply (block_valid_states a). }
  destruct (fetch_answered root env env'' q id parent Hpend Hpeers Hid Hroot Hq)
    as (peer & q1 & q2 & Hin & Hfetch & Hcmd & Hanswer & Hfw & Hpend').
  exists c1, peer, q1, q2, c2, a2. split_and!; try done.
  - cbn [p2p_handle handle_swarm_event handle_req_resp_message].
    rewrite (serve_blocks_run n ab) by (rewrite Hn; apply Hcb). cbn [roots omap list_omap]. by rewrite Hstored.
  - by apply block_response_bytes.
  - apply (bd_keeps _ _ _ _ _ _ _ Hd).
  - by apply (bd_keeps _ _ _ _ _ _ _ Hd).
  - apply (bd_parent _ _ _ _ _ _ _ Hd). destruct Hvalid as (pst & post & Hpst & _). by exists pst.
  - apply (bd_waiting _ _ _ _ _ _ _ Hd root); try done. apply written_block, Hchild.
Qed.
End network.

(** * Two concrete nodes *)

Module NetworkSample.
Import ChainSample ServerSample P2PSample.

#[local] Existing Instances reference_ssz_types reference_ssz_types_laws reference_codecs reference_codecs_laws
  reference_hashing reference_hashing_laws reference_scheme reference_scheme_laws reference_multisig
  reference_multisig_laws reference_order canonical_order_laws in_memory_backend in_memory_laws
  reference_snappy reference_snappy_laws reference_wire reference_wire_laws
  sample_libp2p sample_libraries sample_libraries_laws seen_ok ranked.

(** The network actor of the second node, connected to its blockchain actor. *)
Definition listener : server := set_blockchain true connected.

(** ** A block travels *)

(** Proposing published block 1, within the limit of gossip. *)
Definition sent_block1 {E} (r : outcome (BlockChainServer (D := StorageData)) E unit) : option SignedBlockWithAttestation :=
  match r with
  | Done b _ => match bc_sent b with
                | [PublishBlock sb] =>
                    if bool_decide (block_of sb = block1) && (len (as_ssz_bytes sb) <=? MAX_PAYLOAD_SIZE) then Some sb else None
                | _ => None
                end
  | _ => None
  end.

Lemma proposes_block1 : bool_decide (is_Some (sent_block1 (propose_block (E := unit) (to_u64 1) (to_u64 1) (actor [1])))) = true.
Proof. by vm_compute. Qed.

Lemma proposing_sends : ∃ b' sb, propose_block (E := unit) (to_u64 1) (to_u64 1) (actor [1]) = Done b' tt ∧
  bc_sent b' = [PublishBlock sb] ∧ block_of sb = block1 ∧ len (as_ssz_bytes sb) <= MAX_PAYLOAD_SIZE.
Proof.
  pose proof proposes_block1 as H. apply bool_decide_eq_true in H. destruct H as [sb H].
  destruct (propose_block _ _ _) as [b' []| | |]; cbn [sent_block1] in H; try discriminate. exists b'.
  destruct (bc_sent b') as [|[sb'|? |? |?] [|]]; try discriminate. exists sb'. split; [done|]. split; [done|].
  destruct (bool_decide_reflect (block_of sb' = block1)); [|discriminate].
  destruct (N.leb_spec (len (as_ssz_bytes sb')) MAX_PAYLOAD_SIZE); [done|discriminate].
Qed.

Lemma proposed_block_propagates_witness : ∃ sb topic data c',
  p2p_handle (E := unit) (env 0 None) (FromBlockchain (PublishBlock sb)) node = Done (set_commands [Publish topic data] node) tt ∧
  p2p_handle (E := unit) (env 0 None) (WrappedSwarmEvent (Gossipsub topic data)) listener =
    Done (set_forwarded [NewBlock sb] listener) tt ∧
  handle (E := unit) (NewBlock sb) (actor []) = Done c' tt ∧ b_slot (block_of sb) = to_u64 1.
Proof.
  destruct proposing_sends as (b' & sb & Hrun & Hsent & Hblock & Hlen).
  destruct (proposed_block_propagates (E := unit) seen 0 (actor [1]) start_view b' (to_u64 1) (to_u64 1) sb node (to_u64 3)
    (env 0 None) 0 (actor []) start_view listener (env 0 None) (actor_core [1]) own_block1)
    as (topic & data & Hpub & Hrecv & c' & ac' & Himp & _ & _ & _ & Hslot & _);
    [by vm_compute|exact Hrun|exact Hsent| |by split|exact Hlen|done|exact (actor_core [])|exact fresh_start|done|].
  - unfold root_of. fold (block_of sb). rewrite Hblock. exact block1_new.
  - exists sb, topic, data, c'. split; [exact Hpub|split; [exact Hrecv|split; [exact Himp|exact Hslot]]].
Defined.

(** ** A parent is fetched *)

(** A block on block 1, and the headers that may reach the nodes. *)
Definition child : SignedBlockWithAttestation :=
  mk_signed_block (mk_block_with_attestation (mk_block (to_u64 2) (to_u64 2) root1 H256_ZERO BlockBody_default)
    (mk_attestation (to_u64 2) vote1)) (mk_block_signatures [] []).
Definition header2 : BlockHeader := block_header (block_of child).
Definition root2 : H256 := tree_hash_root header2.
Definition three (h : BlockHeader) : Prop := h = header0 ∨ h = block_header block1 ∨ h = header2.

Lemma different_values (l : list H256) : bool_decide (NoDup (h256_val <$> l)) = true → NoDup l.
Proof. intros H%bool_decide_eq_true. exact (NoDup_fmap_1 h256_val _ H). Qed.

Lemma roots_distinct : NoDup [H256_ZERO; root0; root1h; root2].
Proof. apply different_values. by vm_compute. Qed.

Lemma four_distinct (a b c d : H256) : NoDup [a; b; c; d] → a ≠ b ∧ a ≠ c ∧ a ≠ d ∧ b ≠ c ∧ b ≠ d ∧ c ≠ d.
Proof. rewrite !NoDup_cons, !not_elem_of_cons. naive_solver. Qed.

Lemma distinct_facts : H256_ZERO ≠ root0 ∧ H256_ZERO ≠ root1h ∧ H256_ZERO ≠ root2 ∧ root0 ≠ root1h ∧ root0 ≠ root2 ∧ root1h ≠ root2.
Proof.
  apply four_distinct, roots_distinct.
Qed.

Lemma three_inj h1 h2 : three h1 → three h2 → tree_hash_root h1 = tree_hash_root h2 → h1 = h2.
Proof.
  destruct distinct_facts as (_ & _ & _ & H01 & H02 & H12). unfold root0, root1h, root2 in *.
  intros [->|[->| ->]] [->|[->| ->]] Heq; congruence.
Qed.

Lemma three_nonzero h : three h → tree_hash_root h ≠ H256_ZERO.
Proof.
  destruct distinct_facts as (H0 & H1 & H2 & _). unfold root0, root1h, root2 in *. intros [->|[->| ->]]; congruence.
Qed.

#[local] Instance three_ok : HeadersSeen three.
Proof. split; [exact three_inj|exact three_nonzero]. Qed.

Definition depth_among (r0 r1 r2 r : H256) : nat :=
  if decide (r = r2) then 3%nat else if decide (r = r1) then 2%nat else if decide (r = r0) then 1%nat else 0%nat.
Definition depth : H256 → nat := depth_among root0 root1h root2.

Lemma depths_among z r0 r1 r2 : NoDup [z; r0; r1; r2] →
  depth_among r0 r1 r2 z = 0%nat ∧ depth_among r0 r1 r2 r0 = 1%nat ∧ depth_among r0 r1 r2 r1 = 2%nat ∧ depth_among r0 r1 r2 r2 = 3%nat.
Proof. intros (?&?&?&?&?&?)%four_distinct. unfold depth_among. split_and!; repeat (destruct (decide _)); congruence. Qed.

Lemma depths : depth H256_ZERO = 0%nat ∧ depth root0 = 1%nat ∧ depth root1h = 2%nat ∧ depth root2 = 3%nat.
Proof. exact (depths_among _ _ _ _ roots_distinct). Qed.

Lemma depth_parent h : three h → (depth (bh_parent_root h) < depth (tree_hash_root h))%nat.
Proof.
  destruct depths as (Hz & H0 & H1 & H2). intros [->|[->| ->]].
  - change (depth H256_ZERO < depth root0)%nat. lia.
  - change (depth (b_parent_root block1) < depth root1h)%nat. rewrite block1_parent. lia.
  - change (depth root1h < depth root2)%nat. lia.
Qed.

#[local] Instance three_ranked : RankedHeaders three := {| rank := depth; rank_parent := depth_parent |}.

Lemma genesis_three : anchor_ok three genesis.
Proof.
  destruct genesis_ok as [Hwf Ha Hs _ _]. split; [exact Hwf|exact Ha|exact Hs|by left|].
  intros h Hh Heq. destruct (three_nonzero h Hh). exact Heq.
Qed.

Lemma actor_three ids : server_core three 0 (actor ids) start_view.
Proof.
  assert (Hc : server_core three 0 (spawn start (keys ids) true) start_view).
  { apply (spawn_core three 0); [apply start_init|apply (anchor_chain_inv three 0); [exact genesis_three|done]| |intros r; apply lookup_empty].
    apply anchor_blocks_ok; [exact genesis_three|done]. }
  destruct Hc. by split.
Qed.

Lemma signed1_three : seen_block three (signed1 vote1).
Proof. split; [by right; left|done|exact vote1_fits]. Qed.

Lemma child_three : seen_block three child.
Proof. split; [by right; right|done|]. split; [exact (List.Forall_nil _)|by vm_compute]. Qed.

(** A node that has imported block 1. *)
Lemma peer_has_parent : ∃ b ab, server_core three 0 b ab ∧ view_signed_block ab root1 = Some (signed1 vote1).
Proof.
  destruct (server_process_cases three 0 (actor []) start_view (signed1 vote1) (actor_three []) signed1_three)
    as [[Hknown _]|[Hnew [(st & s' & a' & _ & _ & Hr & Him)|[Hno _]]]].
  - exfalso. change (is_Some (vw_states start_view !! root1)) in Hknown. rewrite block1_new in Hknown. by destruct Hknown.
  - exists (set_store s' (actor [])), a'. split.
    + pose proof (imported_core three 0 (actor []) start_view (signed1 vote1) st s' a' (actor_three []) signed1_three Hnew Hr Him) as [Hc _].
      exact Hc.
    + rewrite (same_signed_block _ _ root1 (bi_written _ _ _ _ _ _ Him)). apply written_block, signed1_three.
  - exfalso. apply Hno. eexists. exact block1_valid.
Qed.

Definition node_of (b : BlockChainServer (D := StorageData)) : server :=
  p2p_spawn (bc_store b) (topic_of (attestation_topic_kind (to_u64 3))) (topic_of BLOCK_TOPIC_KIND) (topic_of AGGREGATION_TOPIC_KIND) ∅.

Lemma signed1_length : len (as_ssz_bytes (signed1 vote1)) <= MAX_PAYLOAD_SIZE.
Proof. by vm_compute. Qed.

Lemma missing_parent_recovered_witness : ∃ (b c1 : BlockChainServer (D := StorageData)) (q1 q2 : server) c2 peer,
  handle (E := unit) (NewBlock child) (actor []) = Done c1 tt ∧ bc_sent c1 = [FetchBlock root1] ∧
  p2p_handle (E := unit) (env 4 (Some 70)) (FromBlockchain (FetchBlock root1)) listener = Done q1 tt ∧
  ps_commands q1 = [block_request peer root1] ∧
  p2p_handle (E := unit) (env 0 None) (WrappedSwarmEvent (ReqResp (MessageRequest (P2PSample.peer 9)
      (RequestBlocksByRoot (mk_blocks_by_root_request [root1])) (channel 5)))) (node_of b) =
    Done (set_commands [SendResponse (channel 5) (ResponseSuccess (PayloadBlocksByRoot [signed1 vote1]))] (node_of b)) tt ∧
  ps_forwarded q2 = [NewBlock (signed1 vote1)] ∧
  handle (E := unit) (NewBlock (signed1 vote1)) c1 = Done c2 tt.
Proof.
  destruct peer_has_parent as (b & ab & Hb & Hparent).
  destruct (missing_parent_recovered (E := unit) three 0 (actor []) start_view child listener (env 4 (Some 70)) (rid 70)
    0 b ab (node_of b) (signed1 vote1) (env 0 None) (P2PSample.peer 9) (channel 5) (env 0 None) (actor_three []))
    as (c1 & peer & q1 & q2 & c2 & a2 & H1 & H2 & H3 & _ & H4 & H5 & _ & _ & H6 & _ & H7 & _).
  - intros r Hr. change (is_Some ((∅ : gmap H256 (gset H256)) !! r)) in Hr. rewrite lookup_empty in Hr. by destruct Hr.
  - reflexivity.
  - exact child_three.
  - assert (Hsize : size (vw_headers start_view) = 1%nat) by apply map_size_singleton.
    rewrite Hsize. apply Nat.ltb_lt. by vm_compute.
  - apply lookup_singleton_ne. exact roots_differ.
  - apply lookup_empty.
  - exact connected_some.
  - apply lookup_empty.
  - reflexivity.
  - reflexivity.
  - exact Hb.
  - reflexivity.
  - exact Hparent.
  - exact signed1_length.
  - eexists. exact block1_valid.
  - exists b, c1, q1, q2, c2, peer.
    split; [exact H1|split; [exact H2|split; [exact H3|split; [exact H4|split; [exact H5|split; [exact H6|exact H7]]]]]].
Defined.

End NetworkSample.
