(* ===== verification/Rpc.v ===== *)
(** The API server (crates/net/rpc/src/{lib,fork_choice,metrics,heap_profiling}.rs): the
    handlers of the finalized state, the justified checkpoint, the fork-choice view, the
    health check, the metrics and the heap profiles, and the routers that hold them. *)

From Stdlib Require Import Strings.String Strings.Byte.
From S2P Require Import Prelude Types ForkChoice Backend Keys Signatures PayloadBuffer Store.

(** serde_json, for the types the server answers with. *)
Class Serialize (A : Type) := { to_json : A → bytes }.

(** What the servers read: the static page, the Prometheus registry, and jemalloc's profiler
    (Linux), which may be off. *)
Class RpcSources := {
  fork_choice_html : bytes;
  gather_default_metrics : option bytes;
  prof_ctl : bool;
  dump_pprof : string + bytes;
  dump_flamegraph : string + bytes;
}.

Definition JSON_CONTENT_TYPE : string := "application/json; charset=utf-8".
Definition SSZ_CONTENT_TYPE : string := "application/octet-stream".

Record Response := mk_response { rs_content_type : string; rs_body : bytes }.

Definition json_response {A} `{Serialize A} (value : A) : Response := mk_response JSON_CONTENT_TYPE (to_json value).
Definition ssz_response (b : bytes) : Response := mk_response SSZ_CONTENT_TYPE b.

(** The answers of the fork-choice endpoint. *)
Record ForkChoiceNode := mk_fork_choice_node {
  fn_root : H256;
  fn_slot : u64;
  fn_parent_root : H256;
  fn_proposer_index : u64;
  fn_weight : u64;
}.

Record ForkChoiceResponse := mk_fork_choice_response {
  fr_nodes : list ForkChoiceNode;
  fr_head : H256;
  fr_justified : Checkpoint;
  fr_finalized : Checkpoint;
  fr_safe_target : H256;
  fr_validator_count : u64;
}.

Section rpc.
Context `{SB : StorageBackend D B} `{CO : Codecs} `{HS : Hashing} `{HO : HashOrder} `{SC : SignatureScheme}.
Context `{!Serialize Checkpoint, !Serialize ForkChoiceResponse}.

Abbreviation store := (Store D).

(** The state as it is served: the state root of its header is zeroed. *)
Definition served_state (state : State) : State :=
  set_latest_block_header (set_state_root H256_ZERO (st_latest_block_header state)) state.

Definition get_latest_finalized_state (s : store) : partial Response :=
  finalized ← latest_finalized s;
  o ← get_state (cp_root finalized) s;
  state ← expect_some o;
  Return (ssz_response (as_ssz_bytes (served_state state))).

Definition get_latest_justified_state (s : store) : partial Response :=
  checkpoint ← latest_justified s;
  Return (json_response checkpoint).

(** One entry of the answer: a live block with its proposer and its weight. *)
Definition fork_choice_node (weights : Weights) (s : store) (entry : H256 * (u64 * H256)) : partial ForkChoiceNode :=
  let '(root, (slot, parent_root)) := entry in
  header ← get_block_header root s;
  Return (mk_fork_choice_node root slot parent_root
            (default (to_u64 0) (bh_proposer_index <$> header)) (weight_of weights root)).

Definition get_fork_choice (s : store) : partial Response :=
  blocks ← get_live_chain s;
  attestations ← extract_latest_known_attestations s;
  justified ← latest_justified s;
  finalized ← latest_finalized s;
  weights ← compute_block_weights (cp_slot finalized) blocks attestations;
  head ← store_head s;
  safe_target ← safe_target s;
  head_state ← head_state s;
  let validator_count := to_u64 (len (st_validators head_state)) in
  nodes ← map_partial (fork_choice_node weights s) (hash_iter blocks);
  Return (json_response
    (mk_fork_choice_response nodes head justified finalized safe_target validator_count)).

Definition get_health : Response :=
  mk_response JSON_CONTENT_TYPE
    (list_byte_of_string (String.concat (String (Ascii.ascii_of_nat 34) EmptyString)
       ["{"; "status"; ":"; "healthy"; ","; "service"; ":"; "lean-rpc-api"; "}"])).

(** The page of the fork-choice view, a static file. *)
Definition HTML_CONTENT_TYPE : string := "text/html; charset=utf-8".
Definition get_fork_choice_ui `{RpcSources} : Response := mk_response HTML_CONTENT_TYPE fork_choice_html.

(** [build_api_router]: the handler of each path. *)
Definition build_api_router `{RpcSources} : list (string * (store → partial Response)) :=
  [("/lean/v0/health"%string, λ _, Return get_health);
   ("/lean/v0/states/finalized"%string, get_latest_finalized_state);
   ("/lean/v0/checkpoints/justified"%string, get_latest_justified_state);
   ("/lean/v0/fork_choice"%string, get_fork_choice);
   ("/lean/v0/fork_choice/ui"%string, λ _, Return get_fork_choice_ui)].

End rpc.

(** * metrics.rs, heap_profiling.rs *)

Section metrics.
Context `{RpcSources}.

(** An empty text when the metrics cannot be gathered. *)
Definition get_metrics : Response :=
  mk_response "text/plain; version=0.0.4; charset=utf-8" (default [] gather_default_metrics).

Definition start_prometheus_metrics_api : list (string * Response) := [("/metrics"%string, get_metrics)].

(** A response with its status. *)
Record StatusResponse := mk_status_response { sr_status : N; sr_content_type : string; sr_body : bytes }.

Definition PLAIN_TEXT : string := "text/plain; charset=utf-8".

Definition profile (dump : string + bytes) (content_type failure : string) : StatusResponse :=
  if negb prof_ctl then mk_status_response 500 PLAIN_TEXT (list_byte_of_string "Heap profiling not enabled")
  else match dump with
       | inr data => mk_status_response 200 content_type data
       | inl err => mk_status_response 500 PLAIN_TEXT (list_byte_of_string (failure +:+ err))
       end.

Definition handle_get_heap : StatusResponse := profile dump_pprof "application/octet-stream" "Failed to dump heap profile: ".
Definition handle_get_heap_flamegraph : StatusResponse := profile dump_flamegraph "image/svg+xml" "Failed to dump flamegraph: ".

Definition build_debug_router : list (string * StatusResponse) :=
  [("/debug/pprof/allocs"%string, handle_get_heap); ("/debug/pprof/allocs/flamegraph"%string, handle_get_heap_flamegraph)].

End metrics.
