(* ===== verification/CheckpointSync.v ===== *)
(** Starting a node (bin/ethlambda/src/checkpoint_sync.rs and [fetch_initial_state] of
    main.rs): from the local genesis configuration, or from a finalized state that a peer
    serves over HTTP, after it is checked against that configuration. *)

From S2P Require Import Prelude Types Backend Keys Signatures PayloadBuffer Store.

(** The HTTP client: connect, send the request, check the status and read the body. *)
Class HttpClient := {
  HttpError : Type;
  http_get : string → HttpError + bytes;
}.

Section checkpoint_sync.
Context `{SB : StorageBackend D B} `{CO : Codecs} `{ST : SszTypes} `{HS : Hashing} `{HC : HttpClient}.

Inductive CheckpointSyncError : Type :=
| Http (e : HttpError)
| SszDecode
| SlotIsZero
| NoValidators
| GenesisTimeMismatch (expected got : u64)
| ValidatorCountMismatch (expected got : N)
| NonSequentialValidatorIndex (position : N) (expected got : u64)
| ValidatorPubkeyMismatch (index : N)
| FinalizedExceedsStateSlot
| JustifiedPrecedesFinalized
| JustifiedFinalizedRootMismatch
| BlockHeaderSlotExceedsState
| BlockHeaderFinalizedRootMismatch
| BlockHeaderJustifiedRootMismatch.

Context {S : Type}.
Abbreviation result A := (M S CheckpointSyncError A).

(** [for (i, x) in l.iter().enumerate() { if let Some(e) = check(i, x) { return Err(e); } }] *)
Definition for_each {A} (check : nat → A → option CheckpointSyncError) (l : list A) : result unit :=
  foldM (λ _ (x : nat * A), match check x.1 x.2 with Some e => throw e | None => mret tt end) tt
        (imap pair l).

Definition check_index (position : nat) (validator : Validator) : option CheckpointSyncError :=
  let expected := to_u64 (N.of_nat position) in
  if bool_decide (v_index validator = expected) then None
  else Some (NonSequentialValidatorIndex (N.of_nat position) expected (v_index validator)).

Definition check_pubkey (i : nat) (validators : Validator * Validator) : option CheckpointSyncError :=
  if bool_decide (v_pubkey validators.1 = v_pubkey validators.2) then None
  else Some (ValidatorPubkeyMismatch (N.of_nat i)).

Definition verify_checkpoint_state (state : State) (expected_genesis_time : u64)
    (expected_validators : list Validator) : result unit :=
  _ ← fail_if (st_slot state =? 0) SlotIsZero;
  _ ← fail_if (bool_decide (st_validators state = [])) NoValidators;
  _ ← fail_if (negb (bool_decide (cc_genesis_time (st_config state) = expected_genesis_time)))
        (GenesisTimeMismatch expected_genesis_time (cc_genesis_time (st_config state)));
  _ ← fail_if (negb (len (st_validators state) =? len expected_validators))
        (ValidatorCountMismatch (len expected_validators) (len (st_validators state)));
  _ ← for_each check_index (st_validators state);
  _ ← for_each check_pubkey (zip (st_validators state) expected_validators);
  let finalized := st_latest_finalized state in
  let justified := st_latest_justified state in
  let header := st_latest_block_header state in
  _ ← fail_if (st_slot state <? cp_slot finalized) FinalizedExceedsStateSlot;
  _ ← fail_if (cp_slot justified <? cp_slot finalized) JustifiedPrecedesFinalized;
  _ ← fail_if ((cp_slot justified =? cp_slot finalized) && negb (bool_decide (cp_root justified = cp_root finalized)))
        JustifiedFinalizedRootMismatch;
  _ ← fail_if (st_slot state <? bh_slot header) BlockHeaderSlotExceedsState;
  let block_root := tree_hash_root header in
  _ ← fail_if ((bh_slot header =? cp_slot finalized) && negb (bool_decide (block_root = cp_root finalized)))
        BlockHeaderFinalizedRootMismatch;
  fail_if ((bh_slot header =? cp_slot justified) && negb (bool_decide (block_root = cp_root justified)))
    BlockHeaderJustifiedRootMismatch.

Definition fetch_checkpoint_state (url : string) (expected_genesis_time : u64)
    (expected_validators : list Validator) : result State :=
  response ← map_err Http (http_get url);
  state ← ok_or (from_ssz_bytes response) SszDecode;
  _ ← verify_checkpoint_state state expected_genesis_time expected_validators;
  mret state.

Definition fetch_initial_state (checkpoint_url : option string) (genesis : GenesisConfig) (backend : D) :
    result (Store D) :=
  let validators := genesis_validators genesis in
  match checkpoint_url with
  | None =>
      genesis_state ← lift_partial (from_genesis (gc_genesis_time genesis) validators);
      lift_partial (from_anchor_state backend genesis_state)
  | Some checkpoint_url =>
      state ← fetch_checkpoint_state checkpoint_url (gc_genesis_time genesis) validators;
      lift_partial (from_anchor_state backend state)
  end.

End checkpoint_sync.
