(* ===== verification/SyncSpec.v ===== *)
(** What the check of a checkpoint state accepts, and what the API server answers, on the
    abstract store. *)

From S2P Require Import Prelude Types StateTransition Reference StateInvariant Transitions ForkChoice.
From S2P Require Import Backend Keys Signatures PayloadBuffer Store StoreSpec StoreOps StorePruning StoreMaintenance.
From S2P Require Import ChainInvariant ChainStore ChainRefine Rpc CheckpointSync.

(** * Checkpoint states *)

Section verify.
Context `{ST : SszTypes} `{HS : Hashing} `{HC : HttpClient}.

(** A state the node may start from: past genesis, of the local network, with checkpoints
    that are consistent with each other and with the latest header. *)
Record checkpoint_valid (config : GenesisConfig) (state : State) : Prop := {
  cv_slot : 0 < st_slot state;
  cv_genesis_time : cc_genesis_time (st_config state) = gc_genesis_time config;
  cv_nonempty : gc_genesis_validators config ≠ [];
  cv_validators : st_validators state = genesis_validators config;
  cv_finalized : fin_slot state <= st_slot state;
  cv_justified : fin_slot state <= just_slot state;
  cv_same_root : just_slot state = fin_slot state →
    cp_root (st_latest_justified state) = cp_root (st_latest_finalized state);
  cv_header : header_slot state <= st_slot state;
  cv_header_finalized : header_slot state = fin_slot state →
    tree_hash_root (st_latest_block_header state) = cp_root (st_latest_finalized state);
  cv_header_justified : header_slot state = just_slot state →
    tree_hash_root (st_latest_block_header state) = cp_root (st_latest_justified state);
}.

(** What an error says about the state. *)
Definition violates (config : GenesisConfig) (state : State) (e : CheckpointSyncError) : Prop :=
  let validators := genesis_validators config in
  match e with
  | Http _ | SszDecode => False
  | SlotIsZero => u64_val (st_slot state) = 0
  | NoValidators => st_validators state = []
  | GenesisTimeMismatch expected got =>
      expected = gc_genesis_time config ∧ got = cc_genesis_time (st_config state) ∧ got ≠ expected
  | ValidatorCountMismatch expected got =>
      expected = len validators ∧ got = len (st_validators state) ∧ got ≠ expected
  | NonSequentialValidatorIndex position expected got =>
      expected = to_u64 position ∧ got ≠ expected ∧
      ∃ v, get_at (st_validators state) position = Some v ∧ v_index v = got
  | ValidatorPubkeyMismatch i => ∃ v w, get_at (st_validators state) i = Some v ∧ get_at validators i = Some w ∧
      v_pubkey v ≠ v_pubkey w
  | FinalizedExceedsStateSlot => st_slot state < fin_slot state
  | JustifiedPrecedesFinalized => just_slot state < fin_slot state
  | JustifiedFinalizedRootMismatch => just_slot state = fin_slot state ∧
      cp_root (st_latest_justified state) ≠ cp_root (st_latest_finalized state)
  | BlockHeaderSlotExceedsState => st_slot state < header_slot state
  | BlockHeaderFinalizedRootMismatch => header_slot state = fin_slot state ∧
      tree_hash_root (st_latest_block_header state) ≠ cp_root (st_latest_finalized state)
  | BlockHeaderJustifiedRootMismatch => header_slot state = just_slot state ∧
      tree_hash_root (st_latest_block_header state) ≠ cp_root (st_latest_justified state)
  end.

Lemma genesis_validators_length config : length (genesis_validators config) = length (gc_genesis_validators config).
Proof. unfold genesis_validators. by rewrite length_imap. Qed.

Lemma genesis_validators_lookup config i v :
  genesis_validators config !! i = Some v → v_index v = to_u64 (N.of_nat i).
Proof.
  unfold genesis_validators. rewrite list_lookup_imap. destruct (gc_genesis_validators config !! i); [|done].
  by intros [= <-].
Qed.

(** The state root of a header above the checkpoints is not checked. *)
Lemma valid_any_root config state r :
  checkpoint_valid config state → just_slot state < header_slot state →
  checkpoint_valid config (set_latest_block_header (set_state_root r (st_latest_block_header state)) state).
Proof.
  intros [] Hlt. split; try done.
  - intros Heq. apply (f_equal u64_val) in Heq. unfold header_slot, fin_slot, just_slot in *. cbn in *. lia.
  - intros Heq. apply (f_equal u64_val) in Heq. unfold header_slot, fin_slot, just_slot in *. cbn in *. lia.
Qed.

Lemma violates_invalid config state e : violates config state e → ¬ checkpoint_valid config state.
Proof.
  intros Hv []. destruct e; cbn in Hv.
  1,2: done.
  all: try lia.
  - apply cv_nonempty0. apply nil_length_inv. rewrite <- genesis_validators_length, <- cv_validators0.
    by rewrite Hv.
  - destruct Hv as (-> & -> & Hne). by rewrite cv_validators0 in Hne.
  - destruct Hv as (-> & Hne & v & Hat & <-). apply Hne. rewrite get_at_lookup, cv_validators0 in Hat.
    apply genesis_validators_lookup in Hat. by rewrite N2Nat.id in Hat.
  - destruct Hv as (v & w & Hv & Hw & Hne). rewrite cv_validators0, Hw in Hv. by injection Hv as <-.
  - destruct Hv as [Hs Hne]. by apply Hne, cv_same_root0.
  - destruct Hv as [Hs Hne]. by apply Hne, cv_header_finalized0.
  - destruct Hv as [Hs Hne]. by apply Hne, cv_header_justified0.
Qed.

(** The three checks of the validators leave those of the configuration. *)
Lemma checked_validators config validators :
  len validators = len (genesis_validators config) →
  (∀ i v, validators !! i = Some v → check_index i v = None) →
  (∀ i p, zip validators (genesis_validators config) !! i = Some p → check_pubkey i p = None) →
  validators = genesis_validators config.
Proof.
  intros Hlen Hindex Hkeys. apply list_eq_same_length with (length validators); [unfold len in Hlen; lia|done|].
  intros i v w _ Hv Hw. pose proof (Hindex i v Hv) as Hi. unfold check_index in Hi. case_bool_decide as Hiv; [|done].
  pose proof (Hkeys i (v, w)) as Hk. unfold check_pubkey in Hk. rewrite lookup_zip_Some in Hk.
  specialize (Hk (conj Hv Hw)). cbn in Hk. case_bool_decide as Hkv; [|done].
  pose proof (genesis_validators_lookup config i w Hw). destruct v, w. cbn in *. congruence.
Qed.

Lemma matching_roots (a b : u64) (r r' : H256) :
  (a =? b) && negb (bool_decide (r = r')) = false → a = b → r = r'.
Proof. intros Hb ->. rewrite N.eqb_refl in Hb. by apply negb_false_iff, bool_decide_eq_true in Hb. Qed.

Lemma mismatched_roots (a b : u64) (r r' : H256) :
  (a =? b) && negb (bool_decide (r = r')) = true → a = b ∧ r ≠ r'.
Proof.
  intros [Hb Hr]%andb_true_iff. split; [by apply u64_eq, N.eqb_eq|].
  by apply negb_true_iff, bool_decide_eq_false in Hr.
Qed.

Section run.
Context {S : Type}.
Implicit Types s : S.

(** A check either stops the function with an error that describes the state, or what it
    excludes does not hold. *)
Lemma check_step config state b (e : CheckpointSyncError) (m : M S CheckpointSyncError unit) s (Q : Prop) :
  (b = true → violates config state e) →
  (b = false → (m s = Done s tt ∧ Q) ∨ ∃ e, m s = Fail s e ∧ violates config state e) →
  ((_ ← fail_if b e; m) s = Done s tt ∧ Q) ∨ ∃ e', (_ ← fail_if b e; m) s = Fail s e' ∧ violates config state e'.
Proof.
  intros Hb Hm. rewrite run_bind, run_fail_if. destruct b; [right; exists e; auto|auto].
Qed.

Lemma for_each_from {A} (check : nat → A → option CheckpointSyncError) (l : list A) n s :
  let run := foldM (λ _ (x : nat * A), match check x.1 x.2 with Some e => throw e | None => mret tt end) tt
    (imap (λ i x, ((n + i)%nat, x)) l) s : outcome S CheckpointSyncError unit in
  (run = Done s tt ∧ ∀ i x, l !! i = Some x → check (n + i)%nat x = None) ∨
  (∃ i x e, l !! i = Some x ∧ check (n + i)%nat x = Some e ∧ run = Fail s e).
Proof.
  revert n. induction l as [|x l IH]; intros n run; subst run; cbn [imap foldM]; [by left|].
  rewrite run_bind. cbn [fst snd]. rewrite Nat.add_0_r.
  destruct (check n x) as [e|] eqn:Hx; [right; exists 0%nat, x, e; by rewrite Nat.add_0_r|]. cbn [mret M_ret].
  rewrite (imap_ext _ (λ i y, ((Datatypes.S n + i)%nat, y))) by (intros i y _; unfold compose; f_equal; lia).
  destruct (IH (Datatypes.S n)) as [[-> Hall]|(i & y & e & Hi & He & ->)].
  - left. split; [done|]. intros [|i] y; cbn; [intros [= <-]; by rewrite Nat.add_0_r|].
    intros Hi%Hall. by rewrite Nat.add_succ_r.
  - right. exists (Datatypes.S i), y, e. rewrite Nat.add_succ_r. by split.
Qed.

Lemma for_each_step config state {A} (check : nat → A → option CheckpointSyncError) (l : list A)
    (m : M S CheckpointSyncError unit) s (Q : Prop) :
  (∀ i x e, l !! i = Some x → check i x = Some e → violates config state e) →
  ((∀ i x, l !! i = Some x → check i x = None) → (m s = Done s tt ∧ Q) ∨ ∃ e, m s = Fail s e ∧ violates config state e) →
  ((_ ← for_each check l; m) s = Done s tt ∧ Q) ∨
    ∃ e, (_ ← for_each check l; m) s = Fail s e ∧ violates config state e.
Proof.
  intros Hc Hm. rewrite run_bind. unfold for_each.
  destruct (for_each_from check l 0 s) as [[Hrun Hall]|(i & x & e & Hi & He & Hrun)]; cbn in Hrun, Hall || cbn in Hrun;
    change (imap (λ i x, (i, x)) l) with (imap pair l) in Hrun; rewrite Hrun; [auto|].
  right. exists e. split; [done|]. by apply (Hc i x).
Qed.

Lemma verify_checkpoint_state_cases config state s :
  let run := verify_checkpoint_state state (gc_genesis_time config) (genesis_validators config) s in
  (run = Done s tt ∧ checkpoint_valid config state) ∨ ∃ e, run = Fail s e ∧ violates config state e.
Proof.
  intros run. subst run. unfold verify_checkpoint_state. cbv zeta.
  apply check_step; [intros Hb%N.eqb_eq; exact Hb|intros Hslot%N.eqb_neq].
  apply check_step; [intros Hb%bool_decide_eq_true; exact Hb|intros Hne%bool_decide_eq_false].
  apply check_step; [intros Hb%negb_true_iff%bool_decide_eq_false; done|intros Htime%negb_false_iff%bool_decide_eq_true].
  apply check_step; [intros Hb%negb_true_iff%N.eqb_neq; done|intros Hlen%negb_false_iff%N.eqb_eq].
  apply for_each_step.
  { intros i v e Hi. unfold check_index. case_bool_decide; [done|]. intros [= <-]. cbn. split_and!; [done..|].
    exists v. by rewrite get_at_lookup, Nat2N.id. }
  intros Hindex. apply for_each_step.
  { intros i [v w] e [Hv Hw]%lookup_zip_Some. unfold check_pubkey. cbn. case_bool_decide; [done|]. intros [= <-]. cbn.
    exists v, w. by rewrite !get_at_lookup, Nat2N.id. }
  intros Hkeys.
  pose proof (checked_validators config (st_validators state) Hlen Hindex Hkeys) as Hvals.
  apply check_step; [by intros Hb%N.ltb_lt|intros Hfin%N.ltb_ge].
  apply check_step; [by intros Hb%N.ltb_lt|intros Hjust%N.ltb_ge].
  apply check_step; [apply mismatched_roots|intros Hsame].
  apply check_step; [by intros Hb%N.ltb_lt|intros Hhead%N.ltb_ge].
  apply check_step; [apply mismatched_roots|intros Hhf]. rewrite run_fail_if.
  match goal with |- context [if ?b then _ else _] => destruct b eqn:Hb end.
  - right. eexists. split; [done|]. by apply mismatched_roots.
  - left. split; [done|]. split; [lia|done| |done..|by apply matching_roots|done|by apply matching_roots|by apply matching_roots].
    intros Hnil. apply Hne. rewrite Hvals. unfold genesis_validators. by rewrite Hnil.
Qed.
End run.
End verify.

(** * The API server *)

Section server.
Context `{STL : SszTypesLaws} `{SL : StorageLaws D B} `{CO : Codecs} {CL : CodecsLaws} `{HS : Hashing}.
Context `{HOL : HashOrderLaws} `{SC : SignatureScheme} `{!Serialize Checkpoint, !Serialize ForkChoiceResponse}.
Context `{HC : HttpClient}.
Context (seen : BlockHeader → Prop) {HSeen : HeadersSeen seen} (anchor : N).
Implicit Types (s : Store D) (a : View) (st : State).

Lemma finalized_state_served s a st :
  represents s a → processed a (cp_root (vw_finalized a)) st →
  get_latest_finalized_state s = Return (ssz_response (as_ssz_bytes (served_state st))).
Proof.
  intros Hr Hst. unfold get_latest_finalized_state. rewrite (latest_finalized_refines s a Hr).
  cbn [mbind partial_bind]. rewrite (get_state_refines s a _ Hr). unfold processed in Hst. by rewrite Hst.
Qed.

(** A sealed state is the anchor of its served form. *)
Lemma served_anchored st :
  bh_state_root (st_latest_block_header st) = anchor_root st → anchored_state (served_state st) = st.
Proof.
  intros Hs. change (anchored_state (served_state st)) with
    (set_latest_block_header (set_state_root (anchor_root st) (st_latest_block_header st)) st).
  rewrite <- Hs. by destruct st as [? ? []].
Qed.

Lemma served_view st : bh_state_root (st_latest_block_header st) = anchor_root st →
  anchor_view (served_state st) None = anchor_view st None.
Proof.
  intros Hs. unfold anchor_view. rewrite served_anchored by done.
  replace (anchored_state st) with st; [done|]. unfold anchored_state. rewrite <- Hs. by destruct st as [? ? []].
Qed.

(** A served state is a good anchor. *)
Lemma served_anchor_ok a r st : chain_core seen anchor a → processed a r st → anchor_ok seen (served_state st).
Proof.
  intros Hc Hst. destruct (cc_states _ _ a Hc r st Hst) as [Hwf Ha Hs Hh Hseal _].
  destruct (processed_root seen anchor a r st Hc Hst) as [Hseen Hroot]. split.
  - by destruct Hwf as [[] []]; split; split.
  - exact Ha.
  - exact Hs.
  - by rewrite served_anchored.
  - intros h Hsh Hp. by apply (cc_order _ _ a Hc r st h).
Qed.

(** A served state past genesis passes the check of a node with the same genesis. *)
Lemma served_valid config a r st :
  chain_core seen anchor a → processed a r st → 0 < header_slot st →
  cc_genesis_time (st_config st) = gc_genesis_time config → st_validators st = genesis_validators config →
  checkpoint_valid config (served_state st).
Proof.
  intros Hc Hst Hpos Htime Hvals. destruct (cc_states _ _ a Hc r st Hst) as [[Hwf _] Ha _ _ _ _].
  pose proof (wf_slot _ Hwf) as Hslot. pose proof (wf_finalized_justified _ Hwf) as Hfj.
  pose proof (wf_justified_past _ Hwf) as Hjp. pose proof (wf_hist_len _ Hwf) as Hlen.
  pose proof (wf_validators _ Hwf) as [Hv _].
  split; change (header_slot (served_state st)) with (header_slot st); change (st_slot (served_state st)) with (st_slot st);
    change (just_slot (served_state st)) with (just_slot st); change (fin_slot (served_state st)) with (fin_slot st);
    try done; try lia.
  - intros Hnil. rewrite Hvals in Hv. unfold genesis_validators in Hv. rewrite Hnil in Hv. done.
  - destruct (Ha Hpos) as [Hj Hf]. rewrite checkpoint_exists_get in Hj, Hf. unfold just_slot, fin_slot.
    intros Heq. cbn. rewrite Heq in Hj. congruence.
Qed.

(** A node of the same genesis that reads the served bytes accepts the state. *)
Lemma fetch_accepts {S : Type} config url st (x : S) :
  http_get url = inr (as_ssz_bytes (served_state st)) → checkpoint_valid config (served_state st) →
  fetch_checkpoint_state url (gc_genesis_time config) (genesis_validators config) x = Done x (served_state st).
Proof.
  intros Hget Hvalid. unfold fetch_checkpoint_state. rewrite Hget. cbn [map_err]. rewrite run_bind.
  cbn [mret M_ret]. rewrite ssz_roundtrip. rewrite run_bind. cbn [ok_or mret M_ret]. rewrite run_bind.
  destruct (verify_checkpoint_state_cases config (served_state st) x) as [[Hrun _]|(e & _ & He)].
  - by rewrite Hrun.
  - by destruct (violates_invalid _ _ _ He).
Qed.

End server.

(** * The fork-choice view *)

Section view.
Context `{STL : SszTypesLaws} `{SL : StorageLaws D B} `{CO : Codecs} {CL : CodecsLaws} `{HS : Hashing}.
Context `{HOL : HashOrderLaws} `{SC : SignatureScheme}.
Context (seen : BlockHeader → Prop) {HSeen : HeadersSeen seen} (anchor : N).
Implicit Types (s : Store D) (a : View) (st : State) (m : BlockTree) (atts : gmap u64 AttestationData).

(** A node of the answer shows a live block: its parent, its proposer and the number of
    latest votes for it above the finalized slot. *)
Record shown a m atts (n : ForkChoiceNode) st : Prop := {
  sn_processed : processed a (fn_root n) st;
  sn_live : vw_live a !! (fn_slot n, fn_root n) = Some (fn_parent_root n);
  sn_proposer : fn_proposer_index n = bh_proposer_index (header_of st);
  sn_weight : u64_val (fn_weight n) = support (cp_slot (vw_finalized a)) m atts (fn_root n);
}.

Record fork_choice_answer a (response : ForkChoiceResponse) : Prop := {
  fa_head : fr_head response = vw_head a;
  fa_justified : fr_justified response = vw_justified a;
  fa_finalized : fr_finalized response = vw_finalized a;
  fa_safe_target : fr_safe_target response = vw_safe_target a;
  fa_validators : ∃ st, processed a (vw_head a) st ∧ u64_val (fr_validator_count response) = len (st_validators st);
  fa_distinct : NoDup (fn_root <$> fr_nodes response);
  fa_complete slot r p : vw_live a !! (slot, r) = Some p →
    ∃ n, n ∈ fr_nodes response ∧ fn_root n = r ∧ fn_slot n = slot ∧ fn_parent_root n = p;
  fa_sound : ∃ m atts, live_tree a m ∧ latest_of (vw_data a) (hash_elems (unique_keys (vw_known a))) atts ∧
    ∀ n, n ∈ fr_nodes response → ∃ st, shown a m atts n st;
}.

Lemma node_shown s a m atts weights entry :
  represents s a → chain_core seen anchor a → live_tree a m →
  (∀ r, weight_of weights r = to_u64 (support (cp_slot (vw_finalized a)) m atts r)) →
  N.of_nat (size atts) < 2 ^ 64 → entry ∈ hash_iter m →
  ∃ n, fork_choice_node weights s entry = Return n ∧
    (∃ st, shown a m atts n st) ∧ entry = (fn_root n, (fn_slot n, fn_parent_root n)).
Proof.
  intros Hr Hc Htree Hw Hsize Hin. destruct entry as [r [slot p]].
  apply elem_of_hash_iter, Htree in Hin. destruct (cc_live _ _ a Hc _ _ _ Hin) as (st & Hst & _ & _).
  pose proof (so_header _ _ _ _ (cc_states _ _ a Hc r st Hst)) as Hh.
  unfold fork_choice_node. rewrite (get_block_header_refines s a r Hr), Hh. cbn [mbind partial_bind].
  eexists. split; [done|]. split; [|done]. exists st. split; [done..|]. cbn. rewrite Hw. apply to_u64_small.
  pose proof (support_le m (cp_slot (vw_finalized a)) atts r). lia.
Qed.

Lemma map_partial_shown s a m atts weights :
  represents s a → chain_core seen anchor a → live_tree a m →
  (∀ r, weight_of weights r = to_u64 (support (cp_slot (vw_finalized a)) m atts r)) →
  N.of_nat (size atts) < 2 ^ 64 →
  ∃ nodes, map_partial (fork_choice_node weights s) (hash_iter m) = Return nodes ∧
    (∀ n, n ∈ nodes → ∃ st, shown a m atts n st) ∧
    (λ n, (fn_root n, (fn_slot n, fn_parent_root n))) <$> nodes = hash_iter m.
Proof.
  intros Hr Hc Htree Hw Hsize.
  destruct (map_partial_forall (fork_choice_node weights s) (λ e n,
    (∃ st, shown a m atts n st) ∧ e = (fn_root n, (fn_slot n, fn_parent_root n))) (hash_iter m))
    as (nodes & Hrun & Hall).
  { intros e He. by apply (node_shown s a m atts weights e). }
  exists nodes. split; [done|]. clear Hrun. split.
  - intros n [i Hn]%list_elem_of_lookup_1. by destruct (Forall2_lookup_r _ _ _ _ _ Hall Hn) as (e & _ & Hst & _).
  - induction Hall as [|e n l nodes [_ ->] _ IH]; [done|]. cbn. by rewrite <- IH.
Qed.
End view.
