(* ===== verification/SyncTheorems.v ===== *)
(** The theorems about starting a node and about the API server: the check of a checkpoint
    state, the genesis start, checkpoint sync between two nodes, and the fork-choice view. *)

From Stdlib Require Import Strings.Byte.
From S2P Require Import Prelude Types StateTransition Reference StateInvariant Transitions ForkChoice.
From S2P Require Import Backend InMemory Keys Signatures PayloadBuffer Store Crypto StoreSpec StoreOps StorePruning StoreMaintenance Codec.
From S2P Require Import ChainInvariant ChainStore ChainRefine BlockBuilding ChainTheorems Rpc CheckpointSync SyncSpec.

Section verify.
Context `{ST : SszTypes} `{HS : Hashing} `{HC : HttpClient}.

(** C35. A downloaded state is accepted exactly when it is valid for the local genesis
    configuration; every other state is refused with an error that says what is wrong with
    it, whatever the state. *)
Theorem verify_checkpoint_state_correct {S : Type} config state (s : S) :
  let run := verify_checkpoint_state state (gc_genesis_time config) (genesis_validators config) s in
  (run = Done s tt ↔ checkpoint_valid config state) ∧
  (checkpoint_valid config state ∨ ∃ e, run = Fail s e ∧ violates config state e).
Proof.
  intros run. destruct (verify_checkpoint_state_cases config state s) as [[Hrun Hv]|(e & Hrun & Hv)];
    subst run; rewrite Hrun.
  - split; [done|by left].
  - split; [split; [done|intros H; by destruct (violates_invalid config state e Hv)]|right; by exists e].
Qed.
End verify.

Section sync.
Context `{STL : SszTypesLaws} `{SL : StorageLaws D B} `{CO : Codecs} {CL : CodecsLaws} `{HS : Hashing}.
Context `{HOL : HashOrderLaws} `{SC : SignatureScheme} `{HC : HttpClient}.
Context `{!Serialize Checkpoint, !Serialize ForkChoiceResponse}.
Context (seen : BlockHeader → Prop) {HSeen : HeadersSeen seen}.
Implicit Types (s : Store D) (a : View).

Lemma genesis_started {S : Type} config d (x : S) :
  db_ok d → (∀ t, contents d t = ∅) →
  gc_genesis_validators config ≠ [] → len (gc_genesis_validators config) <= VALIDATOR_REGISTRY_LIMIT →
  (∀ state, from_genesis (gc_genesis_time config) (genesis_validators config) = Return state →
    seen (header_of (anchored_state state))) →
  ∃ s state, fetch_initial_state None config d x = Done x s ∧
    from_genesis (gc_genesis_time config) (genesis_validators config) = Return state ∧
    represents s (anchor_view state None) ∧ anchor_ok seen state ∧ u64_val (header_slot state) = 0.
Proof.
  intros Hok Hempty Hne Hlimit Hseen.
  assert (Hstate : ∃ state, from_genesis (gc_genesis_time config) (genesis_validators config) = Return state ∧
    st_latest_block_header state = mk_block_header (to_u64 0) (to_u64 0) H256_ZERO H256_ZERO (tree_hash_root BlockBody_default)).
  { unfold from_genesis. rewrite variable_list_new_spec, !bitlist_with_capacity_spec.
    unfold len. rewrite genesis_validators_length. fold (len (gc_genesis_validators config)).
    apply N.leb_le in Hlimit. rewrite Hlimit. by eexists. }
  destruct Hstate as (state & Hstate & Hheader).
  assert (Hvals : genesis_validators config ≠ []).
  { intros Hnil. apply Hne, nil_length_inv. by rewrite <- genesis_validators_length, Hnil. }
  destruct (genesis_wf _ _ state Hvals Hstate) as [Hwf Ha].
  destruct (init_store_refines d state None Hok Hempty) as (s & Hinit & Hr); [left; by rewrite Hheader|].
  exists s, state. split_and!; [|done|done| |unfold header_slot; by rewrite Hheader].
  - unfold fetch_initial_state. rewrite run_bind, run_lift_partial, Hstate. rewrite run_lift_partial.
    unfold from_anchor_state. by rewrite Hinit.
  - split; [done|done| |by apply Hseen|].
    + intros Hpos. unfold header_slot in Hpos. rewrite Hheader in Hpos. done.
    + intros h Hh Hroot. unfold header_of in Hroot. rewrite Hheader in Hroot. by destruct (seen_nonzero h Hh).
Qed.

(** A node that starts from a genesis configuration with 1 to 4096 validators has a store
    of the genesis block, which satisfies the invariant of the chain. *)
Theorem genesis_start_correct {S : Type} config d (x : S) :
  db_ok d → (∀ t, contents d t = ∅) →
  gc_genesis_validators config ≠ [] → len (gc_genesis_validators config) <= VALIDATOR_REGISTRY_LIMIT →
  (∀ state, from_genesis (gc_genesis_time config) (genesis_validators config) = Return state →
    seen (header_of (anchored_state state))) →
  ∃ s state, fetch_initial_state None config d x = Done x s ∧
    from_genesis (gc_genesis_time config) (genesis_validators config) = Return state ∧
    represents s (anchor_view state None) ∧ chain_inv seen 0 (anchor_view state None).
Proof.
  intros Hok Hempty Hne Hlimit Hseen. destruct (genesis_started config d x Hok Hempty Hne Hlimit Hseen) as (s & state & Hrun & Hstate & Hr & Hanchor & Hslot).
  exists s, state. split_and!; [done..|]. by apply anchor_chain_inv.
Qed.

Lemma served_checkpoint a st :
  bh_state_root (st_latest_block_header st) = anchor_root st →
  tree_hash_root (header_of st) = cp_root (vw_finalized a) → header_slot st = cp_slot (vw_finalized a) →
  vw_finalized (anchor_view (served_state st) None) = vw_finalized a.
Proof.
  intros Hseal Hroot Hslot. unfold anchor_view. rewrite served_anchored by done. cbn. fold (header_of st).
  change (bh_slot (header_of st)) with (header_slot st). rewrite Hroot, Hslot.
  by destruct (vw_finalized a).
Qed.

Lemma checkpoint_synced {S : Type} anchor a st config url d (x : S) :
  chain_inv seen anchor a → processed a (cp_root (vw_finalized a)) st →
  0 < cp_slot (vw_finalized a) →
  cc_genesis_time (st_config st) = gc_genesis_time config → st_validators st = genesis_validators config →
  db_ok d → (∀ t, contents d t = ∅) →
  http_get url = inr (as_ssz_bytes (served_state st)) →
  ∃ s, fetch_initial_state (Some url) config d x = Done x s ∧ represents s (anchor_view (served_state st) None) ∧
    anchor_ok seen (served_state st) ∧ header_slot (served_state st) = cp_slot (vw_finalized a) ∧
    tree_hash_root (header_of st) = cp_root (vw_finalized a) ∧ bh_state_root (st_latest_block_header st) = anchor_root st.
Proof.
  intros Hi Hst Hpos Htime Hvals Hok Hempty Hbody. set (Hc := ci_core _ _ a Hi).
  destruct (cc_finalized _ _ a Hc) as (st' & Hst' & Hslot).
  assert (st' = st) as -> by (unfold processed in *; congruence).
  destruct (processed_root seen anchor a _ st Hc Hst) as [_ Hroot].
  destruct (init_store_refines d (served_state st) None Hok Hempty) as (s & Hinit & Hr'); [by left|].
  exists s. split_and!; [|done|by apply (served_anchor_ok seen anchor a _ st Hc Hst)|exact Hslot|exact Hroot|
    apply (so_sealed _ _ _ _ (cc_states _ _ a Hc _ _ Hst))].
  unfold fetch_initial_state. rewrite run_bind.
  rewrite (fetch_accepts config url st x Hbody)
    by (apply (served_valid seen anchor config a _ st Hc Hst); [by rewrite Hslot|done..]).
  rewrite run_lift_partial. unfold from_anchor_state. by rewrite Hinit.
Qed.

(** C15. Checkpoint sync, end to end: the finalized state that a node with the chain invariant
    serves, if it is above genesis (slot 0), is accepted by a node of the same genesis, which
    then starts at exactly that finalized checkpoint (it is its head, its safe target, its
    justified and its finalized checkpoint), holds the same state, and satisfies the chain
    invariant itself. A served state of slot 0 is refused as such. *)
Theorem checkpoint_sync_roundtrip {S : Type} anchor server a st config url d (x : S) :
  represents server a → chain_inv seen anchor a → processed a (cp_root (vw_finalized a)) st →
  cc_genesis_time (st_config st) = gc_genesis_time config → st_validators st = genesis_validators config →
  db_ok d → (∀ t, contents d t = ∅) →
  (∀ response, get_latest_finalized_state server = Return response → http_get url = inr (rs_body response)) →
  (0 < cp_slot (vw_finalized a) → ∃ s a', fetch_initial_state (Some url) config d x = Done x s ∧ represents s a' ∧
    chain_inv seen (cp_slot (vw_finalized a)) a' ∧
    vw_finalized a' = vw_finalized a ∧ vw_justified a' = vw_finalized a ∧
    vw_head a' = cp_root (vw_finalized a) ∧ vw_safe_target a' = cp_root (vw_finalized a) ∧
    vw_states a' = {[ cp_root (vw_finalized a) := st ]}) ∧
  (st_slot st = to_u64 0 → fetch_initial_state (Some url) config d x = Fail x SlotIsZero).
Proof.
  intros Hr Hi Hst Htime Hvals Hok Hempty Hget.
  pose proof (Hget _ (finalized_state_served server a st Hr Hst)) as Hbody. cbn [ssz_response rs_body] in Hbody. split.
  - intros Hpos. destruct (checkpoint_synced anchor a st config url d x Hi Hst Hpos Htime Hvals Hok Hempty Hbody)
      as (s & Hrun & Hr' & Hanchor & Hslot & Hroot & Hseal).
    exists s, (anchor_view (served_state st) None).
    pose proof (served_checkpoint a st Hseal Hroot Hslot) as Hcheck. split_and!; [done|done| |exact Hcheck|exact Hcheck| | |].
    + apply anchor_chain_inv; [done|by rewrite Hslot].
    + unfold anchor_view. rewrite served_anchored by done. exact Hroot.
    + unfold anchor_view. rewrite served_anchored by done. exact Hroot.
    + unfold anchor_view. rewrite served_anchored by done. cbn. fold (header_of st). by rewrite Hroot.
  - intros Hzero. unfold fetch_initial_state, fetch_checkpoint_state. rewrite !run_bind, Hbody. cbn [map_err].
    rewrite run_ret, run_bind. rewrite ssz_roundtrip, run_ok_or, run_bind. unfold verify_checkpoint_state.
    change (st_slot (served_state st)) with (st_slot st). by rewrite Hzero, run_bind.
Qed.

(** The check does not cover the state root of the header: a valid state whose header has
    a wrong, non-zero state root makes the starting node panic, although a refused state is
    answered with an error. *)
Theorem checkpoint_state_root_unchecked {S : Type} config url state d (x : S) :
  http_get url = inr (as_ssz_bytes state) → checkpoint_valid config state →
  bh_state_root (st_latest_block_header state) ≠ H256_ZERO →
  bh_state_root (st_latest_block_header state) ≠ anchor_root state →
  fetch_initial_state (Some url) config d x = Panicked.
Proof.
  intros Hget Hvalid Hnz Hne. unfold fetch_initial_state, fetch_checkpoint_state. rewrite run_bind, Hget.
  cbn [map_err]. rewrite run_bind. cbn [mret M_ret]. rewrite ssz_roundtrip, run_bind. cbn [ok_or mret M_ret].
  rewrite run_bind.
  destruct (verify_checkpoint_state_cases config state x) as [[-> _]|(e & _ & He)];
    [|by destruct (violates_invalid _ _ _ He)].
  cbn [mret M_ret]. rewrite run_lift_partial. unfold from_anchor_state, init_store, is_zero. cbv zeta. fold (anchor_root state).
  by rewrite !bool_decide_eq_false_2 by done.
Qed.

Lemma fork_choice_answered anchor s a :
  represents s a → chain_inv seen anchor a →
  ∃ response, get_fork_choice s = Return (json_response response) ∧ fork_choice_answer a response.
Proof.
  intros Hr Hi. set (Hc := ci_core _ _ a Hi). destruct (cc_head _ _ a Hc) as [sth Hsth].
  destruct (get_live_chain_refines s a Hr (chain_live_functional seen anchor a Hc)) as (m & Hm & Htree).
  destruct (extract_latest_refines s a (hash_elems (unique_keys (vw_known a))) Hr) as (atts & Hatts & Hlatest).
  pose proof (latest_of_size _ _ _ Hlatest) as Hsize.
  pose proof (unique_keys_length _ _ (cc_known _ _ a Hc)) as Hcap.
  unfold AGGREGATED_PAYLOAD_CAP in Hcap. rewrite to_u64_small in Hcap by done.
  destruct (compute_block_weights_returns (cp_slot (vw_finalized a)) m atts) as (weights & Hrun & Hw);
    [by apply (live_tree_increases seen anchor a)|].
  destruct (map_partial_shown seen anchor s a m atts weights Hr Hc Htree Hw) as (nodes & Hnodes & Hshown & Heq); [lia|].
  pose proof (wf_validators _ (proj1 (so_wf _ _ _ _ (cc_states _ _ a Hc _ _ Hsth)))) as [_ Hlim].
  unfold get_fork_choice, extract_latest_known_attestations.
  rewrite Hm. cbn [mbind partial_bind]. rewrite (rep_known _ _ Hr), Hatts. cbn [mbind partial_bind].
  rewrite (latest_justified_refines s a Hr), (latest_finalized_refines s a Hr). cbn [mbind partial_bind].
  rewrite Hrun. cbn [mbind partial_bind]. rewrite (store_head_refines s a Hr), (safe_target_refines s a Hr).
  cbn [mbind partial_bind]. rewrite (head_state_refines s a sth Hr Hsth). cbn [mbind partial_bind].
  rewrite Hnodes. eexists. split; [done|]. split; cbn; try done.
  - exists sth. split; [done|]. apply to_u64_small. unfold VALIDATOR_REGISTRY_LIMIT in Hlim. lia.
  - pose proof (NoDup_hash_keys m) as Hnd. rewrite <- Heq, <- list_fmap_compose in Hnd. exact Hnd.
  - intros slot r p Hl%Htree%elem_of_hash_iter. rewrite <- Heq in Hl.
    apply list_elem_of_fmap in Hl as (n & [= -> -> ->] & Hn). by exists n.
  - exists m, atts. by split_and!.
Qed.

(** The fork-choice view never panics on a store with the chain invariant, and shows
    exactly the live chain: every live block once, with its slot, its parent, its proposer
    and the number of latest votes for it above the finalized slot, next to the head, the
    checkpoints and the number of validators. *)
Theorem get_fork_choice_correct anchor s a :
  represents s a → chain_inv seen anchor a →
  ∃ response, get_fork_choice s = Return (json_response response) ∧ fork_choice_answer a response.
Proof. apply fork_choice_answered. Qed.

(** Every endpoint of the API server answers, without panicking, on a store with the chain
    invariant. *)
Theorem api_always_answers `{RpcSources} anchor s a path handler :
  represents s a → chain_inv seen anchor a → (path, handler) ∈ build_api_router → ∃ response, handler s = Return response.
Proof.
  intros Hr Hi Hin. pose proof (ci_core _ _ a Hi) as Hc. unfold build_api_router in Hin. repeat apply elem_of_cons in Hin as [[= -> ->]|Hin].
  - by eexists.
  - destruct (cc_finalized _ _ a Hc) as (st & Hst & _). rewrite (finalized_state_served s a st Hr Hst). by eexists.
  - unfold get_latest_justified_state. rewrite (latest_justified_refines s a Hr). by eexists.
  - destruct (fork_choice_answered anchor s a Hr Hi) as (response & -> & _). by eexists.
  - by eexists.
  - by apply not_elem_of_nil in Hin.
Qed.

End sync.

(** * A node that serves the state of block 1, and a node that starts from it *)

Module SyncSample.

Import ChainSample.

#[local] Existing Instances reference_ssz_types reference_ssz_types_laws reference_codecs reference_codecs_laws
  reference_hashing reference_hashing_laws reference_scheme reference_scheme_laws reference_multisig
  reference_multisig_laws reference_order canonical_order_laws in_memory_backend in_memory_laws seen_ok.

(** Any rendering of the answers will do. *)
#[local] Instance sample_checkpoint : Serialize Checkpoint := {| to_json := λ c, H256_bytes (cp_root c) |}.
#[local] Instance sample_fork_choice : Serialize ForkChoiceResponse := {| to_json := λ r, H256_bytes (fr_head r) |}.

Definition config : GenesisConfig := mk_genesis_config (to_u64 1000) [[]; []; []].
Definition state1 : State := imported_state block1 post1.

Lemma state1_imported : imported (anchored_state genesis) block1 state1.
Proof.
  refine (transition_imported _ _ _ _ run_block1).
  destruct (chain_state_wf _ Scenario.genesis_chain) as [[[] []] _]. split; split; assumption.
Qed.

Lemma state1_header : header_of state1 = block_header block1.
Proof. apply (im_header _ _ _ state1_imported). Qed.

Lemma state1_slot : header_slot state1 = to_u64 1.
Proof. unfold header_slot. change (bh_slot (header_of state1) = to_u64 1). by rewrite state1_header. Qed.

Lemma state1_anchor : anchored_state state1 = state1.
Proof.
  unfold anchored_state. rewrite <- (im_sealed _ _ _ state1_imported). destruct state1 as [? ? []]. done.
Qed.

Lemma state1_ok : anchor_ok seen state1.
Proof.
  split.
  - apply state1_imported.
  - apply (im_anchored _ _ _ state1_imported). by intros Hpos.
  - apply (im_solid _ _ _ state1_imported); [by intros Hpos|]. rewrite block1_parent.
    apply (seen_nonzero header0). by left.
  - rewrite state1_anchor, state1_header. by right.
  - intros h [->| ->] Hroot; rewrite state1_slot; [done|]. exfalso.
    rewrite state1_header in Hroot.
    change (bh_parent_root (block_header block1)) with (b_parent_root block1) in Hroot.
    rewrite block1_parent in Hroot. by apply roots_differ.
Qed.

(** The server: a store that was itself started from that state. *)
Definition server_view : View := anchor_view state1 None.
Definition returned (p : partial store) : store := match p with Return s => s | _ => start end.
Definition server : store := returned (init_store InMemoryBackend_new state1 None).

Lemma server_init : represents server server_view.
Proof.
  destruct (init_store_refines InMemoryBackend_new state1 None) as (s & Hrun & Hr);
    [apply in_memory_new_ok|apply in_memory_new_empty|right; exact (im_sealed _ _ _ state1_imported)|].
  unfold server. by rewrite Hrun.
Qed.

Lemma server_inv : chain_inv seen 1 server_view.
Proof. apply anchor_chain_inv; [exact state1_ok|by rewrite state1_slot]. Qed.

Lemma server_state : processed server_view (cp_root (vw_finalized server_view)) state1.
Proof.
  unfold processed, server_view, anchor_view. rewrite state1_anchor. apply lookup_singleton_eq.
Qed.

Lemma server_slot : cp_slot (vw_finalized server_view) = to_u64 1.
Proof. unfold server_view, anchor_view. rewrite state1_anchor. exact state1_slot. Qed.

(** The HTTP client of the new node reaches that server. *)
#[local] Instance sample_client : HttpClient :=
  {| HttpError := unit; http_get := λ _, inr (as_ssz_bytes (served_state state1)) |}.

Lemma state1_config : cc_genesis_time (st_config state1) = gc_genesis_time config ∧
  st_validators state1 = genesis_validators config.
Proof. by split; vm_compute. Qed.

Lemma sample_seen state :
  from_genesis (gc_genesis_time config) (genesis_validators config) = Return state → seen (header_of (anchored_state state)).
Proof.
  assert (Hrun : from_genesis (gc_genesis_time config) (genesis_validators config) = Return genesis) by (by vm_compute).
  rewrite Hrun. intros [= <-]. by left.
Qed.

Lemma genesis_start_correct_witness : ∃ (s : store) state,
  fetch_initial_state None config InMemoryBackend_new tt = Done tt s ∧
  from_genesis (gc_genesis_time config) (genesis_validators config) = Return state ∧
  represents s (anchor_view state None) ∧ chain_inv seen 0 (anchor_view state None).
Proof.
  apply (genesis_start_correct (SL := in_memory_laws) seen config InMemoryBackend_new tt);
    [apply in_memory_new_ok|apply in_memory_new_empty|done|by vm_compute|exact sample_seen].
Defined.

Lemma checkpoint_sync_roundtrip_witness : ∃ (s : store) a',
  fetch_initial_state (Some "http://peer"%string) config InMemoryBackend_new tt = Done tt s ∧
  represents s a' ∧ vw_finalized a' = vw_finalized server_view.
Proof.
  destruct (checkpoint_sync_roundtrip (SL := in_memory_laws) seen 1 server server_view state1 config "http://peer"%string
    InMemoryBackend_new tt) as [(s & a' & Hrun & Hr & _ & Hfin & _) _].
  - exact server_init.
  - exact server_inv.
  - exact server_state.
  - apply state1_config.
  - apply state1_config.
  - apply in_memory_new_ok.
  - apply in_memory_new_empty.
  - intros response. rewrite (finalized_state_served server server_view state1 server_init server_state). by intros [= <-].
  - by rewrite server_slot.
  - exists s, a'. split; [exact Hrun|split; [exact Hr|exact Hfin]].
Defined.

Lemma get_fork_choice_correct_witness : ∃ response,
  get_fork_choice server = Return (json_response response) ∧ fork_choice_answer server_view response.
Proof. apply (get_fork_choice_correct (SL := in_memory_laws) seen 1 server server_view server_init server_inv). Defined.

End SyncSample.

(** A peer that serves that state with a wrong state root in the header. *)
Module BadPeer.

Import ChainSample SyncSample.

#[local] Existing Instances reference_ssz_types reference_ssz_types_laws reference_codecs reference_codecs_laws
  reference_hashing reference_hashing_laws reference_scheme reference_scheme_laws reference_multisig
  reference_multisig_laws reference_order canonical_order_laws in_memory_backend in_memory_laws seen_ok.

Definition bad_state : State :=
  set_latest_block_header (set_state_root (h256 7) (st_latest_block_header state1)) state1.

#[local] Instance bad_client : HttpClient := {| HttpError := unit; http_get := λ _, inr (as_ssz_bytes bad_state) |}.

Lemma bad_state_valid : checkpoint_valid config bad_state.
Proof.
  assert (Hv : checkpoint_valid config (served_state state1)).
  { apply (served_valid seen 1 config server_view _ state1 (ci_core _ _ _ server_inv) server_state);
      [by rewrite state1_slot|apply state1_config..]. }
  apply (valid_any_root config _ (h256 7) Hv). by vm_compute.
Qed.

Lemma checkpoint_state_root_unchecked_witness :
  fetch_initial_state (Some "http://peer"%string) config InMemoryBackend_new tt = Panicked.
Proof.
  apply (checkpoint_state_root_unchecked (B := PendingOps) config "http://peer"%string bad_state InMemoryBackend_new tt);
    [reflexivity|exact bad_state_valid|..];
    intros Heq; apply (f_equal h256_val) in Heq; vm_compute in Heq; discriminate.
Defined.

End BadPeer.
