(* ===== verification/Node.v ===== *)
(** The node binary (bin/ethlambda/src/main.rs) and the genesis file
    (crates/common/types/src/genesis.rs): reading the configuration files, and how the store
    and the two actors are started and connected. The metrics of the start are in Metrics.v. *)

From Stdlib Require Import Strings.String Strings.Byte.
From S2P Require Import Prelude Types Backend Keys Signatures PayloadBuffer Store Crypto ChainStore ChainServer Wire P2P.
From S2P Require Import Swarm RocksDB CheckpointSync.

(** * Text and files *)

(** A text is the list of its Unicode scalar values; a path is a text. *)
Abbreviation Text := (list N).
Abbreviation Path := Text.

Definition text (s : string) : Text := Byte.to_N <$> list_byte_of_string s.

(** [char::is_whitespace] *)
Definition is_whitespace (c : N) : bool :=
  ((9 <=? c) && (c <=? 13)) || (c =? 32) || (c =? 0x85) || (c =? 0xA0) || (c =? 0x1680) ||
  ((0x2000 <=? c) && (c <=? 0x200A)) || (c =? 0x2028) || (c =? 0x2029) || (c =? 0x202F) || (c =? 0x205F) || (c =? 0x3000).

Fixpoint trim_start (s : Text) : Text :=
  match s with
  | c :: s' => if is_whitespace c then trim_start s' else s
  | [] => []
  end.
Definition trim (s : Text) : Text := reverse (trim_start (reverse (trim_start s))).

(** [s.strip_prefix("0x")] and [s.trim_start_matches("0x")], which strips it repeatedly. *)
Definition strip_0x (s : Text) : option Text :=
  match s with
  | 48 :: 120 :: s => Some s
  | _ => None
  end.
Fixpoint trim_start_0x (s : Text) : Text :=
  match s with
  | 48 :: 120 :: s' => trim_start_0x s'
  | _ => s
  end.

(** [iter.map(f).collect::<Result<Vec<_>, _>>()] *)
Fixpoint try_map {A B} (f : A → option B) (l : list A) : option (list B) :=
  match l with
  | [] => Some []
  | x :: l => y ← f x; ys ← try_map f l; Some (y :: ys)
  end.

(** Unix paths: [Path::is_absolute], [Path::join]. *)
Definition is_absolute (p : Path) : bool := bool_decide (head p = Some 47).
Definition path_join (p q : Path) : Path :=
  if is_absolute q then q
  else p ++ (if bool_decide (p = [] ∨ last p = Some 47) then [] else [47]) ++ q.

(** The files when the node starts. *)
Record Files := mk_files {
  read_to_string : Path → option Text;
  read_file : Path → option bytes;
}.

(** * Third-party interfaces *)

(** The entries of annotated_validators.yaml as they are written. *)
Record RawValidator := mk_raw_validator {
  rv_index : u64;
  rv_pubkey_hex : Text;
  rv_privkey_file : Path;
}.

(** hex; serde_yaml_ng, for the four files; the address 0.0.0.0. *)
Class ConfigLib `{SwarmLib} := {
  hex_decode : Text → option bytes;
  yaml_genesis : Text → option (u64 * list Text);
  yaml_enrs : Text → option (list bytes);
  yaml_validators : Text → option (gmap Text (list RawValidator));
  yaml_names : Text → option (list (Text * H256));
  ipv4_unspecified : IpAddr;
  peer_of_secret_key : SecretKey → PeerId;
}.

(** Why a node stops while it starts, other than by a panic. *)
Inductive NodeStop `{HttpClient} : Type :=
| ProcessExit (code : N)
| SyncFailed (e : CheckpointSyncError).

Section node.
Context `{ST : SszTypes} `{CO : Codecs} `{HS : Hashing} `{HO : HashOrder} `{SC : SignatureScheme} `{SN : Snappy} `{WC : WireCodecs}.
Context `{RL : RocksDBLib} `{SWL : SwarmLib} {NR : NodeRecordLib} {CL : ConfigLib} `{HC : HttpClient}.

Abbreviation Start := (M unit NodeStop).
Definition expect {A} (o : option A) : Start A := lift_partial (expect_some o).

(** * genesis.rs *)

(** [<[u8; 52]>::try_from(bytes)] *)
Definition pubkey_from_bytes (b : bytes) : option ValidatorPubkeyBytes := if len b =? 52 then Some b else None.

Definition deser_hex_pubkeys (hex_strings : list Text) : option (list ValidatorPubkeyBytes) :=
  try_map (λ s, let s := default s (strip_0x s) in b ← hex_decode s; pubkey_from_bytes b) hex_strings.

Definition parse_genesis_config (config_yaml : Text) : option GenesisConfig :=
  '(genesis_time, hex_strings) ← yaml_genesis config_yaml;
  genesis_validators ← deser_hex_pubkeys hex_strings;
  Some (mk_genesis_config genesis_time genesis_validators).

(** * main.rs: configuration files *)

Record AnnotatedValidator := mk_annotated_validator {
  av_index : u64;
  av_pubkey : ValidatorPubkeyBytes;
  av_privkey_file : Path;
}.

Definition deser_pubkey_hex (value : Text) : option ValidatorPubkeyBytes :=
  pubkey ← hex_decode value;
  pubkey_from_bytes pubkey.

Definition deser_validator (raw : RawValidator) : option AnnotatedValidator :=
  pubkey ← deser_pubkey_hex (rv_pubkey_hex raw);
  Some (mk_annotated_validator (rv_index raw) pubkey (rv_privkey_file raw)).

(** The typed map of annotated_validators.yaml: one bad entry fails it as a whole. *)
Definition parse_validators (validators_yaml : Text) : option (gmap Text (list AnnotatedValidator)) :=
  raw ← yaml_validators validators_yaml;
  parsed ← try_map (λ '(name, l), l ← try_map deser_validator l; Some (name, l)) (map_to_list raw);
  Some (list_to_map parsed).

Definition load_validator_key (fs : Files) (validator_keys_dir : Path) (keys : gmap u64 ValidatorSecretKey)
    (validator : AnnotatedValidator) : Start (gmap u64 ValidatorSecretKey) :=
  let secret_key_path :=
    if is_absolute (av_privkey_file validator) then av_privkey_file validator
    else path_join validator_keys_dir (av_privkey_file validator) in
  secret_key_bytes ← expect (read_file fs secret_key_path);
  secret_key ← match ValidatorSecretKey_from_bytes secret_key_bytes with
               | Some secret_key => mret secret_key
               | None => throw (ProcessExit 1)
               end;
  mret (<[av_index validator := secret_key]> keys).

Definition read_validator_keys (fs : Files) (validators_path validator_keys_dir : Path) (node_id : Text) :
    Start (gmap u64 ValidatorSecretKey) :=
  validators_yaml ← expect (read_to_string fs validators_path);
  validator_infos ← expect (parse_validators validators_yaml);
  validator_vec ← expect (validator_infos !! node_id);
  foldM (load_validator_key fs validator_keys_dir) ∅ validator_vec.

Definition read_hex_file_bytes (fs : Files) (path : Path) : Start bytes :=
  match read_to_string fs path with
  | None => throw (ProcessExit 1)
  | Some file_content =>
      let hex_string := trim_start_0x (trim file_content) in
      match hex_decode hex_string with
      | None => throw (ProcessExit 1)
      | Some b => mret b
      end
  end.

Definition read_bootnodes (fs : Files) (bootnodes_path : Path) : Start (list Bootnode) :=
  bootnodes_yaml ← expect (read_to_string fs bootnodes_path);
  enrs ← expect (yaml_enrs bootnodes_yaml);
  lift_partial (parse_enrs enrs).

(** [populate_name_registry] of main.rs and of metrics.rs: the names of the peers. *)
Definition name_registry (names_and_privkeys : gmap Text H256) : gmap PeerId Text :=
  list_to_map (omap (M := list) (λ '(name, privkey),
    sk ← SecretKey_try_from_bytes (H256_bytes privkey); Some (peer_of_secret_key sk, name))
    (reverse (hash_iter names_and_privkeys))).

Definition populate_name_registry (fs : Files) (validator_config : Path) : Start (gmap PeerId Text) :=
  config_yaml ← expect (read_to_string fs validator_config);
  validators ← expect (yaml_names config_yaml);
  mret (name_registry (foldl (λ m '(name, privkey), <[name := privkey]> m) ∅ validators)).

(** [metrics::resolve] *)
Definition resolve (registry : gmap PeerId Text) (peer_id : option PeerId) : Text :=
  default (text "unknown") (peer_id ≫= λ peer_id, registry !! peer_id).

(** * main.rs: start *)

(** The options that matter here; clap requires at least one committee. *)
Record CliOptions := mk_cli_options {
  custom_network_config_dir : Path;
  gossipsub_port : N;
  node_key : Path;
  node_id : Text;
  checkpoint_sync_url : option string;
  is_aggregator : bool;
  attestation_committee_count : u64;
}.

(** The actors with the messages that are already in their mailboxes, and the store the API
    server answers from. *)
Record Node := mk_node {
  n_blockchain : BlockChainServer (D := DB);
  n_blockchain_inbox : list Message;
  n_p2p : P2PServer (D := DB);
  n_p2p_inbox : list (P2PInput);
  n_store : Store DB;
  n_names : gmap PeerId Text;
}.

(** [validator_keys.keys().min().copied()] *)
Definition min_key (keys : list u64) : option u64 :=
  foldl (λ (o : option u64) (k : u64), match o with Some m => Some (if k <? m then k else m) | None => Some k end) None keys.

(** The errors of [fetch_initial_state]. *)
Definition sync {A} (m : M unit CheckpointSyncError A) : Start A := λ s,
  match m s with
  | Done s a => Done s a
  | Fail s e => Fail s (SyncFailed e)
  | Panicked => Panicked
  | Diverged => Diverged
  end.

Definition main (fs : Files) (disk : Disk) (options : CliOptions) : Start Node :=
  node_p2p_key ← read_hex_file_bytes fs (node_key options);
  let p2p_socket := (ipv4_unspecified, gossipsub_port options) in
  let dir := custom_network_config_dir options in
  let config_path := path_join dir (text "config.yaml") in
  let bootnodes_path := path_join dir (text "nodes.yaml") in
  let validators_path := path_join dir (text "annotated_validators.yaml") in
  let validator_config := path_join dir (text "validator-config.yaml") in
  let validator_keys_dir := path_join dir (text "hash-sig-keys") in
  config_yaml ← expect (read_to_string fs config_path);
  genesis_config ← expect (parse_genesis_config config_yaml);
  names ← populate_name_registry fs validator_config;
  bootnodes ← read_bootnodes fs bootnodes_path;
  validator_keys ← read_validator_keys fs validators_path validator_keys_dir (node_id options);
  backend ← expect (RocksDBBackend_open disk);
  store ← sync (fetch_initial_state (checkpoint_sync_url options) genesis_config backend);
  let first_validator_id := min_key (hash_iter validator_keys).*1 in
  let blockchain := spawn store validator_keys (is_aggregator options) in
  built ← lift_partial (build_swarm (mk_swarm_config node_p2p_key bootnodes p2p_socket first_validator_id
    (attestation_committee_count options) (is_aggregator options)));
  built ← expect (match built with inr built => Some built | inl _ => None end);
  let p2p := P2P_spawn built store in
  mret (mk_node blockchain [InitP2P] p2p [InitBlockChain] store names).

End node.
