(* ===== verification/NodeTheorems.v ===== *)
(** The theorems about the node binary: the keys it loads, and that a node that starts, from
    genesis or from a checkpoint, has actors in the states the other theorems start from. *)

From Stdlib Require Import Strings.Ascii Strings.String Strings.Byte.
From S2P Require Import Prelude Types StateTransition Reference StateInvariant Transitions ForkChoice.
From S2P Require Import Backend InMemory Keys Signatures PayloadBuffer Store Crypto StoreSpec StoreOps StorePruning StoreMaintenance Codec RocksDB.
From S2P Require Import ChainInvariant ChainStore ChainRefine ChainTheorems ChainServer ServerSpec ServerSteps ServerMessages ServerTheorems.
From S2P Require Import Wire WireCodec WireTheorems P2P P2PSpec P2PTheorems Swarm SwarmTheorems Rpc CheckpointSync SyncSpec SyncTheorems Node.

(** * Text *)

Definition all_whitespace (s : Text) : Prop := Forall (λ c, is_whitespace c = true) s.
Definition no_edge_whitespace (s : Text) : Prop :=
  (∀ c, head s = Some c → is_whitespace c = false) ∧ (∀ c, last s = Some c → is_whitespace c = false).

Lemma trim_start_app w s : all_whitespace w → (∀ c, head s = Some c → is_whitespace c = false) → trim_start (w ++ s) = s.
Proof.
  induction 1 as [|c w Hc _ IH]; intros Hs; cbn; [|rewrite Hc; by apply IH].
  destruct s as [|c s]; [done|]. cbn. by rewrite (Hs c eq_refl).
Qed.

(** Trimming removes the white space around a text that has none at its ends. *)
Lemma trim_padded w s w' : all_whitespace w → all_whitespace w' → s ≠ [] → no_edge_whitespace s → trim (w ++ s ++ w') = s.
Proof.
  intros Hw Hw' Hne [Hhead Hlast]. unfold trim. rewrite (trim_start_app w (s ++ w') Hw).
  - rewrite reverse_app, trim_start_app; [by rewrite reverse_involutive|by apply Forall_reverse|].
    intros c. rewrite head_reverse. apply Hlast.
  - destruct s as [|c s]; [done|]. intros c' [= <-]. by apply Hhead.
Qed.

(** The number of committees of the command line reaches the topics only: for the chain every
    validator is in one subnet, so an aggregator keeps the signatures of all of them. *)
Theorem committee_count_ignored local vid : local ≠ [] → in_our_subnet local vid = true.
Proof.
  intros Hne. unfold in_our_subnet. destruct local as [|v local]; [done|]. cbn. apply orb_true_iff. left. apply bool_decide_eq_true.
  assert (Hzero : ∀ x, compute_subnet_id x = to_u64 0); [|by rewrite !Hzero].
  intros x. apply u64_eq. unfold compute_subnet_id, u64_rem.
  assert (Hone : u64_val ATTESTATION_COMMITTEE_COUNT = 1) by (by vm_compute).
  rewrite Hone, N.mod_1_r. done.
Qed.

Section node.
Context `{STL : SszTypesLaws} `{CO : Codecs} {CL : CodecsLaws} `{HS : Hashing} {HL : HashingLaws} `{HOL : HashOrderLaws} `{MS : MultisigScheme}.
Context `{SNL : SnappyLaws} `{WL : WireLaws} `{RL : RocksDBLaws} `{SWL : SwarmLib} {NR : NodeRecordLib} {CFL : ConfigLib} `{HC : HttpClient}.
Context `{!P2PLibraries} {PLL : P2PLibrariesLaws}.

(** * Keys *)

Lemma strip_prefixes n hex : strip_0x hex = None → trim_start_0x (concat (replicate n (text "0x")) ++ hex) = hex.
Proof.
  intros Hhex. induction n as [|n IH]; [|exact IH].
  cbn. destruct hex as [|c [|c' hex]]; [done| |]; cbn in *; repeat (case_match; try done).
Qed.

(** A hex file, with white space around it and any number of prefixes 0x, gives its bytes;
    if the digits are malformed, the process exits with code 1. *)
Theorem read_hex_file_bytes_correct fs path w w' n hex :
  read_to_string fs path = Some (w ++ (concat (replicate n (text "0x")) ++ hex) ++ w') → all_whitespace w → all_whitespace w' →
  strip_0x hex = None → hex ≠ [] → no_edge_whitespace (concat (replicate n (text "0x")) ++ hex) →
  read_hex_file_bytes fs path tt = match hex_decode hex with Some b => Done tt b | None => Fail tt (ProcessExit 1) end.
Proof.
  intros Hfile Hw Hw' Hhex Hne Hedge. unfold read_hex_file_bytes.
  rewrite Hfile, trim_padded, strip_prefixes by (try done; intros Hnil; by apply app_nil in Hnil as [_ ?]).
  by destruct (hex_decode hex).
Qed.

(** The file of a validator's key, and the key in it. *)
Definition key_path (dir : Path) (v : AnnotatedValidator) : Path :=
  if is_absolute (av_privkey_file v) then av_privkey_file v else path_join dir (av_privkey_file v).
Definition key_of fs dir (v : AnnotatedValidator) : option ValidatorSecretKey :=
  b ← read_file fs (key_path dir v); ValidatorSecretKey_from_bytes b.

Lemma load_key_run fs dir keys v : is_Some (read_file fs (key_path dir v)) →
  load_validator_key fs dir keys v tt =
    match key_of fs dir v with Some sk => Done tt (<[av_index v := sk]> keys) | None => Fail tt (ProcessExit 1) end.
Proof.
  intros [b Hb]. unfold load_validator_key, key_of. fold (key_path dir v). cbv zeta. unfold expect.
  rewrite run_bind, run_lift_partial, Hb. cbn [expect_some mbind option_bind]. rewrite run_bind. by destruct (ValidatorSecretKey_from_bytes b).
Qed.

(** The keys of the node, when all their files can be read: exactly the validators listed
    under its name have a key, which comes from the file of an entry with that index; if one
    of them is malformed, the process exits with code 1. *)
Theorem read_validator_keys_correct fs path dir name infos l :
  read_to_string fs path ≫= parse_validators = Some infos → infos !! name = Some l →
  Forall (λ v, is_Some (read_file fs (key_path dir v))) l →
  (∃ keys, read_validator_keys fs path dir name tt = Done tt keys ∧
     (∀ vid, is_Some (keys !! vid) ↔ ∃ v, v ∈ l ∧ av_index v = vid) ∧
     (∀ vid sk, keys !! vid = Some sk → ∃ v, v ∈ l ∧ av_index v = vid ∧ key_of fs dir v = Some sk)) ∨
  (read_validator_keys fs path dir name tt = Fail tt (ProcessExit 1) ∧ ∃ v, v ∈ l ∧ key_of fs dir v = None).
Proof.
  intros Hparse Hl Hfiles. unfold read_validator_keys, expect.
  destruct (read_to_string fs path) as [yaml|] eqn:Hyaml; [|done]. cbn in Hparse.
  rewrite run_bind, run_lift_partial. cbn [expect_some]. rewrite run_bind, run_lift_partial, Hparse. cbn [expect_some].
  rewrite run_bind, run_lift_partial, Hl. cbn [expect_some]. clear Hparse Hl Hyaml.
  assert (Hgo : ∀ keys0, (∃ keys, foldM (load_validator_key fs dir) keys0 l tt = Done tt keys ∧
     (∀ vid, is_Some (keys !! vid) ↔ is_Some (keys0 !! vid) ∨ ∃ v, v ∈ l ∧ av_index v = vid) ∧
     (∀ vid sk, keys !! vid = Some sk → keys0 !! vid = Some sk ∨ ∃ v, v ∈ l ∧ av_index v = vid ∧ key_of fs dir v = Some sk)) ∨
   (foldM (load_validator_key fs dir) keys0 l tt = Fail tt (ProcessExit 1) ∧ ∃ v, v ∈ l ∧ key_of fs dir v = None)).
  { induction Hfiles as [|v l Hv _ IH]; intros keys0.
    - left. exists keys0. split; [done|]. split; [|auto]. intros vid. split; [by left|]. intros [?|(v & Hin & _)]; [done|by apply not_elem_of_nil in Hin].
    - cbn [foldM]. rewrite run_bind, load_key_run by done. destruct (key_of fs dir v) as [sk|] eqn:Hsk.
      + destruct (IH (<[av_index v := sk]> keys0)) as [(keys & Hrun & Hdom & Hkeys)|[Hrun (v' & Hin & Hno)]].
        * left. exists keys. split; [done|]. split.
          -- intros vid. rewrite Hdom, lookup_insert_is_Some'. setoid_rewrite elem_of_cons. naive_solver.
          -- intros vid sk' [Hk|(v' & Hin & Hv')]%Hkeys; [|right; exists v'; split; [by right|done]].
             apply lookup_insert_Some in Hk as [[<- <-]|[_ Hk]]; [right; exists v; split; [by left|done]|by left].
        * right. split; [done|]. exists v'. split; [by right|done].
      + right. split; [done|]. exists v. split; [by left|done]. }
  destruct (Hgo ∅) as [(keys & Hrun & Hdom & Hkeys)|Hfail]; [left|by right]. exists keys. split; [done|]. split.
  - intros vid. rewrite Hdom, lookup_empty. split; [intros [[? ?]|?]; done|by right].
  - intros vid sk [Hk|Hk]%Hkeys; [by rewrite lookup_empty in Hk|done].
Qed.

(** * The start *)

Lemma empty_contents db : rocksdb_ok db → (∀ t k, rocksdb_get db t k = Some None) → ∀ t, contents db t = ∅.
Proof.
  intros Hok Hempty t. apply map_eq. intros k. rewrite lookup_empty.
  pose proof (view_get_spec (StorageLaws := rocksdb_laws) db t k Hok) as Hget. cbn in Hget. rewrite Hempty in Hget. by injection Hget.
Qed.

Context (seen : BlockHeader → Prop) {HSeen : HeadersSeen seen} {HR : RankedHeaders seen}.

Definition in_dir (o : CliOptions) (name : string) : Path := path_join (custom_network_config_dir o) (text name).

(** The files of a node can be read and its database opened. *)
Record startup fs disk (o : CliOptions) key config bootnodes keys db : Prop := {
  su_key : read_hex_file_bytes fs (node_key o) tt = Done tt key;
  su_config : read_to_string fs (in_dir o "config.yaml") ≫= parse_genesis_config = Some config;
  su_names : ∃ names, populate_name_registry fs (in_dir o "validator-config.yaml") tt = Done tt names;
  su_bootnodes : read_bootnodes fs (in_dir o "nodes.yaml") tt = Done tt bootnodes;
  su_keys : read_validator_keys fs (in_dir o "annotated_validators.yaml") (in_dir o "hash-sig-keys") (node_id o) tt = Done tt keys;
  su_db : RocksDBBackend_open disk = Some db;
  su_healthy : healthy db;
}.

(** The configuration of the swarm, and the subnet of the node. *)
Definition swarm_config (o : CliOptions) key bootnodes (keys : gmap u64 ValidatorSecretKey) : SwarmConfig :=
  mk_swarm_config key bootnodes (ipv4_unspecified, gossipsub_port o) (min_key (hash_iter keys).*1)
    (attestation_committee_count o) (is_aggregator o).
Definition node_subnet (o : CliOptions) (keys : gmap u64 ValidatorSecretKey) : u64 :=
  to_u64 (match min_key (hash_iter keys).*1 with Some vid => u64_val vid mod u64_val (attestation_committee_count o) | None => 0 end).

(** The swarm can be built: dialing, listening and subscribing succeed. *)
Record network_up (o : CliOptions) key bootnodes keys : Prop := {
  nu_committees : 0 < u64_val (attestation_committee_count o);
  nu_swarm : ∃ secret swarm0 swarm addrs, SecretKey_try_from_bytes key = Some secret ∧
    new_swarm secret gossipsub_config [STATUS_PROTOCOL_V1; BLOCKS_BY_ROOT_PROTOCOL_V1] = Some swarm0 ∧
    addresses (others (local_peer_id swarm0) bootnodes) addrs ∧
    run_ops swarm0 (setup_ops (swarm_config o key bootnodes keys) addrs (node_subnet o keys)) = Some swarm;
}.

(** What the first messages leave behind: both actors are connected to each other, satisfy
    their invariants over the same store, and use the topics of the node's subnet. *)
Record started (anchor : N) (a : View) (o : CliOptions) keys (node : Node) : Prop := {
  sd_store : represents (n_store node) a;
  sd_blockchain : ∃ b, (ChainServer.for_each handle (n_blockchain_inbox node) : M _ Empty_set unit) (n_blockchain node) = Done b tt ∧
    server_core seen anchor b a ∧ queue_settled b a ∧ bc_p2p b = true ∧ bc_sent b = [] ∧
    km_keys (bc_key_manager b) = keys ∧ bc_is_aggregator b = is_aggregator o;
  sd_p2p env : ∃ q, (ChainServer.for_each (p2p_handle env) (n_p2p_inbox node) : M _ Empty_set unit) (n_p2p node) = Done q tt ∧
    store_ok q a ∧ attempts_ok q ∧ topics_ok q (node_subnet o keys) ∧ ps_blockchain q = true ∧
    ps_connected_peers q = ∅ ∧ ps_commands q = [];
}.

Lemma main_run fs disk o key config bootnodes keys db s :
  startup fs disk o key config bootnodes keys db → network_up o key bootnodes keys →
  fetch_initial_state (checkpoint_sync_url o) config db tt = Done tt s →
  ∃ names built, main fs disk o tt =
      Done tt (mk_node (spawn s keys (is_aggregator o)) [InitP2P] (P2P_spawn built s) [InitBlockChain] s names) ∧
    bs_block_topic built = topic_of BLOCK_TOPIC_KIND ∧ bs_aggregation_topic built = topic_of AGGREGATION_TOPIC_KIND ∧
    bs_attestation_topic built = topic_of (attestation_topic_kind (node_subnet o keys)).
Proof.
  intros [Hkey Hconfig [names Hnames] Hboot Hkeys Hdb _] [Hcount (secret & swarm0 & swarm & addrs & Hsecret & Hnew & Haddrs & Hops)] Hfetch.
  destruct (build_swarm_run (swarm_config o key bootnodes keys) secret swarm0 swarm addrs Hsecret Hnew Hcount Haddrs Hops)
    as (built & Hbuilt & _ & Hb & Hg & Ha & _).
  exists names, built. split_and!; [|done..]. unfold main. rewrite run_bind, Hkey. cbv zeta. fold (in_dir o "config.yaml").
  unfold expect. destruct (read_to_string fs (in_dir o "config.yaml")) as [yaml|]; [|done]. cbn in Hconfig.
  rewrite run_bind, run_lift_partial. cbn [expect_some]. rewrite run_bind, run_lift_partial, Hconfig. cbn [expect_some].
  rewrite run_bind. fold (in_dir o "validator-config.yaml"). rewrite Hnames, run_bind. fold (in_dir o "nodes.yaml"). rewrite Hboot, run_bind.
  fold (in_dir o "annotated_validators.yaml") (in_dir o "hash-sig-keys"). rewrite Hkeys, run_bind, run_lift_partial, Hdb. cbn [expect_some].
  rewrite run_bind. unfold sync at 1. rewrite Hfetch, run_bind, run_lift_partial. fold (swarm_config o key bootnodes keys).
  by rewrite Hbuilt.
Qed.

(** The actors over a fresh anchor store. *)
Lemma node_started names built s state o keys :
  represents s (anchor_view state None) → anchor_ok seen state →
  bs_block_topic built = topic_of BLOCK_TOPIC_KIND → bs_aggregation_topic built = topic_of AGGREGATION_TOPIC_KIND →
  bs_attestation_topic built = topic_of (attestation_topic_kind (node_subnet o keys)) →
  started (header_slot state) (anchor_view state None) o keys
    (mk_node (spawn s keys (is_aggregator o)) [InitP2P] (P2P_spawn built s) [InitBlockChain] s names).
Proof.
  intros Hr Hanchor Hb Hg Ha. set (a := anchor_view state None) in *.
  assert (Hc : server_core seen (header_slot state) (spawn s keys (is_aggregator o)) a).
  { apply spawn_core; [done|by apply anchor_chain_inv|by apply anchor_blocks_ok|]. intros r. apply lookup_empty. }
  split; cbn [n_store n_blockchain n_blockchain_inbox n_p2p n_p2p_inbox]; [done| |].
  - exists (set_p2p true (spawn s keys (is_aggregator o))). split; [done|]. split; [by destruct Hc|]. split_and!; try done.
    intros p [x Hx]. cbn in Hx. by rewrite lookup_empty in Hx.
  - intros env. exists (set_blockchain true (P2P_spawn built s)). split; [done|]. split_and!; try done.
    split; [done|]. unfold a, anchor_view. cbn. rewrite lookup_singleton_eq. by eexists.
Qed.

(** C22. A node without a checkpoint URL, over an empty database, starts from the genesis state of
    its configuration: both actors are connected, satisfy their invariants over the store of
    the genesis block, hold the node's keys, and publish on its topics. *)
Theorem node_starts_at_genesis fs disk o key config bootnodes keys db :
  startup fs disk o key config bootnodes keys db → network_up o key bootnodes keys → checkpoint_sync_url o = None →
  (∀ t k, rocksdb_get db t k = Some None) →
  gc_genesis_validators config ≠ [] → len (gc_genesis_validators config) <= VALIDATOR_REGISTRY_LIMIT →
  (∀ state, from_genesis (gc_genesis_time config) (genesis_validators config) = Return state →
    seen (header_of (anchored_state state))) →
  ∃ node state, main fs disk o tt = Done tt node ∧
    from_genesis (gc_genesis_time config) (genesis_validators config) = Return state ∧
    started 0 (anchor_view state None) o keys node.
Proof.
  intros Hstart Hnet Hurl Hempty Hne Hlimit Hseen. pose proof (open_ok _ _ (su_db _ _ _ _ _ _ _ _ Hstart) (su_healthy _ _ _ _ _ _ _ _ Hstart)) as Hok.
  destruct (genesis_started (SL := rocksdb_laws) seen config db tt Hok (empty_contents db Hok Hempty) Hne Hlimit Hseen)
    as (s & state & Hfetch & Hstate & Hr & Hanchor & Hslot).
  rewrite <- Hurl in Hfetch. destruct (main_run _ _ _ _ _ _ _ _ s Hstart Hnet Hfetch) as (names & built & Hrun & Hb & Hg & Ha).
  eexists _, state. split; [exact Hrun|]. split; [done|]. rewrite <- Hslot. by apply node_started.
Qed.

(** A node with a checkpoint URL starts from the finalized state of the peer it asks, if the
    peer's store satisfies the invariant of a chain with the same genesis: its actors are
    connected and satisfy their invariants over a store that starts at that checkpoint. *)
Theorem node_starts_from_checkpoint `{SL : StorageLaws D B} `{!Serialize Checkpoint, !Serialize ForkChoiceResponse}
    anchor (server : Store D) a st url fs disk o key config bootnodes keys db :
  startup fs disk o key config bootnodes keys db → network_up o key bootnodes keys → checkpoint_sync_url o = Some url →
  (∀ t k, rocksdb_get db t k = Some None) →
  represents server a → chain_inv seen anchor a → processed a (cp_root (vw_finalized a)) st → 0 < cp_slot (vw_finalized a) →
  cc_genesis_time (st_config st) = gc_genesis_time config → st_validators st = genesis_validators config →
  (∀ response, get_latest_finalized_state server = Return response → http_get url = inr (rs_body response)) →
  ∃ node a', main fs disk o tt = Done tt node ∧ started (cp_slot (vw_finalized a)) a' o keys node ∧
    vw_finalized a' = vw_finalized a.
Proof.
  intros Hstart Hnet Hurl Hempty Hr Hi Hst Hpos Htime Hvals Hget.
  pose proof (open_ok _ _ (su_db _ _ _ _ _ _ _ _ Hstart) (su_healthy _ _ _ _ _ _ _ _ Hstart)) as Hok.
  pose proof (Hget _ (finalized_state_served server a st Hr Hst)) as Hbody. cbn [ssz_response rs_body] in Hbody.
  destruct (checkpoint_synced (SL := rocksdb_laws) seen anchor a st config url db tt Hi Hst Hpos Htime Hvals Hok (empty_contents db Hok Hempty) Hbody)
    as (s & Hfetch & Hr' & Hanchor & Hslot & Hroot & Hseal).
  rewrite <- Hurl in Hfetch. destruct (main_run _ _ _ _ _ _ _ _ s Hstart Hnet Hfetch) as (names & built & Hrun & Hb & Hg & Ha).
  eexists _, _. split; [exact Hrun|]. split; [|by apply (served_checkpoint a st)]. rewrite <- Hslot. by apply node_started.
Qed.
End node.

(** * A concrete node *)

Module NodeSample.
Import ChainSample P2PSample RocksSample.

#[local] Existing Instances reference_ssz_types reference_ssz_types_laws reference_codecs reference_codecs_laws
  reference_hashing reference_hashing_laws reference_scheme reference_scheme_laws reference_multisig
  reference_multisig_laws reference_order canonical_order_laws reference_snappy reference_snappy_laws reference_wire
  reference_wire_laws sample_libp2p sample_libraries sample_libraries_laws reference_rocksdb reference_rocksdb_laws.

(** A swarm that records what it is asked; the key of a peer is its identifier. *)
Record SampleSwarm := mk_sample_swarm { ss_local : N; ss_log : list (N * string) }.
Definition log (s : SampleSwarm) (x : N * string) : SampleSwarm := mk_sample_swarm (ss_local s) (ss_log s ++ [x]).

#[local] Instance sample_swarm : SwarmLib := {|
  SecretKey := N; PublicKey := N; IpAddr := N; Swarm := SampleSwarm;
  SecretKey_try_from_bytes b := if len b =? 32 then Some (be_val b) else None;
  PeerId_from_public_key k := k;
  quic_multiaddr ip port := ip * 65536 + port;
  with_p2p addr p := Some (addr * 65536 + p);
  new_swarm k _ _ := Some (mk_sample_swarm k []);
  local_peer_id s := ss_local s;
  swarm_dial s addr := (log s (addr, "dial"%string), true);
  swarm_listen_on s addr := (log s (addr, "listen"%string), true);
  gossipsub_subscribe s t := (log s (0, t), true);
  gossipsub_publish s t _ := (s, true);
  req_resp_send_request s _ _ _ := (s, 0);
  req_resp_send_response s _ _ := (s, true);
|}.

(** Records of three bytes: the last of the address, the port, the key. *)
#[local] Instance sample_records : NodeRecordLib := {|
  base64_decode b := b;
  NodeRecord_decode b := match b with
    | [ip; port; key] => Some [(list_byte_of_string "quic", [port]); (list_byte_of_string "ip", [ip]); (list_byte_of_string "secp256k1", [key])]
    | _ => None
    end;
  H264_decode b := Some b;
  u16_decode b := Some (be_val b);
  Ipv4Addr_decode b := Some (be_val b);
  Ipv6Addr_decode b := None;
  secp256k1_PublicKey_try_from_bytes b := Some (be_val b);
|}.

Definition hex_digit (c : N) : option N :=
  if (48 <=? c) && (c <=? 57) then Some (c - 48) else if (97 <=? c) && (c <=? 102) then Some (c - 87) else None.
Fixpoint sample_hex (s : Text) : option bytes :=
  match s with
  | [] => Some []
  | a :: b :: s => x ← hex_digit a; y ← hex_digit b; z ← Byte.of_N (16 * x + y); l ← sample_hex s; Some (z :: l)
  | _ => None
  end.

Definition pubkey_hex : Text := concat (replicate 52 (text "07")).

#[local] Instance sample_config : ConfigLib := {|
  hex_decode := sample_hex;
  yaml_genesis t := if bool_decide (t = text "genesis") then Some (to_u64 1000, [pubkey_hex; text "0x" ++ pubkey_hex; pubkey_hex]) else None;
  yaml_enrs t := if bool_decide (t = text "nodes") then
    Some [list_byte_of_string "enr:" ++ [x01; x02; x03]; list_byte_of_string "enr:" ++ [x04; x05; x06]] else None;
  yaml_validators t := if bool_decide (t = text "validators")
    then Some {[ text "a" := [mk_raw_validator (to_u64 4) pubkey_hex (text "k4"); mk_raw_validator (to_u64 2) pubkey_hex (text "/k2")] ]} else None;
  yaml_names t := if bool_decide (t = text "names") then Some [] else None;
  ipv4_unspecified := 0;
  peer_of_secret_key k := k;
|}.

#[local] Instance no_client : HttpClient := {| HttpError := unit; http_get := λ _, inl tt |}.

Definition fs : Files :=
  let read (l : list (string * string)) (p : Path) := snd <$> List.find (λ x, bool_decide (text x.1 = p)) l in
  mk_files (λ p, text <$> read [("/net/config.yaml", "genesis"); ("/net/nodes.yaml", "nodes"); ("/net/annotated_validators.yaml", "validators");
      ("/net/validator-config.yaml", "names"); ("/key", " 0x0000000000000000000000000000000000000000000000000000000000000003 ")]%string p)
    (λ p, (λ _, []) <$> read [("/net/hash-sig-keys/k4", ""); ("/k2", "")]%string p).
Definition empty_disk : @Disk reference_rocksdb := (∅ : gmap string (gmap bytes bytes)).
Definition options : CliOptions := mk_cli_options (text "/net") 9000 (text "/key") (text "a") None true (to_u64 3).

(** What the files say. *)
Definition node_key_bytes : bytes := repeat x00 31 ++ [x03].
Definition config : GenesisConfig := mk_genesis_config (to_u64 1000) (replicate 3 (repeat x07 52)).
Definition bootnodes : list Bootnode := [mk_bootnode 1 2 3; mk_bootnode 4 5 6].
Definition node_keys : gmap u64 ValidatorSecretKey :=
  <[to_u64 2 := mk_validator_secret_key (H := reference_scheme) []]> {[ to_u64 4 := mk_validator_secret_key (H := reference_scheme) [] ]}.

#[local] Instance sample_key_eq_dec : EqDecision ValidatorSecretKey.
Proof. intros [x] [y]. destruct (decide ((x : bytes) = y)) as [->|Hne]; [by left|right; congruence]. Defined.

Lemma returns_keys (r : outcome unit NodeStop (gmap u64 ValidatorSecretKey)) keys :
  match r with Done _ k => bool_decide (k = keys) | _ => false end = true → r = Done tt keys.
Proof. destruct r as [[] k| | |]; try done. by intros ->%bool_decide_eq_true. Qed.

Lemma sample_startup : startup fs empty_disk options node_key_bytes config bootnodes node_keys fresh.
Proof.
  split.
  - by vm_compute.
  - by vm_compute.
  - eexists. by vm_compute.
  - by vm_compute.
  - apply returns_keys. by vm_compute.
  - exact fresh_opens.
  - exact I.
Qed.

Definition secret : @SecretKey sample_libp2p sample_swarm := 3.
Definition first_swarm : @Swarm sample_libp2p sample_swarm := mk_sample_swarm 3 [].

(** The node itself is not dialed; its subnet is that of validator 2. *)
Lemma sample_network : network_up options node_key_bytes bootnodes node_keys.
Proof.
  split; [by vm_compute|]. exists secret, first_swarm. eexists _, [_]. split; [by vm_compute|]. split; [done|]. split.
  - change (others (local_peer_id first_swarm) bootnodes) with [mk_bootnode (SL := sample_swarm) 4 5 6]. constructor; [reflexivity|constructor].
  - reflexivity.
Qed.

(** The genesis header is the only one that may reach the node. *)
Definition genesis_state : State := match from_genesis (gc_genesis_time config) (genesis_validators config) with Return s => s | _ => genesis end.
Definition genesis_header : BlockHeader := header_of (anchored_state genesis_state).
Definition only (h : BlockHeader) : Prop := h = genesis_header.

Lemma genesis_root_nonzero : bool_decide (h256_val (tree_hash_root genesis_header) = 0) = false.
Proof. by vm_compute. Qed.

Lemma only_nonzero h : only h → tree_hash_root h ≠ H256_ZERO.
Proof. intros -> Heq. pose proof genesis_root_nonzero as Hz. by rewrite Heq in Hz. Qed.

#[local] Instance only_seen : HeadersSeen only.
Proof. split; [by intros h1 h2 -> ->|exact only_nonzero]. Qed.

Lemma only_rank h : only h → ((λ r, if decide (r = H256_ZERO) then 0 else 1) (bh_parent_root h) < (λ r, if decide (r = H256_ZERO) then 0 else 1) (tree_hash_root h))%nat.
Proof.
  intros Hh. cbv beta. rewrite (decide_False (P := tree_hash_root h = H256_ZERO)) by (by apply only_nonzero).
  rewrite Hh. change (bh_parent_root genesis_header) with H256_ZERO. rewrite decide_True by done. lia.
Qed.

#[local] Instance only_ranked : RankedHeaders only := {| rank := _; rank_parent := only_rank |}.

Lemma sample_genesis : from_genesis (gc_genesis_time config) (genesis_validators config) = Return genesis_state.
Proof. by vm_compute. Qed.

Lemma node_starts_at_genesis_witness : ∃ node, main fs empty_disk options tt = Done tt node ∧
  started only 0 (anchor_view genesis_state None) options node_keys node ∧ node_subnet options node_keys = to_u64 2.
Proof.
  destruct (node_starts_at_genesis (RL := reference_rocksdb_laws) only fs empty_disk options node_key_bytes config bootnodes
    node_keys fresh sample_startup sample_network) as (node & state & Hrun & Hstate & Hstarted).
  - reflexivity.
  - intros t k. destruct t; reflexivity.
  - discriminate.
  - by vm_compute.
  - intros state. rewrite sample_genesis. by intros [= <-].
  - rewrite sample_genesis in Hstate. injection Hstate as <-. exists node. split; [exact Hrun|split; [exact Hstarted|by vm_compute]].
Defined.

Lemma build_swarm_correct_witness : ∃ built, build_swarm (swarm_config options node_key_bytes bootnodes node_keys) = Return (inr built) ∧
  bs_attestation_topic built = "/leanconsensus/devnet0/attestation_2/ssz_snappy"%string.
Proof.
  destruct (build_swarm_correct (swarm_config options node_key_bytes bootnodes node_keys) secret first_swarm
    (fst (gossipsub_subscribe (fst (gossipsub_subscribe (fst (gossipsub_subscribe (fst (swarm_listen_on (fst (swarm_dial first_swarm
      (default 0 (bootnode_addr (SL := sample_swarm) (mk_bootnode (SL := sample_swarm) 4 5 6))))) 9000))
      (topic_of BLOCK_TOPIC_KIND))) (topic_of AGGREGATION_TOPIC_KIND))) (topic_of (attestation_topic_kind (to_u64 2)))))
    [default 0 (bootnode_addr (SL := sample_swarm) (mk_bootnode (SL := sample_swarm) 4 5 6))])
    as (built & Hrun & _ & _ & _ & Ha & _).
  - by vm_compute.
  - reflexivity.
  - by vm_compute.
  - change (others (local_peer_id first_swarm) (sc_bootnodes (swarm_config options node_key_bytes bootnodes node_keys)))
      with [mk_bootnode (SL := sample_swarm) 4 5 6]. constructor; [reflexivity|constructor].
  - by vm_compute.
  - exists built. split; [exact Hrun|]. rewrite Ha. by vm_compute.
Defined.

(** ** The adapter: a command, an event, and the end *)

(** A channel as the list of its elements. *)
#[local] Instance list_channel : UnboundedChannel := {|
  Chan := list;
  chan_new := λ A, [];
  chan_send := λ A c x, c ++ [x];
  chan_recv := λ A c, match c with [] => None | x :: c => Some (x, c) end;
|}.
#[local] Program Instance list_channel_laws : UnboundedChannelLaws := {| queued := λ A (c : list A), c |}.
Next Obligation. reflexivity. Qed.
Next Obligation. reflexivity. Qed.
Next Obligation. intros A [|x c]; reflexivity. Qed.

Definition quiet_swarm (s : @Swarm sample_libp2p sample_swarm) (e : option SwarmEvent) (s' : @Swarm sample_libp2p sample_swarm) : Prop := s' = s.
Definition queues s (cmds : list SwarmCommand) (events : list SwarmEvent) : @Adapter sample_libp2p sample_swarm list_channel :=
  mk_adapter (UC := list_channel) s cmds events true true true.
Definition dial5 : @SwarmCommand sample_libp2p := Dial 5.
Definition publish7 : @SwarmCommand sample_libp2p := Publish "blocks" [].
Definition dialed : @Swarm sample_libp2p sample_swarm := fst (swarm_dial first_swarm 5).
Definition published : @Swarm sample_libp2p sample_swarm := fst (gossipsub_publish dialed "blocks" []).

Lemma sample_run : adapter_run quiet_swarm (start_swarm_adapter first_swarm)
  [Sent dial5; Sent publish7; Yielded OtherSwarmEvent; Executed dial5 None; Delivered OtherSwarmEvent; Executed publish7 None]
  (queues published [] []).
Proof.
  apply (run_snoc quiet_swarm _ [_; _; _; _; _] (queues dialed [publish7] [])); [|by apply step_command].
  apply (run_snoc quiet_swarm _ [_; _; _; _] (queues dialed [publish7] [OtherSwarmEvent])); [|by apply step_deliver].
  apply (run_snoc quiet_swarm _ [_; _; _] (queues first_swarm [dial5; publish7] [OtherSwarmEvent])); [|by apply step_command].
  apply (run_snoc quiet_swarm _ [_; _] (queues first_swarm [dial5; publish7] [])); [|exact (step_event (UC := list_channel) quiet_swarm first_swarm first_swarm _ _ true OtherSwarmEvent eq_refl)].
  apply (run_snoc quiet_swarm _ [_] (queues first_swarm [dial5] [])); [|exact (step_send (UC := list_channel) quiet_swarm _ _ _ _ _)].
  apply (run_snoc quiet_swarm _ [] (start_swarm_adapter first_swarm)); [constructor|exact (step_send (UC := list_channel) quiet_swarm _ _ _ _ _)].
Qed.

Lemma adapter_fifo_witness :
  swarm_history quiet_swarm first_swarm
    [Sent dial5; Sent publish7; Yielded OtherSwarmEvent; Executed dial5 None; Delivered OtherSwarmEvent; Executed publish7 None] published ∧
  omap (M := list) sent_of
    [Sent dial5; Sent publish7; Yielded OtherSwarmEvent; Executed dial5 None; Delivered OtherSwarmEvent; Executed publish7 None] =
    [dial5; publish7].
Proof.
  destruct (adapter_fifo quiet_swarm first_swarm _ _ sample_run) as (Hswarm & Hsent & _).
  split; [exact Hswarm|exact Hsent].
Defined.

End NodeSample.
