(* ===== verification/Fixtures.v ===== *)
(** The data types of the test vectors and their conversion to the consensus types
    (crates/common/test-fixtures/src/lib.rs). Parsing JSON is left to serde, but for the
    public keys, whose parser is the crate's own. *)

From S2P Require Import Prelude Types StateTransition StateInvariant JustifiedSlots Reference Tallies BlockProcessing Attestations Transitions.
From S2P Require Import Backend Keys Signatures PayloadBuffer Store Crypto ChainStore ChainServer Wire P2P Swarm RocksDB CheckpointSync Node.

(** * The types *)

Record Container (A : Type) := mk_container { ct_data : list A }.
Arguments mk_container {A} _.
Arguments ct_data {A} _.

Record TestConfig := mk_test_config { tcf_genesis_time : u64 }.
Record TestCheckpoint := mk_test_checkpoint { tcp_root : H256; tcp_slot : u64 }.
Record TestBlockHeader := mk_test_block_header {
  tbh_slot : u64;
  tbh_proposer_index : u64;
  tbh_parent_root : H256;
  tbh_state_root : H256;
  tbh_body_root : H256;
}.
Record TestValidator := mk_test_validator { tv_index : u64; tv_pubkey : ValidatorPubkeyBytes }.

Record TestState := mk_test_state {
  ts_config : TestConfig;
  ts_slot : u64;
  ts_latest_block_header : TestBlockHeader;
  ts_latest_justified : TestCheckpoint;
  ts_latest_finalized : TestCheckpoint;
  ts_historical_block_hashes : Container H256;
  ts_justified_slots : Container u64;
  ts_validators : Container TestValidator;
  ts_justifications_roots : Container H256;
  ts_justifications_validators : Container bool;
}.

Record TestAttestationData := mk_test_attestation_data {
  tad_slot : u64;
  tad_head : TestCheckpoint;
  tad_target : TestCheckpoint;
  tad_source : TestCheckpoint;
}.
Record TestAggregationBits := mk_test_aggregation_bits { tab_data : list bool }.
Record TestAggregatedAttestation := mk_test_aggregated_attestation {
  taa_aggregation_bits : TestAggregationBits;
  taa_data : TestAttestationData;
}.
Record TestBlockBody := mk_test_block_body { tbb_attestations : Container TestAggregatedAttestation }.
Record TestBlock := mk_test_block {
  tb_slot : u64;
  tb_proposer_index : u64;
  tb_parent_root : H256;
  tb_state_root : H256;
  tb_body : TestBlockBody;
}.

(** * The conversions *)

Definition into_ChainConfig (value : TestConfig) : ChainConfig := {| cc_genesis_time := tcf_genesis_time value |}.

Definition into_Checkpoint (value : TestCheckpoint) : Checkpoint :=
  {| cp_root := tcp_root value; cp_slot := tcp_slot value |}.

Definition into_BlockHeader (value : TestBlockHeader) : BlockHeader := {|
  bh_slot := tbh_slot value;
  bh_proposer_index := tbh_proposer_index value;
  bh_parent_root := tbh_parent_root value;
  bh_state_root := tbh_state_root value;
  bh_body_root := tbh_body_root value;
|}.

Definition into_Validator (value : TestValidator) : Validator :=
  {| v_pubkey := tv_pubkey value; v_index := tv_index value |}.

Definition into_AttestationData (value : TestAttestationData) : AttestationData := {|
  ad_slot := tad_slot value;
  ad_head := into_Checkpoint (tad_head value);
  ad_target := into_Checkpoint (tad_target value);
  ad_source := into_Checkpoint (tad_source value);
|}.

Section conversions.
Context `{ST : SszTypes}.

Definition into_State (value : TestState) : partial State :=
  historical_block_hashes ← expect_some
    (variable_list_new HISTORICAL_ROOTS_LIMIT (ct_data (ts_historical_block_hashes value)));
  validators ← expect_some
    (variable_list_new VALIDATOR_REGISTRY_LIMIT (into_Validator <$> ct_data (ts_validators value)));
  justifications_roots ← expect_some
    (variable_list_new HISTORICAL_ROOTS_LIMIT (ct_data (ts_justifications_roots value)));
  justified_slots ← expect_some (bitlist_with_capacity HISTORICAL_ROOTS_LIMIT 0);
  justifications_validators ← expect_some (bitlist_with_capacity JUSTIFICATION_VALIDATORS_LIMIT 0);
  Return {|
    st_config := into_ChainConfig (ts_config value);
    st_slot := ts_slot value;
    st_latest_block_header := into_BlockHeader (ts_latest_block_header value);
    st_latest_justified := into_Checkpoint (ts_latest_justified value);
    st_latest_finalized := into_Checkpoint (ts_latest_finalized value);
    st_historical_block_hashes := historical_block_hashes;
    st_justified_slots := justified_slots;
    st_validators := validators;
    st_justifications_roots := justifications_roots;
    st_justifications_validators := justifications_validators;
  |}.

Definition into_AggregationBits (value : TestAggregationBits) : partial AggregationBits :=
  bits ← expect_some (bitlist_with_capacity VALIDATOR_REGISTRY_LIMIT (len (tab_data value)));
  fold_partial (λ bits '(i, b), expect_some (bitlist_set bits (N.of_nat i) b)) bits
    (imap pair (tab_data value)).

Definition into_AggregatedAttestation (value : TestAggregatedAttestation) : partial AggregatedAttestation :=
  aggregation_bits ← into_AggregationBits (taa_aggregation_bits value);
  Return {| aa_aggregation_bits := aggregation_bits; aa_data := into_AttestationData (taa_data value) |}.

Definition into_BlockBody (value : TestBlockBody) : partial BlockBody :=
  attestations ← map_partial into_AggregatedAttestation (ct_data (tbb_attestations value));
  attestations ← expect_some (variable_list_new VALIDATOR_REGISTRY_LIMIT attestations);
  Return {| bb_attestations := attestations |}.

Definition into_Block (value : TestBlock) : partial Block :=
  body ← into_BlockBody (tb_body value);
  Return {|
    b_slot := tb_slot value;
    b_proposer_index := tb_proposer_index value;
    b_parent_root := tb_parent_root value;
    b_state_root := tb_state_root value;
    b_body := body;
  |}.

End conversions.

(** The crate's [deser_pubkey_hex]: the prefix 0x is optional. *)
Definition test_deser_pubkey_hex `{ConfigLib} (value : Text) : option ValidatorPubkeyBytes :=
  pubkey ← hex_decode (default value (strip_0x value));
  pubkey_from_bytes pubkey.

(** * Test vectors of consensus values *)

Definition as_test_checkpoint (c : Checkpoint) : TestCheckpoint := mk_test_checkpoint (cp_root c) (cp_slot c).
Definition as_test_header (h : BlockHeader) : TestBlockHeader :=
  mk_test_block_header (bh_slot h) (bh_proposer_index h) (bh_parent_root h) (bh_state_root h) (bh_body_root h).
Definition as_test_validator (v : Validator) : TestValidator := mk_test_validator (v_index v) (v_pubkey v).
Definition as_test_data (d : AttestationData) : TestAttestationData :=
  mk_test_attestation_data (ad_slot d) (as_test_checkpoint (ad_head d)) (as_test_checkpoint (ad_target d))
    (as_test_checkpoint (ad_source d)).
Definition as_test_attestation (a : AggregatedAttestation) : TestAggregatedAttestation :=
  mk_test_aggregated_attestation (mk_test_aggregation_bits (aa_aggregation_bits a)) (as_test_data (aa_data a)).
Definition as_test_block (b : Block) : TestBlock :=
  mk_test_block (b_slot b) (b_proposer_index b) (b_parent_root b) (b_state_root b)
    (mk_test_block_body (mk_container (as_test_attestation <$> bb_attestations (b_body b)))).

(** The vector of a state; [slots] lists its justified slots. *)
Definition as_test_state (slots : list u64) (s : State) : TestState := {|
  ts_config := mk_test_config (cc_genesis_time (st_config s));
  ts_slot := st_slot s;
  ts_latest_block_header := as_test_header (st_latest_block_header s);
  ts_latest_justified := as_test_checkpoint (st_latest_justified s);
  ts_latest_finalized := as_test_checkpoint (st_latest_finalized s);
  ts_historical_block_hashes := mk_container (st_historical_block_hashes s);
  ts_justified_slots := mk_container slots;
  ts_validators := mk_container (as_test_validator <$> st_validators s);
  ts_justifications_roots := mk_container (st_justifications_roots s);
  ts_justifications_validators := mk_container (st_justifications_validators s);
|}.

(** The bits and attestations of a block fit the types. *)
Definition fits_types (b : Block) : Prop :=
  len (bb_attestations (b_body b)) <= VALIDATOR_REGISTRY_LIMIT ∧
  Forall (λ a, len (aa_aggregation_bits a) <= VALIDATOR_REGISTRY_LIMIT) (bb_attestations (b_body b)).

(** [s] without its justified slots and votes. *)
Definition stripped (s : State) : State :=
  set_justified_slots [] (set_justifications (st_justifications_roots s) [] s).

Section fixtures.
Context `{STL : SszTypesLaws}.

Lemma set_all_bits (l : list bool) m :
  fold_partial (λ bits '(i, b), expect_some (bitlist_set bits (N.of_nat i) b))
    (replicate (length l + m) false) (imap pair l) = Return (l ++ replicate m false).
Proof.
  revert m. induction l as [|b l IH] using rev_ind; intros m; [done|].
  rewrite imap_app, fold_partial_app, length_app. cbn [length imap].
  rewrite <- Nat.add_assoc, IH. cbn. unfold compose. rewrite Nat.add_0_r, bitlist_set_spec.
  rewrite (proj2 (N.ltb_lt _ _)) by (autorewrite with len; unfold len; lia). cbn.
  rewrite Nat2N.id, insert_app_r_alt, Nat.sub_diag by done. cbn. by rewrite <- (assoc_L (++)).
Qed.

Lemma into_AggregationBits_spec (bits : list bool) :
  into_AggregationBits (mk_test_aggregation_bits bits) =
    if len bits <=? VALIDATOR_REGISTRY_LIMIT then Return bits else Panic.
Proof.
  unfold into_AggregationBits. cbn [tab_data]. rewrite bitlist_with_capacity_spec.
  destruct (_ <=? _); [|done]. cbn [expect_some mbind partial_bind].
  replace (N.to_nat (len bits)) with (length bits + 0)%nat by (unfold len; lia).
  by rewrite set_all_bits, app_nil_r.
Qed.

Lemma into_data_inv d : into_AttestationData (as_test_data d) = d.
Proof. by destruct d as [? [] [] []]. Qed.

Lemma into_attestation_spec a :
  into_AggregatedAttestation (as_test_attestation a) =
    if len (aa_aggregation_bits a) <=? VALIDATOR_REGISTRY_LIMIT then Return a else Panic.
Proof.
  destruct a as [bits d]. unfold into_AggregatedAttestation, as_test_attestation.
  cbn [taa_aggregation_bits taa_data aa_aggregation_bits aa_data].
  rewrite into_AggregationBits_spec, into_data_inv. by destruct (_ <=? _).
Qed.

(** A block survives its test vector exactly when its lists fit their types; otherwise
    loading it panics. *)
Theorem test_block_roundtrip b :
  (fits_types b → into_Block (as_test_block b) = Return b) ∧
  (¬ fits_types b → into_Block (as_test_block b) = Panic).
Proof.
  destruct b as [slot proposer parent root [atts]]. unfold fits_types, into_Block, into_BlockBody.
  cbn [as_test_block tb_body tbb_attestations ct_data b_body bb_attestations].
  assert (Hmap : (Forall (λ a, len (aa_aggregation_bits a) <= VALIDATOR_REGISTRY_LIMIT) atts ∧
      map_partial into_AggregatedAttestation (as_test_attestation <$> atts) = Return atts) ∨
    (¬ Forall (λ a, len (aa_aggregation_bits a) <= VALIDATOR_REGISTRY_LIMIT) atts ∧
      map_partial into_AggregatedAttestation (as_test_attestation <$> atts) = Panic)).
  { induction atts as [|a atts IH]; [by left|]. rewrite Forall_cons. cbn [fmap list_fmap map_partial].
    rewrite into_attestation_spec. destruct (N.leb_spec (len (aa_aggregation_bits a)) VALIDATOR_REGISTRY_LIMIT) as [Hle|Hlt].
    - cbn [mbind partial_bind]. destruct IH as [[Hall ->]|[Hno ->]]; [by left|right]. split; [by intros []|done].
    - right. split; [|done]. intros [? _]. lia. }
  destruct Hmap as [[Hall ->]|[Hno ->]]; [|split; [by intros []|done]].
  cbn [mbind partial_bind]. rewrite variable_list_new_spec.
  destruct (N.leb_spec (len atts) VALIDATOR_REGISTRY_LIMIT); split; cbn; [done|by intros []|by intros []; lia|done].
Qed.

(** Loading a state forgets its justified slots and its votes, whatever the vector says. *)
Lemma test_state_loaded slots s :
  state_wf s → into_State (as_test_state slots s) = Return (stripped s).
Proof.
  intros [Hc Ht]. pose proof (wf_hist_limit s Hc). pose proof (wf_validators s Hc) as [_ Hv].
  assert (Hroots : len (st_justifications_roots s) <= HISTORICAL_ROOTS_LIMIT).
  { etrans; [apply (candidates_bounded s); apply Ht|done]. }
  assert (Hvals : into_Validator <$> (as_test_validator <$> st_validators s) = st_validators s).
  { rewrite <- list_fmap_compose. rewrite <- (list_fmap_id (st_validators s)) at 2.
    apply list_fmap_ext. by intros _ [] _. }
  unfold into_State. cbn [as_test_state ts_historical_block_hashes ts_validators ts_justifications_roots ct_data].
  rewrite Hvals, !variable_list_new_spec, !bitlist_with_capacity_spec.
  rewrite !(proj2 (N.leb_le _ _)) by (done || unfold JUSTIFICATION_VALIDATORS_LIMIT, HISTORICAL_ROOTS_LIMIT; lia).
  cbn. by destruct s as [[] ? [] [] [] ? ? ? ? ?].
Qed.

(** A well-formed state is loaded as a well-formed state exactly when there are no pending
    votes and every slot before its block is finalized: the vector's justified slots and
    votes are not read. *)
Theorem test_state_wf slots s :
  state_wf s →
  ∃ loaded, into_State (as_test_state slots s) = Return loaded ∧
    (state_wf loaded ↔ st_justifications_roots s = [] ∧ header_slot s - 1 <= fin_slot s).
Proof.
  intros Hwf. exists (stripped s). split; [by apply test_state_loaded|]. destruct Hwf as [Hc Ht]. split.
  - intros [Hc' Ht']. split.
    + pose proof (wf_votes_len _ Ht') as Hl. pose proof (wf_validators s Hc). unfold stripped in Hl. cbn in Hl.
      destruct (st_justifications_roots s) as [|r rs]; [done|]. rewrite len_nil, len_cons in Hl. nia.
    + pose proof (wf_covers _ Hc') as Hcov. unfold covers in Hcov.
      change (st_justified_slots (stripped s)) with (@nil bool) in Hcov. rewrite len_nil in Hcov.
      change (header_slot (stripped s)) with (header_slot s) in Hcov.
      change (fin_slot (stripped s)) with (fin_slot s) in Hcov. lia.
  - intros [Hr Hslot]. destruct Hc, Ht. split; split; try done; cbn.
    + unfold covers. cbn. rewrite len_nil. change (header_slot (stripped s)) with (header_slot s).
      change (fin_slot (stripped s)) with (fin_slot s). lia.
    + by rewrite Hr, len_nil.
Qed.

End fixtures.

(** A public key is read with or without the prefix 0x, when it has 52 bytes. *)
Theorem test_pubkey_prefix `{ConfigLib} hex :
  strip_0x hex = None →
  test_deser_pubkey_hex (text "0x" ++ hex) = test_deser_pubkey_hex hex.
Proof. intros Hno. unfold test_deser_pubkey_hex. by rewrite Hno. Qed.

Module FixtureSample.

#[local] Existing Instances reference_ssz_types reference_ssz_types_laws reference_hashing
  reference_hashing_laws reference_order canonical_order_laws.

(** Before block 1 of [Scenario] every slot is finalized: its vector is loaded as a
    well-formed state. *)
Example sample_loads : ∃ loaded, into_State (as_test_state [] Scenario.state1) = Return loaded ∧ state_wf loaded.
Proof.
  destruct (test_state_wf [] Scenario.state1) as (loaded & Hrun & Hiff);
    [apply chain_state_wf, Scenario.chain1|]. exists loaded. split; [exact Hrun|]. apply Hiff. clear Hrun.
  split; [vm_compute; reflexivity|apply N.leb_le; vm_compute; reflexivity].
Qed.

(** Block 2 has justified slot 1 above the finalized genesis: its vector is not. *)
Example sample_loads_badly : ∃ loaded, into_State (as_test_state [to_u64 1] Scenario.state2) = Return loaded ∧ ¬ state_wf loaded.
Proof.
  destruct (test_state_wf [to_u64 1] Scenario.state2) as (loaded & Hrun & Hiff);
    [apply chain_state_wf; eapply chain_block, Scenario.run2; apply Scenario.chain1|].
  exists loaded. split; [exact Hrun|]. rewrite Hiff. clear Hrun. intros [_ Hle%N.leb_le].
  vm_compute in Hle. discriminate.
Qed.

End FixtureSample.
