(* ===== verification/Metrics.v ===== *)
(** The metrics (crates/common/metrics, crates/blockchain/src/metrics.rs, its state_transition/
    src/metrics.rs and crates/net/p2p/src/metrics.rs): the statics and what they register with
    Prometheus, the functions that update them, and the updates that the two actors make. *)

From Stdlib Require Import Floats.SpecFloat Strings.Ascii Strings.String Strings.Byte.
From S2P Require Import Prelude Types Backend Keys Signatures PayloadBuffer Store Crypto ChainStore ChainServer Wire P2P.
From S2P Require Import Swarm RocksDB CheckpointSync Node.

(** * Numbers *)

(** [f64], rounded to nearest, and [as f64]. *)
Abbreviation f64 := spec_float.
Definition f64_of (z : Z) : f64 := binary_normalize 53 1024 z 0 false.
Definition f64_add : f64 → f64 → f64 := SFadd 53 1024.
Definition f64_div : f64 → f64 → f64 := SFdiv 53 1024.

(** The literals of a list of buckets, given in thousandths. *)
Definition thousandths (l : list Z) : list f64 := (λ z, f64_div (f64_of z) (f64_of 1000)) <$> l.

(** [Duration::as_secs_f64], of nanoseconds. *)
Definition as_secs_f64 (nanos : N) : f64 :=
  f64_add (f64_of (Z.of_N (nanos / 1000000000))) (f64_div (f64_of (Z.of_N (nanos mod 1000000000))) (f64_of 1000000000)).

(** [as i64], and [i64::try_from]. *)
Definition as_i64 (n : u64) : Z := if u64_val n <? 2 ^ 63 then Z.of_N n else (Z.of_N n - 2 ^ 64)%Z.
Definition i64_try_from (n : u64) : option Z := if u64_val n <? 2 ^ 63 then Some (Z.of_N n) else None.

(** * Prometheus *)

Inductive MetricKind := IntGauge | IntCounter | Histogram (buckets : list f64).

(** What a [register_*!] macro is given; a metric without label names is a single series. *)
Record Opts := mk_opts {
  op_name : string;
  op_help : string;
  op_labels : list string;
  op_kind : MetricKind;
}.

Section names.
#[local] Open Scope bool_scope.

Definition is_letter (c : ascii) : bool :=
  let n := N_of_ascii c in ((65 <=? n) && (n <=? 90)) || ((97 <=? n) && (n <=? 122)) || (n =? 95).
Definition is_digit (c : ascii) : bool := let n := N_of_ascii c in (48 <=? n) && (n <=? 57).

(** [a-zA-Z_] followed by letters and digits; a metric's name may have colons too. *)
Definition valid_name (colon : bool) (s : string) : bool :=
  let letter c := is_letter c || (colon && Ascii.eqb c ":"%char) in
  match list_ascii_of_string s with
  | [] => false
  | c :: s => letter c && forallb (λ c, letter c || is_digit c) s
  end.

Fixpoint increasing (l : list f64) : bool :=
  match l with
  | x :: (y :: _) as l' => SFltb x y && increasing l'
  | _ => true
  end.

(** What Prometheus asks of a metric. *)
Definition opts_valid (o : Opts) : bool :=
  valid_name true (op_name o) && negb (bool_decide (op_help o = ""%string)) &&
  forallb (valid_name false) (op_labels o) && bool_decide (NoDup (op_labels o)) &&
  match op_kind o with Histogram buckets => increasing buckets | _ => true end.
End names.

(** The default registry with the values of its metrics: [None] is an error or a panic. An
    update names the metric and the values of its labels. *)
Class Prometheus := {
  Registry : Type;
  register : Registry → Opts → option Registry;
  with_label_values : Registry → Opts → list Text → option Registry;
  gauge_set : Registry → string → list Text → Z → Registry;
  gauge_add : Registry → string → list Text → Z → Registry;
  counter_inc_by : Registry → string → list Text → u64 → Registry;
  histogram_observe : Registry → string → f64 → Registry;
  registered : Registry → string → Prop;
  metric_value : Registry → string → list Text → Z;
  sample_count : Registry → string → N;
}.

(** The value of an [i64] or [u64] that is added to, as its atomic wraps around. *)
Definition wrap_i64 (z : Z) : Z := ((z + 2 ^ 63) mod 2 ^ 64 - 2 ^ 63)%Z.
Definition wrap_u64 (z : Z) : Z := (z mod 2 ^ 64)%Z.

(** A registry accepts a valid metric whose name is free, which then has the value 0; the
    values of labels must be as many as their names; an update changes one series. *)
Class PrometheusLaws `{Prometheus} : Prop := {
  register_ok r o : opts_valid o = true → ¬ registered r (op_name o) → is_Some (register r o);
  register_registered r o r' n : register r o = Some r' → registered r' n ↔ n = op_name o ∨ registered r n;
  register_value r o r' n l : register r o = Some r' →
    metric_value r' n l = (if decide (n = op_name o) then 0%Z else metric_value r n l);
  register_count r o r' n : register r o = Some r' →
    sample_count r' n = (if decide (n = op_name o) then 0 else sample_count r n);
  unregistered_value r n l : ¬ registered r n → metric_value r n l = 0%Z;
  unregistered_count r n : ¬ registered r n → sample_count r n = 0;
  with_label_values_ok r o l : registered r (op_name o) → length l = length (op_labels o) → is_Some (with_label_values r o l);
  with_label_values_registered r o l r' n : with_label_values r o l = Some r' → registered r' n ↔ registered r n;
  with_label_values_value r o l r' n k : with_label_values r o l = Some r' → metric_value r' n k = metric_value r n k;
  with_label_values_count r o l r' n : with_label_values r o l = Some r' → sample_count r' n = sample_count r n;
  gauge_set_registered r n l z m : registered (gauge_set r n l z) m ↔ registered r m;
  gauge_set_value r n l z m k : registered r n →
    metric_value (gauge_set r n l z) m k = (if decide ((m, k) = (n, l)) then z else metric_value r m k);
  gauge_set_count r n l z m : sample_count (gauge_set r n l z) m = sample_count r m;
  gauge_add_registered r n l z m : registered (gauge_add r n l z) m ↔ registered r m;
  gauge_add_value r n l z m k : registered r n →
    metric_value (gauge_add r n l z) m k = (if decide ((m, k) = (n, l)) then wrap_i64 (metric_value r n l + z) else metric_value r m k);
  gauge_add_count r n l z m : sample_count (gauge_add r n l z) m = sample_count r m;
  counter_inc_by_registered r n l c m : registered (counter_inc_by r n l c) m ↔ registered r m;
  counter_inc_by_value r n l c m k : registered r n →
    metric_value (counter_inc_by r n l c) m k =
      (if decide ((m, k) = (n, l)) then wrap_u64 (metric_value r n l + Z.of_N c) else metric_value r m k);
  counter_inc_by_count r n l c m : sample_count (counter_inc_by r n l c) m = sample_count r m;
  histogram_observe_registered r n x m : registered (histogram_observe r n x) m ↔ registered r m;
  histogram_observe_value r n x m k : metric_value (histogram_observe r n x) m k = metric_value r m k;
  histogram_observe_count r n x m : registered r n →
    sample_count (histogram_observe r n x) m = (if decide (m = n) then sample_count r n + 1 else sample_count r m);
}.

(** * The statics

    A [LazyLock] registers its metric when it is first used. *)

Record LazyLock := lazy { ll_static : string; ll_opts : Opts }.

#[local] Open Scope string_scope.

(** ** crates/blockchain/src/metrics.rs *)

Definition LEAN_HEAD_SLOT : LazyLock := lazy "blockchain::LEAN_HEAD_SLOT" (mk_opts "lean_head_slot" "Latest slot of the lean chain" [] IntGauge).
Definition LEAN_LATEST_JUSTIFIED_SLOT : LazyLock :=
  lazy "blockchain::LEAN_LATEST_JUSTIFIED_SLOT"
    (mk_opts "lean_latest_justified_slot" "Latest justified slot" [] IntGauge).
Definition LEAN_LATEST_FINALIZED_SLOT : LazyLock :=
  lazy "blockchain::LEAN_LATEST_FINALIZED_SLOT"
    (mk_opts "lean_latest_finalized_slot" "Latest finalized slot" [] IntGauge).
Definition LEAN_CURRENT_SLOT : LazyLock :=
  lazy "blockchain::LEAN_CURRENT_SLOT"
    (mk_opts "lean_current_slot" "Current slot of the lean chain" [] IntGauge).
Definition LEAN_VALIDATORS_COUNT : LazyLock :=
  lazy "blockchain::LEAN_VALIDATORS_COUNT"
    (mk_opts "lean_validators_count" "Number of validators managed by a node" [] IntGauge).
Definition LEAN_SAFE_TARGET_SLOT : LazyLock :=
  lazy "blockchain::LEAN_SAFE_TARGET_SLOT"
    (mk_opts "lean_safe_target_slot" "Safe target slot" [] IntGauge).
Definition LEAN_NODE_INFO : LazyLock :=
  lazy "blockchain::LEAN_NODE_INFO"
    (mk_opts "lean_node_info" "Node information (always 1)" ["name"; "version"] IntGauge).
Definition LEAN_NODE_START_TIME_SECONDS : LazyLock :=
  lazy "blockchain::LEAN_NODE_START_TIME_SECONDS"
    (mk_opts "lean_node_start_time_seconds" "Timestamp when node started" [] IntGauge).
Definition LEAN_GOSSIP_SIGNATURES : LazyLock :=
  lazy "blockchain::LEAN_GOSSIP_SIGNATURES"
    (mk_opts "lean_gossip_signatures" "Number of gossip signatures in fork-choice store" [] IntGauge).
Definition LEAN_LATEST_NEW_AGGREGATED_PAYLOADS : LazyLock :=
  lazy "blockchain::LEAN_LATEST_NEW_AGGREGATED_PAYLOADS"
    (mk_opts "lean_latest_new_aggregated_payloads" "Number of new aggregated payload items" [] IntGauge).
Definition LEAN_LATEST_KNOWN_AGGREGATED_PAYLOADS : LazyLock :=
  lazy "blockchain::LEAN_LATEST_KNOWN_AGGREGATED_PAYLOADS"
    (mk_opts "lean_latest_known_aggregated_payloads" "Number of known aggregated payload items" [] IntGauge).
Definition LEAN_IS_AGGREGATOR : LazyLock :=
  lazy "blockchain::LEAN_IS_AGGREGATOR"
    (mk_opts "lean_is_aggregator" "Validator's is_aggregator status. True=1, False=0" [] IntGauge).
Definition LEAN_ATTESTATION_COMMITTEE_COUNT : LazyLock :=
  lazy "blockchain::LEAN_ATTESTATION_COMMITTEE_COUNT"
    (mk_opts "lean_attestation_committee_count" "Number of attestation committees (ATTESTATION_COMMITTEE_COUNT)" [] IntGauge).
Definition LEAN_TABLE_BYTES : LazyLock :=
  lazy "blockchain::LEAN_TABLE_BYTES"
    (mk_opts "lean_table_bytes" "Byte size of a storage table (key + value bytes)" ["table"] IntGauge).
Definition LEAN_ATTESTATIONS_VALID_TOTAL : LazyLock :=
  lazy "blockchain::LEAN_ATTESTATIONS_VALID_TOTAL"
    (mk_opts "lean_attestations_valid_total" "Total number of valid attestations" [] IntCounter).
Definition LEAN_ATTESTATIONS_INVALID_TOTAL : LazyLock :=
  lazy "blockchain::LEAN_ATTESTATIONS_INVALID_TOTAL"
    (mk_opts "lean_attestations_invalid_total" "Total number of invalid attestations" [] IntCounter).
Definition LEAN_FORK_CHOICE_REORGS_TOTAL : LazyLock :=
  lazy "blockchain::LEAN_FORK_CHOICE_REORGS_TOTAL"
    (mk_opts "lean_fork_choice_reorgs_total" "Count of fork choice reorganizations" [] IntCounter).
Definition LEAN_PQ_SIG_AGGREGATED_SIGNATURES_TOTAL : LazyLock :=
  lazy "blockchain::LEAN_PQ_SIG_AGGREGATED_SIGNATURES_TOTAL"
    (mk_opts "lean_pq_sig_aggregated_signatures_total" "Total number of aggregated signatures" [] IntCounter).
Definition LEAN_PQ_SIG_ATTESTATIONS_IN_AGGREGATED_SIGNATURES_TOTAL : LazyLock :=
  lazy "blockchain::LEAN_PQ_SIG_ATTESTATIONS_IN_AGGREGATED_SIGNATURES_TOTAL"
    (mk_opts "lean_pq_sig_attestations_in_aggregated_signatures_total" "Total number of attestations included into aggregated signatures" [] IntCounter).
Definition LEAN_PQ_SIG_AGGREGATED_SIGNATURES_VALID_TOTAL : LazyLock :=
  lazy "blockchain::LEAN_PQ_SIG_AGGREGATED_SIGNATURES_VALID_TOTAL"
    (mk_opts "lean_pq_sig_aggregated_signatures_valid_total" "Total number of valid aggregated signatures" [] IntCounter).
Definition LEAN_PQ_SIG_AGGREGATED_SIGNATURES_INVALID_TOTAL : LazyLock :=
  lazy "blockchain::LEAN_PQ_SIG_AGGREGATED_SIGNATURES_INVALID_TOTAL"
    (mk_opts "lean_pq_sig_aggregated_signatures_invalid_total" "Total number of invalid aggregated signatures" [] IntCounter).
Definition LEAN_PQ_SIG_ATTESTATION_SIGNATURES_TOTAL : LazyLock :=
  lazy "blockchain::LEAN_PQ_SIG_ATTESTATION_SIGNATURES_TOTAL"
    (mk_opts "lean_pq_sig_attestation_signatures_total" "Total number of individual attestation signatures" [] IntCounter).
Definition LEAN_PQ_SIG_ATTESTATION_SIGNATURES_VALID_TOTAL : LazyLock :=
  lazy "blockchain::LEAN_PQ_SIG_ATTESTATION_SIGNATURES_VALID_TOTAL"
    (mk_opts "lean_pq_sig_attestation_signatures_valid_total" "Total number of valid individual attestation signatures" [] IntCounter).
Definition LEAN_PQ_SIG_ATTESTATION_SIGNATURES_INVALID_TOTAL : LazyLock :=
  lazy "blockchain::LEAN_PQ_SIG_ATTESTATION_SIGNATURES_INVALID_TOTAL"
    (mk_opts "lean_pq_sig_attestation_signatures_invalid_total" "Total number of invalid individual attestation signatures" [] IntCounter).
Definition LEAN_FORK_CHOICE_BLOCK_PROCESSING_TIME_SECONDS : LazyLock :=
  lazy "blockchain::LEAN_FORK_CHOICE_BLOCK_PROCESSING_TIME_SECONDS"
    (mk_opts "lean_fork_choice_block_processing_time_seconds" "Duration to process a block" [] (Histogram (thousandths [5; 10; 25; 50; 100; 1000; 1250; 1500; 2000; 4000]%Z))).
Definition LEAN_ATTESTATION_VALIDATION_TIME_SECONDS : LazyLock :=
  lazy "blockchain::LEAN_ATTESTATION_VALIDATION_TIME_SECONDS"
    (mk_opts "lean_attestation_validation_time_seconds" "Duration to validate an attestation" [] (Histogram (thousandths [5; 10; 25; 50; 100; 1000]%Z))).
Definition LEAN_PQ_SIG_ATTESTATION_SIGNING_TIME_SECONDS : LazyLock :=
  lazy "blockchain::LEAN_PQ_SIG_ATTESTATION_SIGNING_TIME_SECONDS"
    (mk_opts "lean_pq_sig_attestation_signing_time_seconds" "Time taken to sign an attestation" [] (Histogram (thousandths [5; 10; 25; 50; 100; 1000]%Z))).
Definition LEAN_PQ_SIG_ATTESTATION_VERIFICATION_TIME_SECONDS : LazyLock :=
  lazy "blockchain::LEAN_PQ_SIG_ATTESTATION_VERIFICATION_TIME_SECONDS"
    (mk_opts "lean_pq_sig_attestation_verification_time_seconds" "Time taken to verify an attestation signature" [] (Histogram (thousandths [5; 10; 25; 50; 100; 1000]%Z))).
Definition LEAN_PQ_SIG_AGGREGATED_SIGNATURES_BUILDING_TIME_SECONDS : LazyLock :=
  lazy "blockchain::LEAN_PQ_SIG_AGGREGATED_SIGNATURES_BUILDING_TIME_SECONDS"
    (mk_opts "lean_pq_sig_aggregated_signatures_building_time_seconds" "Time taken to build an aggregated attestation signature" [] (Histogram (thousandths [100; 250; 500; 750; 1000; 1250; 1500; 2000; 4000]%Z))).
Definition LEAN_PQ_SIG_AGGREGATED_SIGNATURES_VERIFICATION_TIME_SECONDS : LazyLock :=
  lazy "blockchain::LEAN_PQ_SIG_AGGREGATED_SIGNATURES_VERIFICATION_TIME_SECONDS"
    (mk_opts "lean_pq_sig_aggregated_signatures_verification_time_seconds" "Time taken to verify an aggregated attestation signature" [] (Histogram (thousandths [100; 250; 500; 750; 1000; 1250; 1500; 2000; 4000]%Z))).
Definition LEAN_COMMITTEE_SIGNATURES_AGGREGATION_TIME_SECONDS : LazyLock :=
  lazy "blockchain::LEAN_COMMITTEE_SIGNATURES_AGGREGATION_TIME_SECONDS"
    (mk_opts "lean_committee_signatures_aggregation_time_seconds" "Time taken to aggregate committee signatures" [] (Histogram (thousandths [5; 10; 25; 50; 100; 250; 500; 750; 1000]%Z))).
Definition LEAN_FORK_CHOICE_REORG_DEPTH : LazyLock :=
  lazy "blockchain::LEAN_FORK_CHOICE_REORG_DEPTH"
    (mk_opts "lean_fork_choice_reorg_depth" "Depth of fork choice reorgs (in blocks)" [] (Histogram (thousandths [1000; 2000; 3000; 5000; 7000; 10000; 20000; 30000; 50000; 100000]%Z))).

(** ** crates/blockchain/state_transition/src/metrics.rs *)

Definition LEAN_STATE_TRANSITION_SLOTS_PROCESSED_TOTAL : LazyLock :=
  lazy "state_transition::LEAN_STATE_TRANSITION_SLOTS_PROCESSED_TOTAL"
    (mk_opts "lean_state_transition_slots_processed_total" "Count of processed slots" [] IntCounter).
Definition LEAN_STATE_TRANSITION_ATTESTATIONS_PROCESSED_TOTAL : LazyLock :=
  lazy "state_transition::LEAN_STATE_TRANSITION_ATTESTATIONS_PROCESSED_TOTAL"
    (mk_opts "lean_state_transition_attestations_processed_total" "Count of processed attestations" [] IntCounter).
Definition LEAN_FINALIZATIONS_TOTAL : LazyLock :=
  lazy "state_transition::LEAN_FINALIZATIONS_TOTAL"
    (mk_opts "lean_finalizations_total" "Total number of finalization attempts" ["result"] IntCounter).
Definition LEAN_STATE_TRANSITION_TIME_SECONDS : LazyLock :=
  lazy "state_transition::LEAN_STATE_TRANSITION_TIME_SECONDS"
    (mk_opts "lean_state_transition_time_seconds" "Duration of the entire state transition" [] (Histogram (thousandths [250; 500; 750; 1000; 1250; 1500; 2000; 2500; 3000; 4000]%Z))).
Definition LEAN_STATE_TRANSITION_SLOTS_PROCESSING_TIME_SECONDS : LazyLock :=
  lazy "state_transition::LEAN_STATE_TRANSITION_SLOTS_PROCESSING_TIME_SECONDS"
    (mk_opts "lean_state_transition_slots_processing_time_seconds" "Duration to process slots" [] (Histogram (thousandths [5; 10; 25; 50; 100; 1000]%Z))).
Definition LEAN_STATE_TRANSITION_BLOCK_PROCESSING_TIME_SECONDS : LazyLock :=
  lazy "state_transition::LEAN_STATE_TRANSITION_BLOCK_PROCESSING_TIME_SECONDS"
    (mk_opts "lean_state_transition_block_processing_time_seconds" "Duration to process a block in state transition" [] (Histogram (thousandths [5; 10; 25; 50; 100; 1000]%Z))).
Definition LEAN_STATE_TRANSITION_ATTESTATIONS_PROCESSING_TIME_SECONDS : LazyLock :=
  lazy "state_transition::LEAN_STATE_TRANSITION_ATTESTATIONS_PROCESSING_TIME_SECONDS"
    (mk_opts "lean_state_transition_attestations_processing_time_seconds" "Duration to process attestations" [] (Histogram (thousandths [5; 10; 25; 50; 100; 1000]%Z))).

(** ** crates/net/p2p/src/metrics.rs *)

Definition LEAN_CONNECTED_PEERS : LazyLock :=
  lazy "p2p::LEAN_CONNECTED_PEERS"
    (mk_opts "lean_connected_peers" "Number of connected peers" ["client"] IntGauge).
Definition LEAN_PEER_CONNECTION_EVENTS_TOTAL : LazyLock :=
  lazy "p2p::LEAN_PEER_CONNECTION_EVENTS_TOTAL"
    (mk_opts "lean_peer_connection_events_total" "Total number of peer connection events" ["direction"; "result"] IntCounter).
Definition LEAN_PEER_DISCONNECTION_EVENTS_TOTAL : LazyLock :=
  lazy "p2p::LEAN_PEER_DISCONNECTION_EVENTS_TOTAL"
    (mk_opts "lean_peer_disconnection_events_total" "Total number of peer disconnection events" ["direction"; "reason"] IntCounter).
Definition LEAN_ATTESTATION_COMMITTEE_SUBNET : LazyLock :=
  lazy "p2p::LEAN_ATTESTATION_COMMITTEE_SUBNET"
    (mk_opts "lean_attestation_committee_subnet" "Node's attestation committee subnet" [] IntGauge).

#[local] Close Scope string_scope.

Definition name_of (m : LazyLock) : string := op_name (ll_opts m).

(** * The state

    The registry of the process and the statics that have been used. *)

Section metrics.
Context `{PM : Prometheus}.

Record Metrics := mk_metrics {
  mt_registry : Registry;
  mt_forced : gset string;
}.

Section functions.
Context {E : Type}.
Abbreviation MM := (M Metrics E).

Definition set_registry (r : Registry) (mt : Metrics) : Metrics := mk_metrics r (mt_forced mt).
Definition on_registry (f : Registry → Registry) : MM unit := modify (λ mt, set_registry (f (mt_registry mt)) mt).

(** [LazyLock::force]; the [unwrap] of the registration. *)
Definition force (m : LazyLock) : MM unit :=
  forced ← gets mt_forced;
  if bool_decide (ll_static m ∈ forced) then mret tt
  else
    r ← reads (λ mt, expect_some (register (mt_registry mt) (ll_opts m)));
    modify (λ mt, mk_metrics r ({[ ll_static m ]} ∪ mt_forced mt)).

(** [m.set(value)], [m.inc_by(count)], [m.observe(value)], and with labels. *)
Definition set (m : LazyLock) (value : partial Z) : MM unit :=
  force m;; value ← lift_partial value; on_registry (λ r, gauge_set r (name_of m) [] value).
Definition inc_by (m : LazyLock) (count : u64) : MM unit :=
  force m;; on_registry (λ r, counter_inc_by r (name_of m) [] count).
Definition inc (m : LazyLock) : MM unit := inc_by m (to_u64 1).
Definition labelled (m : LazyLock) (labels : list Text) : MM unit :=
  force m;;
  r ← reads (λ mt, expect_some (with_label_values (mt_registry mt) (ll_opts m) labels));
  modify (set_registry r).
Definition observe (m : LazyLock) (value : f64) : MM unit :=
  force m;; on_registry (λ r, histogram_observe r (name_of m) value).
Definition set_with (m : LazyLock) (labels : list Text) (value : Z) : MM unit :=
  labelled m labels;; on_registry (λ r, gauge_set r (name_of m) labels value).
Definition add_with (m : LazyLock) (labels : list Text) (value : Z) : MM unit :=
  labelled m labels;; on_registry (λ r, gauge_add r (name_of m) labels value).
Definition inc_with (m : LazyLock) (labels : list Text) : MM unit :=
  labelled m labels;; on_registry (λ r, counter_inc_by r (name_of m) labels (to_u64 1)).

(** ** common/metrics/src/timing.rs *)

Record TimingGuard := mk_timing_guard { tg_histogram : LazyLock; tg_start : N }.

(** [TimingGuard::new(&HISTOGRAM)] at the instant [now], in nanoseconds; [drop]. *)
Definition TimingGuard_new (histogram : LazyLock) (now : N) : MM TimingGuard :=
  force histogram;; mret (mk_timing_guard histogram now).
Definition TimingGuard_drop (guard : TimingGuard) (now : N) : MM unit :=
  on_registry (λ r, histogram_observe r (name_of (tg_histogram guard)) (as_secs_f64 (now - tg_start guard))).

(** ** blockchain/src/metrics.rs *)

Definition init : MM unit :=
  foldM (λ _ m, force m) tt
    [ LEAN_HEAD_SLOT; LEAN_LATEST_JUSTIFIED_SLOT; LEAN_LATEST_FINALIZED_SLOT; LEAN_CURRENT_SLOT; LEAN_VALIDATORS_COUNT;
      LEAN_SAFE_TARGET_SLOT; LEAN_NODE_INFO; LEAN_NODE_START_TIME_SECONDS; LEAN_GOSSIP_SIGNATURES;
      LEAN_LATEST_NEW_AGGREGATED_PAYLOADS; LEAN_LATEST_KNOWN_AGGREGATED_PAYLOADS; LEAN_IS_AGGREGATOR;
      LEAN_ATTESTATION_COMMITTEE_COUNT; LEAN_TABLE_BYTES;
      LEAN_ATTESTATIONS_VALID_TOTAL; LEAN_ATTESTATIONS_INVALID_TOTAL; LEAN_FORK_CHOICE_REORGS_TOTAL;
      LEAN_PQ_SIG_AGGREGATED_SIGNATURES_TOTAL; LEAN_PQ_SIG_ATTESTATIONS_IN_AGGREGATED_SIGNATURES_TOTAL;
      LEAN_PQ_SIG_AGGREGATED_SIGNATURES_VALID_TOTAL; LEAN_PQ_SIG_AGGREGATED_SIGNATURES_INVALID_TOTAL;
      LEAN_PQ_SIG_ATTESTATION_SIGNATURES_TOTAL; LEAN_PQ_SIG_ATTESTATION_SIGNATURES_VALID_TOTAL;
      LEAN_PQ_SIG_ATTESTATION_SIGNATURES_INVALID_TOTAL;
      LEAN_FORK_CHOICE_BLOCK_PROCESSING_TIME_SECONDS; LEAN_ATTESTATION_VALIDATION_TIME_SECONDS;
      LEAN_PQ_SIG_ATTESTATION_SIGNING_TIME_SECONDS; LEAN_PQ_SIG_ATTESTATION_VERIFICATION_TIME_SECONDS;
      LEAN_PQ_SIG_AGGREGATED_SIGNATURES_BUILDING_TIME_SECONDS; LEAN_PQ_SIG_AGGREGATED_SIGNATURES_VERIFICATION_TIME_SECONDS;
      LEAN_COMMITTEE_SIGNATURES_AGGREGATION_TIME_SECONDS; LEAN_FORK_CHOICE_REORG_DEPTH ].

(** [slot.try_into().unwrap()] *)
Definition i64_unwrap (n : u64) : partial Z := expect_some (i64_try_from n).

Definition update_head_slot (slot : u64) : MM unit := set LEAN_HEAD_SLOT (i64_unwrap slot).
Definition update_latest_justified_slot (slot : u64) : MM unit := set LEAN_LATEST_JUSTIFIED_SLOT (i64_unwrap slot).
Definition update_latest_finalized_slot (slot : u64) : MM unit := set LEAN_LATEST_FINALIZED_SLOT (i64_unwrap slot).
Definition update_current_slot (slot : u64) : MM unit := set LEAN_CURRENT_SLOT (i64_unwrap slot).
Definition update_validators_count (count : u64) : MM unit := set LEAN_VALIDATORS_COUNT (i64_unwrap count).
Definition update_safe_target_slot (slot : u64) : MM unit := set LEAN_SAFE_TARGET_SLOT (i64_unwrap slot).

Definition set_node_info (name version : Text) : MM unit := set_with LEAN_NODE_INFO [name; version] 1.

(** [now]: the seconds since the UNIX epoch; before it, the [unwrap] panics. *)
Definition set_node_start_time (now : Z) : MM unit :=
  timestamp ← lift_partial (if (now <? 0)%Z then Panic else Return (to_u64 (Z.to_N now)));
  set LEAN_NODE_START_TIME_SECONDS (Return (as_i64 timestamp)).

Definition inc_attestations_valid : MM unit := inc LEAN_ATTESTATIONS_VALID_TOTAL.
Definition inc_attestations_invalid : MM unit := inc LEAN_ATTESTATIONS_INVALID_TOTAL.
Definition inc_fork_choice_reorgs : MM unit := inc LEAN_FORK_CHOICE_REORGS_TOTAL.
Definition time_fork_choice_block_processing : N → MM TimingGuard := TimingGuard_new LEAN_FORK_CHOICE_BLOCK_PROCESSING_TIME_SECONDS.
Definition time_attestation_validation : N → MM TimingGuard := TimingGuard_new LEAN_ATTESTATION_VALIDATION_TIME_SECONDS.
Definition inc_pq_sig_aggregated_signatures : MM unit := inc LEAN_PQ_SIG_AGGREGATED_SIGNATURES_TOTAL.
Definition inc_pq_sig_attestations_in_aggregated_signatures (count : u64) : MM unit :=
  inc_by LEAN_PQ_SIG_ATTESTATIONS_IN_AGGREGATED_SIGNATURES_TOTAL count.
Definition inc_pq_sig_aggregated_signatures_valid : MM unit := inc LEAN_PQ_SIG_AGGREGATED_SIGNATURES_VALID_TOTAL.
Definition inc_pq_sig_aggregated_signatures_invalid : MM unit := inc LEAN_PQ_SIG_AGGREGATED_SIGNATURES_INVALID_TOTAL.
Definition inc_pq_sig_attestation_signatures : MM unit := inc LEAN_PQ_SIG_ATTESTATION_SIGNATURES_TOTAL.
Definition inc_pq_sig_attestation_signatures_valid : MM unit := inc LEAN_PQ_SIG_ATTESTATION_SIGNATURES_VALID_TOTAL.
Definition inc_pq_sig_attestation_signatures_invalid : MM unit := inc LEAN_PQ_SIG_ATTESTATION_SIGNATURES_INVALID_TOTAL.
Definition time_pq_sig_attestation_signing : N → MM TimingGuard := TimingGuard_new LEAN_PQ_SIG_ATTESTATION_SIGNING_TIME_SECONDS.
Definition time_pq_sig_attestation_verification : N → MM TimingGuard :=
  TimingGuard_new LEAN_PQ_SIG_ATTESTATION_VERIFICATION_TIME_SECONDS.
Definition time_pq_sig_aggregated_signatures_building : N → MM TimingGuard :=
  TimingGuard_new LEAN_PQ_SIG_AGGREGATED_SIGNATURES_BUILDING_TIME_SECONDS.
Definition time_pq_sig_aggregated_signatures_verification : N → MM TimingGuard :=
  TimingGuard_new LEAN_PQ_SIG_AGGREGATED_SIGNATURES_VERIFICATION_TIME_SECONDS.
Definition time_committee_signatures_aggregation : N → MM TimingGuard :=
  TimingGuard_new LEAN_COMMITTEE_SIGNATURES_AGGREGATION_TIME_SECONDS.

Definition update_table_bytes (table_name : string) (n : u64) : MM unit := set_with LEAN_TABLE_BYTES [text table_name] (as_i64 n).
Definition update_gossip_signatures (count : u64) : MM unit := set LEAN_GOSSIP_SIGNATURES (Return (as_i64 count)).
Definition update_latest_new_aggregated_payloads (count : u64) : MM unit :=
  set LEAN_LATEST_NEW_AGGREGATED_PAYLOADS (Return (as_i64 count)).
Definition update_latest_known_aggregated_payloads (count : u64) : MM unit :=
  set LEAN_LATEST_KNOWN_AGGREGATED_PAYLOADS (Return (as_i64 count)).
Definition set_is_aggregator (is_aggregator : bool) : MM unit := set LEAN_IS_AGGREGATOR (Return (if is_aggregator then 1 else 0)%Z).
Definition set_attestation_committee_count (count : u64) : MM unit :=
  set LEAN_ATTESTATION_COMMITTEE_COUNT (Return (default 0%Z (i64_try_from count))).
Definition observe_fork_choice_reorg_depth (depth : u64) : MM unit := observe LEAN_FORK_CHOICE_REORG_DEPTH (f64_of (Z.of_N depth)).

(** ** state_transition/src/metrics.rs *)

Definition inc_slots_processed (count : u64) : MM unit := inc_by LEAN_STATE_TRANSITION_SLOTS_PROCESSED_TOTAL count.
Definition inc_attestations_processed (count : u64) : MM unit := inc_by LEAN_STATE_TRANSITION_ATTESTATIONS_PROCESSED_TOTAL count.
Definition inc_finalizations (result : string) : MM unit := inc_with LEAN_FINALIZATIONS_TOTAL [text result].
Definition time_state_transition : N → MM TimingGuard := TimingGuard_new LEAN_STATE_TRANSITION_TIME_SECONDS.
Definition time_slots_processing : N → MM TimingGuard := TimingGuard_new LEAN_STATE_TRANSITION_SLOTS_PROCESSING_TIME_SECONDS.
Definition time_block_processing : N → MM TimingGuard := TimingGuard_new LEAN_STATE_TRANSITION_BLOCK_PROCESSING_TIME_SECONDS.
Definition time_attestations_processing : N → MM TimingGuard :=
  TimingGuard_new LEAN_STATE_TRANSITION_ATTESTATIONS_PROCESSING_TIME_SECONDS.

(** ** p2p/src/metrics.rs *)

Definition set_attestation_committee_subnet (subnet_id : u64) : MM unit :=
  set LEAN_ATTESTATION_COMMITTEE_SUBNET (Return (default 0%Z (i64_try_from subnet_id))).

Section peers.
Context `{LP : Libp2p}.

(** [names]: the registry of [populate_name_registry]. *)
Definition notify_peer_connected (names : gmap PeerId Text) (peer_id : option PeerId) (direction result : string) : MM unit :=
  inc_with LEAN_PEER_CONNECTION_EVENTS_TOTAL [text direction; text result];;
  if bool_decide (result = "success"%string) then add_with LEAN_CONNECTED_PEERS [resolve names peer_id] 1 else mret tt.

Definition notify_peer_disconnected (names : gmap PeerId Text) (peer_id : option PeerId) (direction reason : string) : MM unit :=
  inc_with LEAN_PEER_DISCONNECTION_EVENTS_TOTAL [text direction; text reason];;
  add_with LEAN_CONNECTED_PEERS [resolve names peer_id] (-1).
End peers.

(** * The updates of the actors *)

(** *** p2p/src/lib.rs: [handle_swarm_event] *)

Section swarm_events.
Context `{LP : Libp2p} `{WC : WireCodecs}.

Definition connection_direction (is_dialer : bool) : string := if is_dialer then "outbound" else "inbound".

(** [err.to_string().to_lowercase()] of an ASCII text, and [contains]. *)
Definition to_lowercase (s : string) : string :=
  string_of_list_ascii ((λ c, let n := N_of_ascii c in
    if (65 <=? n) && (n <=? 90) then ascii_of_N (n + 32) else c) <$> list_ascii_of_string s).
Definition contains (s pattern : string) : bool := match String.index 0 pattern s with Some _ => true | None => false end.

Definition disconnect_reason (cause : option string) : string :=
  match cause with
  | None => "remote_close"
  | Some err =>
      let err_str := to_lowercase err in
      if contains err_str "timeout" || contains err_str "timedout" || contains err_str "keepalive" then "timeout"
      else if contains err_str "reset" || contains err_str "connectionreset" then "remote_close"
      else "error"
  end.

Definition swarm_event_metrics (names : gmap PeerId Text) (event : SwarmEvent) : MM unit :=
  match event with
  | ConnectionEstablished peer_id is_dialer num_established =>
      if num_established =? 1 then notify_peer_connected names (Some peer_id) (connection_direction is_dialer) "success" else mret tt
  | ConnectionClosed peer_id is_dialer num_established cause =>
      if num_established =? 0 then
        notify_peer_disconnected names (Some peer_id) (connection_direction is_dialer) (disconnect_reason cause)
      else mret tt
  | OutgoingConnectionError peer_id error =>
      notify_peer_connected names peer_id "outbound" (if contains (to_lowercase error) "timed out" then "timeout" else "error")
  | IncomingConnectionError peer_id => notify_peer_connected names peer_id "inbound" "error"
  | _ => mret tt
  end.

Definition p2p_metrics (names : gmap PeerId Text) (input : P2PInput) : MM unit :=
  match input with WrappedSwarmEvent event => swarm_event_metrics names event | _ => mret tt end.
End swarm_events.

(** *** blockchain/src/lib.rs: [process_block], [on_tick] and [spawn] *)

Section blockchain.
Context `{SB : StorageBackend D B} `{CO : Codecs} `{HS : Hashing} `{HO : HashOrder} `{SC : SignatureScheme}.
Context (estimate_table_bytes : D → Table → u64).
Implicit Types (b : BlockChainServer (D := D)).

(** The end of [process_block], after the import. *)
Definition process_block_metrics b : MM unit :=
  slot ← lift_partial (head_slot (bc_store b)); update_head_slot slot;;
  justified ← lift_partial (latest_justified (bc_store b)); update_latest_justified_slot (cp_slot justified);;
  finalized ← lift_partial (latest_finalized (bc_store b)); update_latest_finalized_slot (cp_slot finalized);;
  update_validators_count (to_u64 (len (validator_ids (bc_key_manager b))));;
  foldM (λ _ table, update_table_bytes (Table_name table) (estimate_table_bytes (s_backend (bc_store b)) table)) tt ALL_TABLES.

(** [on_tick] up to the gauge of the current slot, and whether it goes on; its end. *)
Definition tick_start_metrics (timestamp_ms : u64) b : MM bool :=
  config ← lift_partial (store_config (bc_store b));
  let time_since_genesis_ms := saturating_sub timestamp_ms (wrapping_mul (cc_genesis_time config) (to_u64 1000)) in
  head_state ← lift_partial (head_state (bc_store b));
  match st_validators head_state with
  | [] => mret false
  | _ => update_current_slot (u64_div time_since_genesis_ms MILLISECONDS_PER_SLOT);; mret true
  end.
Definition tick_end_metrics b : MM unit :=
  safe_target ← lift_partial (safe_target_slot (bc_store b)); update_safe_target_slot safe_target;;
  slot ← lift_partial (head_slot (bc_store b)); update_head_slot slot.
End blockchain.

(** *** main.rs, and the starts of the actors *)

Definition start_metrics (client_version : Text) (now : Z) (attestation_committee_count : u64) (is_aggregator : bool)
    (subnet_id : u64) : MM unit :=
  init;;
  set_node_info (text "ethlambda") client_version;;
  set_node_start_time now;;
  set_attestation_committee_count attestation_committee_count;;
  set_is_aggregator is_aggregator;;
  set_attestation_committee_subnet subnet_id.
End functions.

(** * Actors with the metrics

    The metrics do not feed back into the actors, so a handler with its metrics is the
    handler on one part of the state and its updates on the other. *)

Definition on_first {A B E X} (m : M A E X) : M (A * B) E X := λ s,
  match m s.1 with
  | Done a x => Done (a, s.2) x
  | Fail a e => Fail (a, s.2) e
  | Panicked => Panicked
  | Diverged => Diverged
  end.
Definition on_second {A B E X} (m : M B E X) : M (A * B) E X := λ s,
  match m s.2 with
  | Done b x => Done (s.1, b) x
  | Fail b e => Fail (s.1, b) e
  | Panicked => Panicked
  | Diverged => Diverged
  end.

Section actors.
Context `{ST : SszTypes} `{SB : StorageBackend D B} `{CO : Codecs} `{HS : Hashing} `{HO : HashOrder} `{MS : MultisigScheme}.
Context `{SN : Snappy} `{WC : WireCodecs} `{LP : Libp2p} `{PL : P2PLibraries}.
Context (estimate_table_bytes : D → Table → u64).

Definition observed_p2p {E} (names : gmap PeerId Text) (env : Env) (input : P2PInput) : M (P2PServer (D := D) * Metrics) E unit :=
  on_first (p2p_handle env input);; on_second (p2p_metrics names input).

Definition observed_process_block (signed_block : SignedBlockWithAttestation) : M (BlockChainServer (D := D) * Metrics) StoreError unit :=
  on_first (server_process_block signed_block);;
  b ← gets fst;
  on_second (process_block_metrics estimate_table_bytes b).

Definition observed_tick {E} (timestamp_ms : u64) : M (BlockChainServer (D := D) * Metrics) E unit :=
  b ← gets fst;
  goes_on ← on_second (tick_start_metrics timestamp_ms b);
  on_first (server_on_tick timestamp_ms);;
  b' ← gets fst;
  if goes_on : bool then on_second (tick_end_metrics b') else mret tt.
End actors.
End metrics.
