(* ===== verification/MetricsTheorems.v ===== *)
(** The theorems about the metrics: no update panics, the registry shows what the updates
    add up to, and the gauges of the actors show their states. *)

From Stdlib Require Import Floats.SpecFloat Strings.Ascii Strings.String Strings.Byte.
From S2P Require Import Prelude Types StateTransition Reference StateInvariant Transitions ForkChoice.
From S2P Require Import Backend InMemory Keys Signatures PayloadBuffer Store Crypto StoreSpec StoreOps StorePruning StoreMaintenance Codec RocksDB.
From S2P Require Import ChainInvariant ChainStore Bits ChainRefine ChainClock ChainImport ChainBlocks ChainTheorems ChainServer ServerSpec ServerSteps ServerMessages ServerTheorems.
From S2P Require Import Wire WireCodec WireTheorems P2P P2PSpec P2PTheorems Swarm CheckpointSync Node Metrics.

(** * All metrics of the process *)

Definition ALL_METRICS : list LazyLock :=
  [ LEAN_HEAD_SLOT; LEAN_LATEST_JUSTIFIED_SLOT; LEAN_LATEST_FINALIZED_SLOT; LEAN_CURRENT_SLOT; LEAN_VALIDATORS_COUNT;
    LEAN_SAFE_TARGET_SLOT; LEAN_NODE_INFO; LEAN_NODE_START_TIME_SECONDS; LEAN_GOSSIP_SIGNATURES;
    LEAN_LATEST_NEW_AGGREGATED_PAYLOADS; LEAN_LATEST_KNOWN_AGGREGATED_PAYLOADS; LEAN_IS_AGGREGATOR;
    LEAN_ATTESTATION_COMMITTEE_COUNT; LEAN_TABLE_BYTES; LEAN_ATTESTATIONS_VALID_TOTAL; LEAN_ATTESTATIONS_INVALID_TOTAL;
    LEAN_FORK_CHOICE_REORGS_TOTAL; LEAN_PQ_SIG_AGGREGATED_SIGNATURES_TOTAL;
    LEAN_PQ_SIG_ATTESTATIONS_IN_AGGREGATED_SIGNATURES_TOTAL; LEAN_PQ_SIG_AGGREGATED_SIGNATURES_VALID_TOTAL;
    LEAN_PQ_SIG_AGGREGATED_SIGNATURES_INVALID_TOTAL; LEAN_PQ_SIG_ATTESTATION_SIGNATURES_TOTAL;
    LEAN_PQ_SIG_ATTESTATION_SIGNATURES_VALID_TOTAL; LEAN_PQ_SIG_ATTESTATION_SIGNATURES_INVALID_TOTAL;
    LEAN_FORK_CHOICE_BLOCK_PROCESSING_TIME_SECONDS; LEAN_ATTESTATION_VALIDATION_TIME_SECONDS;
    LEAN_PQ_SIG_ATTESTATION_SIGNING_TIME_SECONDS; LEAN_PQ_SIG_ATTESTATION_VERIFICATION_TIME_SECONDS;
    LEAN_PQ_SIG_AGGREGATED_SIGNATURES_BUILDING_TIME_SECONDS; LEAN_PQ_SIG_AGGREGATED_SIGNATURES_VERIFICATION_TIME_SECONDS;
    LEAN_COMMITTEE_SIGNATURES_AGGREGATION_TIME_SECONDS; LEAN_FORK_CHOICE_REORG_DEPTH;
    LEAN_STATE_TRANSITION_SLOTS_PROCESSED_TOTAL; LEAN_STATE_TRANSITION_ATTESTATIONS_PROCESSED_TOTAL;
    LEAN_FINALIZATIONS_TOTAL; LEAN_STATE_TRANSITION_TIME_SECONDS; LEAN_STATE_TRANSITION_SLOTS_PROCESSING_TIME_SECONDS;
    LEAN_STATE_TRANSITION_BLOCK_PROCESSING_TIME_SECONDS; LEAN_STATE_TRANSITION_ATTESTATIONS_PROCESSING_TIME_SECONDS;
    LEAN_CONNECTED_PEERS; LEAN_PEER_CONNECTION_EVENTS_TOTAL; LEAN_PEER_DISCONNECTION_EVENTS_TOTAL;
    LEAN_ATTESTATION_COMMITTEE_SUBNET ].

Definition known (m : LazyLock) : Prop := m ∈ ALL_METRICS.

Ltac find_static := unfold known, ALL_METRICS; repeat first [left | right].

(** No two metrics share a name, no two statics are the same, and every one is valid. *)
Lemma names_distinct : NoDup (name_of <$> ALL_METRICS).
Proof. apply (bool_decide_unpack _). by vm_compute. Qed.
Lemma statics_distinct : NoDup (ll_static <$> ALL_METRICS).
Proof. apply (bool_decide_unpack _). by vm_compute. Qed.
Lemma all_valid : Forall (λ m, opts_valid (ll_opts m) = true) ALL_METRICS.
Proof. apply Forall_forall. intros m Hm. apply list_elem_of_In in Hm. revert m Hm. apply List.forallb_forall. by vm_compute. Qed.

Lemma distinct_field {A B} `{EqDecision B} (f : A → B) (l : list A) x y : NoDup (f <$> l) → x ∈ l → y ∈ l → f x = f y → x = y.
Proof.
  intros Hnd (i & Hi)%list_elem_of_lookup (j & Hj)%list_elem_of_lookup Hf.
  assert (i = j) as ->; [|congruence]. apply (NoDup_lookup (f <$> l) i j (f x)); [done| |].
  - by rewrite list_lookup_fmap, Hi.
  - by rewrite list_lookup_fmap, Hj, Hf.
Qed.

Lemma same_name m m' : known m → known m' → name_of m = name_of m' → m = m'.
Proof. apply (distinct_field name_of), names_distinct. Qed.
Lemma same_static m m' : known m → known m' → ll_static m = ll_static m' → m = m'.
Proof. apply (distinct_field ll_static), statics_distinct. Qed.

(** * The board: what a reader of the metrics sees *)

Record Board := mk_board { bd_value : string → list Text → Z; bd_count : string → N }.

Definition bd_set (n : string) (l : list Text) (z : Z) (b : Board) : Board :=
  mk_board (λ m k, if decide ((m, k) = (n, l)) then z else bd_value b m k) (bd_count b).
Definition bd_add (n : string) (l : list Text) (z : Z) (b : Board) : Board := bd_set n l (wrap_i64 (bd_value b n l + z)) b.
Definition bd_inc_by (n : string) (l : list Text) (c : u64) (b : Board) : Board := bd_set n l (wrap_u64 (bd_value b n l + Z.of_N c)) b.
Definition bd_observe (n : string) (b : Board) : Board :=
  mk_board (bd_value b) (λ m, if decide (m = n) then bd_count b n + 1 else bd_count b m).

Section board.
Context `{PL : PrometheusLaws} {E : Type}.
Implicit Types (mt : Metrics) (b : Board).

(** The registry has exactly the metrics that have been used. *)
Definition metrics_ok mt : Prop := ∀ m, known m → registered (mt_registry mt) (name_of m) ↔ ll_static m ∈ mt_forced mt.

Definition shows_on (r : Registry) b : Prop :=
  (∀ n l, metric_value r n l = bd_value b n l) ∧ ∀ n, sample_count r n = bd_count b n.
Definition shows mt b : Prop := shows_on (mt_registry mt) b.

(** [m] returns and changes the board by [f]. *)
Definition updates {A} (m : M Metrics E A) (f : Board → Board) : Prop := ∀ mt b, metrics_ok mt → shows mt b →
  achieves m mt (λ _ mt', metrics_ok mt' ∧ shows mt' (f b) ∧ mt_forced mt ⊆ mt_forced mt').

Lemma updates_ret {A} (x : A) : updates (mret x) id.
Proof. intros mt b Hok Hb. by apply achieves_ret. Qed.

Lemma updates_bind {A A'} (m : M Metrics E A) (k : A → M Metrics E A') f g :
  updates m f → (∀ x, updates (k x) g) → updates (m ≫= k) (g ∘ f).
Proof.
  intros Hm Hk mt b Hok Hb. eapply achieves_bind; [by apply Hm|]. intros x mt1 (Hok1 & Hb1 & Hs1).
  eapply achieves_mono; [|by apply (Hk x mt1 (f b))]. intros y mt2 (Hok2 & Hb2 & Hs2). split_and!; [done..|by etrans].
Qed.

(** The first use of a static registers it. *)
Lemma force_run m mt b : known m → metrics_ok mt → shows mt b →
  achieves (force m : M _ E unit) mt (λ _ mt',
    metrics_ok mt' ∧ shows mt' b ∧ mt_forced mt ⊆ mt_forced mt' ∧ registered (mt_registry mt') (name_of m)).
Proof.
  intros Hm Hok [Hv Hc]. unfold force. apply achieves_gets. case_bool_decide as Hin.
  { apply achieves_ret. split_and!; try done. by apply Hok. }
  assert (Hnew : ¬ registered (mt_registry mt) (name_of m)) by (by rewrite (Hok m Hm)).
  pose proof all_valid as Hvalid. rewrite Forall_forall in Hvalid.
  destruct (register_ok (mt_registry mt) (ll_opts m) (Hvalid m Hm) Hnew) as [r Hr].
  eapply achieves_reads; [by rewrite Hr|]. eexists _, tt. split; [done|]. unfold metrics_ok, shows, shows_on. cbn [mt_registry mt_forced].
  split_and!.
  - intros m' Hm'. rewrite (register_registered _ _ _ _ Hr), elem_of_union, elem_of_singleton, (Hok m' Hm'). change (op_name (ll_opts m)) with (name_of m).
    split; (intros [Heq|?]; [left|by right]); [f_equal; by apply same_name|f_equal; by apply same_static].
  - intros n l. rewrite (register_value _ _ _ _ _ Hr). case_decide as Hn; [|done]. subst n. by rewrite <- Hv, unregistered_value.
  - intros n. rewrite (register_count _ _ _ _ Hr). case_decide as Hn; [|done]. subst n. by rewrite <- Hc, unregistered_count.
  - apply union_subseteq_r.
  - apply (register_registered _ _ _ _ Hr). by left.
Qed.

(** The same, where the metric [n] is registered. *)
Definition updates_at {A} (n : string) (m : M Metrics E A) (f : Board → Board) : Prop := ∀ mt b,
  metrics_ok mt → shows mt b → registered (mt_registry mt) n →
  achieves m mt (λ _ mt', metrics_ok mt' ∧ shows mt' (f b) ∧ mt_forced mt ⊆ mt_forced mt').

(** A change of the registry that keeps its names. *)
Lemma updates_on_registry n f g :
  (∀ r n, registered (f r) n ↔ registered r n) → (∀ r b, registered r n → shows_on r b → shows_on (f r) (g b)) →
  updates_at n (on_registry f) g.
Proof.
  intros Hreg Hsh mt b Hok Hb Hn. eexists _, tt. split; [done|]. split_and!; [|by apply Hsh|done].
  intros m Hm. cbn. rewrite Hreg. by apply Hok.
Qed.

Lemma updates_gauge_set n l z : updates_at n (on_registry (λ r, gauge_set r n l z)) (bd_set n l z).
Proof.
  apply updates_on_registry; [intros; apply gauge_set_registered|]. intros r b Hn [Hv Hc].
  split; [intros m k; rewrite gauge_set_value by done; cbn; by case_decide|intros m; by rewrite gauge_set_count].
Qed.
Lemma updates_gauge_add n l z : updates_at n (on_registry (λ r, gauge_add r n l z)) (bd_add n l z).
Proof.
  apply updates_on_registry; [intros; apply gauge_add_registered|]. intros r b Hn [Hv Hc].
  split; [intros m k; rewrite gauge_add_value, !Hv by done; cbn; by case_decide|intros m; by rewrite gauge_add_count].
Qed.
Lemma updates_counter n l c : updates_at n (on_registry (λ r, counter_inc_by r n l c)) (bd_inc_by n l c).
Proof.
  apply updates_on_registry; [intros; apply counter_inc_by_registered|]. intros r b Hn [Hv Hc].
  split; [intros m k; rewrite counter_inc_by_value, !Hv by done; cbn; by case_decide|intros m; by rewrite counter_inc_by_count].
Qed.
Lemma updates_histogram n x : updates_at n (on_registry (λ r, histogram_observe r n x)) (bd_observe n).
Proof.
  apply updates_on_registry; [intros; apply histogram_observe_registered|]. intros r b Hn [Hv Hc].
  split; [intros m k; by rewrite histogram_observe_value|intros m; rewrite histogram_observe_count, !Hc by done; cbn; by case_decide].
Qed.

Lemma updates_then {A} m (k : M Metrics E A) f : known m → updates_at (name_of m) k f → updates (force m;; k) f.
Proof.
  intros Hm Hk mt b Hok Hb. eapply achieves_bind; [by apply force_run|]. intros _ mt1 (Hok1 & Hb1 & Hs1 & Hreg).
  eapply achieves_mono; [|by apply (Hk mt1 b)]. intros y mt2 (Hok2 & Hb2 & Hs2). split_and!; [done..|by etrans].
Qed.

(** The label values of a use must be as many as the label names. *)
Lemma updates_labelled {A} m l (k : M Metrics E A) f : known m → length l = length (op_labels (ll_opts m)) →
  updates_at (name_of m) k f → updates (labelled m l;; k) f.
Proof.
  intros Hm Hl Hk mt b Hok Hb. eapply (achieves_bind _ _ _ (λ _ mt', metrics_ok mt' ∧ shows mt' b ∧ mt_forced mt ⊆ mt_forced mt' ∧ registered (mt_registry mt') (name_of m))).
  - unfold labelled. eapply achieves_bind; [by apply force_run|].
    intros _ mt1 (Hok1 & [Hv Hc] & Hs1 & Hreg). destruct (with_label_values_ok _ _ _ Hreg Hl) as [r Hr].
    eapply achieves_reads; [by rewrite Hr|]. eexists _, tt. split; [done|]. split_and!; [| |done|].
    + intros m' Hm'. cbn. rewrite (with_label_values_registered _ _ _ _ _ Hr). by apply Hok1.
    + split; cbn; intros; [rewrite (with_label_values_value _ _ _ _ _ _ Hr)|rewrite (with_label_values_count _ _ _ _ _ Hr)]; apply Hv || apply Hc.
    + by apply (with_label_values_registered _ _ _ _ _ Hr).
  - intros _ mt1 (Hok1 & Hb1 & Hs1 & Hreg). eapply achieves_mono; [|by apply (Hk mt1 b)].
    intros y mt2 (Hok2 & Hb2 & Hs2). split_and!; [done..|by etrans].
Qed.

Lemma updates_seq (m k : M Metrics E unit) f g : updates m f → updates k g → updates (m;; k) (g ∘ f).
Proof. intros Hm Hk. by apply updates_bind. Qed.

Lemma updates_set m z : known m → updates (set m (Return z)) (bd_set (name_of m) [] z).
Proof. intros Hm. apply updates_then; [done|]. exact (updates_gauge_set (name_of m) [] z). Qed.
Lemma updates_inc_by m c : known m → updates (inc_by m c) (bd_inc_by (name_of m) [] c).
Proof. intros Hm. apply updates_then; [done|apply updates_counter]. Qed.
Lemma updates_observe m x : known m → updates (observe m x) (bd_observe (name_of m)).
Proof. intros Hm. apply updates_then; [done|apply updates_histogram]. Qed.
Lemma updates_set_with m l z :
  known m → length l = length (op_labels (ll_opts m)) → updates (set_with m l z) (bd_set (name_of m) l z).
Proof. intros Hm Hl. apply updates_labelled; [done..|apply updates_gauge_set]. Qed.
Lemma updates_add_with m l z :
  known m → length l = length (op_labels (ll_opts m)) → updates (add_with m l z) (bd_add (name_of m) l z).
Proof. intros Hm Hl. apply updates_labelled; [done..|apply updates_gauge_add]. Qed.
Lemma updates_inc_with m l :
  known m → length l = length (op_labels (ll_opts m)) → updates (inc_with m l) (bd_inc_by (name_of m) l (to_u64 1)).
Proof. intros Hm Hl. apply updates_labelled; [done..|apply updates_counter]. Qed.

(** A guard observes its histogram once, when it is dropped. *)
Definition timed (m : LazyLock) (start stop : N) : M Metrics E unit := guard ← TimingGuard_new m start; TimingGuard_drop guard stop.
Lemma updates_timed m start stop : known m → updates (timed m start stop) (bd_observe (name_of m)).
Proof.
  intros Hm mt b Hok Hb. unfold timed, TimingGuard_new. destruct (force_run m mt b Hm Hok Hb) as (mt1 & [] & Hrun & Hok1 & Hb1 & Hs1 & Hreg).
  destruct (updates_histogram (name_of m) (as_secs_f64 (stop - start)) mt1 b Hok1 Hb1 Hreg) as (mt2 & [] & Hrun2 & Hok2 & Hb2 & Hs2).
  exists mt2, tt. split; [rewrite run_bind, run_bind, Hrun, run_ret; exact Hrun2|]. split_and!; [done..|by etrans].
Qed.

Lemma i64_unwrap_small (n : u64) : n < 2 ^ 63 → i64_unwrap n = Return (Z.of_N n).
Proof. intros Hn. unfold i64_unwrap, i64_try_from. by rewrite (proj2 (N.ltb_lt _ _) Hn). Qed.

(** [init] registers every metric it names. *)
Lemma forced_all (l : list LazyLock) mt b : (∀ m, m ∈ l → known m) → metrics_ok mt → shows mt b →
  achieves (foldM (λ _ m, force m) tt l : M _ E unit) mt (λ _ mt', metrics_ok mt' ∧ shows mt' b ∧ mt_forced mt ⊆ mt_forced mt' ∧
    ∀ m, m ∈ l → ll_static m ∈ mt_forced mt').
Proof.
  revert mt. induction l as [|m l IH]; intros mt Hl Hok Hb.
  { apply achieves_ret. split_and!; try done. by intros m ?%elem_of_nil. }
  cbn [foldM]. eapply achieves_bind; [apply force_run; [apply Hl; by left|done..]|]. intros [] mt1 (Hok1 & Hb1 & Hs1 & Hreg).
  eapply achieves_mono; [|apply (IH mt1); [intros m' Hm'; apply Hl; by right|done..]].
  intros _ mt2 (Hok2 & Hb2 & Hs2 & Hall). split_and!; [done..|by etrans|]. intros m' [->|Hm']%elem_of_cons; [|by apply Hall].
  apply Hs2, Hok1, Hreg. apply Hl. by left.
Qed.
End board.

(** * The public functions *)

Inductive Timer :=
| ForkChoiceBlockProcessing | AttestationValidation | AttestationSigning | AttestationVerification
| AggregateBuilding | AggregateVerification | CommitteeAggregation
| StateTransitionTime | SlotsProcessing | BlockProcessingTime | AttestationsProcessing.

Inductive Call `{LP : Libp2p} :=
| UpdateHeadSlot (slot : u64) | UpdateLatestJustifiedSlot (slot : u64) | UpdateLatestFinalizedSlot (slot : u64)
| UpdateCurrentSlot (slot : u64) | UpdateValidatorsCount (count : u64) | UpdateSafeTargetSlot (slot : u64)
| SetNodeInfo (name version : Text) | SetNodeStartTime (now : Z)
| IncAttestationsValid | IncAttestationsInvalid | IncForkChoiceReorgs
| IncAggregated | IncAttestationsInAggregated (count : u64) | IncAggregatedValid | IncAggregatedInvalid
| IncSignatures | IncSignaturesValid | IncSignaturesInvalid
| UpdateTableBytes (table : string) (n : u64) | UpdateGossipSignatures (count : u64)
| UpdateNewPayloads (count : u64) | UpdateKnownPayloads (count : u64)
| SetIsAggregator (is_aggregator : bool) | SetCommitteeCount (count : u64) | ObserveReorgDepth (depth : u64)
| IncSlotsProcessed (count : u64) | IncAttestationsProcessed (count : u64) | IncFinalizations (result : string)
| SetCommitteeSubnet (subnet_id : u64)
| NotifyPeerConnected (names : gmap PeerId Text) (peer_id : option PeerId) (direction result : string)
| NotifyPeerDisconnected (names : gmap PeerId Text) (peer_id : option PeerId) (direction reason : string)
| Timed (timer : Timer) (start stop : N).

Section calls.
Context `{PL : PrometheusLaws} `{LP : Libp2p} {E : Type}.
Abbreviation MM := (M Metrics E).

Definition start_timer (t : Timer) : N → MM TimingGuard :=
  match t with
  | ForkChoiceBlockProcessing => time_fork_choice_block_processing
  | AttestationValidation => time_attestation_validation
  | AttestationSigning => time_pq_sig_attestation_signing
  | AttestationVerification => time_pq_sig_attestation_verification
  | AggregateBuilding => time_pq_sig_aggregated_signatures_building
  | AggregateVerification => time_pq_sig_aggregated_signatures_verification
  | CommitteeAggregation => time_committee_signatures_aggregation
  | StateTransitionTime => time_state_transition
  | SlotsProcessing => time_slots_processing
  | BlockProcessingTime => time_block_processing
  | AttestationsProcessing => time_attestations_processing
  end.

Definition perform (c : Call) : MM unit :=
  match c with
  | UpdateHeadSlot slot => update_head_slot slot
  | UpdateLatestJustifiedSlot slot => update_latest_justified_slot slot
  | UpdateLatestFinalizedSlot slot => update_latest_finalized_slot slot
  | UpdateCurrentSlot slot => update_current_slot slot
  | UpdateValidatorsCount count => update_validators_count count
  | UpdateSafeTargetSlot slot => update_safe_target_slot slot
  | SetNodeInfo name version => set_node_info name version
  | SetNodeStartTime now => set_node_start_time now
  | IncAttestationsValid => inc_attestations_valid
  | IncAttestationsInvalid => inc_attestations_invalid
  | IncForkChoiceReorgs => inc_fork_choice_reorgs
  | IncAggregated => inc_pq_sig_aggregated_signatures
  | IncAttestationsInAggregated count => inc_pq_sig_attestations_in_aggregated_signatures count
  | IncAggregatedValid => inc_pq_sig_aggregated_signatures_valid
  | IncAggregatedInvalid => inc_pq_sig_aggregated_signatures_invalid
  | IncSignatures => inc_pq_sig_attestation_signatures
  | IncSignaturesValid => inc_pq_sig_attestation_signatures_valid
  | IncSignaturesInvalid => inc_pq_sig_attestation_signatures_invalid
  | UpdateTableBytes table n => update_table_bytes table n
  | UpdateGossipSignatures count => update_gossip_signatures count
  | UpdateNewPayloads count => update_latest_new_aggregated_payloads count
  | UpdateKnownPayloads count => update_latest_known_aggregated_payloads count
  | SetIsAggregator is_aggregator => set_is_aggregator is_aggregator
  | SetCommitteeCount count => set_attestation_committee_count count
  | ObserveReorgDepth depth => observe_fork_choice_reorg_depth depth
  | IncSlotsProcessed count => inc_slots_processed count
  | IncAttestationsProcessed count => inc_attestations_processed count
  | IncFinalizations result => inc_finalizations result
  | SetCommitteeSubnet subnet_id => set_attestation_committee_subnet subnet_id
  | NotifyPeerConnected names peer_id direction result => notify_peer_connected names peer_id direction result
  | NotifyPeerDisconnected names peer_id direction reason => notify_peer_disconnected names peer_id direction reason
  | Timed timer start stop => guard ← start_timer timer start; TimingGuard_drop guard stop
  end.

(** The name of the histogram of a timer. *)
Definition timer_name (t : Timer) : string :=
  match t with
  | ForkChoiceBlockProcessing => "lean_fork_choice_block_processing_time_seconds"
  | AttestationValidation => "lean_attestation_validation_time_seconds"
  | AttestationSigning => "lean_pq_sig_attestation_signing_time_seconds"
  | AttestationVerification => "lean_pq_sig_attestation_verification_time_seconds"
  | AggregateBuilding => "lean_pq_sig_aggregated_signatures_building_time_seconds"
  | AggregateVerification => "lean_pq_sig_aggregated_signatures_verification_time_seconds"
  | CommitteeAggregation => "lean_committee_signatures_aggregation_time_seconds"
  | StateTransitionTime => "lean_state_transition_time_seconds"
  | SlotsProcessing => "lean_state_transition_slots_processing_time_seconds"
  | BlockProcessingTime => "lean_state_transition_block_processing_time_seconds"
  | AttestationsProcessing => "lean_state_transition_attestations_processing_time_seconds"
  end.

(** What a call does to the board. *)
Definition effect (c : Call) : Board → Board :=
  match c with
  | UpdateHeadSlot slot => bd_set "lean_head_slot" [] (Z.of_N slot)
  | UpdateLatestJustifiedSlot slot => bd_set "lean_latest_justified_slot" [] (Z.of_N slot)
  | UpdateLatestFinalizedSlot slot => bd_set "lean_latest_finalized_slot" [] (Z.of_N slot)
  | UpdateCurrentSlot slot => bd_set "lean_current_slot" [] (Z.of_N slot)
  | UpdateValidatorsCount count => bd_set "lean_validators_count" [] (Z.of_N count)
  | UpdateSafeTargetSlot slot => bd_set "lean_safe_target_slot" [] (Z.of_N slot)
  | SetNodeInfo name version => bd_set "lean_node_info" [name; version] 1
  | SetNodeStartTime now => bd_set "lean_node_start_time_seconds" [] (wrap_i64 now)
  | IncAttestationsValid => bd_inc_by "lean_attestations_valid_total" [] (to_u64 1)
  | IncAttestationsInvalid => bd_inc_by "lean_attestations_invalid_total" [] (to_u64 1)
  | IncForkChoiceReorgs => bd_inc_by "lean_fork_choice_reorgs_total" [] (to_u64 1)
  | IncAggregated => bd_inc_by "lean_pq_sig_aggregated_signatures_total" [] (to_u64 1)
  | IncAttestationsInAggregated count => bd_inc_by "lean_pq_sig_attestations_in_aggregated_signatures_total" [] count
  | IncAggregatedValid => bd_inc_by "lean_pq_sig_aggregated_signatures_valid_total" [] (to_u64 1)
  | IncAggregatedInvalid => bd_inc_by "lean_pq_sig_aggregated_signatures_invalid_total" [] (to_u64 1)
  | IncSignatures => bd_inc_by "lean_pq_sig_attestation_signatures_total" [] (to_u64 1)
  | IncSignaturesValid => bd_inc_by "lean_pq_sig_attestation_signatures_valid_total" [] (to_u64 1)
  | IncSignaturesInvalid => bd_inc_by "lean_pq_sig_attestation_signatures_invalid_total" [] (to_u64 1)
  | UpdateTableBytes table n => bd_set "lean_table_bytes" [text table] (wrap_i64 (Z.of_N n))
  | UpdateGossipSignatures count => bd_set "lean_gossip_signatures" [] (wrap_i64 (Z.of_N count))
  | UpdateNewPayloads count => bd_set "lean_latest_new_aggregated_payloads" [] (wrap_i64 (Z.of_N count))
  | UpdateKnownPayloads count => bd_set "lean_latest_known_aggregated_payloads" [] (wrap_i64 (Z.of_N count))
  | SetIsAggregator is_aggregator => bd_set "lean_is_aggregator" [] (if is_aggregator then 1 else 0)%Z
  | SetCommitteeCount count => bd_set "lean_attestation_committee_count" [] (if count <? 2 ^ 63 then Z.of_N count else 0%Z)
  | ObserveReorgDepth depth => bd_observe "lean_fork_choice_reorg_depth"
  | IncSlotsProcessed count => bd_inc_by "lean_state_transition_slots_processed_total" [] count
  | IncAttestationsProcessed count => bd_inc_by "lean_state_transition_attestations_processed_total" [] count
  | IncFinalizations result => bd_inc_by "lean_finalizations_total" [text result] (to_u64 1)
  | SetCommitteeSubnet subnet_id => bd_set "lean_attestation_committee_subnet" [] (if subnet_id <? 2 ^ 63 then Z.of_N subnet_id else 0%Z)
  | NotifyPeerConnected names peer_id direction result =>
      (if bool_decide (result = "success"%string) then bd_add "lean_connected_peers" [resolve names peer_id] 1 else id) ∘
        bd_inc_by "lean_peer_connection_events_total" [text direction; text result] (to_u64 1)
  | NotifyPeerDisconnected names peer_id direction reason =>
      bd_add "lean_connected_peers" [resolve names peer_id] (-1) ∘
        bd_inc_by "lean_peer_disconnection_events_total" [text direction; text reason] (to_u64 1)
  | Timed timer _ _ => bd_observe (timer_name timer)
  end.

(** The arguments that the conversions to [i64] take; the clock is not before 1970. *)
Definition call_ok (c : Call) : Prop :=
  match c with
  | UpdateHeadSlot n | UpdateLatestJustifiedSlot n | UpdateLatestFinalizedSlot n | UpdateCurrentSlot n
  | UpdateValidatorsCount n | UpdateSafeTargetSlot n => n < 2 ^ 63
  | SetNodeStartTime now => (0 <= now)%Z
  | _ => True
  end.

Lemma as_i64_wrap (n : u64) : as_i64 n = wrap_i64 (Z.of_N n).
Proof. unfold as_i64, wrap_i64. destruct (N.ltb_spec n (2 ^ 63)); pose proof (u64_lt n); lia. Qed.

Lemma updates_value (m : LazyLock) (v : partial Z) z : known m → v = Return z → updates (E := E) (set m v) (bd_set (name_of m) [] z).
Proof. intros Hm ->. by apply updates_set. Qed.

Lemma node_start_updates now : (0 <= now)%Z →
  updates (set_node_start_time now : MM unit) (bd_set "lean_node_start_time_seconds" [] (wrap_i64 now)).
Proof.
  intros Hnow mt b Hok Hb. unfold set_node_start_time, achieves. rewrite run_bind, run_lift_partial.
  destruct (Z.ltb_spec now 0); [lia|]. apply (updates_value LEAN_NODE_START_TIME_SECONDS); [find_static| |done..].
  f_equal. rewrite as_i64_wrap, to_u64_val. unfold wrap_i64. f_equal. lia.
Qed.

Lemma updates_cast m (n : u64) : known m → updates (E := E) (set m (Return (as_i64 n))) (bd_set (name_of m) [] (wrap_i64 (Z.of_N n))).
Proof. intros Hm. rewrite as_i64_wrap. by apply updates_set. Qed.

Lemma updates_timer t start stop :
  updates (guard ← (start_timer t start : MM TimingGuard); TimingGuard_drop guard stop) (bd_observe (timer_name t)).
Proof. destruct t; (apply updates_timed; find_static). Qed.

Lemma updates_connected names peer_id direction result :
  updates (notify_peer_connected names peer_id direction result : MM unit) (effect (NotifyPeerConnected names peer_id direction result)).
Proof.
  cbn [effect]. unfold notify_peer_connected. apply updates_seq; [apply updates_inc_with; [find_static|done]|].
  destruct (bool_decide _); [apply updates_add_with; [find_static|done]|apply updates_ret].
Qed.

Lemma updates_disconnected names peer_id direction reason :
  updates (notify_peer_disconnected names peer_id direction reason : MM unit)
    (effect (NotifyPeerDisconnected names peer_id direction reason)).
Proof.
  cbn [effect]. unfold notify_peer_disconnected.
  apply updates_seq; [apply updates_inc_with|apply updates_add_with]; first [done|find_static].
Qed.

Lemma perform_updates c : call_ok c → updates (perform c) (effect c).
Proof.
  intros Hc. destruct c; cbn [perform call_ok] in Hc |- *.
  all: lazymatch goal with
    | |- updates (notify_peer_connected _ _ _ _) _ => apply updates_connected
    | |- updates (notify_peer_disconnected _ _ _ _) _ => apply updates_disconnected
    | _ => cbn [effect]
    end.
  all: try by apply node_start_updates.
  all: try by apply updates_timer.
  all: try (apply updates_value; [find_static|by apply i64_unwrap_small]).
  all: try (apply updates_cast; find_static).
  all: try (apply updates_set; find_static).
  all: try (apply updates_inc_by; find_static).
  all: try (apply updates_inc_with; [find_static|done]).
  - apply updates_set_with; [find_static|done].
  - unfold update_table_bytes. rewrite as_i64_wrap. apply updates_set_with; [find_static|done].
  - apply updates_value; [find_static|]. unfold i64_try_from. by destruct (_ <? _).
  - apply updates_observe. find_static.
  - apply updates_value; [find_static|]. unfold i64_try_from. by destruct (_ <? _).
Qed.

Lemma set_panics m mt b : known m → metrics_ok mt → shows mt b → (set m Panic : MM unit) mt = Panicked.
Proof.
  intros Hm Hok Hb. destruct (force_run (E := E) m mt b Hm Hok Hb) as (mt1 & [] & Hrun & _). unfold set. by rewrite run_bind, Hrun.
Qed.

Lemma perform_panics c mt b : ¬ call_ok c → metrics_ok mt → shows mt b → perform c mt = Panicked.
Proof.
  intros Hc Hok Hb.
  assert (Hconv : ∀ n : u64, ¬ n < 2 ^ 63 → i64_unwrap n = Panic).
  { intros n Hn. unfold i64_unwrap, i64_try_from. by rewrite (proj2 (N.ltb_nlt _ _) Hn). }
  destruct c; cbn [perform call_ok] in Hc |- *; try done.
  all: unfold update_head_slot, update_latest_justified_slot, update_latest_finalized_slot, update_current_slot, update_validators_count,
    update_safe_target_slot; try (rewrite (Hconv _ Hc); eapply set_panics; [find_static|done..]).
  unfold set_node_start_time. rewrite run_bind, run_lift_partial. by destruct (Z.ltb_spec now 0); [|lia].
Qed.

Definition run_calls (calls : list Call) : MM unit := foldM (λ _ c, perform c) tt calls.
Definition effects (calls : list Call) (b : Board) : Board := foldl (λ b c, effect c b) b calls.

Lemma run_calls_updates calls : Forall call_ok calls → updates (run_calls calls) (effects calls).
Proof.
  induction 1 as [|c calls Hc _ IH]; [apply updates_ret|]. apply (updates_bind _ _ (effect c) (effects calls)); [by apply perform_updates|].
  by intros [].
Qed.

(** The calls of the start of a node, after [init]. *)
Definition start_calls (version : Text) (now : Z) (committees : u64) (is_aggregator : bool) (subnet_id : u64) : list Call :=
  [ SetNodeInfo (text "ethlambda") version; SetNodeStartTime now; SetCommitteeCount committees; SetIsAggregator is_aggregator;
    SetCommitteeSubnet subnet_id ].

Definition board_of (r : Registry) : Board := mk_board (metric_value r) (sample_count r).

(** The metrics of crates/blockchain/src/metrics.rs. *)
Definition blockchain_metrics : list LazyLock := take 32 ALL_METRICS.

(** C29. From the start of the process, when no other library has taken one of the names, no
    update of the metrics panics, in any order and with any arguments that [i64] holds:
    every metric is registered once, those of the blockchain from the start, and afterwards
    every gauge shows the value it was last set to, or the sum of its changes (connected
    peers, by client), every counter the sum of its increments and every histogram the
    number of its observations. A slot that [i64] does not hold makes the update panic. *)
Theorem metrics_refine_board r version now committees is_aggregator subnet_id calls :
  (∀ m, known m → ¬ registered r (name_of m)) → (0 <= now)%Z → Forall call_ok calls →
  ∃ mt, (start_metrics version now committees is_aggregator subnet_id;; run_calls calls) (mk_metrics r ∅) = Done mt tt ∧
    shows mt (effects (start_calls version now committees is_aggregator subnet_id ++ calls) (board_of r)) ∧
    (∀ m, known m → registered (mt_registry mt) (name_of m) ↔ ll_static m ∈ mt_forced mt) ∧
    (∀ m, m ∈ blockchain_metrics → registered (mt_registry mt) (name_of m)) ∧
    ∀ c, ¬ call_ok c → perform c mt = Panicked.
Proof.
  intros Hfree Hnow Hcalls. set (mt0 := mk_metrics r ∅).
  assert (Hok0 : metrics_ok mt0) by (intros m Hm; split; [intros Hreg; by destruct (Hfree m Hm)|by intros ?%elem_of_empty]).
  assert (Hall : Forall call_ok (start_calls version now committees is_aggregator subnet_id ++ calls)).
  { apply Forall_app. split; [|done]. repeat constructor. exact Hnow. }
  destruct (forced_all (E := E) blockchain_metrics mt0 (board_of r)) as (mt1 & [] & Hinit & Hok1 & Hb1 & _ & Hforced);
    [intros m Hm; by apply (subseteq_take 32)|done|done|].
  destruct (run_calls_updates _ Hall mt1 (board_of r) Hok1 Hb1) as (mt2 & [] & Hrun & Hok2 & Hb2 & Hs2).
  exists mt2. split_and!; [|done|done| |intros c Hc; by eapply perform_panics].
  - change (init (E := E) mt0 = Done mt1 tt) in Hinit. unfold start_metrics. rewrite <- Hrun. unfold run_calls, start_calls.
    rewrite !run_bind, Hinit. cbn [app foldM perform].
    do 5 (rewrite ?run_bind; match goal with |- context [match ?m with Done _ _ => _ | _ => _ end] =>
      match m with context [match _ with _ => _ end] => fail 1 | _ => destruct m as [? []| | |]; [|done..] end end).
    done.
  - intros m Hm. apply Hok2; [by apply (subseteq_take 32)|]. by apply Hs2, Hforced.
Qed.
End calls.

(** * Actors with the metrics *)

Section pairs.
Context {A B E : Type}.

Lemma achieves_first {X} (m : M A E X) a (b : B) Q : achieves m a (λ x a', Q x (a', b)) → achieves (on_first m) (a, b) Q.
Proof. intros (a' & x & Hm & HQ). exists (a', b), x. unfold on_first. cbn [fst snd]. by rewrite Hm. Qed.
Lemma achieves_second {X} (m : M B E X) (a : A) b Q : achieves m b (λ x b', Q x (a, b')) → achieves (on_second m) (a, b) Q.
Proof. intros (b' & x & Hm & HQ). exists (a, b'), x. unfold on_second. cbn [fst snd]. by rewrite Hm. Qed.
End pairs.

(** ** The peers a handler of the network actor keeps *)

Section peers.
Context `{STL : SszTypesLaws} `{SL : StorageLaws D B} `{CO : Codecs} {CL : CodecsLaws} `{HS : Hashing} `{HOL : HashOrderLaws}.
Context `{SC : SignatureScheme} `{SNL : SnappyLaws} `{WC : WireCodecs} `{LP : Libp2p} `{PLL : P2PLibrariesLaws}.
Context {E : Type}.
Implicit Types (s : P2PServer (D := D)).

Definition keeps_peers {X} (m : M (P2PServer (D := D)) E X) : Prop :=
  ∀ s s' x, m s = Done s' x → ps_connected_peers s' = ps_connected_peers s.

Lemma kp_ret {X} (x : X) : keeps_peers (mret x).
Proof. by intros s s' y [= <-]. Qed.
Lemma kp_bind {X Y} (m : M _ E X) (k : X → M _ E Y) : keeps_peers m → (∀ x, keeps_peers (k x)) → keeps_peers (m ≫= k).
Proof. intros Hm Hk s s' y (s1 & x & Hm1%Hm & Hk1%Hk)%bind_Done. congruence. Qed.
Lemma kp_gets {X} (f : _ → X) : keeps_peers (gets f).
Proof. by intros s s' y [= <-]. Qed.
Lemma kp_reads {X} (f : _ → partial X) : keeps_peers (reads f).
Proof. intros s s' y. unfold reads. destruct (f s); [|done..]. by intros [= <-]. Qed.
Lemma kp_modify f : (∀ s, ps_connected_peers (f s) = ps_connected_peers s) → keeps_peers (modify f).
Proof. intros Hf s s' y [= <-]. apply Hf. Qed.
Lemma kp_foldM {X Y} (f : Y → X → M _ E Y) l : (∀ y x, keeps_peers (f y x)) → ∀ y, keeps_peers (foldM f y l).
Proof. intros Hf. induction l as [|x l IH]; intros y; [apply kp_ret|]. apply kp_bind; [apply Hf|apply IH]. Qed.
End peers.

Create HintDb peers.
#[export] Hint Resolve kp_ret kp_gets kp_reads : peers.

(** Go through a handler that leaves the connected peers alone. *)
Ltac keep_peers :=
  repeat match goal with
  | |- keeps_peers (_ ≫= _) => apply kp_bind; [|intros ?]
  | |- keeps_peers (modify _) => apply kp_modify; intros ?; repeat case_match; reflexivity
  | |- keeps_peers (foldM _ _ _) => apply kp_foldM; intros ? ?
  | |- keeps_peers (match _ with _ => _ end) => case_match
  | |- keeps_peers _ => solve [eauto with peers]
  end.

Section gauges.
Context `{STL : SszTypesLaws} `{SL : StorageLaws D B} `{CO : Codecs} {CL : CodecsLaws} `{HS : Hashing} `{HOL : HashOrderLaws}.
Context `{MS : MultisigScheme} `{SNL : SnappyLaws} `{WC : WireCodecs} `{LP : Libp2p} `{PLL : P2PLibrariesLaws} `{PL : PrometheusLaws}.
Context {E : Type}.
Implicit Types (s : P2PServer (D := D)) (mt : Metrics).

Lemma kp_fetch env root : keeps_peers (E := E) (D := D) (fetch_block_from_peer env root).
Proof. unfold fetch_block_from_peer, send_request, command. keep_peers. Qed.

Lemma kp_failure root peer : keeps_peers (E := E) (D := D) (handle_fetch_failure root peer).
Proof. unfold handle_fetch_failure, send_after. keep_peers. Qed.

Lemma kp_req_resp event : keeps_peers (E := E) (D := D) (handle_req_resp_message event).
Proof.
  pose proof kp_failure as Hf.
  unfold handle_req_resp_message, handle_status_request, handle_blocks_by_root_request, handle_blocks_by_root_response, receive_block, forward, command.
  keep_peers.
Qed.

Lemma kp_gossip topic data : keeps_peers (E := E) (D := D) (handle_gossipsub_message topic data).
Proof. unfold handle_gossipsub_message, receive_gossip, forward. keep_peers. Qed.

(** The connected peers after an input. *)
Definition peers_after (input : P2PInput) (peers : gset PeerId) : gset PeerId :=
  match input with
  | WrappedSwarmEvent (ConnectionEstablished peer _ n) => if n =? 1 then {[ peer ]} ∪ peers else peers
  | WrappedSwarmEvent (ConnectionClosed peer _ n _) => if n =? 0 then peers ∖ {[ peer ]} else peers
  | _ => peers
  end.

Lemma handle_peers env input s s' :
  (p2p_handle env input : M _ E unit) s = Done s' tt → ps_connected_peers s' = peers_after input (ps_connected_peers s).
Proof.
  pose proof kp_fetch as Hf. destruct input as [|msg|[r|peer]|event]; cbn [p2p_handle peers_after].
  - by intros [= <-].
  - assert (Hk : keeps_peers (E := E) (D := D) (handle_blockchain_message env msg)); [|apply Hk].
    unfold handle_blockchain_message, publish_block, publish_attestation, publish_aggregated_attestation, publish, handle_fetch_block, command, lift_partial.
    keep_peers.
  - assert (Hk : keeps_peers (E := E) (D := D) (handle_retry_block_fetch env r)); [|apply Hk].
    unfold handle_retry_block_fetch. keep_peers.
  - assert (Hk : keeps_peers (E := E) (D := D) (handle_retry_peer_redial peer)); [|apply Hk].
    unfold handle_retry_peer_redial, command. keep_peers.
  - destruct event as [event|topic data|peer dialer n|peer dialer n cause|peer error|peer|]; cbn [handle_swarm_event].
    + apply kp_req_resp.
    + apply kp_gossip.
    + destruct (n =? 1); [|by intros [= <-]]. rewrite run_bind, run_modify.
      set (s1 := set_connected_peers _ s). change ({[peer]} ∪ ps_connected_peers s) with (ps_connected_peers s1).
      match goal with |- ?m s1 = _ → _ => assert (Hk : keeps_peers m); [|apply Hk] end. unfold send_request, command. keep_peers.
    + destruct (n =? 0); [|by intros [= <-]]. rewrite run_bind, run_modify.
      set (s1 := set_connected_peers _ s). change (ps_connected_peers s ∖ {[peer]}) with (ps_connected_peers s1).
      match goal with |- ?m s1 = _ → _ => assert (Hk : keeps_peers m); [|apply Hk] end. unfold send_after. keep_peers.
    + match goal with |- ?m s = _ → _ => assert (Hk : keeps_peers m); [|apply Hk] end. unfold send_after. keep_peers.
    + by intros [= <-].
    + by intros [= <-].
Qed.

(** ** The gauge of connected peers *)

Context (names : gmap PeerId Text).

(** The connected peers with a name, and what the gauge shows of them. *)
Definition peers_named (name : Text) (peers : gset PeerId) : gset PeerId := filter (λ p, resolve names (Some p) = name) peers.
Definition gauge_shows (peers : gset PeerId) (b : Board) : Prop :=
  ∀ name, bd_value b "lean_connected_peers" [name] = wrap_i64 (Z.of_nat (size (peers_named name peers))).

Lemma wrap_i64_add z k : wrap_i64 (wrap_i64 z + k) = wrap_i64 (z + k).
Proof.
  unfold wrap_i64. change (2 ^ 64)%Z with 18446744073709551616%Z. change (2 ^ 63)%Z with 9223372036854775808%Z. lia.
Qed.

Lemma size_named_insert name p peers : p ∉ peers →
  Z.of_nat (size (peers_named name ({[ p ]} ∪ peers))) =
    (Z.of_nat (size (peers_named name peers)) + if decide (resolve names (Some p) = name) then 1 else 0)%Z.
Proof.
  intros Hp. unfold peers_named. rewrite filter_union_L, filter_singleton_L by apply _.
  destruct (decide (resolve names (Some p) = name)) as [Hn|Hn].
  - rewrite size_union by set_solver. rewrite size_singleton. lia.
  - rewrite (left_id_L ∅ (∪)). lia.
Qed.

Lemma counter_other n m l k c b : m ≠ n → bd_value (bd_inc_by n l c b) m k = bd_value b m k.
Proof. intros Hn. cbn. rewrite decide_False; [done|congruence]. Qed.

Lemma gauge_changed z p name n l c b : n ≠ "lean_connected_peers"%string →
  bd_value (bd_add "lean_connected_peers" [resolve names (Some p)] z (bd_inc_by n l c b)) "lean_connected_peers" [name] =
    (if decide (resolve names (Some p) = name) then wrap_i64 (bd_value b "lean_connected_peers" [name] + z)
     else bd_value b "lean_connected_peers" [name]).
Proof.
  intros Hn. unfold bd_add. rewrite counter_other by done. unfold bd_set at 1. cbn [bd_value]. rewrite counter_other by done.
  destruct (decide (resolve names (Some p) = name)) as [<-|Hne]; [by rewrite decide_True|]. rewrite decide_False; [done|congruence].
Qed.

Lemma peers_inserted p peers b l : p ∉ peers → gauge_shows peers b →
  gauge_shows ({[ p ]} ∪ peers) (bd_add "lean_connected_peers" [resolve names (Some p)] 1 (bd_inc_by "lean_peer_connection_events_total" l (to_u64 1) b)).
Proof.
  intros Hp Hb name. rewrite size_named_insert, gauge_changed, (Hb name) by done. case_decide; [apply wrap_i64_add|f_equal; lia].
Qed.

Lemma peers_deleted p peers b l : p ∈ peers → gauge_shows peers b →
  gauge_shows (peers ∖ {[ p ]}) (bd_add "lean_connected_peers" [resolve names (Some p)] (-1) (bd_inc_by "lean_peer_disconnection_events_total" l (to_u64 1) b)).
Proof.
  intros Hp Hb name. pose proof (size_named_insert name p (peers ∖ {[ p ]}) ltac:(set_solver)) as Hs.
  rewrite <- union_difference_singleton_L in Hs by done. rewrite gauge_changed, (Hb name) by done.
  case_decide; [rewrite wrap_i64_add|]; f_equal; lia.
Qed.

(** The events of the swarm count the connections of every peer. *)
Fixpoint connections_ok (established : gmap PeerId N) (inputs : list (Env * P2PInput)) : Prop :=
  match inputs with
  | [] => True
  | (_, WrappedSwarmEvent (ConnectionEstablished p _ n)) :: inputs =>
      n = default 0 (established !! p) + 1 ∧ connections_ok (<[p := n]> established) inputs
  | (_, WrappedSwarmEvent (ConnectionClosed p _ n _)) :: inputs =>
      default 0 (established !! p) = n + 1 ∧ connections_ok (<[p := n]> established) inputs
  | _ :: inputs => connections_ok established inputs
  end.

Definition counted (established : gmap PeerId N) (peers : gset PeerId) : Prop := ∀ p, p ∈ peers ↔ 0 < default 0 (established !! p).

Definition next_counts (input : P2PInput) (established : gmap PeerId N) : gmap PeerId N :=
  match input with
  | WrappedSwarmEvent (ConnectionEstablished p _ n) | WrappedSwarmEvent (ConnectionClosed p _ n _) => <[p := n]> established
  | _ => established
  end.

(** One input: the counts, the peers and the gauge move together. *)
Lemma input_gauge env input inputs established peers :
  connections_ok established ((env, input) :: inputs) → counted established peers →
  connections_ok (next_counts input established) inputs ∧ counted (next_counts input established) (peers_after input peers) ∧
  ∃ f, updates (E := E) (p2p_metrics names input) f ∧ ∀ b, gauge_shows peers b → gauge_shows (peers_after input peers) (f b).
Proof.
  assert (Hnotify : ∀ p dir res, res ≠ "success"%string →
    ∃ f, updates (E := E) (notify_peer_connected names p dir res) f ∧ ∀ b, gauge_shows peers b → gauge_shows peers (f b)).
  { intros p dir res Hres. eexists. split.
    - unfold notify_peer_connected. rewrite bool_decide_eq_false_2 by done. eapply (updates_seq _ _ _ id); [|apply updates_ret].
      apply updates_inc_with; [find_static|done].
    - intros b Hb name. unfold compose, id. rewrite counter_other by done. apply Hb. }
  destruct input as [|msg|t|event]; try (intros Hc Hp; split; [exact Hc|split; [exact Hp|]]; exists id; by split; [apply updates_ret|]).
  destruct event as [event|topic data|p dialer n|p dialer n cause|p error|p|]; cbn [connections_ok next_counts peers_after p2p_metrics swarm_event_metrics];
    try (intros Hc Hp; split; [exact Hc|split; [exact Hp|]]; exists id; by split; [apply updates_ret|]).
  - intros [Hn Hc] Hp. split; [exact Hc|]. pose proof (Hp p) as Hpp. destruct (N.eqb_spec n 1) as [Heq|Heq].
    + assert (Hnew : p ∉ peers) by (rewrite Hpp; lia). split.
      { intros q. rewrite elem_of_union, elem_of_singleton, (Hp q). destruct (decide (q = p)) as [->|Hne].
        - rewrite lookup_insert_eq. cbn. split; [lia|by left].
        - rewrite lookup_insert_ne by done. split; [by intros [?|?]|by right]. }
      eexists. split.
      { unfold notify_peer_connected. rewrite bool_decide_eq_true_2 by done.
        eapply updates_seq; [apply updates_inc_with|apply updates_add_with]; first [done|find_static]. }
      intros b Hb. by apply peers_inserted.
    + split; [|exists id; by split; [apply updates_ret|]]. intros q. rewrite (Hp q). destruct (decide (q = p)) as [->|Hne].
      * rewrite lookup_insert_eq. cbn. lia.
      * by rewrite lookup_insert_ne.
  - intros [Hn Hc] Hp. split; [exact Hc|]. pose proof (Hp p) as Hpp. destruct (N.eqb_spec n 0) as [Heq|Heq].
    + assert (Hin : p ∈ peers) by (rewrite Hpp; lia). split.
      { intros q. rewrite elem_of_difference, elem_of_singleton, (Hp q). destruct (decide (q = p)) as [->|Hne].
        - rewrite lookup_insert_eq. cbn. split; [by intros [_ []]|lia].
        - rewrite lookup_insert_ne by done. split; [by intros []|done]. }
      eexists. split.
      { unfold notify_peer_disconnected. eapply updates_seq; [apply updates_inc_with|apply updates_add_with]; first [done|find_static]. }
      intros b Hb. by apply peers_deleted.
    + split; [|exists id; by split; [apply updates_ret|]]. intros q. rewrite (Hp q). destruct (decide (q = p)) as [->|Hne].
      * rewrite lookup_insert_eq. cbn. lia.
      * by rewrite lookup_insert_ne.
  - intros Hc Hp. split; [exact Hc|split; [exact Hp|]]. apply Hnotify. by destruct (contains _ _).
  - intros Hc Hp. split; [exact Hc|split; [exact Hp|]]. by apply Hnotify.
Qed.
Definition observed_run (inputs : list (Env * P2PInput)) : M (P2PServer (D := D) * Metrics) E unit :=
  foldM (λ _ x, observed_p2p names x.1 x.2) tt inputs.

Lemma observed_run_gauge inputs a : ∀ s mt b established,
  store_ok s a → attempts_ok s → Forall (λ x, input_ok x.2) inputs → metrics_ok mt → shows mt b →
  counted established (ps_connected_peers s) → gauge_shows (ps_connected_peers s) b → connections_ok established inputs →
  achieves (observed_run inputs) (s, mt) (λ _ '(s', mt'), ∃ b', metrics_ok mt' ∧ shows mt' b' ∧ gauge_shows (ps_connected_peers s') b').
Proof.
  induction inputs as [|[env input] inputs IH]; intros s mt b established Hs Hok Hin Hmt Hb Hcount Hgauge Hconn.
  { apply achieves_ret. by exists b. }
  apply Forall_cons in Hin as [Hi Hin]. destruct (input_gauge env input inputs established _ Hconn Hcount) as (Hconn' & Hcount' & f & Hf & Hg).
  destruct (handle_safe (E := E) env input s a Hs Hok Hi) as (s1 & [] & Hrun & Hok1 & Hst).
  destruct (Hf mt b Hmt Hb) as (mt1 & [] & Hrun1 & Hmt1 & Hb1 & _). pose proof (handle_peers _ _ _ _ Hrun) as Hp.
  assert (Hstep : (observed_p2p names env input : M _ E unit) (s, mt) = Done (s1, mt1) tt).
  { unfold observed_p2p, on_first, on_second. rewrite run_bind. cbn [fst snd]. rewrite Hrun. cbn [fst snd]. by rewrite Hrun1. }
  unfold observed_run, achieves. cbn [foldM fst snd]. rewrite run_bind, Hstep.
  apply (IH s1 mt1 (f b) (next_counts input established)); try done.
  - unfold store_ok. by rewrite Hst.
  - by rewrite Hp.
  - rewrite Hp. by apply Hg.
Qed.

(** The gauge of connected peers is right: when the swarm counts the connections of every
    peer, then whatever messages, timers and events the network actor handles from its start,
    the gauge of each name in the registry of names shows how many connected peers have that
    name, through repeated connections, failed dials and disconnections. *)
Theorem connected_peers_gauge s a mt inputs :
  store_ok s a → attempts_ok s → ps_connected_peers s = ∅ → Forall (λ x, input_ok x.2) inputs →
  metrics_ok mt → (∀ name, metric_value (mt_registry mt) "lean_connected_peers" [name] = 0%Z) → connections_ok ∅ inputs →
  ∃ s' mt', observed_run inputs (s, mt) = Done (s', mt') tt ∧ ∀ name,
    metric_value (mt_registry mt') "lean_connected_peers" [name] =
      wrap_i64 (Z.of_nat (size (filter (λ p, resolve names (Some p) = name) (ps_connected_peers s')))).
Proof.
  intros Hs Hok Hempty Hin Hmt Hzero Hconn.
  destruct (observed_run_gauge inputs a s mt (board_of (mt_registry mt)) ∅) as ([s' mt'] & [] & Hrun & b' & _ & [Hv _] & Hg); try done.
  - intros p. rewrite Hempty, lookup_empty. cbn. split; [by intros ?%elem_of_empty|lia].
  - intros name. cbn. rewrite Hzero, Hempty. unfold peers_named. by rewrite filter_empty_L by apply _.
  - exists s', mt'. split; [done|]. intros name. rewrite Hv. apply Hg.
Qed.
End gauges.

(** ** The gauges of the blockchain actor *)

Section blockchain.
Context `{STL : SszTypesLaws} `{SL : StorageLaws D B} `{CO : Codecs} {CL : CodecsLaws} `{HS : Hashing} {HL : HashingLaws}.
Context `{HOL : HashOrderLaws} `{MS : MultisigScheme} `{PL : PrometheusLaws} `{LP : Libp2p}.
Context (seen : BlockHeader → Prop) {HSeen : HeadersSeen seen} {HR : RankedHeaders seen} (anchor : N).
Context (estimate_table_bytes : D → Table → u64).
Implicit Types (s : Store D) (a : View) (b : BlockChainServer (D := D)) (mt : Metrics).

Abbreviation core := (server_core seen anchor).
Abbreviation shown mt name := (metric_value (mt_registry mt) name []).

(** A slot of the chain fits the history, and so [i64]. *)
Lemma chain_slot a r st : chain_core seen anchor a → processed a r st → header_slot st <= HISTORICAL_ROOTS_LIMIT.
Proof. intros Hc Hst. destruct (so_wf _ _ _ _ (cc_states _ _ a Hc r st Hst)) as [Hwf _]. rewrite <- (wf_hist_len _ Hwf). apply Hwf. Qed.

Lemma checkpoint_slot a c : chain_core seen anchor a → checkpoint_ok a c → cp_slot c <= HISTORICAL_ROOTS_LIMIT.
Proof. intros Hc (st & Hst & <-). by apply (chain_slot a (cp_root c)). Qed.

(** What the actor reads for its gauges. *)
Lemma slots_read b a : core b a → ∃ hst sst,
  processed a (vw_head a) hst ∧ processed a (vw_safe_target a) sst ∧
  head_slot (bc_store b) = Return (header_slot hst) ∧ safe_target_slot (bc_store b) = Return (header_slot sst) ∧
  latest_justified (bc_store b) = Return (vw_justified a) ∧ latest_finalized (bc_store b) = Return (vw_finalized a).
Proof.
  intros Hc. pose proof (si_store _ _ _ _ Hc) as Hr. pose proof (ci_core _ _ a (si_chain _ _ _ _ Hc)) as Hch.
  destruct (cc_head _ _ a Hch) as [hst Hhst], (cc_safe _ _ a Hch) as [sst Hsst]. exists hst, sst.
  pose proof (so_header _ _ _ _ (cc_states _ _ a Hch _ _ Hhst)) as Hh. pose proof (so_header _ _ _ _ (cc_states _ _ a Hch _ _ Hsst)) as Hs.
  split_and!; [done|done|by apply (head_slot_refines _ a)|by apply (safe_target_slot_refines _ a)|by apply latest_justified_refines|by apply latest_finalized_refines].
Qed.

(** The calls at the end of an import, and of a tick. *)
Definition import_calls b (head justified finalized : u64) : list Call :=
  [ UpdateHeadSlot head; UpdateLatestJustifiedSlot justified; UpdateLatestFinalizedSlot finalized;
    UpdateValidatorsCount (to_u64 (len (validator_ids (bc_key_manager b)))) ] ++
  ((λ t, UpdateTableBytes (Table_name t) (estimate_table_bytes (s_backend (bc_store b)) t)) <$> ALL_TABLES).

Lemma import_metrics_calls b a E : core b a → ∃ hst, processed a (vw_head a) hst ∧ ∀ mt,
  (process_block_metrics estimate_table_bytes b : M _ E unit) mt =
    run_calls (import_calls b (header_slot hst) (cp_slot (vw_justified a)) (cp_slot (vw_finalized a))) mt.
Proof.
  intros Hc. destruct (slots_read b a Hc) as (hst & sst & Hhst & _ & Hh & _ & Hj & Hf). exists hst. split; [done|]. intros mt.
  unfold process_block_metrics. rewrite Hh, Hj, Hf. unfold run_calls, import_calls. cbn [app foldM perform]. 
  rewrite run_bind, run_lift_partial, !run_bind. destruct (update_head_slot _ mt) as [m1 []| | |]; [|done..].
  rewrite run_bind, run_lift_partial, !run_bind. destruct (update_latest_justified_slot _ m1) as [m2 []| | |]; [|done..].
  rewrite run_bind, run_lift_partial, !run_bind. destruct (update_latest_finalized_slot _ m2) as [m3 []| | |]; [|done..].
  rewrite !run_bind. destruct (update_validators_count _ m3) as [m4 []| | |]; done.
Qed.

(** After an import. *)
Record import_shown b a mt : Prop := {
  is_head : ∃ st, processed a (vw_head a) st ∧ shown mt "lean_head_slot" = Z.of_N (header_slot st);
  is_justified : shown mt "lean_latest_justified_slot" = Z.of_N (cp_slot (vw_justified a));
  is_finalized : shown mt "lean_latest_finalized_slot" = Z.of_N (cp_slot (vw_finalized a));
  is_validators : shown mt "lean_validators_count" = Z.of_nat (size (km_keys (bc_key_manager b)));
  is_tables t : metric_value (mt_registry mt) "lean_table_bytes" [text (Table_name t)] =
    wrap_i64 (Z.of_N (estimate_table_bytes (s_backend (bc_store b)) t));
}.

Lemma import_effects b bd head justified finalized (calls := import_calls b head justified finalized) :
  bd_value (effects calls bd) "lean_head_slot" [] = Z.of_N head ∧
  bd_value (effects calls bd) "lean_latest_justified_slot" [] = Z.of_N justified ∧
  bd_value (effects calls bd) "lean_latest_finalized_slot" [] = Z.of_N finalized ∧
  bd_value (effects calls bd) "lean_validators_count" [] = Z.of_N (to_u64 (len (validator_ids (bc_key_manager b)))) ∧
  ∀ t, bd_value (effects calls bd) "lean_table_bytes" [text (Table_name t)] = wrap_i64 (Z.of_N (estimate_table_bytes (s_backend (bc_store b)) t)).
Proof. split_and!; [reflexivity..|]. intros []; reflexivity. Qed.

Lemma key_count b : len (validator_ids (bc_key_manager b)) = N.of_nat (size (km_keys (bc_key_manager b))).
Proof. unfold len, validator_ids. by rewrite length_fmap, hash_iter_perm, length_map_to_list. Qed.

(** The gauges after the updates at the end of an import. *)
Lemma import_metrics_shown b a mt E :
  core b a → metrics_ok mt → N.of_nat (size (km_keys (bc_key_manager b))) < 2 ^ 63 →
  achieves (process_block_metrics estimate_table_bytes b : M _ E unit) mt (λ _ mt', metrics_ok mt' ∧ import_shown b a mt').
Proof.
  intros Hc Hmt Hkeys. pose proof (ci_core _ _ a (si_chain _ _ _ _ Hc)) as Hch.
  destruct (import_metrics_calls b a E Hc) as (hst & Hhst & Hcalls). unfold achieves. rewrite Hcalls.
  set (calls := import_calls _ _ _ _).
  assert (Hlim : ∀ n : N, n <= HISTORICAL_ROOTS_LIMIT → n < 2 ^ 63) by (intros n; unfold HISTORICAL_ROOTS_LIMIT; lia).
  assert (Hok : Forall call_ok calls).
  { unfold calls, import_calls. apply Forall_app. split.
    - repeat constructor; cbn [call_ok]; [by apply Hlim, (chain_slot a (vw_head a))|apply Hlim, (checkpoint_slot a), Hch; done|
        apply Hlim, (checkpoint_slot a), Hch; done|]. rewrite key_count, to_u64_val. lia.
    - apply Forall_fmap, Forall_true. by intros t. }
  destruct (run_calls_updates (E := E) calls Hok mt (board_of (mt_registry mt)) Hmt) as (mt' & [] & Hrun & Hmt' & [Hv _] & _); [done|].
  exists mt', tt. split; [exact Hrun|]. split; [done|].
  destruct (import_effects b (board_of (mt_registry mt)) (header_slot hst) (cp_slot (vw_justified a)) (cp_slot (vw_finalized a)))
    as (Eh & Ej & Ef & Ek & Et). fold calls in Eh, Ej, Ef, Ek, Et.
  split; rewrite ?Hv, ?Ej, ?Ef; try done.
  - exists hst. by rewrite Eh.
  - rewrite Ek, key_count, to_u64_val. lia.
  - intros t. by rewrite Hv, Et.
Qed.

(** Importing a block with its metrics never panics: a refused block changes neither the
    actor nor a metric, and only an invalid one is refused; otherwise the gauges then show the slot of the head and of the
    justified and finalized checkpoints, the number of keys and the size of every table. *)
Theorem import_gauges b a sb mt :
  core b a → seen_block seen sb → metrics_ok mt → N.of_nat (size (km_keys (bc_key_manager b))) < 2 ^ 63 →
  (vw_states a !! root_of sb = None ∧ (¬ ∃ st, block_valid a sb st) ∧ ∃ e, observed_process_block estimate_table_bytes sb (b, mt) = Fail (b, mt) e) ∨
  ∃ b' a' mt', observed_process_block estimate_table_bytes sb (b, mt) = Done (b', mt') tt ∧
    core b' a' ∧ is_Some (vw_states a' !! root_of sb) ∧ metrics_ok mt' ∧ import_shown b' a' mt'.
Proof.
  intros Hc Hs Hmt Hkeys.
  assert (Hstep : ∀ b' a', server_process_block sb b = Done b' tt → core b' a' → bc_key_manager b' = bc_key_manager b →
    ∃ mt', observed_process_block estimate_table_bytes sb (b, mt) = Done (b', mt') tt ∧ metrics_ok mt' ∧ import_shown b' a' mt').
  { intros b' a' Hrun Hc' Hk. destruct (import_metrics_shown b' a' mt StoreError Hc' Hmt) as (mt' & [] & Hm & Hok' & Hsh); [by rewrite Hk|].
    exists mt'. split; [|done]. unfold observed_process_block, on_first, on_second. rewrite run_bind. cbn [fst snd]. rewrite Hrun.
    cbn [fst snd]. rewrite run_bind, run_gets. cbn [fst snd]. by rewrite Hm. }
  destruct (server_process_cases seen anchor b a sb Hc Hs) as [[Hknown Hrun]|[Hnew [(st & s' & a' & Hv & Hrun & Hr & Him)|(Hno & e & Hrun)]]].
  - right. destruct (Hstep b a Hrun Hc eq_refl) as (mt' & Hobs & Hok' & Hsh). by exists b, a, mt'.
  - right. destruct (imported_core seen anchor b a sb st s' a' Hc Hs Hnew Hr Him) as [Hc' _].
    destruct (Hstep (set_store s' b) a' Hrun Hc' eq_refl) as (mt' & Hobs & Hok' & Hsh). exists (set_store s' b), a', mt'.
    split_and!; [done..| |done|done]. rewrite (bi_state _ _ _ _ _ _ Him). unfold root_of, block_of. by rewrite lookup_insert_eq.
  - left. split_and!; [done..|]. exists e. unfold observed_process_block, on_first. rewrite run_bind. cbn [fst snd]. by rewrite Hrun.
Qed.
(** The slot of the wall clock, from the configuration of the store. *)
Definition clock_slot (genesis_time timestamp_ms : u64) : N :=
  (timestamp_ms - (u64_val genesis_time * 1000) mod 2 ^ 64) / 4000.

(** A tick with its metrics never panics either; the gauges then show the slot of the wall
    clock, and the slots of the head and of the safe target after the tick. *)
Theorem tick_gauges b a timestamp_ms mt E :
  core b a → own_seen (E := E) seen b (HandleTick timestamp_ms) → u64_val timestamp_ms < 2 ^ 32 * 4000 → metrics_ok mt →
  ∃ b' a' mt' hst sst, (observed_tick timestamp_ms : M _ E unit) (b, mt) = Done (b', mt') tt ∧ core b' a' ∧ metrics_ok mt' ∧
    shown mt' "lean_current_slot" = Z.of_N (clock_slot (cc_genesis_time (vw_config a)) timestamp_ms) ∧
    processed a' (vw_head a') hst ∧ shown mt' "lean_head_slot" = Z.of_N (header_slot hst) ∧
    processed a' (vw_safe_target a') sst ∧ shown mt' "lean_safe_target_slot" = Z.of_N (header_slot sst).
Proof.
  intros Hc Hown Hts Hmt. pose proof (si_store _ _ _ _ Hc) as Hr.
  destruct (tick_handled (E := E) seen anchor b a timestamp_ms Hc Hown Hts) as (b' & [] & Hrun & a' & [Hc' _ _ _ _]).
  destruct (reads_head seen anchor b a Hc) as [(st & Hst & Hread) _]. pose proof (ci_core _ _ a (si_chain _ _ _ _ Hc)) as Hch.
  assert (Hvals : st_validators st ≠ []).
  { destruct (so_wf _ _ _ _ (cc_states _ _ a Hch _ st Hst)) as [Hwf _]. pose proof (wf_validators _ Hwf) as [Hpos _]. by destruct (st_validators st). }
  destruct (slots_read b' a' Hc') as (hst & sst & Hhst & Hsst & Hh & Hsafe & _ & _). pose proof (ci_core _ _ a' (si_chain _ _ _ _ Hc')) as Hch'.
  set (slot := u64_div (saturating_sub timestamp_ms (wrapping_mul (cc_genesis_time (vw_config a)) (to_u64 1000))) MILLISECONDS_PER_SLOT).
  assert (Hslot : u64_val slot = clock_slot (cc_genesis_time (vw_config a)) timestamp_ms ∧ u64_val slot < 2 ^ 63).
  { assert (Hms : u64_val MILLISECONDS_PER_SLOT = 4000) by (by vm_compute). assert (Hk : u64_val (to_u64 1000) = 1000) by (by vm_compute).
    unfold slot, u64_div, clock_slot. rewrite Hms, saturating_sub_val. unfold wrapping_mul. rewrite to_u64_val, Hk. clear -Hts. lia. }
  assert (Hlim : ∀ n : N, n <= HISTORICAL_ROOTS_LIMIT → n < 2 ^ 63) by (intros n; unfold HISTORICAL_ROOTS_LIMIT; lia).
  set (calls := [UpdateCurrentSlot slot; UpdateSafeTargetSlot (header_slot sst); UpdateHeadSlot (header_slot hst)]).
  assert (Hok : Forall call_ok calls).
  { repeat constructor; [apply Hslot|by apply Hlim, (chain_slot a' (vw_safe_target a'))|by apply Hlim, (chain_slot a' (vw_head a'))]. }
  destruct (run_calls_updates (E := E) calls Hok mt (board_of (mt_registry mt)) Hmt) as (mt' & [] & Hcalls & Hmt' & [Hv _] & _); [done|].
  exists b', a', mt', hst, sst. split_and!; [|done|done| |done| |done|].
  - unfold run_calls, calls in Hcalls. cbn [foldM perform] in Hcalls. apply bind_Done in Hcalls as (mt1 & [] & Hcur & Hcalls).
    apply bind_Done in Hcalls as (mt2 & [] & Hsafe2 & Hcalls). apply bind_Done in Hcalls as (mt3 & [] & Hhead3 & [= ->]).
    unfold observed_tick, on_first, on_second. rewrite run_bind, run_gets. cbn [fst snd]. rewrite run_bind. cbn [fst snd].
    unfold tick_start_metrics. rewrite run_bind, run_lift_partial, (store_config_refines _ a) by done. cbv zeta. fold slot.
    rewrite run_bind, run_lift_partial, Hread. destruct (st_validators st); [done|]. rewrite run_bind, Hcur, run_ret. cbn [fst snd].
    rewrite run_bind. cbn [fst snd]. rewrite Hrun. cbn [fst snd]. rewrite run_bind, run_gets. cbn [fst snd].
    unfold tick_end_metrics. rewrite run_bind, run_lift_partial, Hsafe, run_bind, Hsafe2, run_bind, run_lift_partial, Hh. by rewrite Hhead3.
  - rewrite Hv, <- (proj1 Hslot). reflexivity.
  - rewrite Hv. reflexivity.
  - rewrite Hv. reflexivity.
Qed.
End blockchain.

(** * A reference registry

    A list of names, with functions for the values. *)

Record SampleRegistry := mk_sample_registry {
  sr_names : list string;
  sr_value : string → list Text → Z;
  sr_count : string → N;
}.

Definition sample_value (r : SampleRegistry) (n : string) (l : list Text) : Z := if decide (n ∈ sr_names r) then sr_value r n l else 0%Z.
Definition sample_change (n : string) (l : list Text) (f : Z → Z) (r : SampleRegistry) : SampleRegistry :=
  mk_sample_registry (sr_names r) (λ m k, if decide ((m, k) = (n, l)) then f (sr_value r n l) else sr_value r m k) (sr_count r).

Definition reference_prometheus : Prometheus := {|
  register := λ r o,
    if opts_valid o && negb (bool_decide (op_name o ∈ sr_names r)) then
      Some (mk_sample_registry (op_name o :: sr_names r) (λ n l, if decide (n = op_name o) then 0%Z else sr_value r n l)
        (λ n, if decide (n = op_name o) then 0 else sr_count r n))
    else None;
  with_label_values := λ r o l, if bool_decide (length l = length (op_labels o)) then Some r else None;
  gauge_set := λ r n l z, sample_change n l (λ _, z) r;
  gauge_add := λ r n l z, sample_change n l (λ x, wrap_i64 (x + z)) r;
  counter_inc_by := λ r n l c, sample_change n l (λ x, wrap_u64 (x + Z.of_N c)) r;
  histogram_observe := λ r n x, mk_sample_registry (sr_names r) (sr_value r) (λ m, if decide (m = n) then sr_count r n + 1 else sr_count r m);
  registered := λ r n, n ∈ sr_names r;
  metric_value := sample_value;
  sample_count := λ r n, if decide (n ∈ sr_names r) then sr_count r n else 0;
|}.

Lemma sample_change_value n l f r m k : n ∈ sr_names r →
  sample_value (sample_change n l f r) m k = (if decide ((m, k) = (n, l)) then f (sample_value r n l) else sample_value r m k).
Proof.
  intros Hn. unfold sample_value, sample_change. cbn [sr_names sr_value]. destruct (decide ((m, k) = (n, l))) as [Heq|Hne]; [|done].
  injection Heq as -> ->. by destruct (decide (n ∈ sr_names r)).
Qed.

Lemma reference_prometheus_laws : @PrometheusLaws reference_prometheus.
Proof.
  assert (Hreg : ∀ r o r', register (Prometheus := reference_prometheus) r o = Some r' →
    r' = mk_sample_registry (op_name o :: sr_names r) (λ n l, if decide (n = op_name o) then 0%Z else sr_value r n l)
        (λ n, if decide (n = op_name o) then 0 else sr_count r n)).
  { intros r o r'. cbn. destruct (_ && _); [by intros [= <-]|done]. }
  assert (Hlab : ∀ r o l r', with_label_values (Prometheus := reference_prometheus) r o l = Some r' → r' = r).
  { intros r o l r'. cbn. case_bool_decide; [by intros [= ->]|done]. }
  split; cbn [registered metric_value sample_count reference_prometheus register with_label_values gauge_set gauge_add counter_inc_by histogram_observe]; try done.
  - intros r o -> Hn. rewrite bool_decide_eq_false_2 by done. by eexists.
  - intros r o r' n ->%Hreg. cbn. apply elem_of_cons.
  - intros r o r' n l ->%Hreg. unfold sample_value. cbn [sr_names sr_value]. destruct (decide (n = op_name o)) as [->|Hn].
    + by rewrite decide_True by left.
    + destruct (decide (n ∈ sr_names r)); [by rewrite decide_True by (by right)|]. rewrite decide_False; [done|]. by intros [?|?]%elem_of_cons.
  - intros r o r' n ->%Hreg. cbn [sr_names sr_count]. destruct (decide (n = op_name o)) as [->|Hn].
    + by rewrite decide_True by left.
    + destruct (decide (n ∈ sr_names r)); [by rewrite decide_True by (by right)|]. rewrite decide_False; [done|]. by intros [?|?]%elem_of_cons.
  - intros r n l Hn. unfold sample_value. by rewrite decide_False.
  - intros r n Hn. by rewrite decide_False.
  - intros r o l _ Hl. by rewrite bool_decide_eq_true_2.
  - by intros r o l r' n ->%Hlab.
  - by intros r o l r' n k ->%Hlab.
  - by intros r o l r' n ->%Hlab.
  - intros. by apply sample_change_value.
  - intros. by apply (sample_change_value n l (λ x, wrap_i64 (x + z))).
  - intros. by apply (sample_change_value n l (λ x, wrap_u64 (x + Z.of_N c))).
  - intros r n x m Hn. cbn [sr_names sr_count]. destruct (decide (m = n)) as [->|]; [by destruct (decide (n ∈ sr_names r))|done].
Qed.

(** * Concrete metrics *)

Module MetricsSample.
Import ChainSample ServerSample P2PSample.

#[local] Existing Instances reference_ssz_types reference_ssz_types_laws reference_codecs reference_codecs_laws
  reference_hashing reference_hashing_laws reference_scheme reference_scheme_laws reference_multisig
  reference_multisig_laws reference_order canonical_order_laws in_memory_backend in_memory_laws seen_ok ranked
  reference_snappy reference_snappy_laws reference_wire reference_wire_laws sample_libp2p sample_libraries sample_libraries_laws
  reference_prometheus reference_prometheus_laws.

Definition empty_registry : @Registry reference_prometheus := mk_sample_registry [] (λ _ _, 0%Z) (λ _, 0).
Definition no_metrics : Metrics := mk_metrics empty_registry ∅.

Lemma no_metrics_ok : metrics_ok no_metrics.
Proof. intros m _. split; [by intros ?%elem_of_nil|by intros ?%elem_of_empty]. Qed.

Definition sample_names : gmap (@PeerId sample_libp2p) Text := {[ peer 4 := text "alice" ]}.
Definition sample_calls : list (Call (LP := sample_libp2p)) :=
  [UpdateHeadSlot (to_u64 7); IncAttestationsValid; Timed SlotsProcessing 5 8; UpdateHeadSlot (to_u64 9); IncAttestationsValid;
   IncFinalizations "success"; UpdateTableBytes "states" (to_u64 (2 ^ 64 - 1));
   NotifyPeerConnected sample_names (Some (peer 4)) "inbound" "success"; NotifyPeerConnected sample_names None "outbound" "error"].

Lemma metrics_refine_board_witness : ∃ mt,
  (start_metrics (E := unit) (text "v1") 1700000000 (to_u64 1) true (to_u64 0);; run_calls sample_calls) no_metrics = Done mt tt ∧
  metric_value (mt_registry mt) "lean_head_slot" [] = 9%Z ∧ metric_value (mt_registry mt) "lean_attestations_valid_total" [] = 2%Z ∧
  metric_value (mt_registry mt) "lean_table_bytes" [text "states"] = (-1)%Z ∧
  metric_value (mt_registry mt) "lean_connected_peers" [text "alice"] = 1%Z ∧
  metric_value (mt_registry mt) "lean_connected_peers" [text "unknown"] = 0%Z ∧
  sample_count (mt_registry mt) "lean_state_transition_slots_processing_time_seconds" = 1 ∧
  registered (mt_registry mt) "lean_fork_choice_reorgs_total".
Proof.
  destruct (metrics_refine_board (E := unit) empty_registry (text "v1") 1700000000 (to_u64 1) true (to_u64 0) sample_calls)
    as (mt & Hrun & [Hv Hc] & _ & Hreg & _).
  - by intros m _ ?%elem_of_nil.
  - done.
  - constructor; [by vm_compute|]. do 2 (constructor; [done|]). constructor; [by vm_compute|]. repeat (constructor; [done|]). constructor.
  - exists mt. split; [exact Hrun|]. rewrite !Hv, !Hc. split_and!; [by vm_compute..|].
    apply (Hreg LEAN_FORK_CHOICE_REORGS_TOTAL). unfold blockchain_metrics, ALL_METRICS. cbn [take]. repeat first [left | right].
Defined.

(** Two peers connect, one of them twice, and the other leaves. *)
Definition sample_inputs : list (Env * P2PInput) :=
  [(P2PSample.env 0 (Some 1), WrappedSwarmEvent (ConnectionEstablished (peer 4) true 1));
   (P2PSample.env 0 (Some 2), WrappedSwarmEvent (ConnectionEstablished (peer 5) false 1));
   (P2PSample.env 0 None, WrappedSwarmEvent (ConnectionEstablished (peer 4) false 2));
   (P2PSample.env 0 None, WrappedSwarmEvent (OutgoingConnectionError (Some (peer 6)) "Timed out"));
   (P2PSample.env 0 None, WrappedSwarmEvent (ConnectionClosed (peer 5) false 0 (Some "KeepAlive")))].

Lemma connected_peers_gauge_witness : ∃ s' mt',
  observed_run (E := unit) sample_names sample_inputs (P2PSample.node, no_metrics) = Done (s', mt') tt ∧
  metric_value (mt_registry mt') "lean_connected_peers" [text "alice"] =
    wrap_i64 (Z.of_nat (size (filter (λ p, resolve sample_names (Some p) = text "alice") (ps_connected_peers s')))).
Proof.
  destruct (connected_peers_gauge (E := unit) sample_names P2PSample.node start_view no_metrics sample_inputs)
    as (s' & mt' & Hrun & Hg).
  - exact (proj1 node_ok).
  - exact (proj2 node_ok).
  - done.
  - repeat (constructor; [done|]). constructor.
  - exact no_metrics_ok.
  - done.
  - vm_compute. by repeat split.
  - exists s', mt'. split; [exact Hrun|]. apply Hg.
Defined.

(** The import of block 1 by a node without keys. *)
Lemma import_gauges_witness : ∃ b' a' mt',
  observed_process_block (λ _ _, to_u64 100) (signed1 vote1) (actor [], no_metrics) = Done (b', mt') tt ∧
  is_Some (vw_states a' !! root1) ∧ metric_value (mt_registry mt') "lean_table_bytes" [text "states"] = 100%Z.
Proof.
  destruct (import_gauges seen 0 (λ _ _, to_u64 100) (actor []) start_view (signed1 vote1) no_metrics (actor_core []) signed1_seen no_metrics_ok)
    as [(_ & Hno & _)|(b' & a' & mt' & Hrun & _ & Hin & _ & Hsh)].
  - by vm_compute.
  - destruct Hno. eexists. exact block1_valid.
  - exists b', a', mt'. split; [exact Hrun|]. split; [exact Hin|]. etrans; [exact (is_tables _ _ _ _ Hsh States)|by vm_compute].
Defined.
End MetricsSample.
